(* ===== verification/_CoqProject ===== *)
-Q . S2P
Prelude.v
Decimal.v
DmpDiff.v
DmpPatch.v
DmpText.v
DmpApply.v
DmpSplit.v
DmpMake.v
DmpCleanup.v
DmpGraph.v
DmpBisect.v
DmpLines.v
DmpMain.v
DmpRoundtrip.v
Crypto.v
Base64.v
LruCache.v
FileSystem.v
KvStore.v
StorePaths.v
Db.v
ModuleManager.v
FFStore.v
DbManager.v
Concurrent.v
Json.v
JsonWriter.v
JsonReader.v
JsonText.v
RpcManager.v
JsonRpc.v
Protocol.v
RpcServer.v
Blockstore.v
Program.v
Wire.v
Storage.v
Daemon.v
Utilities.v
Sql.v
SqlDb.v
SqlTables.v
SqlStore.v
SqlKv.v
SqlObjects.v
