(* ===== verification/Prelude.v ===== *)
(** * The anarchNet daemon: a verification development

    anarchNet (src/src) is a daemon that keeps objects and files on the local
    disk and offers them to other programs as JSON-RPC methods.  This library
    models the daemon from the bytes a connection has received down to the
    files its storage plugins write, and proves what each layer promises to
    the one above it.

    ** The program's parts, and the files that model them

    A request enters through rpc_server.cc (connection::handle_read), is read
    by boost/json (reader_template.hpp), checked and dispatched by
    third-party/jsonrpc/src/jsonrpc_handler.cpp, answered by a handler of
    rpc_manager.cc, and its reply written by boost/json
    (writer_template.hpp).  Handlers for objects call
    DBManager (db_manager.cc), which keeps an object (db.h, db.cc: a text with
    the patches that lead to it) as one value of a key-value store; handlers
    for keys and files call ModuleManager (module_manager.cc), whose signals
    are answered by the storage plugins, flatfilestorage/ffstore.cc for keys and
    blockstore/blockstore.cc for files.  daemon.cc and main.cc start all this
    from the configuration of config_manager.cc.

    - Prelude.v: byte strings, machine integers, outcomes of a call (a value,
      an exception, undefined behaviour), the state and exception monad [M]
      and its tactic [run].
    - Decimal.v: printing and reading of decimal numbers, white space.
    - DmpDiff.v, DmpPatch.v (third-party/diff_match_patch-stl, as db.cc and
      db_manager.cc instantiate it): diffs and their cleanups; patches, their
      text and their application.  DmpText.v: the text reads back.  DmpApply.v,
      DmpSplit.v, DmpMake.v: patches that fit a text apply to it, padding and
      splitting keep that, and patch_make makes such patches.  DmpCleanup.v:
      the cleanups keep the two texts.  DmpGraph.v, DmpBisect.v: the edit graph
      of two texts, and the search for a place to split them at.  DmpLines.v:
      line mode.  DmpMain.v: diff_main answers with a diff.  DmpRoundtrip.v:
      from two texts to the text of a patch and back.
    - Crypto.v (crypto.cc), Base64.v (third-party/libb64), LruCache.v
      (lru_cache.h), Json.v (third-party/boost/json/value.hpp): the leaves.
    - JsonWriter.v (writer_template.hpp) and JsonReader.v
      (reader_template.hpp, with Boost.Spirit's combinators): values as text.
      JsonText.v: their laws.
    - FileSystem.v: boost::filesystem and file streams as the class
      [FileSystem] with the laws [FsLaws], and [MemFs], an executable instance
      that satisfies them.  StorePaths.v: the directory layouts both stores
      use, and the effect of making directories and writing files on them.
    - KvStore.v: the interface [KvStore] of the key-value calls, the abstract
      store [KvSpec] and the contract [KvLaws] between the two.
    - FFStore.v (ffstore.cc), Blockstore.v (blockstore.cc): the two plugins.
    - ModuleManager.v (module_manager.cc, plugins/localstorage.h): plugins,
      signals, and the laws a signal inherits from its only slot.
    - Db.v (db.h, db.cc), DbManager.v (db_manager.cc): the object database.
    - Concurrent.v: the handler that replaces an object's text as the sequence
      of its calls of the store, and several of them interleaved on the pool.
    - RpcManager.v (rpc_manager.cc): every handler.  JsonRpc.v
      (jsonrpc_handler.cpp): dispatch and batches.  Protocol.v: what a client's
      text means to the connection.  RpcServer.v (rpc_server.h, rpc_server.cc):
      the server as a step relation over the operations of its io_service.
    - Program.v: the plugins, the module manager and the handlers put
      together over one file system.
    - Wire.v: the type of the replies, and requests to that program from text to
      text.
    - Storage.v (storage.cc): the file objects behind the FUSE mount.
    - Daemon.v (config_manager.cc, plugin_manager.cc, net_manager.cc,
      singleton.h, daemon.cc, main.cc): start, stop and exit codes.
    - Utilities.v (logger.cc, file_logger.cc, hostlist.cc, pdb_updater.cc).
    - The store over SQL (modules/localstorage/sqlstore), a third plugin that is
      not built.  Sql.v: LiteSQL as the class [LiteSql] with the laws
      [LiteSqlLaws], and [Mem], an executable instance.  SqlDb.v (sqldb.h,
      sqldb.cc): the persistent classes, their relations and the schema.
      SqlTables.v: what the schema makes, and how queries read rows.  SqlStore.v
      (sqlstore.cc): the store.  SqlKv.v: its start and its keys.
      SqlObjects.v: its diffs, and removing.

    Definitions keep the names of the code; a function that changes state is
    a computation of [M] over the state it can reach, with the code's tests in
    the code's order; out-parameters are arguments and results.

    ** How the theorems fit together

    - The leaves: hexadecimal digits and base64 lose nothing
      ([Crypto.ofHex_toHex], [Base64.decode_encode]) and the coder stays within
      its buffers ([Base64.buffers_suffice]); the cache answers as the cached
      function and keeps the most recent keys ([LruCache.lru_refines]).
    - Refinement: FFStore implements [KvSpec] over any file system with the
      laws ([FFStore.ffstore_refines]); the database over any store with that
      contract is a map of objects ([DBManager.database_simulates]), for
      updates of texts of which a patch is always made ([Db.patchable]).  The
      diffs of its objects are the patches between the texts they have had
      ([DBManager.histories_stay_valid]); an update keeps the revisions of
      before ([DBManager.update_revisions], [DBManager.get_revision_history]).
      Applied again, the patches lead to those texts where the texts are
      [Db.clean]: of ASCII, one of at most 100 characters, with diffs that the
      two defects below leave alone.
    - Patches: diff_main ends and answers with a diff of its texts
      ([DmpMain.diff_main_answers]), diff_bisect stays in the range of its
      vectors and splits its texts into smaller ones
      ([DmpBisect.middle_snake_splits]), the cleanups end and keep it one
      ([DmpCleanup.cleanups_keep_texts]), the patches made of it apply
      ([DmpRoundtrip.made_patches_apply]) and their text reads back
      ([DmpRoundtrip.patches_text_roundtrip]): together,
      [DmpRoundtrip.short_update_replays] and, for the first revision,
      [DBManager.created_revision].  Line mode answers up to 127 different
      lines and is undefined from there on ([DmpMain.line_mode_bound]);
      [DmpRoundtrip.equality_dropped] and [DmpRoundtrip.overlap_misplaced] are
      updates whose patches do not lead to the new text.
    - The signals: every slot is called, one that is true decides
      ([res_check_all]); the iterations stop at the first true answer
      ([first_true_stops]).
    - The whole program: after [ModuleManager::init] in an empty data
      directory the laws hold ([Program.boot_running]); files and objects sent
      through the handlers come back ([Program.file_put_get],
      [RpcManager.object_update_get]), objects also from the bytes of a socket
      ([Wire.create_get_on_the_wire]); each
      registered name reaches its handler
      ([Program.registered_methods_dispatch]).
    - The text: the reader gives back what the writer wrote
      ([JsonText.read_write]) and answers on every text
      ([JsonText.read_answers]); replies have a type that reads back
      ([Replies.reply_type]).
    - The server: a client that waits for its replies gets those of its
      requests in order, in whatever pieces they arrive ([RpcServer.session]);
      a connection has one operation under way at most
      ([RpcServer.one_operation]); accepting ends with the first error
      ([RpcServer.accepts_until_error]) and a connection with the first request
      that has no reply ([RpcServer.no_reply_ends]).
    - Several threads: handlers of different objects do not disturb each other
      ([Concurrent.different_objects_serialise]), handlers of one object do
      ([Concurrent.same_object_races]).
    - The daemon: first start with the default configuration
      ([ConfigManager.init_default]), exit codes ([Main.main_exit_code]), the
      updater's thread and its shutdown under every interleaving
      ([PDB.shutdown_joins]).
    - The store over SQL: the first start makes the tables the classes use
      ([SqlKv.first_start]); the keys are a bag ([SqlKv.sql_kv_refines]), since a
      put does not replace ([SqlKv.put_twice_remove_once]); a removed object
      is gone from its tables and relations and nothing else is
      ([SqlObjects.db_remove_one]); a diff is read back without its predecessors
      ([SqlObjects.new_diff_read_back]) until it is stored again
      ([SqlObjects.stored_again_read_back]).
    - Behaviour that callers must know, where the code does not do what it
      seems to mean: keys used as paths, sizes near a block, names of blocks
      with NULs, answers the file cache keeps, rollbacks followed by updates,
      lines that end the daemon, requests sent without waiting, and the loading
      and writing of mounted files ([FFStore.long_key_escapes], [Blockstore.gap_file_lost],
      [Blockstore.nul_blocks_collapse], [Blockstore.get_file_sticky],
      [DBManager.update_after_rollback],
      [RpcServer.bad_line_terminates], [Storage.load_repeats_first_block] and the
      others like them).

    ** Parameters, and what is assumed of them

    SHA-512 is [Digest]: a digest has 64 bytes; where a theorem needs two
    contents to have two names it says so.  The time a diff may take is
    [Clock]: what [clock() > deadline] answers, call by call; no law is
    assumed of it.  boost.serialization is [Archive]: reading gives back what was written
    ([ArchiveLaw]).  The file system is [FileSystem] with [FsLaws],
    LiteSQL [LiteSql] with [LiteSqlLaws]: tables are lists of rows, an
    inserted object gets an id no row of its tables has, a query answers with
    its rows in any order.  What
    lies behind the first NUL of a buffer that has none is [overread].  The
    lexical parsers of Boost.Spirit are [Spirit] with [SpiritLaws]: a plain
    character and an escape of JSON are taken as such, a real number starts with
    a digit, a sign or a dot and has a dot or an exponent.  How a stream prints a [double], [info_parser], program_options, [split], the
    plugin loader and the network exchange are function arguments.  Each class
    has an instance the witnesses compute with.

    ** Integers, bounds and fuel

    Sizes and counters are integers wrapped where the code's types wrap
    ([uint32], [int32], [uint64]); [char] is signed.  Loops that are not
    structural take fuel: the buffers of base64 take a round per character and
    one more, which [Base64.decode_encode] shows to be enough; the writer of
    mounted files takes a round per byte and one more, since with a positive
    block size every round takes
    at least one byte from the size; [store_loop] takes the number of blocks
    the code computes; the JSON reader takes one level of values and one round
    of each repetition per character and one more, which
    [JsonText.read_answers] shows to be enough.  In the patches,
    diff_cleanupMerge takes as many rounds as the diff weighs (three for a
    character of an edit, one for a diff) and the loops that split equalities
    those of [DmpDiff.rounds], enough by [DmpCleanup.cleanups_keep_texts];
    patch_splitMax and patch_addContext end by [DmpSplit.split_loop_applies]
    and [DmpMake.context_loop_ends]; diff_main takes two levels of calls per
    character and three more, which [DmpMain.diff_main_answers] shows to be
    enough, since every call is on less text or, in line mode, on as many
    characters as there are lines.  Texts of more than 100
    characters with more than 125 line ends are outside of what is shown of
    diff_main: a half match cuts lines into parts that count again, and 128 are
    too many ([DmpMain.line_mode_bound]).  The vectors of diff_bisect are
    [int]s: the lengths of the two texts together, with one more, are below
    2^31 ([DmpMain.int_lengths]), beyond which the search is undefined.

    ** What is not modelled

    Sockets below their events, boost.log below its sinks, the FUSE mount itself; the
    client library, which is commented out; the vendored libraries apart from
    the parts named above.  The handlers of RpcServer.v run one at a time; those
    of Concurrent.v are interleaved between their calls of the store, and a call
    itself, though it makes several file operations, is one step.  sqlstore.cc
    no longer compiles against db.h, where a Diff has one [prev] and
    not the vector that it goes through: in SqlStore.v its type is a parameter
    ([PrevMember]), and the records have the members of db.h
    that the store reads and writes otherwise.  Its theorems are on
    diffs, keys and removing; what is shown of snapshots and objects is that
    an object is read back with its snapshots and these without their diffs
    ([SqlObjects.snapshots_lose_diffs], on one object).

    ** What comes next

    The plugin kernel (third-party/pugg), and the file operations of two calls
    of one store interleaved. *)

From stdpp Require Export base tactics list strings gmap.
From Stdlib Require Export ZArith Lia.
From Stdlib Require Export Ascii.

(** ** Byte strings

    A [std::string], a [char] buffer and the contents of a file are lists of
    8-bit characters.  String literals of the source are written as Rocq
    strings and coerced. *)

Abbreviation bytes := (list ascii).

Definition lit (s : string) : bytes := String.list_ascii_of_string s.
Coercion lit : string >-> list.

(** [unsigned char] value, [char] value (signed, as on the x86 targets of the
    build) and conversion of an integer to [char] (modulo 256). *)
Definition uchar (a : ascii) : Z := Z.of_N (N_of_ascii a).
Definition schar (a : ascii) : Z :=
  if (uchar a <? 128)%Z then uchar a else (uchar a - 256)%Z.
Definition char_of_Z (z : Z) : ascii := ascii_of_N (Z.to_N (z mod 256)).

Definition NUL : ascii := ascii_of_N 0.
Definition SLASH : ascii := "/"%char.

(** [uint] arithmetic (32 bits) and [size_t]/[unsigned long] (64 bits). *)
Definition uint32 (z : Z) : Z := (z mod 2 ^ 32)%Z.
Definition uint64 (z : Z) : Z := (z mod 2 ^ 64)%Z.

Definition zlen {A} (l : list A) : Z := Z.of_nat (length l).

(** ** Outcomes of a call

    A C++ call returns, throws, or has undefined behaviour.  [catch] blocks
    see the exceptions but never [Undef]. *)

Inductive exn :=
  | filesystem_error          (* boost::filesystem::filesystem_error *)
  | file_not_found            (* an::file_not_found *)
  | archive_exception         (* boost::archive::archive_exception *)
  | runtime_error             (* std::runtime_error, from json Value::check_type *)
  | out_of_range              (* std::out_of_range *)
  | thrown_int                (* throw 1; *)
  | thrown_string (s : bytes) (* throw _error; *)
  | litesql_except.           (* litesql::Except *)

Inductive outcome (A : Type) :=
  | Ret (a : A)
  | Throw (e : exn)
  | Undef.
Arguments Ret {_} _.
Arguments Throw {_} _.
Arguments Undef {_}.

#[export] Instance exn_eq_dec : EqDecision exn.
Proof. solve_decision. Defined.

(** ** State and exception monad

    [M S A]: a computation over a state [S].  A throw keeps the state reached
    so far: C++ does not roll effects back. *)

Definition M (S A : Type) : Type := S → outcome A * S.

Section monad.
Context {S : Type}.

Definition ret {A} (a : A) : M S A := λ s, (Ret a, s).
Definition throw {A} (e : exn) : M S A := λ s, (Throw e, s).
Definition undef {A} : M S A := λ s, (Undef, s).
Definition bind {A B} (m : M S A) (k : A → M S B) : M S B := λ s,
  match m s with
  | (Ret a, s') => k a s'
  | (Throw e, s') => (Throw e, s')
  | (Undef, s') => (Undef, s')
  end.
Definition get_state : M S S := λ s, (Ret s, s).
Definition gets {A} (f : S → A) : M S A := λ s, (Ret (f s), s).
Definition modify (f : S → S) : M S () := λ s, (Ret tt, f s).

(** [try { m } catch ...]: [h e] is [Some] handler when a [catch] clause
    matches [e]. *)
Definition try_catch {A} (m : M S A) (h : exn → option (M S A)) : M S A := λ s,
  match m s with
  | (Throw e, s') => match h e with Some k => k s' | None => (Throw e, s') end
  | r => r
  end.

Definition lift_outcome {A} (o : outcome A) : M S A := λ s, (o, s).
End monad.

(** Run a computation over a part [S] of a larger state [W]. *)
Definition zoom {W S A} (get : W → S) (set : S → W → W) (m : M S A) : M W A := λ w,
  let '(o, s) := m (get w) in (o, set s w).

Declare Scope prog_scope.
Delimit Scope prog_scope with prog.
Notation "'let!' x ':=' m 'in' k" := (bind m (λ x, k))
  (at level 10, x pattern, m at level 100, k at level 200) : prog_scope.
Notation "m ';;;' k" := (bind m (λ _, k))
  (at level 100, k at level 200, right associativity) : prog_scope.
Notation "'if!' b 'then' x 'else' y" := (bind b (λ c : bool, if c then x else y))
  (at level 10, b at level 100, x at level 200, y at level 200) : prog_scope.

Section monad_laws.
Context {S A B C : Type}.
Implicit Types (m : M S A) (k : A → M S B) (l : B → M S C).

Lemma bind_ret (a : A) k s : bind (ret a) k s = k a s.
Proof. done. Qed.

Lemma bind_assoc m k l s : bind (bind m k) l s = bind m (λ a, bind (k a) l) s.
Proof. unfold bind. by destruct (m s) as [[] ?]. Qed.

Lemma bind_run m k s a s' : m s = (Ret a, s') → bind m k s = k a s'.
Proof. unfold bind. by intros ->. Qed.

Lemma bind_throw m k s e s' : m s = (Throw e, s') → bind m k s = (Throw e, s').
Proof. unfold bind. by intros ->. Qed.

Lemma bind_undef m k s s' : m s = (Undef, s') → bind m k s = (Undef, s').
Proof. unfold bind. by intros ->. Qed.

Lemma bind_gets (f : S → A) k s : bind (gets f) k s = k (f s) s.
Proof. done. Qed.

Lemma bind_modify f (l' : () → M S A) s : bind (modify f) l' s = l' tt (f s).
Proof. done. Qed.

Lemma bind_lift_ret (a : A) k s : bind (lift_outcome (Ret a)) k s = k a s.
Proof. done. Qed.

Lemma bind_lift_throw e k s : bind (lift_outcome (Throw e : outcome A)) k s = (Throw e, s).
Proof. done. Qed.

Lemma try_catch_ret m h s a s' : m s = (Ret a, s') → try_catch m h s = (Ret a, s').
Proof. unfold try_catch. by intros ->. Qed.

Lemma bind_inv m k s b s' :
  bind m k s = (Ret b, s') → ∃ a s1, m s = (Ret a, s1) ∧ k a s1 = (Ret b, s').
Proof.
  unfold bind. destruct (m s) as [[a|e|] s1] eqn:E; intros H; simplify_eq; eauto.
Qed.
End monad_laws.


(** [run] performs the calls whose result is known from the context. *)
Ltac run_step :=
  match goal with
  | |- context [bind (ret _) _ _] => rewrite bind_ret
  | |- context [bind (gets _) _ _] => rewrite bind_gets
  | |- context [bind (modify _) _ _] => rewrite bind_modify
  | |- context [bind (lift_outcome (Ret _)) _ _] => rewrite bind_lift_ret
  | |- context [bind (bind _ _) _ _] => rewrite bind_assoc
  | H : ?m ?s = (Ret _, _) |- context [bind ?m _ ?s] => rewrite (bind_run _ _ _ _ _ H)
  | H : ?m ?s = (Throw _, _) |- context [bind ?m _ ?s] => rewrite (bind_throw _ _ _ _ _ H)
  end.
Ltac run := repeat run_step.

(** ** Generic lemmas on byte strings *)

Lemma uchar_range a : (0 ≤ uchar a < 256)%Z.
Proof. unfold uchar. pose proof (N_ascii_bounded a). lia. Qed.

Lemma char_of_Z_uchar a : char_of_Z (uchar a) = a.
Proof.
  unfold char_of_Z. rewrite Z.mod_small by apply uchar_range.
  unfold uchar. rewrite N2Z.id. apply ascii_N_embedding.
Qed.

Lemma uchar_char_of_Z z : (0 ≤ z < 256)%Z → uchar (char_of_Z z) = z.
Proof.
  intros Hz. unfold uchar, char_of_Z. rewrite Z.mod_small by lia.
  rewrite N_ascii_embedding by lia. lia.
Qed.

Lemma uchar_inj a b : uchar a = uchar b → a = b.
Proof. intros H. by rewrite <-(char_of_Z_uchar a), H, char_of_Z_uchar. Qed.

(** A property of all characters, decided by enumeration. *)
Definition all_chars : bytes := map (λ n, ascii_of_N (N.of_nat n)) (seq 0 256).

Lemma elem_of_all_chars a : a ∈ all_chars.
Proof.
  unfold all_chars. apply list_elem_of_In, in_map_iff.
  exists (N.to_nat (N_of_ascii a)). split.
  - by rewrite N2Nat.id, ascii_N_embedding.
  - apply in_seq. pose proof (N_ascii_bounded a). lia.
Qed.

Lemma forall_chars (P : ascii → bool) : forallb P all_chars = true → ∀ a, P a = true.
Proof. intros H a. eapply forallb_forall in H; [done|]. apply list_elem_of_In, elem_of_all_chars. Qed.

Lemma forall_chars2 (P : ascii → ascii → bool) :
  forallb (λ a, forallb (P a) all_chars) all_chars = true → ∀ a b, P a b = true.
Proof. intros H a. apply forall_chars. revert a. by apply forall_chars. Qed.

Lemma take_drop_app {A} (l : list A) n m : n ≤ m → take n l ++ drop n (take m l) = take m l.
Proof. intros H. rewrite <-(take_drop n (take m l)) at 2. by rewrite take_take, Nat.min_l. Qed.

Lemma filter_id {A} (P : A → Prop) `{∀ x, Decision (P x)} (l : list A) :
  (∀ x, x ∈ l → P x) → filter P l = l.
Proof.
  induction l as [|x l IH]; intros HP; [done|].
  rewrite filter_cons_True by (apply HP; set_solver). f_equal. set_solver.
Qed.

Lemma NoDup_snoc {A} (l : list A) x : NoDup l → x ∉ l → NoDup (l ++ [x]).
Proof.
  intros Hl Hx. apply NoDup_app. split_and!; [done| |apply NoDup_singleton].
  by intros y Hy ->%list_elem_of_singleton.
Qed.

Lemma elem_of_take_1 {A} n (l : list A) x : x ∈ take n l → x ∈ l.
Proof. intros (i & Hi & _)%elem_of_take. by eapply list_elem_of_lookup_2. Qed.

Lemma elem_of_drop_1 {A} n (l : list A) x : x ∈ drop n l → x ∈ l.
Proof. intros Hx. rewrite <-(take_drop n l). apply elem_of_app. by right. Qed.

Lemma length_not_nil {A} (l : list A) : 0 < length l → l ≠ [].
Proof. by destruct l; simpl; [lia|]. Qed.

Lemma snoc_ne {A} (l : list A) x : l ++ [x] ≠ l.
Proof. intros H%(f_equal length). rewrite length_app in H. simpl in H. lia. Qed.

Lemma pair_eq_split {A B} (x : A * B) a b : x.1 = a → x.2 = b → x = (a, b).
Proof. by destruct x; simpl; intros -> ->. Qed.

(** ** The order of [std::map<std::string, ...>]: lexicographic on unsigned
    characters *)
Fixpoint bytes_leb (a b : bytes) : bool :=
  match a, b with
  | [], _ => true
  | _, [] => false
  | x :: a, y :: b => if (uchar x <? uchar y)%Z then true
                      else if (uchar y <? uchar x)%Z then false else bytes_leb a b
  end.

Fixpoint insert_entry {A} (e : bytes * A) (l : list (bytes * A)) : list (bytes * A) :=
  match l with
  | [] => [e]
  | x :: l => if bytes_leb (fst e) (fst x) then e :: x :: l else x :: insert_entry e l
  end.

(** The entries of a map in the order a [BOOST_FOREACH] visits them. *)
Definition entries {A} (m : gmap bytes A) : list (bytes * A) :=
  foldr insert_entry [] (map_to_list m).

Lemma entries_singleton {A} k (x : A) : entries {[k := x]} = [(k, x)].
Proof. unfold entries. by rewrite map_to_list_singleton. Qed.
