(* ===== verification/Decimal.v ===== *)
(** * Decimal numbers and white space in text

    How the streams print integers, and how the readers of the program
    (atoi, [operator>>], the JSON grammar) read runs of digits and skip white
    space. *)

From S2P Require Import Prelude.
Local Open Scope Z_scope.

(** [std::isspace] in the "C" locale. *)
Definition isspace (c : ascii) : bool :=
  let z := uchar c in (z =? 32) || ((9 <=? z) && (z <=? 13)).

Fixpoint skip_space (s : bytes) : bytes :=
  match s with
  | c :: s' => if isspace c then skip_space s' else s
  | [] => []
  end.

Definition digit (c : ascii) : option Z :=
  let z := uchar c in if (48 <=? z) && (z <=? 57) then Some (z - 48) else None.
Definition is_digit (c : ascii) : bool := match digit c with Some _ => true | None => false end.

(** The value of the digits [s] starts with, after [acc]. *)
Fixpoint number (acc : Z) (s : bytes) : Z :=
  match s with
  | c :: s => match digit c with Some d => number (acc * 10 + d) s | None => acc end
  | [] => acc
  end.

Fixpoint take_digits (s : bytes) : bytes :=
  match s with
  | c :: s' => if is_digit c then c :: take_digits s' else []
  | [] => []
  end.
Fixpoint skip_digits (s : bytes) : bytes :=
  match s with
  | c :: s' => if is_digit c then skip_digits s' else s
  | [] => []
  end.

(** Decimal digits; [fuel] bounds how many. *)
Fixpoint digits (fuel : nat) (z : Z) : bytes :=
  match fuel with
  | O => []
  | S fuel =>
      let d := char_of_Z (48 + z mod 10) in
      if z <? 10 then [d] else digits fuel (z / 10) ++ [d]
  end.

(** [os << z] for an integer of 64 bits: at most 20 digits. *)
Definition print_int (z : Z) : bytes :=
  if z <? 0 then lit "-" ++ digits 20 (- z) else digits 20 z.

(** ** Lemmas *)

Lemma digit_char z : 0 ≤ z < 10 → digit (char_of_Z (48 + z)) = Some z.
Proof.
  intros Hz. unfold digit. rewrite uchar_char_of_Z by lia.
  destruct (Z.leb_spec 48 (48 + z)), (Z.leb_spec (48 + z) 57); try lia. simpl. f_equal. lia.
Qed.

Lemma is_digit_char z : 0 ≤ z < 10 → is_digit (char_of_Z (48 + z)) = true.
Proof. intros Hz. unfold is_digit. by rewrite digit_char. Qed.

Lemma digits_all fuel z : 0 ≤ z → Forall (λ c, is_digit c = true) (digits fuel z).
Proof.
  revert z. induction fuel as [|fuel IH]; intros z Hz; simpl; [constructor|].
  pose proof (Z.mod_pos_bound z 10 ltac:(lia)).
  case_match; [|apply Forall_app_2; [by apply IH, Z.div_pos|]];
    (constructor; [by apply is_digit_char|constructor]).
Qed.

Lemma digits_nonempty fuel z : digits (S fuel) z ≠ [].
Proof. simpl. case_match; [done|]. by intros []%app_eq_nil. Qed.

Lemma number_app acc s t :
  Forall (λ c, is_digit c = true) s → number acc (s ++ t) = number (number acc s) t.
Proof.
  intros Hs. revert acc. induction Hs as [|c s Hc _ IH]; intros acc; [done|]. simpl.
  unfold is_digit in Hc. destruct (digit c); [|done]. apply IH.
Qed.

Lemma number_stop acc s : (∀ c s', s = c :: s' → is_digit c = false) → number acc s = acc.
Proof.
  destruct s as [|c s]; [done|]. intros Hc. specialize (Hc c s eq_refl). unfold is_digit in Hc.
  simpl. by destruct (digit c).
Qed.

Lemma number_digits fuel z : 0 ≤ z < 10 ^ Z.of_nat fuel → number 0 (digits fuel z) = z.
Proof.
  revert z. induction fuel as [|fuel IH]; intros z Hz; [simpl in Hz; simpl; lia|].
  pose proof (Z.mod_pos_bound z 10 ltac:(lia)) as Hm. pose proof (Z.div_mod z 10 ltac:(lia)) as Hd.
  cbn [digits]. destruct (Z.ltb_spec z 10) as [Hlt|Hge].
  - cbn [number]. rewrite digit_char by done. rewrite (Z.mod_small z) by lia. lia.
  - rewrite number_app by (apply digits_all, Z.div_pos; lia).
    rewrite IH; [cbn [number]; rewrite digit_char by done; lia|].
    split; [apply Z.div_pos; lia|]. apply Z.div_lt_upper_bound; [lia|].
    rewrite Nat2Z.inj_succ, Z.pow_succ_r in Hz by lia. lia.
Qed.

Lemma take_digits_app s t :
  Forall (λ c, is_digit c = true) s → (∀ c t', t = c :: t' → is_digit c = false) → take_digits (s ++ t) = s.
Proof.
  intros Hs Ht. induction Hs as [|c s Hc _ IH]; simpl; [|by rewrite Hc, IH].
  destruct t as [|c t]; [done|]. simpl. by rewrite (Ht c t eq_refl).
Qed.

Lemma skip_digits_app s t :
  Forall (λ c, is_digit c = true) s → (∀ c t', t = c :: t' → is_digit c = false) → skip_digits (s ++ t) = t.
Proof.
  intros Hs Ht. induction Hs as [|c s Hc _ IH]; simpl; [|by rewrite Hc].
  destruct t as [|c t]; [done|]. simpl. by rewrite (Ht c t eq_refl).
Qed.

Lemma skip_digits_length s : (length (skip_digits s) ≤ length s)%nat.
Proof. induction s as [|c s IH]; simpl; [done|]. destruct (is_digit c); simpl; lia. Qed.

(** Reading back what was printed, for the integers of 64 bits. *)
Lemma number_print z t :
  0 ≤ z < 2 ^ 64 → (∀ c t', t = c :: t' → is_digit c = false) → number 0 (print_int z ++ t) = z.
Proof.
  intros Hz Ht. unfold print_int. destruct (Z.ltb_spec z 0); [lia|].
  rewrite number_app, number_stop by (done || apply digits_all; lia).
  apply number_digits. split; [lia|]. apply (Z.lt_trans _ (2 ^ 64)); [lia|]. by vm_compute.
Qed.

Lemma skip_space_length s : (length (skip_space s) ≤ length s)%nat.
Proof. induction s as [|c s IH]; simpl; [done|]. destruct (isspace c); simpl; lia. Qed.

Lemma skip_space_idem s : skip_space (skip_space s) = skip_space s.
Proof. induction s as [|c s IH]; simpl; [done|]. destruct (isspace c) eqn:Hc; [done|]. simpl. by rewrite Hc. Qed.
