(* ===== verification/DmpDiff.v ===== *)
(** * diff_match_patch.h, the diffs

    The vendored third-party/diff_match_patch-stl as the daemon instantiates
    it, [diff_match_patch<std::string>]: the data of a diff, [diff_main] with
    its helpers, and the cleanups that [patch_make] runs.  The [int]s of
    diff_bisect have their width: texts whose lengths do not fit are [Undef].
    The positions of the other functions are within one text.  A [std::list] under an iterator is
    what is behind the iterator, reversed, and what is ahead.  A call that does
    not end is [Undef] too: the numbers of rounds are arguments, which
    DmpCleanup.v shows to be enough for the cleanups. *)

From S2P Require Import Prelude Decimal.
Local Open Scope prog_scope.

(** ** std::string *)
Module Str.

(** [pat] is what [s] begins with. *)
Fixpoint starts_with (pat s : bytes) : bool :=
  match pat, s with
  | [], _ => true
  | p :: pat, c :: s => if decide (p = c) then starts_with pat s else false
  | _ :: _, [] => false
  end.

Fixpoint find_at (pat s : bytes) (i : nat) : option nat :=
  if starts_with pat s then Some i
  else match s with [] => None | _ :: s => find_at pat s (S i) end.

(** [s.find(pat, from)]; [None] is [npos]. *)
Definition find (s pat : bytes) (from : nat) : option nat :=
  if from <=? length s then find_at pat (drop from s) from else None.

Fixpoint rfind_at (pat s : bytes) (i last : nat) : option nat :=
  let here := if (i <=? last) && starts_with pat s then Some i else None in
  match s with
  | [] => here
  | _ :: s => match rfind_at pat s (S i) last with Some j => Some j | None => here end
  end.

(** [s.rfind(pat, last)] *)
Definition rfind (s pat : bytes) (last : nat) : option nat := rfind_at pat s 0 last.

(** [right(str, n)] is [str.substr(str.size() - n)], a [size_t]. *)
Definition right (s : bytes) (n : nat) : outcome bytes :=
  if n <=? length s then Ret (drop (length s - n) s) else Throw out_of_range.

Definition isalnum (c : ascii) : bool :=
  let z := uchar c in
  is_digit c || ((65 <=? z) && (z <=? 90))%Z || ((97 <=? z) && (z <=? 122))%Z.
End Str.
Import Str.

Module DmpDiff.

Inductive Operation := DELETE | INSERT | EQUAL.
#[export] Instance Operation_eq_dec : EqDecision Operation.
Proof. solve_decision. Defined.

Record Diff := MkDiff { operation : Operation; text : bytes }.
#[export] Instance Diff_eq_dec : EqDecision Diff.
Proof. solve_decision. Defined.

Abbreviation Diffs := (list Diff).

Definition bind_outcome {A B} (o : outcome A) (k : A → outcome B) : outcome B :=
  match o with Ret a => k a | Throw e => Throw e | Undef => Undef end.

Definition empty (s : bytes) : bool := match s with [] => true | _ => false end.

(** ** The settings, never changed from their defaults *)
Definition Diff_EditCost : nat := 4.
Definition Patch_Margin : Z := 4.
Definition Match_MaxBits : Z := 32.

(** ** Texts of a diff *)
Definition diff_text1 (diffs : Diffs) : bytes :=
  concat (map (λ d, match operation d with INSERT => [] | _ => text d end) diffs).
Definition diff_text2 (diffs : Diffs) : bytes :=
  concat (map (λ d, match operation d with DELETE => [] | _ => text d end) diffs).

Fixpoint levenshtein (diffs : Diffs) (l insertions deletions : nat) : nat :=
  match diffs with
  | [] => l + Nat.max insertions deletions
  | MkDiff INSERT t :: diffs => levenshtein diffs l (insertions + length t) deletions
  | MkDiff DELETE t :: diffs => levenshtein diffs l insertions (deletions + length t)
  | MkDiff EQUAL _ :: diffs => levenshtein diffs (l + Nat.max insertions deletions) 0 0
  end.
Definition diff_levenshtein (diffs : Diffs) : nat := levenshtein diffs 0 0 0.

(** [diff_xIndex] *)
Fixpoint xIndex (diffs : Diffs) (loc chars1 chars2 : Z) : Z :=
  match diffs with
  | [] => chars2 + (loc - chars1)
  | d :: diffs =>
      let n := zlen (text d) in
      let c1 := match operation d with INSERT => chars1 | _ => chars1 + n end in
      let c2 := match operation d with DELETE => chars2 | _ => chars2 + n end in
      if loc <? c1 then
        match operation d with DELETE => chars2 | _ => chars2 + (loc - chars1) end
      else xIndex diffs loc c1 c2
  end%Z.
Definition diff_xIndex (diffs : Diffs) (loc : Z) : Z := xIndex diffs loc 0 0.

(** ** Common parts *)
Fixpoint diff_commonPrefix (text1 text2 : bytes) : nat :=
  match text1, text2 with
  | c1 :: text1, c2 :: text2 => if decide (c1 = c2) then S (diff_commonPrefix text1 text2) else 0
  | _, _ => 0
  end.

(** The same from the ends. *)
Definition diff_commonSuffix (text1 text2 : bytes) : nat := diff_commonPrefix (rev text1) (rev text2).

(** The loop of [diff_commonOverlap]; [length] grows in every round.  It
    compares the ends of both texts where it has found the pattern further
    in. *)
Fixpoint overlap_loop (n : nat) (text1 text2 : bytes) (best len : nat) : outcome nat :=
  match n with
  | O => Undef
  | S n =>
      bind_outcome (right text1 len) (λ pattern,
      match find text2 pattern 0 with
      | None => Ret best
      | Some O => overlap_loop n text1 text2 len (S len)
      | Some found =>
          let len := len + found in
          bind_outcome (right text1 len) (λ end1,
          bind_outcome (right text2 len) (λ end2,
          if decide (end1 = end2) then overlap_loop n text1 text2 len (S len)
          else overlap_loop n text1 text2 best len))
      end)
  end.

Definition diff_commonOverlap (text1 text2 : bytes) : outcome nat :=
  if empty text1 || empty text2 then Ret 0
  else
    let n := Nat.min (length text1) (length text2) in
    bind_outcome (right text1 n) (λ text1_trunc,
    let text2_trunc := take n text2 in
    if decide (text1_trunc = text2_trunc) then Ret n
    else overlap_loop (S n) text1_trunc text2_trunc 0 1).

(** *** Half matches *)
Record HalfMatchResult := HalfMatch {
  text1_a : bytes; text1_b : bytes; text2_a : bytes; text2_b : bytes; mid_common : bytes }.

(** The loop of [diff_halfMatchI] over the places [j] of the seed. *)
Fixpoint halfMatch_loop (n : nat) (longtext shorttext seed : bytes) (i from : nat)
    (best : HalfMatchResult) : HalfMatchResult :=
  match n, find shorttext seed from with
  | S n, Some j =>
      let prefixLength := diff_commonPrefix (drop i longtext) (drop j shorttext) in
      let suffixLength := diff_commonSuffix (take i longtext) (take j shorttext) in
      let best :=
        if length (mid_common best) <? suffixLength + prefixLength then
          HalfMatch (take (i - suffixLength) longtext) (drop (i + prefixLength) longtext)
            (take (j - suffixLength) shorttext) (drop (j + prefixLength) shorttext)
            (take suffixLength (drop (j - suffixLength) shorttext) ++ take prefixLength (drop j shorttext))
        else best in
      halfMatch_loop n longtext shorttext seed i (S j) best
  | _, _ => best
  end.

Definition diff_halfMatchI (longtext shorttext : bytes) (i : nat) : bool * HalfMatchResult :=
  let seed := take (length longtext / 4) (drop i longtext) in
  let best := halfMatch_loop (S (length shorttext)) longtext shorttext seed i 0 (HalfMatch [] [] [] [] []) in
  (length longtext <=? length (mid_common best) * 2, best).

Definition diff_halfMatch (text1 text2 : bytes) : option HalfMatchResult :=
  let longer := length text2 <? length text1 in
  let longtext := if longer then text1 else text2 in
  let shorttext := if longer then text2 else text1 in
  if (length longtext <? 4) || (length shorttext * 2 <? length longtext) then None
  else
    let '(hm1, res1) := diff_halfMatchI longtext shorttext ((length longtext + 3) / 4) in
    let '(hm2, res2) := diff_halfMatchI longtext shorttext ((length longtext + 1) / 2) in
    let hm := match hm1, hm2 with
              | false, false => None
              | true, false => Some res1
              | false, true => Some res2
              | true, true =>
                  Some (if length (mid_common res2) <? length (mid_common res1) then res1 else res2)
              end in
    match hm with
    | None => None
    | Some (HalfMatch a1 b1 a2 b2 m) =>
        Some (if longer then HalfMatch a1 b1 a2 b2 m else HalfMatch a2 b2 a1 b1 m)
    end.

(** ** diff_cleanupMerge *)

(** The common prefix and suffix of the texts of a block of edits go to the
    equality before it (or a new one at the start) and to the one after it,
    of text [t]. *)
Definition factor_prefix (done : Diffs) (text_delete text_insert : bytes) : outcome (Diffs * bytes * bytes) :=
  let commonlength := diff_commonPrefix text_insert text_delete in
  if decide (commonlength = 0) then Ret (done, text_delete, text_insert)
  else
    let common := take commonlength text_insert in
    let rest := (drop commonlength text_delete, drop commonlength text_insert) in
    match done with
    | [] => Ret ([MkDiff EQUAL common], fst rest, snd rest)
    | MkDiff EQUAL t :: done => Ret (MkDiff EQUAL (t ++ common) :: done, fst rest, snd rest)
    | _ => Throw (thrown_string (lit "Previous diff should have been an equality."))
    end.

Definition factor_suffix (text_delete text_insert t : bytes) : bytes * bytes * bytes :=
  let commonlength := diff_commonSuffix text_insert text_delete in
  (take (length text_delete - commonlength) text_delete,
   take (length text_insert - commonlength) text_insert,
   drop (length text_insert - commonlength) text_insert ++ t).

Definition push_edit (op : Operation) (t : bytes) (done : Diffs) : Diffs :=
  if empty t then done else MkDiff op t :: done.

(** The first pass; [prevEqual] says that the pointer is not null, and it
    then points to the first of [done]. *)
Fixpoint merge_pass (done : Diffs) (count_delete count_insert : nat) (text_delete text_insert : bytes)
    (prevEqual : bool) (rest : Diffs) : outcome Diffs :=
  match rest with
  | [] => Ret (rev done)
  | MkDiff INSERT t :: rest =>
      merge_pass (MkDiff INSERT t :: done) count_delete (S count_insert) text_delete (text_insert ++ t) false rest
  | MkDiff DELETE t :: rest =>
      merge_pass (MkDiff DELETE t :: done) (S count_delete) count_insert (text_delete ++ t) text_insert false rest
  | MkDiff EQUAL t :: rest =>
      if 1 <? count_delete + count_insert then
        let done := drop (count_delete + count_insert) done in
        if decide (count_delete ≠ 0 ∧ count_insert ≠ 0) then
          bind_outcome (factor_prefix done text_delete text_insert) (λ '(done, text_delete, text_insert),
          let '(text_delete, text_insert, t) := factor_suffix text_delete text_insert t in
          merge_pass (MkDiff EQUAL t :: push_edit INSERT text_insert (push_edit DELETE text_delete done))
            0 0 [] [] true rest)
        else
          merge_pass (MkDiff EQUAL t :: push_edit INSERT text_insert (push_edit DELETE text_delete done))
            0 0 [] [] true rest
      else if prevEqual then
        match done with
        | prev :: done => merge_pass (MkDiff (operation prev) (text prev ++ t) :: done) 0 0 [] [] true rest
        | [] => Undef
        end
      else merge_pass (MkDiff EQUAL t :: done) 0 0 [] [] true rest
  end.

(** [diffs.back().text.empty()], [pop_back] *)
Definition pop_empty (diffs : Diffs) : outcome Diffs :=
  match last diffs with
  | None => Undef
  | Some d => Ret (if empty (text d) then removelast diffs else diffs)
  end.

(** [str] ends with [t]: the [compare] of its last characters. *)
Definition ends_with (str t : bytes) : bool :=
  (length t <=? length str) && bool_decide (drop (length str - length t) str = t).

(** The second pass, over [prev_diff], [cur_diff] and [next_diff ::  rest]:
    the diffs, and whether there were changes. *)
Fixpoint shift_pass (done : Diffs) (prev cur : Diff) (rest : Diffs) (changes : bool) : Diffs * bool :=
  match rest with
  | [] => (rev done ++ [prev; cur], changes)
  | next :: rest =>
      if decide (operation prev = EQUAL ∧ operation next = EQUAL) then
        if ends_with (text cur) (text prev) then
          let cur := MkDiff (operation cur) (text prev ++ take (length (text cur) - length (text prev)) (text cur)) in
          let next := MkDiff EQUAL (text prev ++ text next) in
          match rest with
          | [] => (rev done ++ [cur; next], true)
          | c :: rest => shift_pass (cur :: done) next c rest true
          end
        else if starts_with (text next) (text cur) then
          let prev := MkDiff EQUAL (text prev ++ text next) in
          let cur := MkDiff (operation cur) (drop (length (text next)) (text cur) ++ text next) in
          match rest with
          | [] => (rev done ++ [prev; cur], true)
          | c :: rest => shift_pass (prev :: done) cur c rest true
          end
        else shift_pass (prev :: done) cur next rest changes
      else shift_pass (prev :: done) cur next rest changes
  end.

Definition shift_sweep (diffs : Diffs) : Diffs * bool :=
  match diffs with
  | prev :: cur :: rest => shift_pass [] prev cur rest false
  | _ => (diffs, false)
  end.

Fixpoint cleanupMerge_n (n : nat) (diffs : Diffs) : outcome Diffs :=
  match n with
  | O => Undef
  | S n =>
      bind_outcome (merge_pass [] 0 0 [] [] false (diffs ++ [MkDiff EQUAL []])) (λ diffs,
      bind_outcome (pop_empty diffs) (λ diffs,
      match shift_sweep diffs with
      | (diffs, true) => cleanupMerge_n n diffs
      | (diffs, false) => Ret diffs
      end))
  end.

(** The number of characters in edits. *)
Definition edit_length (diffs : Diffs) : nat :=
  list_sum (map (λ d, match operation d with EQUAL => 0 | _ => length (text d) end) diffs).

Definition diff_cleanupMerge (diffs : Diffs) : outcome Diffs :=
  cleanupMerge_n (S (3 * edit_length diffs + length diffs)) diffs.

(** ** diff_cleanupSemanticLossless *)
Definition is_control (c : ascii) : bool := (uchar c =? 10)%Z || (uchar c =? 13)%Z.
Definition is_char (z : Z) (c : option ascii) : bool :=
  match c with Some c => (uchar c =? z)%Z | None => false end.

(** [one] ends in a blank line; [rev one] is given. *)
Definition blank_end (one : bytes) : bool :=
  is_char 10 (one !! 0) && (is_char 10 (one !! 1) || (is_char 13 (one !! 1) && is_char 10 (one !! 2))).

(** [two] begins with one: "\r?\n\r?\n". *)
Definition skip_cr (s : bytes) : bytes :=
  match s with c :: s' => if (uchar c =? 13)%Z then s' else s | [] => [] end.
Definition blank_start (two : bytes) : bool :=
  match skip_cr two with
  | c :: s => (uchar c =? 10)%Z && is_char 10 (skip_cr s !! 0)
  | [] => false
  end.

Definition diff_cleanupSemanticScore (one two : bytes) : nat :=
  match rev one, two with
  | c1 :: _, c2 :: _ =>
      if isalnum c1 && isalnum c2 then 0
      else if negb (isspace c1 || isspace c2) then 1
      else if negb (is_control c1 || is_control c2) then 2
      else if blank_end (rev one) || blank_start two then 4 else 3
  | _, _ => 10
  end.

(** The second loop: step right, character by character; the best place so
    far is of [bestScore]. *)
Fixpoint step_right (equality1 edit equality2 : bytes) (bestScore : nat)
    (best : bytes * bytes * bytes) : bytes * bytes * bytes :=
  match edit, equality2 with
  | c :: edit', c2 :: equality2 =>
      if decide (c = c2) then
        let equality1 := equality1 ++ [c] in
        let edit := edit' ++ [c2] in
        let score := diff_cleanupSemanticScore equality1 edit + diff_cleanupSemanticScore edit equality2 in
        if bestScore <=? score then step_right equality1 edit equality2 score (equality1, edit, equality2)
        else step_right equality1 edit equality2 bestScore best
      else best
  | _, _ => best
  end.

(** Where a single edit goes: first as far left as possible. *)
Definition shift_edit (equality1 edit equality2 : bytes) : bytes * bytes * bytes :=
  let commonOffset := diff_commonSuffix equality1 edit in
  let commonString := drop (length edit - commonOffset) edit in
  let equality1 := take (length equality1 - commonOffset) equality1 in
  let edit := commonString ++ take (length edit - commonOffset) edit in
  let equality2 := commonString ++ equality2 in
  step_right equality1 edit equality2
    (diff_cleanupSemanticScore equality1 edit + diff_cleanupSemanticScore edit equality2)
    (equality1, edit, equality2).

(** When both equalities are used up, [cur_diff = prev_diff] is an iterator
    that has been erased. *)
Fixpoint lossless_pass (done : Diffs) (prev cur : Diff) (rest : Diffs) : outcome Diffs :=
  match rest with
  | [] => Ret (rev done ++ [prev; cur])
  | next :: rest =>
      if decide (operation prev = EQUAL ∧ operation next = EQUAL) then
        let '(bestEquality1, bestEdit, bestEquality2) := shift_edit (text prev) (text cur) (text next) in
        if decide (text prev ≠ bestEquality1) then
          let prev := MkDiff EQUAL bestEquality1 in
          let cur := MkDiff (operation cur) bestEdit in
          let next := MkDiff EQUAL bestEquality2 in
          match empty bestEquality1, empty bestEquality2 with
          | false, false => lossless_pass (prev :: done) cur next rest
          | true, false => lossless_pass done cur next rest
          | false, true => lossless_pass done prev cur rest
          | true, true => Undef
          end
        else lossless_pass (prev :: done) cur next rest
      else lossless_pass (prev :: done) cur next rest
  end.

Definition diff_cleanupSemanticLossless (diffs : Diffs) : outcome Diffs :=
  match diffs with
  | prev :: cur :: rest => lossless_pass [] prev cur rest
  | _ => Ret diffs
  end.

(** ** diff_cleanupSemantic *)

(** The equality [cur_diff = equalities.back()] becomes an insertion, with the
    deletion of [lastequality] inserted before it.  An iterator is the number
    of diffs before it; those left in [equalities] are before this one. *)
Definition split_equality (i : nat) (lastequality : bytes) (diffs : Diffs) : outcome Diffs :=
  match diffs !! i with
  | Some d => Ret (take i diffs ++ MkDiff DELETE lastequality :: MkDiff INSERT (text d) :: drop (S i) diffs)
  | None => Undef
  end.

(** The state of the first loop; [equalities] is the stack, from its back. *)
Record semantic := Semantic {
  equalities : list nat;
  lastequality : bytes;
  length_insertions1 : nat; length_deletions1 : nat;
  length_insertions2 : nat; length_deletions2 : nat;
}.

(** The counters after the edit [d]. *)
Definition count_edit (d : Diff) (s : semantic) : semantic :=
  let n := length (text d) in
  match operation d with
  | INSERT => Semantic (equalities s) (lastequality s) (length_insertions1 s) (length_deletions1 s)
                (length_insertions2 s + n) (length_deletions2 s)
  | _ => Semantic (equalities s) (lastequality s) (length_insertions1 s) (length_deletions1 s)
           (length_insertions2 s) (length_deletions2 s + n)
  end.

Definition trivial_equality (s : semantic) : bool :=
  negb (empty (lastequality s)) &&
  (length (lastequality s) <=? Nat.max (length_insertions1 s) (length_deletions1 s)) &&
  (length (lastequality s) <=? Nat.max (length_insertions2 s) (length_deletions2 s)).

Fixpoint semantic_loop (n : nat) (diffs : Diffs) (cur : nat) (s : semantic) (changes : bool) :
    outcome (Diffs * bool) :=
  match n with
  | O => Undef
  | S n =>
      match diffs !! cur with
      | None => Ret (diffs, changes)
      | Some (MkDiff EQUAL t) =>
          semantic_loop n diffs (S cur)
            (Semantic (cur :: equalities s) t (length_insertions2 s) (length_deletions2 s) 0 0) changes
      | Some d =>
          let s := count_edit d s in
          if trivial_equality s then
            match equalities s with
            | [] => Undef
            | i :: equalities =>
                bind_outcome (split_equality i (lastequality s) diffs) (λ diffs,
                let equalities := tail equalities in
                let s := Semantic equalities [] 0 0 0 0 in
                match equalities with
                | [] => semantic_loop n diffs 0 s true
                | j :: _ => semantic_loop n diffs (S j) s true
                end)
            end
          else semantic_loop n diffs (S cur) s changes
      end
  end.

Definition count_equal (diffs : Diffs) : nat := length (filter (λ d, operation d = EQUAL) diffs).

(** A split turns an equality into two edits, so that the number [k] of
    diffs and equalities stays; every other round moves on. *)
Definition rounds (diffs : Diffs) : nat :=
  let k := length diffs + count_equal diffs in S (count_equal diffs * S k + k).

(** The last loop: an overlap of a deletion and the insertion after it. *)
Fixpoint overlaps (prev : Diff) (rest : Diffs) : outcome Diffs :=
  match rest with
  | [] => Ret [prev]
  | cur :: rest =>
      if decide (operation prev = DELETE ∧ operation cur = INSERT) then
        bind_outcome (diff_commonOverlap (text prev) (text cur)) (λ overlap_length,
        let here :=
          if decide (overlap_length = 0) then [prev; cur]
          else [MkDiff DELETE (take (length (text prev) - overlap_length) (text prev));
                MkDiff EQUAL (take overlap_length (text cur));
                MkDiff INSERT (drop overlap_length (text cur))] in
        match rest with
        | [] => Ret here
        | next :: rest => bind_outcome (overlaps next rest) (λ l, Ret (here ++ l))
        end)
      else bind_outcome (overlaps cur rest) (λ l, Ret (prev :: l))
  end.

(** The steps before the last loop. *)
Definition before_overlaps (diffs : Diffs) : outcome Diffs :=
  bind_outcome (semantic_loop (rounds diffs) diffs 0 (Semantic [] [] 0 0 0 0) false) (λ '(diffs, changes),
  bind_outcome (if changes : bool then diff_cleanupMerge diffs else Ret diffs) diff_cleanupSemanticLossless).

Definition diff_cleanupSemantic (diffs : Diffs) : outcome Diffs :=
  if decide (diffs = []) then Ret diffs
  else bind_outcome (before_overlaps diffs) (λ diffs, match diffs with [] => Ret [] | d :: diffs => overlaps d diffs end).

(** ** diff_cleanupEfficiency *)
Record efficiency := Efficiency {
  e_equalities : list nat;
  e_lastequality : bytes;
  pre_ins : bool; pre_del : bool; post_ins : bool; post_del : bool;
}.

Definition mark_edit (d : Diff) (s : efficiency) : efficiency :=
  match operation d with
  | DELETE => Efficiency (e_equalities s) (e_lastequality s) (pre_ins s) (pre_del s) (post_ins s) true
  | _ => Efficiency (e_equalities s) (e_lastequality s) (pre_ins s) (pre_del s) true (post_del s)
  end.

Definition to_split (s : efficiency) : bool :=
  negb (empty (e_lastequality s)) &&
  ((pre_ins s && pre_del s && post_ins s && post_del s) ||
   ((length (e_lastequality s) <? Diff_EditCost / 2) &&
    (Nat.b2n (pre_ins s) + Nat.b2n (pre_del s) + Nat.b2n (post_ins s) + Nat.b2n (post_del s) =? 3))).

Fixpoint efficiency_loop (n : nat) (diffs : Diffs) (cur : nat) (s : efficiency) (changes : bool) :
    outcome (Diffs * bool) :=
  match n with
  | O => Undef
  | S n =>
      match diffs !! cur with
      | None => Ret (diffs, changes)
      | Some (MkDiff EQUAL t) =>
          let s :=
            if (length t <? Diff_EditCost) && (post_ins s || post_del s)
            then Efficiency (cur :: e_equalities s) t (post_ins s) (post_del s) false false
            else Efficiency [] [] (pre_ins s) (pre_del s) false false in
          efficiency_loop n diffs (S cur) s changes
      | Some d =>
          let s := mark_edit d s in
          if to_split s then
            match e_equalities s with
            | [] => Undef
            | i :: equalities =>
                bind_outcome (split_equality i (e_lastequality s) diffs) (λ diffs,
                if pre_ins s && pre_del s then
                  efficiency_loop n diffs (S (S i)) (Efficiency [] [] (pre_ins s) (pre_del s) true true) true
                else
                  let equalities := tail equalities in
                  let s := Efficiency equalities [] (pre_ins s) (pre_del s) false false in
                  match equalities with
                  | [] => efficiency_loop n diffs 0 s true
                  | j :: _ => efficiency_loop n diffs (S j) s true
                  end)
            end
          else efficiency_loop n diffs (S cur) s changes
      end
  end.

Definition diff_cleanupEfficiency (diffs : Diffs) : outcome Diffs :=
  if decide (diffs = []) then Ret diffs
  else
    bind_outcome (efficiency_loop (rounds diffs) diffs 0 (Efficiency [] [] false false false false) false)
      (λ '(diffs, changes), if changes : bool then diff_cleanupMerge diffs else Ret diffs).

(** ** diff_bisect

    The [std::vector<int>] of the furthest reaching points; an index out of
    range is undefined. *)
Definition vec_get (v : list Z) (i : Z) : outcome Z :=
  if (i <? 0)%Z then Undef else match v !! Z.to_nat i with Some x => Ret x | None => Undef end.
Definition vec_set (v : list Z) (i x : Z) : outcome (list Z) :=
  if (0 <=? i)%Z && (i <? zlen v)%Z then Ret (<[Z.to_nat i := x]> v) else Undef.

(** The [while] along the diagonal: how far [x] moves. *)
Definition slide (text1 text2 : bytes) (x y : Z) : outcome Z :=
  if (x <? zlen text1)%Z && (y <? zlen text2)%Z then
    if (0 <=? x)%Z && (0 <=? y)%Z
    then Ret (Z.of_nat (diff_commonPrefix (drop (Z.to_nat x) text1) (drop (Z.to_nat y) text2)))
    else Undef
  else Ret 0%Z.

(** One step of a path on the diagonal [k]: the new [x], and [v] with it.  The
    reverse path is the same on the reversed texts. *)
Definition walk (text1 text2 : bytes) (v_offset d k : Z) (v : list Z) : outcome (Z * list Z) :=
  let k_offset := (v_offset + k)%Z in
  let from_above := vec_get v (k_offset + 1) in
  let from_left := bind_outcome (vec_get v (k_offset - 1)) (λ x, Ret (x + 1)%Z) in
  bind_outcome
    (if (k =? - d)%Z then from_above
     else if (k =? d)%Z then from_left
     else bind_outcome (vec_get v (k_offset - 1)) (λ l,
          bind_outcome (vec_get v (k_offset + 1)) (λ a, Ret (if (l <? a)%Z then a else l + 1)%Z)))
    (λ x, bind_outcome (slide text1 text2 x (x - k)%Z) (λ n,
    let x := (x + n)%Z in
    bind_outcome (vec_set v k_offset x) (λ v, Ret (x, v)))).

Inductive path :=
  | Overlap (x y : Z)
  | Walked (v : list Z) (kstart kend : Z).

(** The entry of the other path's vector, if it is there and not [-1]. *)
Definition other_path (v : list Z) (i : Z) : option Z :=
  if (0 <=? i)%Z && (i <? zlen v)%Z then
    match v !! Z.to_nat i with Some x => if (x =? -1)%Z then None else Some x | None => None end
  else None.

(** The loop over [k] of one path, by [v_offset] and what meets the other path
    on a diagonal; [n] bounds its rounds: [k] grows to at most [d]. *)
Section path.
Context (text1 text2 : bytes) (v_offset : Z) (meets : Z → Z → option (Z * Z)).

Fixpoint path_loop (n : nat) (d k : Z) (v : list Z) (kstart kend : Z) : outcome path :=
  match n with
  | O => Undef
  | S n =>
      if (d - kend <? k)%Z then Ret (Walked v kstart kend)
      else
        bind_outcome (walk text1 text2 v_offset d k v) (λ '(x, v),
        let next := path_loop n d (k + 2) v in
        if (zlen text1 <? x)%Z then next kstart (kend + 2)%Z
        else if (zlen text2 <? x - k)%Z then next (kstart + 2)%Z kend
        else match meets k x with Some (x, y) => Ret (Overlap x y) | None => next kstart kend end)
  end.
End path.

Section bisect.
Context (text1 text2 : bytes).
Let text1_length := zlen text1.
Let text2_length := zlen text2.
Let max_d := ((text1_length + text2_length + 1) / 2)%Z.
Let v_offset := max_d.
Let delta := (text1_length - text2_length)%Z.
Let front := negb (delta mod 2 =? 0)%Z.

(** Where the front path, at [x1] on the diagonal [k1], meets the reverse one. *)
Definition front_meets (v2 : list Z) (k1 x1 : Z) : option (Z * Z) :=
  if front then
    match other_path v2 (v_offset + delta - k1) with
    | Some x2 => if (text1_length - x2 <=? x1)%Z then Some (x1, x1 - k1)%Z else None
    | None => None
    end
  else None.
Definition front_path (n : nat) (d k1 : Z) (v2 v1 : list Z) (k1start k1end : Z) : outcome path :=
  path_loop text1 text2 v_offset (front_meets v2) n d k1 v1 k1start k1end.

Definition reverse_meets (v1 : list Z) (k2 x2 : Z) : option (Z * Z) :=
  if front then None
  else
    let k1_offset := (v_offset + delta - k2)%Z in
    match other_path v1 k1_offset with
    | Some x1 => if (text1_length - x2 <=? x1)%Z then Some (x1, v_offset + x1 - k1_offset)%Z else None
    | None => None
    end.
Definition reverse_path (n : nat) (d k2 : Z) (v1 v2 : list Z) (k2start k2end : Z) : outcome path :=
  path_loop (rev text1) (rev text2) v_offset (reverse_meets v1) n d k2 v2 k2start k2end.

(** What the clock has answered, by the questions still to come: whether the
    deadline is past. *)
Definition late : M (list bool) bool := λ c,
  match c with [] => (Ret false, []) | b :: c => (Ret b, c) end.

(** The loop over [d]: the middle snake, if there is one in time. *)
Fixpoint bisect_loop (n : nat) (d : Z) (v1 v2 : list Z) (k1start k1end k2start k2end : Z) :
    M (list bool) (option (Z * Z)) :=
  match n with
  | O => ret None
  | S n =>
      if! late then ret None
      else
        let! p1 := lift_outcome (front_path (Z.to_nat d + 2) d (- d + k1start) v2 v1 k1start k1end) in
        match p1 with
        | Overlap x y => ret (Some (x, y))
        | Walked v1 k1start k1end =>
            let! p2 := lift_outcome (reverse_path (Z.to_nat d + 2) d (- d + k2start) v1 v2 k2start k2end) in
            match p2 with
            | Overlap x y => ret (Some (x, y))
            | Walked v2 k2start k2end =>
                bisect_loop n (d + 1) v1 v2 k1start k1end k2start k2end
            end
        end
  end.

(** The lengths and their sum are [int]s: an overflow is undefined, and a
    length that no [int] holds is taken as undefined too. *)
Definition middle_snake : M (list bool) (option (Z * Z)) :=
  if (2 ^ 31 <=? text1_length + text2_length + 1)%Z then undef else
  let v := replicate (Z.to_nat (2 * max_d)) (-1)%Z in
  let! v := lift_outcome (vec_set v (v_offset + 1) 0) in
  bisect_loop (Z.to_nat max_d) 0 v v 0 0 0 0.
End bisect.

(** [safeMid(str, pos)], [safeMid(str, pos, len)]: a position out of range
    throws, as in [substr]; a negative length is a large one. *)
Definition safeMid (s : bytes) (pos : Z) : outcome bytes :=
  if (0 <=? pos)%Z && (pos <=? zlen s)%Z then Ret (drop (Z.to_nat pos) s) else Throw out_of_range.
Definition safeMid_len (s : bytes) (pos len : Z) : outcome bytes :=
  if (pos =? zlen s)%Z then Ret []
  else bind_outcome (safeMid s pos) (λ s, Ret (if (len <? 0)%Z then s else take (Z.to_nat len) s)).
(** [str.substr(0, n)] *)
Definition left (s : bytes) (n : Z) : bytes := if (n <? 0)%Z then s else take (Z.to_nat n) s.

(** The functions that call each other are closed over [diff_main]. *)
Section calls.
Context (diff_main : bytes → bytes → bool → M (list bool) Diffs).

Definition diff_bisectSplit (text1 text2 : bytes) (x y : Z) : M (list bool) Diffs :=
  let! text1b := lift_outcome (safeMid text1 x) in
  let! text2b := lift_outcome (safeMid text2 y) in
  let! diffs := diff_main (left text1 x) (left text2 y) false in
  let! diffs_b := diff_main text1b text2b false in
  ret (diffs ++ diffs_b).

Definition diff_bisect (text1 text2 : bytes) : M (list bool) Diffs :=
  let! snake := middle_snake text1 text2 in
  match snake with
  | Some (x, y) => diff_bisectSplit text1 text2 x y
  | None => ret [MkDiff DELETE text1; MkDiff INSERT text2]
  end.

(** *** Line mode

    [lineHash] is the distinct lines in the order of their numbers, which
    begin at 1; [diff_linesToCharsMunge] puts the number of each line of
    [text] into a [char]. *)
Fixpoint lines (text : bytes) : list bytes :=
  match text with
  | [] => []
  | c :: text =>
      if decide (c = char_of_Z 10) then [c] :: lines text
      else match lines text with [] => [[c]] | l :: ls => (c :: l) :: ls end
  end.

Fixpoint line_number (line : bytes) (lineHash : list bytes) : nat * list bytes :=
  match lineHash with
  | [] => (1, [line])
  | l :: lineHash =>
      if decide (l = line) then (1, l :: lineHash)
      else let '(i, lineHash) := line_number line lineHash in (S i, l :: lineHash)
  end.

Fixpoint munge (ls : list bytes) (lineHash : list bytes) : bytes * list bytes :=
  match ls with
  | [] => ([], lineHash)
  | l :: ls =>
      let '(i, lineHash) := line_number l lineHash in
      let '(chars, lineHash) := munge ls lineHash in
      (char_of_Z (Z.of_nat i) :: chars, lineHash)
  end.

(** The two texts as characters, and the array of lines. *)
Definition diff_linesToChars (text1 text2 : bytes) : bytes * bytes * list bytes :=
  let '(chars1, lineHash) := munge (lines text1) [] in
  let '(chars2, lineHash) := munge (lines text2) lineHash in
  (chars1, chars2, [] :: lineHash).

(** [lineArray[static_cast<size_t>(text[y])]]: a [char] of 128 and more is
    negative, and out of range. *)
Fixpoint chars_to_text (lineArray : list bytes) (s : bytes) : outcome bytes :=
  match s with
  | [] => Ret []
  | c :: s =>
      match (if (schar c <? 0)%Z then None else lineArray !! Z.to_nat (schar c)) with
      | None => Undef
      | Some line => bind_outcome (chars_to_text lineArray s) (λ text, Ret (line ++ text))
      end
  end.

Fixpoint diff_charsToLines (diffs : Diffs) (lineArray : list bytes) : outcome Diffs :=
  match diffs with
  | [] => Ret []
  | d :: diffs =>
      bind_outcome (chars_to_text lineArray (text d)) (λ t,
      bind_outcome (diff_charsToLines diffs lineArray) (λ diffs, Ret (MkDiff (operation d) t :: diffs)))
  end.

(** The loop that diffs the replaced blocks again. *)
Fixpoint rediff (done : Diffs) (count_delete count_insert : nat) (text_delete text_insert : bytes)
    (rest : Diffs) : M (list bool) Diffs :=
  match rest with
  | [] => ret (rev done)
  | MkDiff INSERT t :: rest =>
      rediff (MkDiff INSERT t :: done) count_delete (S count_insert) text_delete (text_insert ++ t) rest
  | MkDiff DELETE t :: rest =>
      rediff (MkDiff DELETE t :: done) (S count_delete) count_insert (text_delete ++ t) text_insert rest
  | MkDiff EQUAL t :: rest =>
      if (1 <=? count_delete) && (1 <=? count_insert) then
        let! new_diffs := diff_main text_delete text_insert false in
        rediff (MkDiff EQUAL t :: rev new_diffs ++ drop (count_delete + count_insert) done) 0 0 [] [] rest
      else rediff (MkDiff EQUAL t :: done) 0 0 [] [] rest
  end.

Definition diff_lineMode (text1 text2 : bytes) : M (list bool) Diffs :=
  let '(chars1, chars2, linearray) := diff_linesToChars text1 text2 in
  let! diffs := diff_main chars1 chars2 false in
  let! diffs := lift_outcome (diff_charsToLines diffs linearray) in
  let! diffs := lift_outcome (diff_cleanupSemantic diffs) in
  let! diffs := rediff [] 0 0 [] [] (diffs ++ [MkDiff EQUAL []]) in
  ret (removelast diffs).

(** ** diff_compute and diff_main

    [Diff_Timeout] is a second, so that there is a deadline. *)
Definition diff_compute (text1 text2 : bytes) (checklines : bool) : M (list bool) Diffs :=
  if empty text1 then ret [MkDiff INSERT text2]
  else if empty text2 then ret [MkDiff DELETE text1]
  else
    let longer := length text2 <? length text1 in
    let longtext := if longer then text1 else text2 in
    let shorttext := if longer then text2 else text1 in
    match find longtext shorttext 0 with
    | Some i =>
        let op := if longer then DELETE else INSERT in
        ret [MkDiff op (take i longtext); MkDiff EQUAL shorttext;
             MkDiff op (drop (i + length shorttext) longtext)]
    | None =>
        if length shorttext =? 1 then ret [MkDiff DELETE text1; MkDiff INSERT text2]
        else
          match diff_halfMatch text1 text2 with
          | Some hm =>
              let! diffs := diff_main (text1_a hm) (text2_a hm) checklines in
              let! diffs_b := diff_main (text1_b hm) (text2_b hm) checklines in
              ret (diffs ++ MkDiff EQUAL (mid_common hm) :: diffs_b)
          | None =>
              if checklines && (100 <? length text1) && (100 <? length text2)
              then diff_lineMode text1 text2
              else diff_bisect text1 text2
          end
    end.

Definition equality (t : bytes) : Diffs := if empty t then [] else [MkDiff EQUAL t].

Definition diff_main_step (text1 text2 : bytes) (checklines : bool) : M (list bool) Diffs :=
  if decide (text1 = text2) then ret (equality text1)
  else
    let commonlength := diff_commonPrefix text1 text2 in
    let commonprefix := take commonlength text1 in
    let textChopped1 := drop commonlength text1 in
    let textChopped2 := drop commonlength text2 in
    let commonlength := diff_commonSuffix textChopped1 textChopped2 in
    let commonsuffix := drop (length textChopped1 - commonlength) textChopped1 in
    let! diffs :=
      diff_compute (take (length textChopped1 - commonlength) textChopped1)
        (take (length textChopped2 - commonlength) textChopped2) checklines in
    lift_outcome (diff_cleanupMerge (equality commonprefix ++ diffs ++ equality commonsuffix)).
End calls.

Fixpoint diff_main_n (n : nat) (text1 text2 : bytes) (checklines : bool) : M (list bool) Diffs :=
  match n with
  | O => undef
  | S n => diff_main_step (diff_main_n n) text1 text2 checklines
  end.

(** A call is on shorter texts, or of a line diff, which calls no other: so
    deep the calls go. *)
Definition diff_main (text1 text2 : bytes) (checklines : bool) : M (list bool) Diffs :=
  diff_main_n (2 * (length text1 + length text2) + 3) text1 text2 checklines.

End DmpDiff.
