(* ===== verification/DmpPatch.v ===== *)
(** * diff_match_patch.h, the patches

    Making patches from diffs, their text ([patch_toText], [patch_fromText]),
    the fuzzy match and [patch_apply].  Positions and lengths are [int]s below
    2^31 and may be negative; what [substr] throws is written out.  The floats of the
    scores are IEEE single precision, as on the 64-bit x86 targets. *)

From Stdlib Require Import SpecFloat.
From S2P Require Import Prelude Decimal DmpDiff.
Local Open Scope prog_scope.
Import DmpDiff.Str DmpDiff.DmpDiff.

Module DmpPatch.

Record Patch := MkPatch { diffs : Diffs; start1 : Z; start2 : Z; length1 : Z; length2 : Z }.
Abbreviation Patches := (list Patch).

Definition Patch_new : Patch := MkPatch [] 0 0 0 0.

Definition bind_outcome := @DmpDiff.bind_outcome.
Arguments bind_outcome {_ _} _ _.

(** ** Making patches *)

(** The loop of [patch_addContext]: the padding with which [pattern], around
    [start2], is unique in the text, or long. *)
Fixpoint context_loop (n : nat) (s : bytes) (st len padding : Z) (pattern : bytes) : outcome Z :=
  match n with
  | O => Undef
  | S n =>
      if decide (find s pattern 0 ≠ rfind s pattern (length s)) then
        if (zlen pattern <? Match_MaxBits - Patch_Margin - Patch_Margin)%Z then
          let padding := (padding + Patch_Margin)%Z in
          let from := Z.max 0 (st - padding) in
          bind_outcome (safeMid_len s from (Z.min (zlen s) (st + len + padding) - from)) (λ pattern,
          context_loop n s st len padding pattern)
        else Ret padding
      else Ret padding
  end.

Definition patch_addContext (patch : Patch) (s : bytes) : outcome Patch :=
  if empty s then Ret patch
  else
    let st := start2 patch in
    let len := length1 patch in
    bind_outcome (safeMid_len s st len) (λ pattern,
    bind_outcome (context_loop 8 s st len 0 pattern) (λ padding,
    let padding := (padding + Patch_Margin)%Z in
    let from := Z.max 0 (st - padding) in
    bind_outcome (safeMid_len s from (st - from)) (λ prefix,
    bind_outcome (safeMid_len s (st + len) (Z.min (zlen s) (st + len + padding) - (st + len))) (λ suffix,
    let n := (zlen prefix + zlen suffix)%Z in
    Ret (MkPatch (equality prefix ++ diffs patch ++ equality suffix)
           (start1 patch - zlen prefix) (start2 patch - zlen prefix)
           (length1 patch + n) (length2 patch + n)))))).

(** The loop of [patch_make(text1, diffs)], its variables in order; [back] is
    the last of all diffs, with which a small equality is compared. *)
Record making := Making {
  patches : Patches; patch : Patch; char_count1 : Z; char_count2 : Z;
  prepatch_text : bytes; postpatch_text : bytes }.

Definition flush (m : making) : outcome making :=
  bind_outcome (patch_addContext (patch m) (prepatch_text m)) (λ p,
  Ret (Making (patches m ++ [p]) Patch_new (char_count2 m) (char_count2 m)
         (postpatch_text m) (postpatch_text m))).

Definition make_step (back d : Diff) (m : making) : outcome making :=
  let n := zlen (text d) in
  let p := patch m in
  let p := if decide (diffs p = [] ∧ operation d ≠ EQUAL)
           then MkPatch [] (char_count1 m) (char_count2 m) (length1 p) (length2 p) else p in
  match operation d with
  | INSERT =>
      bind_outcome (safeMid (postpatch_text m) (char_count2 m)) (λ rest,
      Ret (Making (patches m)
             (MkPatch (diffs p ++ [d]) (start1 p) (start2 p) (length1 p) (length2 p + n))
             (char_count1 m) (char_count2 m + n) (prepatch_text m)
             (left (postpatch_text m) (char_count2 m) ++ text d ++ rest)))
  | DELETE =>
      bind_outcome (safeMid (postpatch_text m) (char_count2 m + n)) (λ rest,
      Ret (Making (patches m)
             (MkPatch (diffs p ++ [d]) (start1 p) (start2 p) (length1 p + n) (length2 p))
             (char_count1 m + n) (char_count2 m) (prepatch_text m)
             (left (postpatch_text m) (char_count2 m) ++ rest)))
  | EQUAL =>
      let p := if decide ((n ≤ 2 * Patch_Margin)%Z ∧ diffs p ≠ [] ∧ d ≠ back)
               then MkPatch (diffs p ++ [d]) (start1 p) (start2 p) (length1 p + n) (length2 p + n) else p in
      let m := Making (patches m) p (char_count1 m) (char_count2 m) (prepatch_text m) (postpatch_text m) in
      bind_outcome (if decide ((2 * Patch_Margin ≤ n)%Z ∧ diffs p ≠ []) then flush m else Ret m) (λ m,
      Ret (Making (patches m) (patch m) (char_count1 m + n) (char_count2 m + n)
             (prepatch_text m) (postpatch_text m)))
  end.

Fixpoint make_loop (back : Diff) (l : Diffs) (m : making) : outcome making :=
  match l with
  | [] => Ret m
  | d :: l => bind_outcome (make_step back d m) (make_loop back l)
  end.

(** [patch_make(text1, diffs)] *)
Definition patch_make_diffs (text1 : bytes) (l : Diffs) : outcome Patches :=
  match last l with
  | None => Ret []
  | Some back =>
      bind_outcome (make_loop back l (Making [] Patch_new 0 0 text1 text1)) (λ m,
      if decide (diffs (patch m) = []) then Ret (patches m)
      else bind_outcome (flush m) (λ m, Ret (patches m)))
  end.

(** The diffs [patch_make(text1, text2)] makes its patches of. *)
Definition patch_diffs (text1 text2 : bytes) : M (list bool) Diffs :=
  let! l := diff_main text1 text2 true in
  if 2 <? length l
  then lift_outcome (bind_outcome (diff_cleanupSemantic l) diff_cleanupEfficiency)
  else ret l.

Definition patch_make (text1 text2 : bytes) : M (list bool) Patches :=
  let! l := patch_diffs text1 text2 in lift_outcome (patch_make_diffs text1 l).

(** ** The text of patches *)

(** [to_string]: an [int] has at most 10 digits. *)
Definition to_string (n : Z) : bytes :=
  if (n <? 0)%Z then lit "-" ++ digits 10 (- n) else digits 10 n.

(** [safe_chars] is a C array, so that its NUL is safe as well. *)
Definition safe_chars : bytes :=
  lit "0123456789ABCDEFGHIJKLMNOPQRSTUVWXYZabcdefghijklmnopqrstuvwxyz-_.~ !*'();/?:@&=+$,#" ++ [NUL].
Definition safe (c : ascii) : bool := bool_decide (c ∈ safe_chars).

(** [u = *i++]: a [char] becomes an [unsigned] with its sign. *)
Definition to_utf32 (c : ascii) : Z := uint32 (schar c).

Definition encoded_length (c : ascii) : nat :=
  let u := to_utf32 c in
  if (65536 <=? u)%Z then 12 else if (2048 <=? u)%Z then 9 else if (128 <=? u)%Z then 6
  else if safe (char_of_Z u) then 1 else 3.

Definition utf8 (u : Z) : bytes :=
  (map char_of_Z
    (if u <? 128 then [u]
     else if u <? 2048 then [Z.lor (Z.shiftr u 6) 192; Z.lor (Z.land u 63) 128]
     else if u <? 65536 then
       [Z.lor (Z.shiftr u 12) 224; Z.lor (Z.land (Z.shiftr u 6) 63) 128; Z.lor (Z.land u 63) 128]
     else
       [Z.lor (Z.shiftr u 18) 240; Z.lor (Z.land (Z.shiftr u 12) 63) 128;
        Z.lor (Z.land (Z.shiftr u 6) 63) 128; Z.lor (Z.land u 63) 128]))%Z.

Definition hex_char (z : Z) : ascii := nth (Z.to_nat z) safe_chars NUL.
Definition escape (c : ascii) : bytes :=
  if safe c then [c]
  else [char_of_Z 37; hex_char (Z.shiftr (Z.land (uchar c) 240) 4); hex_char (Z.land (uchar c) 15)].

Definition percent_encoded (s : bytes) : bytes :=
  if decide (list_sum (map encoded_length s) = length s) then s
  else concat (map (λ c, concat (map escape (utf8 (to_utf32 c)))) s).

(** The coordinates of a side in the header of a patch. *)
Definition coords (start len : Z) : bytes :=
  if (len =? 0)%Z then to_string start ++ lit ",0"
  else if (len =? 1)%Z then to_string (start + 1)
  else to_string (start + 1) ++ lit "," ++ to_string len.

Definition NL : ascii := char_of_Z 10.
Definition sign (op : Operation) : ascii :=
  match op with INSERT => "+" | DELETE => "-" | EQUAL => " " end%char.

Definition diff_toString (d : Diff) : bytes := sign (operation d) :: percent_encoded (text d) ++ [NL].

(** [Patch::toString] *)
Definition toString (p : Patch) : bytes :=
  lit "@@ -" ++ coords (start1 p) (length1 p) ++ lit " +" ++ coords (start2 p) (length2 p) ++ lit " @@" ++ [NL] ++
  concat (map diff_toString (diffs p)).

Definition patch_toText (l : Patches) : bytes := concat (map toString l).

(** *** Reading it back *)
Definition hex_digit_value (c : ascii) : outcome Z :=
  let z := uchar c in
  (if (48 <=? z) && (z <=? 57) then Ret (z - 48)
   else if (65 <=? z) && (z <=? 70) then Ret (z - 55)
   else if (97 <=? z) && (z <=? 102) then Ret (z - 87)
   else Throw (thrown_string (lit "Invalid character: " ++ [c])))%Z.

(** The first loop of [percent_decode].  After a [%] that ends the text it
    reads past the terminator. *)
Fixpoint unescape (s : bytes) : outcome bytes :=
  match s with
  | [] => Ret []
  | c :: s =>
      if (uchar c =? 37)%Z then
        match s with
        | [] => Undef
        | [d1] => bind_outcome (hex_digit_value d1) (λ _, bind_outcome (hex_digit_value NUL) (λ _, Undef))
        | d1 :: d2 :: s =>
            bind_outcome (hex_digit_value d1) (λ h, bind_outcome (hex_digit_value d2) (λ l,
            bind_outcome (unescape s) (λ s, Ret (char_of_Z (Z.shiftl h 4 + l) :: s))))
        end
      else bind_outcome (unescape s) (λ s, Ret (c :: s))
  end.

(** [++s3 == s2 || ( *s3 & 0xC0) != 0x80]: the next byte, if it continues the
    sequence; in any case what is left from it. *)
Definition continuation (s : bytes) : option Z * bytes :=
  match s with
  | [] => (None, [])
  | c :: _ => if (Z.land (schar c) 192 =? 128)%Z then (Some (Z.land (schar c) 63), s) else (None, s)
  end.

(** The second loop decodes UTF-8, and loses what it cannot decode.  [c] is
    the byte at [s3], [s] what comes after it. *)
Fixpoint utf8_decode (n : nat) (s : bytes) : bytes :=
  match n, s with
  | S n, c :: s =>
      let u := uint32 (schar c) in
      let put u rest := char_of_Z u :: utf8_decode n rest in
      if (u <? 128)%Z then put u s
      else if (Z.shiftr u 5 =? 6)%Z then
        match continuation s with
        | (Some x, _ :: s) => put (Z.shiftl (Z.land u 31) 6 + x)%Z s
        | (_, s) => utf8_decode n s
        end
      else if (Z.shiftr u 4 =? 14)%Z then
        match continuation s with
        | (Some x, _ :: s) =>
            match continuation s with
            | (Some y, _ :: s) => put (Z.shiftl (Z.land u 15) 12 + Z.shiftl x 6 + y)%Z s
            | (_, s) => utf8_decode n s
            end
        | (_, s) => utf8_decode n s
        end
      else if (Z.shiftr u 3 =? 30)%Z then
        match continuation s with
        | (Some x, _ :: s) =>
            match continuation s with
            | (Some y, _ :: s) =>
                match continuation s with
                | (Some z, _ :: s) =>
                    put (Z.shiftl (Z.land u 7) 18 + Z.shiftl x 12 + Z.shiftl y 6 + z)%Z s
                | (_, s) => utf8_decode n s
                end
            | (_, s) => utf8_decode n s
            end
        | (_, s) => utf8_decode n s
        end
      else utf8_decode n s
  | _, _ => []
  end.

Definition percent_decode (s : bytes) : outcome bytes :=
  bind_outcome (unescape s) (λ s, Ret (utf8_decode (length s) s)).

(** [atoi] of digits: undefined when the value is no [int]. *)
Definition to_int (s : bytes) : outcome Z :=
  let z := number 0 s in if (z <? 2 ^ 31)%Z then Ret z else Undef.

(** The digits at [s], at most as long as the [size_t l] lasts. *)
Fixpoint digits_while (l : Z) (s : bytes) : bytes * Z * bytes :=
  match s with
  | c :: s' =>
      if (0 <? l)%Z && is_digit c
      then let '(d, l, r) := digits_while (l - 1) s' in (c :: d, l, r) else ([], l, s)
  | [] => ([], l, s)
  end.

(** The loop of [start2]: [--l >= 0] holds of any [size_t], also when it has
    wrapped around. *)
Fixpoint digits_do (l : Z) (s : bytes) : bytes * Z * bytes :=
  match s with
  | c :: s' =>
      if is_digit c then let '(d, l, r) := digits_do (uint64 (l - 1)) s' in (c :: d, l, r) else ([], l, s)
  | [] => ([], l, s)
  end.

Definition is_char (z : Z) (s : bytes) : bool := DmpDiff.is_char z (head s).
Definition skip_comma (l : Z) (s : bytes) : Z * bytes :=
  if (0 <? l)%Z && is_char 44 s then (l - 1, tail s)%Z else (l, s).

(** The header "@@ -start1,length1 +start2,length2 @@" of [text_len]
    characters at [s]; [None] when the text is not one. *)
Definition header (text_len : Z) (s : bytes) : option (bytes * bytes * bytes * bytes) :=
  let l := uint64 (text_len - 9) in
  let s1 := drop 4 s in
  if (0 <? l)%Z && starts_with (lit "@@ -") s && match s1 with c :: _ => is_digit c | [] => false end then
    let '(st1, l, s1) := digits_while l s1 in
    let '(l, s1) := skip_comma l s1 in
    let '(len1, l, s1) := digits_while l s1 in
    if (0 <? l)%Z && starts_with (lit " +") s1 && match drop 2 s1 with c :: _ => is_digit c | [] => false end then
      let '(st2, l, s2) := digits_do l (drop 2 s1) in
      let '(l, s2) := skip_comma l s2 in
      let '(len2, l, s2) := digits_while l s2 in
      if (l =? 0)%Z && starts_with (lit " @@") s2 then Some (st1, len1, st2, len2) else None
    else None
  else None.

(** [start] and [length] of a side. *)
Definition side (start len : bytes) : outcome (Z * Z) :=
  bind_outcome (to_int start) (λ st,
  match len with
  | [] => Ret (st - 1, 1)%Z
  | [c] => if (uchar c =? 48)%Z then Ret (st, 0%Z)
           else bind_outcome (to_int len) (λ n, Ret (st - 1, n)%Z)
  | _ => bind_outcome (to_int len) (λ n, Ret (st - 1, n)%Z)
  end).

(** [next_token(str, '\n', off)]: the characters before the end of the line. *)
Fixpoint next_token (s : bytes) : nat :=
  match s with c :: s => if decide (c = NL) then 0 else S (next_token s) | [] => 0 end.

(** The lines of a patch: its diffs, and the text from the line of the next
    patch on. *)
Fixpoint read_diffs (n : nat) (s : bytes) : outcome (Diffs * bytes) :=
  match n, s with
  | S n, c :: s' =>
      let text_len := next_token s in
      if text_len =? 0 then read_diffs n s'
      else
        bind_outcome (percent_decode (take (text_len - 1) s')) (λ line,
        let more op := bind_outcome (read_diffs n (drop (S text_len) s))
                         (λ '(l, rest), Ret (MkDiff op line :: l, rest)) in
        match uchar c with
        | 45 => more DELETE
        | 43 => more INSERT
        | 32 => more EQUAL
        | 64 => Ret ([], s)
        | _ => Throw (thrown_string (lit "Invalid patch mode '" ++ [c] ++ lit "' in: " ++ line))
        end%Z)
  | _, _ => Ret ([], s)
  end.

Fixpoint fromText_n (n : nat) (s : bytes) : outcome Patches :=
  match n, s with
  | S n, _ :: s' =>
      let text_len := next_token s in
      if text_len =? 0 then fromText_n n s'
      else
        match header (Z.of_nat text_len) s with
        | None => Throw (thrown_string (lit "Invalid patch string: " ++ take text_len s))
        | Some (st1, len1, st2, len2) =>
            bind_outcome (side st1 len1) (λ '(st1, len1),
            bind_outcome (side st2 len2) (λ '(st2, len2),
            bind_outcome (read_diffs (length s) (drop (S text_len) s)) (λ '(l, rest),
            bind_outcome (fromText_n n rest) (λ ps, Ret (MkPatch l st1 st2 len1 len2 :: ps)))))
        end
  | _, _ => Ret []
  end.

(** [patch_fromText]; every round takes characters from the text. *)
Definition patch_fromText (s : bytes) : outcome Patches := fromText_n (length s) s.

(** ** Matching *)

(** IEEE single precision: a conversion, a division and an addition; the
    [double] a score is returned as has the same value. *)
Definition float := spec_float.
Definition float_of (z : Z) : float := binary_normalize 24 128 z 0 false.
Definition fdiv : float → float → float := SFdiv 24 128.
Definition fadd : float → float → float := SFadd 24 128.
Definition fle (x y : float) : bool := SFleb x y.
Definition flt (x y : float) : bool := SFltb x y.
Definition fmin (x y : float) : float := if flt y x then y else x.

Definition Match_Threshold : float := fdiv (float_of 1) (float_of 2).
Definition Patch_DeleteThreshold : float := Match_Threshold.
Definition Match_Distance : Z := 1000.

Definition match_bitapScore (e x loc : Z) (pattern : bytes) : float :=
  let accuracy := fdiv (float_of e) (float_of (zlen pattern)) in
  let proximity := Z.abs (loc - x) in
  fadd accuracy (fdiv (float_of proximity) (float_of Match_Distance)).

(** The bits of the places of [c] in the pattern; an [int] is its 32 bits. *)
Fixpoint match_alphabet (pattern : bytes) (c : ascii) : Z :=
  match pattern with
  | [] => 0
  | p :: pattern =>
      let s := match_alphabet pattern c in
      if decide (p = c) then Z.lor s (Z.shiftl 1 (zlen pattern)) else s
  end.

(** The binary search for how far from [loc] an error level [d] can stray. *)
Fixpoint stray (n : nat) (ok : Z → bool) (bin_min bin_mid bin_max : Z) : outcome Z :=
  match n with
  | O => Undef
  | S n =>
      if (bin_min <? bin_mid)%Z then
        let bin_min' := if ok bin_mid then bin_mid else bin_min in
        let bin_max' := if ok bin_mid then bin_max else bin_mid in
        stray n ok bin_min' ((bin_max' - bin_min') / 2 + bin_min')%Z bin_max'
      else Ret bin_mid
  end.

(** The [int] array of a level: the entries written.  Reading one that was not
    written, or is outside, is undefined. *)
Abbreviation bits := (gmap Z Z).
Definition read (rd : bits) (j : Z) : outcome Z := match rd !! j with Some x => Ret x | None => Undef end.
Definition shl1 (x : Z) : Z := Z.lor (uint32 (Z.shiftl x 1)) 1.

Section bitap.
Context (s pattern : bytes) (loc : Z).
Let score d x := match_bitapScore d x loc pattern.
Let matchmask := Z.shiftl 1 (zlen pattern - 1).

(** The loop over [j], from [finish] down to [start], at level [d]. *)
Fixpoint level_loop (n : nat) (d j start : Z) (last_rd rd : bits) (best_loc : Z) (score_threshold : float) :
    outcome (bits * Z * float) :=
  match n with
  | O => Undef
  | S n =>
      if (j <? start)%Z then Ret (rd, best_loc, score_threshold)
      else
        let charMatch := match s !! Z.to_nat (j - 1) with Some c => match_alphabet pattern c | None => 0%Z end in
        bind_outcome (read rd (j + 1)) (λ r1,
        bind_outcome
          (if (d =? 0)%Z then Ret (Z.land (shl1 r1) charMatch)
           else bind_outcome (read last_rd (j + 1)) (λ l1, bind_outcome (read last_rd j) (λ l0,
                Ret (Z.lor (Z.lor (Z.land (shl1 r1) charMatch) (shl1 (Z.lor l1 l0))) l1))))
        (λ r,
        let rd := <[j := r]> rd in
        let next start best_loc th := level_loop n d (j - 1) start last_rd rd best_loc th in
        if (Z.land r matchmask =? 0)%Z then next start best_loc score_threshold
        else
          let sc := score d (j - 1)%Z in
          if fle sc score_threshold then
            let best_loc := (j - 1)%Z in
            if (loc <? best_loc)%Z then next (Z.max 1 (2 * loc - best_loc)) best_loc sc
            else Ret (rd, best_loc, sc)
          else next start best_loc score_threshold))
  end.

(** The loop over the levels [d].  After the last one the arrays [rd] and
    [last_rd] would be the same, and deleted twice. *)
Fixpoint bitap_loop (n : nat) (d bin_max : Z) (last_rd : bits) (best_loc : Z) (score_threshold : float) :
    outcome Z :=
  match n with
  | O => Undef
  | S n =>
      let ok bin_mid := fle (score d (loc + bin_mid)%Z) score_threshold in
      bind_outcome (stray (S (Z.to_nat (2 * bin_max + 2))) ok 0 bin_max bin_max) (λ bin_mid,
      let start := Z.max 1 (loc - bin_mid + 1) in
      let finish := (Z.min (loc + bin_mid) (zlen s) + zlen pattern)%Z in
      let rd := {[ (finish + 1)%Z := Z.shiftl 1 d - 1 ]}%Z in
      bind_outcome (level_loop (Z.to_nat finish + 2) d finish start last_rd rd best_loc score_threshold)
        (λ '(rd, best_loc, score_threshold),
      if flt score_threshold (score (d + 1)%Z loc) then Ret best_loc
      else bitap_loop n (d + 1)%Z bin_mid rd best_loc score_threshold))
  end.

(** [match_bitap]; with an empty pattern [rd] is deleted uninitialized. *)
Definition match_bitap : outcome Z :=
  if (Match_MaxBits <? zlen pattern)%Z
  then Throw (thrown_string (lit "Pattern too long for this application."))
  else if empty pattern then Undef
  else
    let th := match find s pattern (Z.to_nat loc) with
              | None => Match_Threshold
              | Some i =>
                  let th := fmin (score 0 (Z.of_nat i)) Match_Threshold in
                  match rfind s pattern (Z.to_nat (loc + zlen pattern)) with
                  | Some i => fmin (score 0 (Z.of_nat i)) th
                  | None => th
                  end
              end in
    bitap_loop (length pattern) 0 (zlen pattern + zlen s) ∅ (-1) th.
End bitap.

Definition match_main (s pattern : bytes) (loc : Z) : outcome Z :=
  let loc := Z.max 0 (Z.min loc (zlen s)) in
  if decide (s = pattern) then Ret 0%Z
  else if empty s then Ret (-1)%Z
  else
    let fuzzy := match_bitap s pattern loc in
    if (loc + zlen pattern <=? zlen s)%Z then
      bind_outcome (safeMid_len s loc (zlen pattern)) (λ here,
      if decide (here = pattern) then Ret loc else fuzzy)
    else fuzzy.

(** ** Applying patches *)
Definition paddingLength : Z := Patch_Margin.
Definition nullPadding : bytes := map char_of_Z [1; 2; 3; 4]%Z.

(** The first patch, given to both halves of [patch_addPadding]: [lastPatch] is
    [patches.front()] as well. *)
Definition pad_front (p : Patch) : Patch :=
  match diffs p with
  | MkDiff EQUAL t :: l =>
      if (zlen t <? paddingLength)%Z then
        let extraLength := (paddingLength - zlen t)%Z in
        MkPatch (MkDiff EQUAL (drop (length t) nullPadding ++ t) :: l)
          (start1 p - extraLength) (start2 p - extraLength) (length1 p + extraLength) (length2 p + extraLength)
      else p
  | _ =>
      MkPatch (MkDiff EQUAL nullPadding :: diffs p) (start1 p - paddingLength) (start2 p - paddingLength)
        (length1 p + paddingLength) (length2 p + paddingLength)
  end.

Definition pad_back (p : Patch) : Patch :=
  match last (diffs p) with
  | Some (MkDiff EQUAL t) =>
      if (zlen t <? paddingLength)%Z then
        let extraLength := (paddingLength - zlen t)%Z in
        MkPatch (removelast (diffs p) ++ [MkDiff EQUAL (t ++ take (Z.to_nat extraLength) nullPadding)])
          (start1 p) (start2 p) (length1 p + extraLength) (length2 p + extraLength)
      else p
  | _ =>
      MkPatch (diffs p ++ [MkDiff EQUAL nullPadding]) (start1 p) (start2 p)
        (length1 p + paddingLength) (length2 p + paddingLength)
  end.

Definition bump (p : Patch) : Patch :=
  MkPatch (diffs p) (start1 p + paddingLength) (start2 p + paddingLength) (length1 p) (length2 p).

Definition patch_addPadding (l : Patches) : outcome Patches :=
  match map bump l with
  | [] => Undef
  | p :: l => Ret (pad_back (pad_front p) :: l)
  end.

(** *** patch_splitMax *)
Definition patch_size : Z := Match_MaxBits.

(** The inner loop: what fits of [big] goes to [patch]; [start1] and [start2]
    are the loop's own positions. *)
Record splitting := Splitting {
  bigpatch : Diffs; piece : Patch; pos1 : Z; pos2 : Z; piece_empty : bool }.

Definition push_diff (d : Diff) (n1 n2 : Z) (p : Patch) : Patch :=
  MkPatch (diffs p ++ [d]) (start1 p) (start2 p) (length1 p + n1) (length2 p + n2).

Definition large_deletion (d : Diff) (p : Patch) : bool :=
  match operation d, diffs p with
  | DELETE, [MkDiff EQUAL _] => (2 * patch_size <? zlen (text d))%Z
  | _, _ => false
  end.

Definition take_step (d : Diff) (big : Diffs) (s : splitting) : splitting :=
  let n := zlen (text d) in
  if decide (operation d = INSERT) then
    Splitting big (push_diff d 0 n (piece s)) (pos1 s) (pos2 s + n) false
  else if large_deletion d (piece s) then
    Splitting big (push_diff d n 0 (piece s)) (pos1 s + n) (pos2 s) false
  else
    let t := take (Z.to_nat (Z.min n (patch_size - length1 (piece s) - Patch_Margin))) (text d) in
    let n := zlen t in
    let big := if decide (t = text d) then big else MkDiff (operation d) (drop (length t) (text d)) :: big in
    match operation d with
    | EQUAL => Splitting big (push_diff (MkDiff EQUAL t) n n (piece s)) (pos1 s + n) (pos2 s + n) (piece_empty s)
    | op => Splitting big (push_diff (MkDiff op t) n 0 (piece s)) (pos1 s + n) (pos2 s) false
    end.

Fixpoint take_loop (n : nat) (s : splitting) : outcome splitting :=
  match n with
  | O => Undef
  | S n =>
      match bigpatch s with
      | d :: big =>
          if (length1 (piece s) <? patch_size - Patch_Margin)%Z then take_loop n (take_step d big s) else Ret s
      | [] => Ret s
      end
  end.

Definition append_context (postcontext : bytes) (p : Patch) : Patch :=
  if empty postcontext then p
  else
    let n := zlen postcontext in
    let l := match last (diffs p) with
             | Some (MkDiff EQUAL t) => removelast (diffs p) ++ [MkDiff EQUAL (t ++ postcontext)]
             | _ => diffs p ++ [MkDiff EQUAL postcontext]
             end in
    MkPatch l (start1 p) (start2 p) (length1 p + n) (length2 p + n).

(** The outer loop, with the context before the next piece.  The length of
    the old [precontext] is used where its new one is computed. *)
Fixpoint split_loop (n : nat) (big : Diffs) (start1 start2 : Z) (precontext : bytes) : outcome Patches :=
  match n with
  | O => Undef
  | S n =>
      if decide (big = []) then Ret []
      else
        let k := zlen precontext in
        let patch := MkPatch (equality precontext) (start1 - k) (start2 - k) k k in
        bind_outcome (take_loop (S (length big + length (diff_text1 big))) (Splitting big patch start1 start2 true)) (λ s,
        bind_outcome (safeMid (diff_text2 (diffs (piece s))) (Z.max 0 (k - Patch_Margin))) (λ precontext,
        let patch := append_context (take (Z.to_nat Patch_Margin) (diff_text1 (bigpatch s))) (piece s) in
        bind_outcome (split_loop n (bigpatch s) (pos1 s) (pos2 s) precontext) (λ l,
        Ret (if piece_empty s then l else patch :: l))))
  end.

(** Every second round at least takes characters or diffs. *)
Definition split_patch (p : Patch) : outcome Patches :=
  if (length1 p <=? patch_size)%Z then Ret [p]
  else split_loop (2 * S (length (diffs p) + length (diff_text1 (diffs p)))) (diffs p) (start1 p) (start2 p) [].

Fixpoint patch_splitMax (l : Patches) : outcome Patches :=
  match l with
  | [] => Ret []
  | p :: l =>
      bind_outcome (split_patch p) (λ ps,
      bind_outcome (patch_splitMax l) (λ qs, Ret (ps ++ qs)))
  end.

(** *** patch_apply *)

(** An imperfect match: the edits at the places the diff [framework] gives. *)
Fixpoint imperfect (framework : Diffs) (l : Diffs) (start_loc index1 : Z) (s : bytes) : outcome bytes :=
  match l with
  | [] => Ret s
  | d :: l =>
      let index2 := diff_xIndex framework index1 in
      match operation d with
      | EQUAL => imperfect framework l start_loc (index1 + zlen (text d)) s
      | INSERT =>
          bind_outcome (safeMid s (start_loc + index2)) (λ rest,
          imperfect framework l start_loc (index1 + zlen (text d))
            (left s (start_loc + index2) ++ text d ++ rest))
      | DELETE =>
          bind_outcome (safeMid s (start_loc + diff_xIndex framework (index1 + zlen (text d)))) (λ rest,
          imperfect framework l start_loc index1 (left s (start_loc + index2) ++ rest))
      end
  end.

(** Where a patch goes: [start_loc] and [end_loc]. *)
Definition locate (s text1 : bytes) (expected_loc : Z) : outcome (Z * Z) :=
  if (Match_MaxBits <? zlen text1)%Z then
    bind_outcome (match_main s (take (Z.to_nat Match_MaxBits) text1) expected_loc) (λ start_loc,
    if (start_loc =? -1)%Z then Ret (-1, -1)%Z
    else
      bind_outcome (right text1 (Z.to_nat Match_MaxBits)) (λ tail1,
      bind_outcome (match_main s tail1 (expected_loc + zlen text1 - Match_MaxBits)) (λ end_loc,
      if ((end_loc =? -1) || (end_loc <=? start_loc))%Z then Ret (-1, end_loc)%Z else Ret (start_loc, end_loc))))
  else bind_outcome (match_main s text1 expected_loc) (λ start_loc, Ret (start_loc, -1)%Z).

(** One patch: the text, the [delta] and whether it was applied. *)
Definition apply_step (p : Patch) (s : bytes) (delta : Z) : M (list bool) (bytes * Z * bool) :=
  let expected_loc := (start2 p + delta)%Z in
  let text1 := diff_text1 (diffs p) in
  let! (start_loc, end_loc) := lift_outcome (locate s text1 expected_loc) in
  if (start_loc =? -1)%Z then ret (s, (delta - (length2 p - length1 p))%Z, false)
  else
    let delta := (start_loc - expected_loc)%Z in
    let! text2 := lift_outcome
      (safeMid_len s start_loc (if (end_loc =? -1)%Z then zlen text1 else end_loc + Match_MaxBits - start_loc)%Z) in
    if decide (text1 = text2) then
      let! rest := lift_outcome (safeMid s (start_loc + zlen text1)) in
      ret (left s start_loc ++ diff_text2 (diffs p) ++ rest, delta, true)
    else
      let! framework := diff_main text1 text2 false in
      if (Match_MaxBits <? zlen text1)%Z &&
         flt Patch_DeleteThreshold (fdiv (float_of (Z.of_nat (diff_levenshtein framework))) (float_of (zlen text1)))
      then ret (s, delta, false)
      else
        let! framework := lift_outcome (diff_cleanupSemanticLossless framework) in
        let! s := lift_outcome (imperfect framework (diffs p) start_loc 0 s) in
        ret (s, delta, true).

Fixpoint apply_loop (l : Patches) (s : bytes) (delta : Z) : M (list bool) (bytes * list bool) :=
  match l with
  | [] => ret (s, [])
  | p :: l =>
      let! (s, delta, result) := apply_step p s delta in
      let! (s, results) := apply_loop l s delta in
      ret (s, result :: results)
  end.

Definition patch_apply (l : Patches) (sourceText : bytes) : M (list bool) (bytes * list bool) :=
  if decide (l = []) then ret (sourceText, [])
  else
    let! l := lift_outcome (patch_addPadding l) in
    let! l := lift_outcome (patch_splitMax l) in
    let! (s, results) := apply_loop l (nullPadding ++ sourceText ++ nullPadding) 0 in
    let! s := lift_outcome (safeMid_len s (zlen nullPadding) (zlen s - 2 * zlen nullPadding)) in
    ret (s, results).

End DmpPatch.
