(* ===== verification/DmpText.v ===== *)
(** * The text of patches

    What [patch_fromText] makes of what [patch_toText] wrote: the patches,
    with every character of 128 and more gone from their texts, since the
    port takes a [char] for a code point and decodes it as UTF-8. *)

From S2P Require Import Prelude Decimal DmpDiff DmpPatch.
Local Open Scope prog_scope.
Import DmpDiff.Str DmpDiff.DmpDiff DmpPatch.DmpPatch.

Module DmpText.

Definition is_ascii (c : ascii) : bool := (uchar c <? 128)%Z.
Definition ascii_part (s : bytes) : bytes := filter (λ c, is_ascii c = true) s.

Lemma ascii_part_app s t : ascii_part (s ++ t) = ascii_part s ++ ascii_part t.
Proof. apply filter_app. Qed.

Lemma ascii_part_id s : Forall (λ c, is_ascii c = true) s → ascii_part s = s.
Proof. intros Hs. apply filter_id. by apply Forall_forall. Qed.

(** ** Percent encoding *)

Definition is_hex (z : Z) (c : ascii) : bool :=
  match hex_digit_value c with Ret h => (h =? z)%Z | _ => false end.

(** What [escape] writes of a character is read back. *)
Lemma unescape_escape c r : unescape (escape c ++ r) = bind_outcome (unescape r) (λ s, Ret (c :: s)).
Proof.
  pose proof (forall_chars (λ c,
    match escape c with
    | [x] => bool_decide (x = c) && negb (uchar x =? 37)%Z
    | [p; d1; d2] =>
        (uchar p =? 37)%Z && is_hex (uchar c / 16) d1 && is_hex (uchar c mod 16) d2
    | _ => false
    end) ltac:(by vm_compute) c) as Hc; cbv beta zeta in Hc.
  destruct (escape c) as [|p [|d1 [|d2 [|]]]]; try done; cbn [app unescape].
  - apply andb_true_iff in Hc as [->%bool_decide_eq_true_1 Hn%negb_true_iff]. by rewrite Hn.
  - apply andb_true_iff in Hc as [[-> H1]%andb_true_iff H2]. unfold is_hex in H1, H2.
    destruct (hex_digit_value d1) as [h| |]; try done. destruct (hex_digit_value d2) as [l| |]; try done.
    apply Z.eqb_eq in H1 as ->, H2 as ->. unfold bind_outcome. cbn [DmpDiff.bind_outcome]. destruct (unescape r); [|done..]. cbn. do 2 f_equal.
    rewrite Z.shiftl_mul_pow2 by done. change (2 ^ 4)%Z with 16%Z.
    rewrite Z.mul_comm, <-Z.div_mod by done. apply char_of_Z_uchar.
Qed.

Lemma unescape_escapes s : unescape (concat (map escape s)) = Ret s.
Proof. induction s as [|c s IH]; [done|]. cbn [map concat]. by rewrite unescape_escape, IH. Qed.

Lemma unescape_safe s : Forall (λ c, safe c = true) s → unescape s = Ret s.
Proof.
  intros Hs. rewrite <-(unescape_escapes s). f_equal.
  induction Hs as [|c s Hc _ IH]; [done|]. cbn [map concat]. unfold escape. rewrite Hc. cbn [app]. by f_equal.
Qed.

(** The second loop keeps the characters below 128 and nothing else: those
    above have their sign, and begin no sequence. *)
Lemma utf8_decode_ascii n s : length s ≤ n → utf8_decode n s = ascii_part s.
Proof.
  revert n. induction s as [|c s IH]; intros [|n] Hn; simpl in Hn; try done; [lia|].
  pose proof (forall_chars (λ c, let u := uint32 (schar c) in
    if is_ascii c then (u <? 128)%Z && bool_decide (char_of_Z u = c)
    else negb ((u <? 128)%Z || (Z.shiftr u 5 =? 6)%Z || (Z.shiftr u 4 =? 14)%Z || (Z.shiftr u 3 =? 30)%Z))
    ltac:(by vm_compute) c) as Hc; cbv beta zeta in Hc.
  cbn [utf8_decode]. unfold ascii_part. rewrite filter_cons.
  destruct (is_ascii c) eqn:Ha.
  - apply andb_true_iff in Hc as [Hu Hd%bool_decide_eq_true_1]. rewrite Hu, Hd. cbn.
    rewrite IH by lia. by destruct (decide _).
  - apply negb_true_iff in Hc. apply orb_false_iff in Hc as [[[Hu H5]%orb_false_iff H4]%orb_false_iff H3].
    rewrite Hu, H5, H4, H3, IH by lia. by destruct (decide _).
Qed.

(** The UTF-8 of a character below 128 is the character; that of another has
    none below 128. *)
Lemma utf8_ascii c : ascii_part (utf8 (to_utf32 c)) = ascii_part [c].
Proof.
  pose proof (forall_chars (λ c, bool_decide (ascii_part (utf8 (to_utf32 c)) = ascii_part [c]))
    ltac:(by vm_compute) c) as Hc. by apply bool_decide_eq_true_1 in Hc.
Qed.

Lemma encoded_length_pos c : 1 ≤ encoded_length c ∧ (encoded_length c = 1 → safe c = true).
Proof.
  pose proof (forall_chars (λ c, (1 <=? encoded_length c) && implb (encoded_length c =? 1) (safe c))
    ltac:(by vm_compute) c) as Hc; cbv beta zeta in Hc. apply andb_true_iff in Hc as [H1%Nat.leb_le H2]. split; [done|].
  intros He. apply Nat.eqb_eq in He. by rewrite He in H2.
Qed.

Lemma all_safe s :
  list_sum (map encoded_length s) = length s → Forall (λ c, safe c = true) s.
Proof.
  assert (Hle : ∀ s, length s ≤ list_sum (map encoded_length s)).
  { clear s. induction s as [|c s IH]; cbn; [done|]. pose proof (proj1 (encoded_length_pos c)). unfold list_sum in IH. lia. }
  induction s as [|c s IH]; cbn; intros Hs; [constructor|].
  pose proof (Hle s) as Hs'. pose proof (encoded_length_pos c) as [H1 H2]. unfold list_sum in *.
  constructor; [apply H2; lia|apply IH; lia].
Qed.

Lemma percent_decode_encoded s : percent_decode (percent_encoded s) = Ret (ascii_part s).
Proof.
  unfold percent_decode, percent_encoded. case_decide as Hs.
  - rewrite unescape_safe by by apply all_safe. cbn. by rewrite utf8_decode_ascii.
  - replace (concat (map (λ c, concat (map escape (utf8 (to_utf32 c)))) s))
      with (concat (map escape (concat (map (λ c, utf8 (to_utf32 c)) s)))).
    + rewrite unescape_escapes. cbn. rewrite utf8_decode_ascii by done. f_equal.
      clear Hs. induction s as [|c s IH]; [done|]. cbn [map concat].
      rewrite ascii_part_app, IH, utf8_ascii. change (c :: s) with ([c] ++ s). by rewrite ascii_part_app.
    + clear Hs. induction s as [|c s IH]; [done|]. cbn [map concat]. by rewrite map_app, concat_app, IH.
Qed.

(** The encoded text is on one line. *)
Lemma escape_line c : NL ∉ escape c.
Proof.
  pose proof (forall_chars (λ c, negb (bool_decide (NL ∈ escape c))) ltac:(by vm_compute) c) as Hc; cbv beta zeta in Hc.
  by apply negb_true_iff, bool_decide_eq_false in Hc.
Qed.

Lemma percent_encoded_line s : NL ∉ percent_encoded s.
Proof.
  unfold percent_encoded. case_decide as Hs.
  - intros Hin. pose proof (proj1 (Forall_forall _ _) (all_safe s Hs) NL Hin) as Hn. by vm_compute in Hn.
  - clear Hs. induction s as [|c s IH]; cbn [map concat]; [by intros ?%elem_of_nil|].
    rewrite elem_of_app. intros [Hin|Hin]; [|by apply IH].
    induction (utf8 (to_utf32 c)) as [|u us IHu]; cbn [map concat] in Hin; [by apply elem_of_nil in Hin|].
    apply elem_of_app in Hin as [Hin|Hin]; [by apply escape_line in Hin|by apply IHu].
Qed.

(** ** The header *)
Definition all_digits (s : bytes) : Prop := Forall (λ c, is_digit c = true) s.
Definition no_digit (s : bytes) : Prop := ∀ c s', s = c :: s' → is_digit c = false.

Lemma digits_length fuel z : length (digits fuel z) ≤ fuel.
Proof.
  revert z. induction fuel as [|fuel IH]; intros z; [done|]. cbn [digits]. case_match; cbn; [lia|].
  rewrite length_app. cbn. specialize (IH (z / 10)%Z). lia.
Qed.

Lemma digits_while_app l s r :
  all_digits s → no_digit r → (zlen s ≤ l)%Z → digits_while l (s ++ r) = (s, (l - zlen s)%Z, r).
Proof.
  intros Hs Hr. revert l. unfold zlen. induction Hs as [|c s Hc _ IH]; intros l Hl.
  - cbn [app length Z.of_nat]. rewrite Z.sub_0_r. destruct r as [|c r]; [done|]. cbn [digits_while].
    by rewrite (Hr c r eq_refl), andb_false_r.
  - cbn [app digits_while length] in *. rewrite Hc. destruct (Z.ltb_spec 0 l); [|lia]. cbn [andb].
    rewrite IH by lia. do 2 f_equal. lia.
Qed.

Lemma digits_do_app l s r :
  all_digits s → no_digit r → (zlen s ≤ l < 2 ^ 64)%Z → digits_do l (s ++ r) = (s, (l - zlen s)%Z, r).
Proof.
  intros Hs Hr. revert l. unfold zlen. induction Hs as [|c s Hc _ IH]; intros l Hl.
  - cbn [app length Z.of_nat]. rewrite Z.sub_0_r. destruct r as [|c r]; [done|]. cbn [digits_do].
    by rewrite (Hr c r eq_refl).
  - cbn [app digits_do length] in *. rewrite Hc. unfold uint64. rewrite Z.mod_small by lia.
    rewrite IH by lia. do 2 f_equal. lia.
Qed.

(** A side as it is written: the start and, behind a comma, the length. *)
Definition comma (b : bytes) : bytes := if empty b then [] else lit "," ++ b.

Lemma comma_no_digit b r : no_digit r → no_digit (comma b ++ r).
Proof. intros Hr. unfold comma. by destruct b as [|c b]; [|intros c' s' [= <- _]]. Qed.

(** What comes after the start: an optional comma, and digits. *)
Lemma skip_comma_app l b r :
  is_char 44 r = false → (zlen (comma b) ≤ l)%Z →
  skip_comma l (comma b ++ r) = ((l - (zlen (comma b) - zlen b))%Z, b ++ r).
Proof.
  intros Hr Hl. unfold skip_comma, comma, zlen in *. destruct b as [|c b]; cbn [empty app length Z.of_nat] in *.
  - rewrite Hr, andb_false_r. f_equal. lia.
  - destruct (Z.ltb_spec 0 l); [|cbn in Hl; lia]. cbn. f_equal. lia.
Qed.

Lemma starts_with_app pat s : starts_with pat (pat ++ s) = true.
Proof. induction pat as [|p pat IH]; [done|]. cbn. by rewrite decide_True. Qed.

Lemma header_read a1 b1 a2 b2 r :
  all_digits a1 → a1 ≠ [] → all_digits b1 → all_digits a2 → a2 ≠ [] → all_digits b2 →
  let sides := (zlen a1 + zlen (comma b1) + zlen a2 + zlen (comma b2))%Z in
  (sides < 2 ^ 63)%Z →
  header (9 + sides) (lit "@@ -" ++ (a1 ++ comma b1) ++ lit " +" ++ (a2 ++ comma b2) ++ lit " @@" ++ r) =
    Some (a1, b1, a2, b2).
Proof.
  intros Ha1 Hn1 Hb1 Ha2 Hn2 Hb2 sides Hs. unfold header.
  assert (Hpos : ∀ s : bytes, s ≠ [] → (0 < zlen s)%Z) by (intros []; unfold zlen; cbn; [done|lia]).
  pose proof (Hpos a1 Hn1). pose proof (Hpos a2 Hn2).
  assert (Hc : ∀ b, (zlen b ≤ zlen (comma b))%Z).
  { intros []; unfold comma, zlen; cbn; lia. }
  pose proof (Hc b1). pose proof (Hc b2). assert (Hz : ∀ b : bytes, (0 ≤ zlen b)%Z) by (unfold zlen; lia).
  pose proof (Hz b1). pose proof (Hz b2).
  rewrite starts_with_app. replace (9 + sides - 9)%Z with sides by lia. unfold uint64. rewrite Z.mod_small by lia.
  assert (Hd : ∀ a s, all_digits a → a ≠ [] → match a ++ s with c :: _ => is_digit c | [] => false end = true).
  { intros [|c a] s Ha Hn; [done|]. by apply Forall_cons in Ha as [? _]. }
  set (tail2 := lit " @@" ++ r). set (tail1 := lit " +" ++ (a2 ++ comma b2) ++ tail2).
  assert (Ht1 : no_digit tail1) by (intros c s'; unfold tail1; by intros [= <- _]).
  assert (Ht2 : no_digit tail2) by (intros c s'; unfold tail2; by intros [= <- _]).
  change (drop 4 (lit "@@ -" ++ (a1 ++ comma b1) ++ tail1)) with ((a1 ++ comma b1) ++ tail1).
  rewrite <-(app_assoc a1), Hd by done. destruct (Z.ltb_spec 0 sides); [|lia]. cbn [andb].
  rewrite digits_while_app; [|done|by apply comma_no_digit|lia].
  rewrite skip_comma_app by (done || lia).
  rewrite digits_while_app; [|done..|lia].
  destruct (Z.ltb_spec 0 (sides - zlen a1 - (zlen (comma b1) - zlen b1) - zlen b1)); [|lia].
  change (starts_with (lit " +") tail1) with true.
  change (drop 2 tail1) with ((a2 ++ comma b2) ++ tail2).
  rewrite <-(app_assoc a2), Hd by done. cbn [andb].
  rewrite digits_do_app; [|done|by apply comma_no_digit|lia].
  rewrite skip_comma_app by (done || lia).
  rewrite digits_while_app; [|done..|lia].
  destruct (Z.eqb_spec (sides - zlen a1 - (zlen (comma b1) - zlen b1) - zlen b1 - zlen a2 - (zlen (comma b2) - zlen b2) - zlen b2) 0);
    [|lia].
  change (starts_with (lit " @@") tail2) with true. done.
Qed.

(** The coordinates of a side are read back. *)
Definition coords_ok (start len : Z) : Prop := (0 ≤ start < 2 ^ 31 - 1 ∧ 0 ≤ len < 2 ^ 31)%Z.

Lemma to_string_digits z : (0 ≤ z < 2 ^ 31)%Z →
  all_digits (to_string z) ∧ to_string z ≠ [] ∧ to_int (to_string z) = Ret z ∧ (zlen (to_string z) ≤ 10)%Z.
Proof.
  intros Hz. unfold to_string. destruct (Z.ltb_spec z 0); [lia|]. split_and!.
  - by apply digits_all.
  - apply digits_nonempty.
  - unfold to_int. rewrite number_digits by (split; [lia|]; apply (Z.lt_trans _ (2 ^ 31)); [lia|by vm_compute]).
    by destruct (Z.ltb_spec z (2 ^ 31)); [|lia].
  - unfold zlen. pose proof (digits_length 10 z). lia.
Qed.

Lemma to_string_short z c : (2 ≤ z < 2 ^ 31)%Z → to_string z = [c] → (uchar c =? 48)%Z = false.
Proof.
  intros Hz Hs. destruct (to_string_digits z) as (_ & _ & Hi & _); [lia|]. rewrite Hs in Hi.
  destruct (Z.eqb_spec (uchar c) 48) as [Hc|]; [|done].
  unfold to_int in Hi. cbn [number] in Hi. unfold digit in Hi. rewrite Hc in Hi. cbn in Hi.
  injection Hi as Hi. lia.
Qed.

Lemma coords_read start len : coords_ok start len →
  ∃ a b, coords start len = a ++ comma b ∧ all_digits a ∧ a ≠ [] ∧ all_digits b ∧
         side a b = Ret (start, len) ∧ (zlen a + zlen (comma b) ≤ 21)%Z.
Proof.
  intros [Hs Hl]. destruct (to_string_digits start) as (Hd & Hn & Hi & Hz); [lia|].
  destruct (to_string_digits (start + 1)) as (Hd1 & Hn1 & Hi1 & Hz1); [lia|].
  destruct (to_string_digits len) as (Hdl & Hnl & Hil & Hzl); [lia|].
  unfold coords. destruct (Z.eqb_spec len 0) as [->|H0]; [|destruct (Z.eqb_spec len 1) as [->|H1]].
  - exists (to_string start), (lit "0"). split_and!; [done..|by apply (Forall_cons_2 _ _ []); [|constructor]| |unfold zlen in *; cbn; lia].
    unfold side, bind_outcome. rewrite Hi. done.
  - exists (to_string (start + 1)), []. split_and!; [by rewrite app_nil_r|done..|constructor| |unfold zlen in *; cbn; lia].
    unfold side, bind_outcome. rewrite Hi1. cbn. do 2 f_equal. lia.
  - exists (to_string (start + 1)), (to_string len). split_and!; [|done..| |].
    + unfold comma. destruct (to_string len); done.
    + unfold side, bind_outcome. rewrite Hi1, Hil. cbn [DmpDiff.bind_outcome].
      replace (start + 1 - 1)%Z with start by lia.
      destruct (to_string len) as [|c [|c' s]] eqn:He; try done.
      by rewrite (to_string_short len c) by (done || lia).
    + unfold comma, zlen in *. destruct (to_string len); cbn in *; lia.
Qed.

(** ** Patches *)
Definition ascii_diff (d : Diff) : Diff := MkDiff (operation d) (ascii_part (text d)).
Definition ascii_patch (p : Patch) : Patch :=
  MkPatch (map ascii_diff (diffs p)) (start1 p) (start2 p) (length1 p) (length2 p).

Lemma next_token_line s r : NL ∉ s → next_token (s ++ NL :: r) = length s.
Proof.
  induction s as [|c s IH]; intros Hs; cbn [app next_token length]; [by rewrite decide_True|].
  apply not_elem_of_cons in Hs as [Hc Hs]. rewrite decide_False by done. by rewrite IH.
Qed.

(** What follows the diffs of a patch: nothing, or the header of another. *)
Definition patch_end (r : bytes) : Prop :=
  r = [] ∨ ∃ r' line, r = "@"%char :: r' ∧ percent_decode (take (next_token r - 1) r') = Ret line.

Lemma read_diffs_written n l r :
  patch_end r → length (concat (map diff_toString l) ++ r) ≤ n →
  read_diffs n (concat (map diff_toString l) ++ r) = Ret (map ascii_diff l, r).
Proof.
  intros Hr. revert n. induction l as [|[op t] l IH]; intros n Hn.
  - cbn [map concat app] in *. destruct Hr as [->|(r' & line & -> & Hp)]; [by destruct n|].
    destruct n as [|n]; [cbn in Hn; lia|]. cbn [read_diffs].
    change (next_token ("@"%char :: r')) with (S (next_token r')) in *. cbn [Nat.eqb]. unfold bind_outcome. rewrite Hp. done.
  - cbn [map concat] in *. rewrite <-app_assoc in *.
    change (diff_toString (MkDiff op t)) with (sign op :: percent_encoded t ++ [NL]) in *. cbn [app] in *.
    rewrite <-app_assoc in *. set (rest := concat (map diff_toString l) ++ r) in *.
    change ([NL] ++ rest) with (NL :: rest) in *.
    destruct n as [|n]; [cbn in Hn; lia|]. cbn [length] in Hn. rewrite length_app in Hn. cbn [length] in Hn. cbn [read_diffs].
    assert (Hlen : next_token (sign op :: percent_encoded t ++ NL :: rest) = S (length (percent_encoded t))).
    { cbn [next_token]. rewrite decide_False by by destruct op. by rewrite next_token_line by apply percent_encoded_line. }
    rewrite Hlen. cbn [Nat.eqb]. rewrite Nat.sub_succ, Nat.sub_0_r, take_app_length, percent_decode_encoded.
    replace (drop (S (S (length (percent_encoded t)))) (sign op :: percent_encoded t ++ NL :: rest)) with rest.
    + unfold bind_outcome at 1. cbn [DmpDiff.bind_outcome]. rewrite IH by lia. by destruct op.
    + cbn [drop]. by rewrite drop_app_ge, Nat.sub_succ_l, Nat.sub_diag by lia.
Qed.

(** *** patch_toText and patch_fromText *)
Definition header_line (p : Patch) : bytes :=
  lit "@@ -" ++ coords (start1 p) (length1 p) ++ lit " +" ++ coords (start2 p) (length2 p) ++ lit " @@".

Lemma toString_app p r :
  toString p ++ r = header_line p ++ NL :: concat (map diff_toString (diffs p)) ++ r.
Proof. unfold toString, header_line. by rewrite <-!app_assoc. Qed.

Definition patch_ok (p : Patch) : Prop := coords_ok (start1 p) (length1 p) ∧ coords_ok (start2 p) (length2 p).

Lemma all_digits_safe s : all_digits s → Forall (λ c, safe c = true) s.
Proof.
  intros Hs. eapply Forall_impl; [exact Hs|]. intros c Hc.
  pose proof (forall_chars (λ c, implb (is_digit c) (safe c)) ltac:(by vm_compute) c) as H. cbv beta in H.
  by rewrite Hc in H.
Qed.

Lemma header_safe p : patch_ok p → Forall (λ c, safe c = true) (header_line p).
Proof.
  intros [H1 H2]. destruct (coords_read _ _ H1) as (a1 & b1 & E1 & Ha1 & _ & Hb1 & _).
  destruct (coords_read _ _ H2) as (a2 & b2 & E2 & Ha2 & _ & Hb2 & _).
  assert (Hc : ∀ b, all_digits b → Forall (λ c, safe c = true) (comma b)).
  { intros [|c b] Hb; [constructor|]. apply Forall_cons_2; [done|by apply all_digits_safe]. }
  unfold header_line. rewrite E1, E2.
  repeat apply Forall_app_2; try (by apply all_digits_safe); try (by apply Hc);
    apply Forall_forall; intros c Hin; apply list_elem_of_In in Hin; cbn in Hin;
    repeat (destruct Hin as [<-|Hin]; [done|]); done.
Qed.

Lemma safe_no_NL s : Forall (λ c, safe c = true) s → NL ∉ s.
Proof. intros Hs Hin. pose proof (proj1 (Forall_forall _ _) Hs NL Hin) as Hn. by vm_compute in Hn. Qed.

Lemma header_of p r : patch_ok p →
  next_token (header_line p ++ NL :: r) = length (header_line p) ∧
  ∃ a1 b1 a2 b2, header (zlen (header_line p)) (header_line p ++ NL :: r) = Some (a1, b1, a2, b2) ∧
    side a1 b1 = Ret (start1 p, length1 p) ∧ side a2 b2 = Ret (start2 p, length2 p).
Proof.
  intros Hp. split; [by apply next_token_line, safe_no_NL, header_safe|]. destruct Hp as [H1 H2].
  destruct (coords_read _ _ H1) as (a1 & b1 & E1 & Ha1 & Hn1 & Hb1 & Hs1 & Hz1).
  destruct (coords_read _ _ H2) as (a2 & b2 & E2 & Ha2 & Hn2 & Hb2 & Hs2 & Hz2).
  exists a1, b1, a2, b2. split; [|done]. unfold header_line. rewrite E1, E2.
  pose proof (header_read a1 b1 a2 b2 (NL :: r) Ha1 Hn1 Hb1 Ha2 Hn2 Hb2) as Hh. cbv zeta in Hh.
  rewrite <-Hh by lia. f_equal; [|by rewrite <-!app_assoc].
  unfold zlen. rewrite !length_app. cbn [length lit String.list_ascii_of_string]. lia.
Qed.

Lemma toText_end l : Forall patch_ok l → patch_end (patch_toText l).
Proof.
  intros Hl. destruct l as [|p l]; [by left|]. apply Forall_cons in Hl as [Hp _]. right.
  unfold patch_toText. cbn [map concat]. rewrite toString_app.
  pose proof (header_safe p Hp) as Hsafe. destruct (header_of p (concat (map diff_toString (diffs p)) ++ concat (map toString l)) Hp) as [Hn _].
  change (header_line p) with ("@"%char :: tail (header_line p)) in *. cbn [app] in *.
  apply Forall_cons in Hsafe as [_ Hsafe]. eexists _, _. split; [done|].
  rewrite Hn. cbn [length]. rewrite Nat.sub_succ, Nat.sub_0_r, take_app_length.
  unfold percent_decode. by rewrite unescape_safe.
Qed.

(** What is written is read back, but for the characters of 128 and more. *)
Lemma fromText_written l n :
  Forall patch_ok l → length (patch_toText l) ≤ n → fromText_n n (patch_toText l) = Ret (map ascii_patch l).
Proof.
  intros Hl. revert n. induction Hl as [|p l Hp Hl IH]; intros n Hn; [by destruct n|].
  unfold patch_toText in *. cbn [map concat] in *. fold (patch_toText l) in *.
  destruct (header_of p (concat (map diff_toString (diffs p)) ++ patch_toText l) Hp) as [Hnext (a1 & b1 & a2 & b2 & Hh & Hs1 & Hs2)].
  pose proof (f_equal length (toString_app p (patch_toText l))) as Hlen. rewrite toString_app in *.
  set (body := concat (map diff_toString (diffs p)) ++ patch_toText l) in *.
  destruct n as [|n]; [cbn in Hn; lia|].
  change (header_line p ++ NL :: body) with ("@"%char :: tail (header_line p) ++ NL :: body) at 1.
  cbn [fromText_n].
  change ("@"%char :: tail (header_line p) ++ NL :: body) with (header_line p ++ NL :: body). rewrite Hnext.
  change (length (header_line p)) with (S (length (tail (header_line p)))) at 1. cbn [Nat.eqb].
  unfold zlen in Hh. rewrite Hh. unfold bind_outcome. rewrite Hs1. cbn [DmpDiff.bind_outcome]. rewrite Hs2. cbn [DmpDiff.bind_outcome].
  replace (drop (S (length (header_line p))) (header_line p ++ NL :: body)) with body
    by by rewrite drop_app_ge, Nat.sub_succ_l, Nat.sub_diag by lia.
  unfold body. rewrite read_diffs_written; [|by apply toText_end|].
  - cbn [DmpDiff.bind_outcome]. rewrite IH; [done|]. rewrite length_app in Hn. cbn [length] in Hn.
    unfold body in Hn. rewrite length_app in Hn. change (length (header_line p)) with (S (length (tail (header_line p)))) in Hn. lia.
  - fold body. rewrite length_app. cbn. lia.
Qed.

(** Patches are read back as they were written, if their texts have no
    character of 128 or more; such characters are lost. *)
Theorem fromText_toText l : Forall patch_ok l → patch_fromText (patch_toText l) = Ret (map ascii_patch l).
Proof. intros Hl. by apply fromText_written. Qed.

End DmpText.
