(* ===== verification/DmpApply.v ===== *)
(** * Applying patches where they belong

    [applies ps s t]: each patch of [ps] finds its text at its place, and
    together they lead from [s] to [t].  Then [patch_apply] takes the exact
    match for each, through the padding and the splitting of long patches. *)

From S2P Require Import Prelude DmpDiff DmpPatch DmpText.
Local Open Scope prog_scope.
Import DmpDiff.Str DmpDiff.DmpDiff DmpPatch.DmpPatch.

Module DmpApply.

Definition text1 (p : Patch) : bytes := diff_text1 (diffs p).
Definition text2 (p : Patch) : bytes := diff_text2 (diffs p).

Inductive applies : Patches → bytes → bytes → Prop :=
  | applies_nil s : applies [] s s
  | applies_cons p ps before after t :
      start2 p = zlen before → length1 p = zlen (text1 p) →
      applies ps (before ++ text2 p ++ after) t → applies (p :: ps) (before ++ text1 p ++ after) t.

Lemma applies_app ps qs s t u : applies ps s t → applies qs t u → applies (ps ++ qs) s u.
Proof. induction 1; intros Hq; [done|]. cbn. constructor; eauto. Qed.

Lemma zlen_app {A} (l k : list A) : zlen (l ++ k) = (zlen l + zlen k)%Z.
Proof. unfold zlen. rewrite length_app. lia. Qed.
Lemma zlen_nonneg {A} (l : list A) : (0 ≤ zlen l)%Z.
Proof. unfold zlen. lia. Qed.
#[local] Hint Resolve zlen_nonneg : core.

Lemma diff_text1_app l k : diff_text1 (l ++ k) = diff_text1 l ++ diff_text1 k.
Proof. unfold diff_text1. by rewrite map_app, concat_app. Qed.
Lemma diff_text2_app l k : diff_text2 (l ++ k) = diff_text2 l ++ diff_text2 k.
Proof. unfold diff_text2. by rewrite map_app, concat_app. Qed.

Lemma diff_text1_snoc l t : diff_text1 (l ++ [MkDiff EQUAL t]) = diff_text1 l ++ t.
Proof. rewrite diff_text1_app. unfold diff_text1 at 2. cbn. by rewrite app_nil_r. Qed.
Lemma diff_text2_snoc l t : diff_text2 (l ++ [MkDiff EQUAL t]) = diff_text2 l ++ t.
Proof. rewrite diff_text2_app. unfold diff_text2 at 2. cbn. by rewrite app_nil_r. Qed.

(** ** substr in range *)
Lemma safeMid_app s t : safeMid (s ++ t) (zlen s) = Ret t.
Proof.
  unfold safeMid. rewrite zlen_app. pose proof (zlen_nonneg s). pose proof (zlen_nonneg t).
  destruct (Z.leb_spec 0 (zlen s)), (Z.leb_spec (zlen s) (zlen s + zlen t)); try lia. cbn.
  unfold zlen. by rewrite Nat2Z.id, drop_app_length.
Qed.

Lemma safeMid_len_app s t u : safeMid_len (s ++ t ++ u) (zlen s) (zlen t) = Ret t.
Proof.
  unfold safeMid_len. destruct (Z.eqb_spec (zlen s) (zlen (s ++ t ++ u))) as [He|].
  - rewrite !zlen_app in He. destruct t; [done|]. unfold zlen in He. cbn in He. lia.
  - rewrite safeMid_app. cbn. destruct (Z.ltb_spec (zlen t) 0); [pose proof (zlen_nonneg t); lia|].
    unfold zlen. by rewrite Nat2Z.id, take_app_length.
Qed.

Lemma left_app s t : left (s ++ t) (zlen s) = s.
Proof.
  unfold left. destruct (Z.ltb_spec (zlen s) 0); [pose proof (zlen_nonneg s); lia|].
  unfold zlen. by rewrite Nat2Z.id, take_app_length.
Qed.

(** ** The exact match *)
Lemma match_main_exact before pattern after :
  match_main (before ++ pattern ++ after) pattern (zlen before) = Ret (zlen before).
Proof.
  unfold match_main. set (s := before ++ pattern ++ after).
  assert (Hlen : zlen s = (zlen before + zlen pattern + zlen after)%Z) by (subst s; rewrite !zlen_app; lia).
  pose proof (zlen_nonneg before). pose proof (zlen_nonneg pattern). pose proof (zlen_nonneg after).
  rewrite Z.max_r, Z.min_l by lia. case_decide as Hs.
  - rewrite Hs in Hlen. f_equal. lia.
  - destruct (empty s) eqn:He.
    { destruct s eqn:Hs'; [|done]. exfalso. apply Hs. symmetry in Hs'. destruct before; [|done]. by destruct pattern. }
    destruct (Z.leb_spec (zlen before + zlen pattern) (zlen s)); [|lia].
    subst s. rewrite safeMid_len_app. cbn. by rewrite decide_True.
Qed.

Lemma right_zlen s n : (0 ≤ n ≤ zlen s)%Z → ∃ t u, s = t ++ u ∧ zlen u = n ∧ right s (Z.to_nat n) = Ret u.
Proof.
  intros Hn. unfold right, zlen in *. exists (take (length s - Z.to_nat n) s), (drop (length s - Z.to_nat n) s).
  rewrite take_drop, length_drop. split_and!; [done|lia|].
  by destruct (Nat.leb_spec (Z.to_nat n) (length s)); [|lia].
Qed.

(** A patch is located at its place, and a long one from both its ends. *)
Lemma locate_exact before t1 after :
  ∃ end_loc, locate (before ++ t1 ++ after) t1 (zlen before) = Ret (zlen before, end_loc) ∧
    safeMid_len (before ++ t1 ++ after) (zlen before)
      (if (end_loc =? -1)%Z then zlen t1 else end_loc + Match_MaxBits - zlen before)%Z = Ret t1.
Proof.
  pose proof (zlen_nonneg before). unfold locate.
  destruct (Z.ltb_spec Match_MaxBits (zlen t1)) as [Hlong|Hshort]; cycle 1.
  { exists (-1)%Z. rewrite match_main_exact. split; [done|]. apply safeMid_len_app. }
  unfold Match_MaxBits in *.
  assert (Hn : zlen (take (Z.to_nat 32) t1) = 32%Z) by (unfold zlen in *; rewrite length_take; lia).
  pose proof (match_main_exact before (take (Z.to_nat 32) t1) (drop (Z.to_nat 32) t1 ++ after)) as Hm.
  rewrite (app_assoc (take _ _)), take_drop in Hm. rewrite Hm.
  unfold bind_outcome at 1. cbn [DmpDiff.bind_outcome].
  destruct (Z.eqb_spec (zlen before) (-1)); [lia|].
  destruct (right_zlen t1 32) as (u & v & -> & Hv & ->); [lia|]. cbn [DmpDiff.bind_outcome bind_outcome].
  unfold bind_outcome. cbn [DmpDiff.bind_outcome].
  rewrite zlen_app in *. replace (zlen before + (zlen u + zlen v) - 32)%Z with (zlen (before ++ u)) by (rewrite zlen_app; lia).
  rewrite <-(app_assoc u), (app_assoc before), match_main_exact. cbn [DmpDiff.bind_outcome].
  rewrite zlen_app. destruct (Z.eqb_spec (zlen before + zlen u) (-1)); [lia|].
  destruct (Z.leb_spec (zlen before + zlen u) (zlen before)); [lia|]. cbn [orb].
  eexists. split; [done|]. destruct (Z.eqb_spec (zlen before + zlen u) (-1)); [lia|].
  replace (zlen before + zlen u + 32 - zlen before)%Z with (zlen (u ++ v)) by (rewrite zlen_app; lia).
  rewrite <-app_assoc. rewrite (app_assoc u v). apply safeMid_len_app.
Qed.

Lemma apply_step_exact p before after c :
  start2 p = zlen before →
  apply_step p (before ++ text1 p ++ after) 0 c = (Ret (before ++ text2 p ++ after, 0%Z, true), c).
Proof.
  intros Hs. unfold apply_step. rewrite Hs, Z.add_0_r. fold (text1 p).
  destruct (locate_exact before (text1 p) after) as (e & Hl & Hm). rewrite Hl. run.
  destruct (Z.eqb_spec (zlen before) (-1)); [pose proof (zlen_nonneg before); lia|].
  rewrite Hm. run. rewrite decide_True by done.
  rewrite app_assoc, <-zlen_app, safeMid_app. run.
  rewrite <-app_assoc, left_app, Z.sub_diag. done.
Qed.

Lemma apply_loop_exact ps s t c :
  applies ps s t → apply_loop ps s 0 c = (Ret (t, replicate (length ps) true), c).
Proof.
  intros Ha. induction Ha as [s|p ps before after t Hs Hl Ha IH]; [done|]. cbn [apply_loop].
  rewrite (bind_run _ _ _ _ _ (apply_step_exact p before after c Hs)).
  by rewrite (bind_run _ _ _ _ _ IH).
Qed.

(** ** Padding *)
Lemma nullPadding_length : length nullPadding = 4.
Proof. done. Qed.

Lemma last_snoc_eq {A} (l : list A) x : last l = Some x → l = removelast l ++ [x].
Proof.
  intros [k ->]%last_Some. by rewrite removelast_last.
Qed.

(** The first patch covers its place well enough for the padding: a short or
    missing equality at an end of it is at that end of the text. *)
Definition front_ok (p : Patch) (before : bytes) : Prop :=
  match diffs p with MkDiff EQUAL t :: _ => 4 ≤ length t | _ => False end ∨ before = [].
Definition back_ok (p : Patch) (after : bytes) : Prop :=
  match last (diffs p) with Some (MkDiff EQUAL t) => 4 ≤ length t | _ => False end ∨ after = [].

Lemma pad_front_covers p before :
  start2 p = zlen before → length1 p = zlen (text1 p) → front_ok p before →
  ∃ before', start2 (pad_front (bump p)) = zlen before' ∧
    length1 (pad_front (bump p)) = zlen (text1 (pad_front (bump p))) ∧
    before' ++ text1 (pad_front (bump p)) = nullPadding ++ before ++ text1 p ∧
    before' ++ text2 (pad_front (bump p)) = nullPadding ++ before ++ text2 p.
Proof.
  intros Hs Hl Hf. unfold bump, pad_front, front_ok, text1, text2, paddingLength, Patch_Margin in *. cbn [diffs start2 length1].
  assert (Hnew : diffs p = [] ∨ (∃ d l, diffs p = d :: l ∧ operation d ≠ EQUAL) ∨ ∃ t l, diffs p = MkDiff EQUAL t :: l).
  { destruct (diffs p) as [|[[] t] l]; eauto 10. }
  destruct Hnew as [Hd|[([op t] & l & Hd & Hop)|(t & l & Hd)]]; rewrite Hd in *.
  - destruct Hf as [[]| ->]. exists []. unfold zlen in *. cbn in *. split_and!; [lia|lia|done..].
  - destruct Hf as [Hf| ->]; [by destruct op|]. exists []. unfold zlen in *.
    destruct op; [| |done]; cbn in *; (split_and!; [lia|lia|done..]).
  - destruct (Z.ltb_spec (zlen t) 4) as [Hlt|Hge].
    + destruct Hf as [Hf| ->]; [unfold zlen in Hlt; lia|]. exists (take (length t) nullPadding).
      unfold zlen in *. cbn [start2 length1 diffs operation text diff_text1 diff_text2 map concat] in *.
      rewrite length_take, nullPadding_length. rewrite !length_app, !length_drop, ?nullPadding_length.
      rewrite length_app in Hl. rewrite <-!app_assoc, !(app_assoc (take _ _)), !take_drop.
      cbn [app length] in *. split_and!; [lia|lia|done..].
    + exists (nullPadding ++ before). rewrite zlen_app. change (zlen nullPadding) with 4%Z.
      cbn [start2 length1 diffs]. rewrite <-!app_assoc. split_and!; [lia|done..].
Qed.

Lemma pad_back_covers p after :
  length1 p = zlen (text1 p) → back_ok p after →
  ∃ after', start2 (pad_back p) = start2 p ∧
    length1 (pad_back p) = zlen (text1 (pad_back p)) ∧
    text1 (pad_back p) ++ after' = text1 p ++ after ++ nullPadding ∧
    text2 (pad_back p) ++ after' = text2 p ++ after ++ nullPadding.
Proof.
  intros Hl Hb. unfold pad_back, back_ok, text1, text2, paddingLength, Patch_Margin in *.
  assert (Hpush : after = [] → ∃ after' : bytes,
    (length1 p + 4)%Z = zlen (diff_text1 (diffs p ++ [MkDiff EQUAL nullPadding])) ∧
    diff_text1 (diffs p ++ [MkDiff EQUAL nullPadding]) ++ after' = diff_text1 (diffs p) ++ after ++ nullPadding ∧
    diff_text2 (diffs p ++ [MkDiff EQUAL nullPadding]) ++ after' = diff_text2 (diffs p) ++ after ++ nullPadding).
  { intros ->. exists []. rewrite diff_text1_snoc, diff_text2_snoc, zlen_app, !app_nil_r.
    change (zlen nullPadding) with 4%Z. split_and!; [lia|done..]. }
  destruct (last (diffs p)) as [[op t]|] eqn:Hlast; [|destruct Hb as [[]|Ha]; destruct (Hpush Ha) as (a & ?); by exists a].
  destruct (decide (op = EQUAL)) as [->|Hop]; cycle 1.
  { destruct Hb as [Hb|Ha]; [by destruct op|]. destruct (Hpush Ha) as (a & ?). exists a. by destruct op. }
  apply last_snoc_eq in Hlast. clear Hpush. set (l := removelast (diffs p)) in *.
  destruct (Z.ltb_spec (zlen t) 4) as [Hlt|Hge]; [|by exists (after ++ nullPadding)].
  destruct Hb as [Hb| ->]; [unfold zlen in Hlt; lia|].
  rewrite Hlast, diff_text1_snoc, zlen_app in Hl.
  exists (drop (Z.to_nat (4 - zlen t)) nullPadding). cbn [start2 length1 diffs].
  rewrite Hlast, !diff_text1_snoc, !diff_text2_snoc, !zlen_app, <-!app_assoc, take_drop.
  split_and!; [done| |done..]. unfold zlen in *. rewrite length_take, nullPadding_length. lia.
Qed.

Lemma applies_cons_inv p ps s t : applies (p :: ps) s t →
  ∃ before after, s = before ++ text1 p ++ after ∧ start2 p = zlen before ∧ length1 p = zlen (text1 p) ∧
    applies ps (before ++ text2 p ++ after) t.
Proof. inversion 1; subst. eauto 10. Qed.

Lemma applies_bump ps s t :
  applies ps s t → applies (map bump ps) (nullPadding ++ s ++ nullPadding) (nullPadding ++ t ++ nullPadding).
Proof.
  induction 1 as [s|p ps before after t Hs Hl _ IH]; [constructor|]. cbn [map].
  rewrite <-!app_assoc, (app_assoc _ before) in *.
  change (text1 p) with (text1 (bump p)). constructor; [|done|exact IH].
  rewrite zlen_app. cbn [bump start2]. rewrite Hs. apply Z.add_comm.
Qed.

Definition padded ps s : Prop :=
  match ps with
  | [] => True
  | p :: _ => ∃ before after, s = before ++ text1 p ++ after ∧ start2 p = zlen before ∧
                front_ok p before ∧ back_ok p after
  end.

Lemma back_ok_front p after : back_ok p after → back_ok (pad_front (bump p)) after.
Proof.
  intros [Hb|Ha]; [left|by right]. destruct (last (diffs p)) as [[op t]|] eqn:Hl; [|done].
  destruct op; try done. unfold pad_front. cbn [bump diffs].
  assert (Hpush : ∀ d l, last l = Some (MkDiff EQUAL t) → last (d :: l) = Some (MkDiff EQUAL t)) by by intros d [].
  destruct (diffs p) as [|[[] u] l] eqn:Hd; try by cbn [diffs]; rewrite Hpush.
  destruct (Z.ltb_spec (zlen u) paddingLength) as [Hu|]; [|cbn [bump diffs]; by rewrite Hd, Hl].
  cbn [diffs]. destruct l as [|d l]; [|by rewrite Hpush]. injection Hl as ->. unfold zlen, paddingLength, Patch_Margin in Hu. lia.
Qed.

Lemma app_eq_start {A} (a b c d : list A) : a ++ b = c ++ d → zlen a = zlen c → a = c ∧ b = d.
Proof. unfold zlen. intros He Hl. apply app_inj_1 in He; [done|lia]. Qed.

Lemma addPadding_applies p ps s t :
  applies (p :: ps) s t → padded (p :: ps) s →
  ∃ l, patch_addPadding (p :: ps) = Ret l ∧ length l = S (length ps) ∧
    applies l (nullPadding ++ s ++ nullPadding) (nullPadding ++ t ++ nullPadding).
Proof.
  intros (before & after & -> & Hs & Hl & Ha)%applies_cons_inv (b & a & He & Hb & Hf & Hk).
  apply app_eq_start in He as [-> He]; [|lia]. apply app_inv_head in He as ->.
  destruct (pad_front_covers p b Hs Hl Hf) as (b' & Hs' & Hl' & E1 & E2).
  destruct (pad_back_covers (pad_front (bump p)) a Hl') as (a' & Hs2 & Hl2 & F1 & F2); [by apply back_ok_front|].
  eexists. split; [done|]. split; [cbn [length]; f_equal; apply length_map|].
  replace (nullPadding ++ (b ++ text1 p ++ a) ++ nullPadding)
    with (b' ++ text1 (pad_back (pad_front (bump p))) ++ a').
  - constructor; [by rewrite Hs2|done|]. apply applies_bump in Ha.
    replace (b' ++ text2 (pad_back (pad_front (bump p))) ++ a')
      with (nullPadding ++ (b ++ text2 p ++ a) ++ nullPadding); [done|].
    rewrite F2, (app_assoc b'), E2. by rewrite <-!app_assoc.
  - rewrite F1, (app_assoc b'), E1. by rewrite <-!app_assoc.
Qed.

End DmpApply.
