(* ===== verification/DmpSplit.v ===== *)
(** * patch_splitMax

    A long patch is split into pieces that do the same, and the splitting
    ends: of two rounds at least one takes something of the patch. *)

From S2P Require Import Prelude DmpDiff DmpPatch DmpText DmpApply.
Local Open Scope prog_scope.
Import DmpDiff.Str DmpDiff.DmpDiff DmpPatch.DmpPatch DmpApply.DmpApply.

Module DmpSplit.
#[local] Hint Resolve zlen_nonneg : core.

(** What there is to take of a patch. *)
Definition size (big : Diffs) : nat := length big + length (diff_text1 big).

(** [s1] is [s0] after taking diffs of texts [u1] and [u2]. *)
Definition took (s0 s1 : splitting) (u1 u2 : bytes) : Prop :=
  diff_text1 (bigpatch s0) = u1 ++ diff_text1 (bigpatch s1) ∧
  diff_text2 (bigpatch s0) = u2 ++ diff_text2 (bigpatch s1) ∧
  text1 (piece s1) = text1 (piece s0) ++ u1 ∧ text2 (piece s1) = text2 (piece s0) ++ u2 ∧
  length1 (piece s1) = (length1 (piece s0) + zlen u1)%Z ∧ start2 (piece s1) = start2 (piece s0) ∧
  pos2 s1 = (pos2 s0 + zlen u2)%Z ∧
  (piece_empty s1 = true → piece_empty s0 = true ∧ u1 = u2).

Lemma took_refl s : took s s [] [].
Proof. unfold took. rewrite !app_nil_r. unfold zlen. cbn. rewrite !Z.add_0_r. done. Qed.

Lemma took_trans s0 s1 s2 u1 u2 v1 v2 :
  took s0 s1 u1 u2 → took s1 s2 v1 v2 → took s0 s2 (u1 ++ v1) (u2 ++ v2).
Proof.
  intros (A1 & A2 & A3 & A4 & A5 & A6 & A7 & A8) (B1 & B2 & B3 & B4 & B5 & B6 & B7 & B8).
  unfold took. rewrite !zlen_app. split_and!.
  - by rewrite A1, B1, app_assoc.
  - by rewrite A2, B2, app_assoc.
  - by rewrite B3, A3, app_assoc.
  - by rewrite B4, A4, app_assoc.
  - lia.
  - congruence.
  - lia.
  - intros He. destruct (B8 He) as [He1 ->]. destruct (A8 He1) as [? ->]. done.
Qed.

(** The texts of one diff. *)
Definition part1 (d : Diff) : bytes := match operation d with INSERT => [] | _ => text d end.
Definition part2 (d : Diff) : bytes := match operation d with DELETE => [] | _ => text d end.

Lemma diff_text1_cons d l : diff_text1 (d :: l) = part1 d ++ diff_text1 l.
Proof. done. Qed.
Lemma diff_text2_cons d l : diff_text2 (d :: l) = part2 d ++ diff_text2 l.
Proof. done. Qed.
Lemma diff_text1_one d : diff_text1 [d] = part1 d.
Proof. unfold diff_text1. cbn. apply app_nil_r. Qed.
Lemma diff_text2_one d : diff_text2 [d] = part2 d.
Proof. unfold diff_text2. cbn. apply app_nil_r. Qed.

(** One round takes a diff, or the first part of one. *)
Lemma take_step_took d big s :
  bigpatch s = d :: big → (length1 (piece s) < patch_size - Patch_Margin)%Z →
  ∃ u1 u2, took s (take_step d big s) u1 u2 ∧ size (bigpatch (take_step d big s)) < size (bigpatch s).
Proof.
  intros Hb Hlen.
  assert (Hpush : ∀ e big' n1 n2 p1 em, n1 = zlen (part1 e) → n2 = zlen (part2 e) →
    part1 d ++ diff_text1 big = part1 e ++ diff_text1 big' → part2 d ++ diff_text2 big = part2 e ++ diff_text2 big' →
    (em = true → piece_empty s = true ∧ part1 e = part2 e) →
    took s (Splitting big' (push_diff e n1 n2 (piece s)) p1 (pos2 s + n2) em) (part1 e) (part2 e)).
  { intros e big' n1 n2 p1 em -> -> H1 H2 Hem. unfold took, text1, text2. rewrite Hb, diff_text1_cons, diff_text2_cons.
    cbn [bigpatch piece push_diff diffs length1 start2 pos2 piece_empty].
    rewrite diff_text1_app, diff_text2_app, diff_text1_one, diff_text2_one. split_and!; done. }
  assert (Hless : size big < size (bigpatch s)).
  { unfold size. rewrite Hb, diff_text1_cons. cbn [length]. rewrite length_app. lia. }
  unfold take_step. case_decide as Hop; [|destruct (large_deletion d (piece s)) eqn:Hlarge].
  - exists (part1 d), (part2 d). split; [apply Hpush; unfold part1, part2; by rewrite ?Hop|exact Hless].
  - exists (part1 d), (part2 d).
    assert (Hd : operation d = DELETE) by (unfold large_deletion in Hlarge; by destruct (operation d)).
    split; [|exact Hless].
    replace (pos2 s) with (pos2 s + 0)%Z at 1 by lia. apply Hpush; unfold part1, part2; by rewrite ?Hd.
  - clear Hlarge. set (k := Z.min (zlen (text d)) (patch_size - length1 (piece s) - Patch_Margin)).
    set (t := take (Z.to_nat k) (text d)).
    assert (Ht : text d = t ++ drop (length t) (text d)).
    { unfold t. rewrite length_take. destruct (Nat.le_gt_cases (Z.to_nat k) (length (text d))).
      - by rewrite Nat.min_l, take_drop.
      - rewrite Nat.min_r, drop_all, app_nil_r, take_ge by lia. done. }
    set (big' := if decide (t = text d) then big else MkDiff (operation d) (drop (length t) (text d)) :: big).
    assert (Hbig : diff_text1 (d :: big) = part1 (MkDiff (operation d) t) ++ diff_text1 big' ∧
                   diff_text2 (d :: big) = part2 (MkDiff (operation d) t) ++ diff_text2 big').
    { subst big'. rewrite diff_text1_cons, diff_text2_cons. case_decide as Hd; [by rewrite Hd; destruct d|].
      rewrite diff_text1_cons, diff_text2_cons. unfold part1, part2. cbn [operation text].
      destruct (operation d); rewrite ?app_assoc, <-?Ht; done. }
    assert (Hsize : size big' < size (d :: big)).
    { unfold size. destruct Hbig as [-> _]. subst big'. cbn [length]. rewrite length_app.
      case_decide as Hd; [lia|]. cbn [length].
      assert (length t ≠ 0). { intros H0. unfold t in *. rewrite length_take in H0. unfold zlen, patch_size in *.
        assert (length (text d) = 0) as Hz by (unfold k, Match_MaxBits, Patch_Margin, zlen in *; lia).
        apply Hd. destruct (text d); [by rewrite take_nil|done]. }
      unfold part1. cbn [operation text]. destruct (operation d); [lia|done|lia]. }
    exists (part1 (MkDiff (operation d) t)), (part2 (MkDiff (operation d) t)).
    rewrite diff_text1_cons, diff_text2_cons in Hbig. destruct Hbig as [H1 H2]. rewrite Hb.
    destruct (operation d) eqn:Ho; [|done|].
    + split; [|exact Hsize]. replace (pos2 s) with (pos2 s + 0)%Z at 1 by lia. by apply Hpush.
    + split; [|exact Hsize]. by apply Hpush.
Qed.

(** The inner loop ends, and takes something if there is room. *)
Lemma take_loop_took n s :
  size (bigpatch s) < n →
  ∃ s' u1 u2, take_loop n s = Ret s' ∧ took s s' u1 u2 ∧ size (bigpatch s') ≤ size (bigpatch s) ∧
    (bigpatch s ≠ [] → (length1 (piece s) < patch_size - Patch_Margin)%Z → size (bigpatch s') < size (bigpatch s)).
Proof.
  revert s. induction n as [|n IH]; intros s Hn; [lia|]. cbn [take_loop].
  destruct (bigpatch s) as [|d big] eqn:Hb.
  { exists s, [], []. rewrite Hb. split_and!; [done|apply took_refl|done..]. }
  destruct (Z.ltb_spec (length1 (piece s)) (patch_size - Patch_Margin)) as [Hlt|Hge].
  - destruct (take_step_took d big s Hb Hlt) as (u1 & u2 & Ht & Hsz). rewrite Hb in Hsz.
    destruct (IH (take_step d big s)) as (s' & v1 & v2 & Hs' & Ht' & Hle & _); [lia|].
    exists s', (u1 ++ v1), (u2 ++ v2). split_and!; [done|by eapply took_trans|lia|intros; lia].
  - exists s, [], []. rewrite Hb. split_and!; [done|apply took_refl|done|intros; lia].
Qed.

Lemma take_loop_full n s :
  (patch_size - Patch_Margin ≤ length1 (piece s))%Z → take_loop (S n) s = Ret s.
Proof.
  intros Hl. cbn [take_loop]. destruct (bigpatch s); [done|].
  by destruct (Z.ltb_spec (length1 (piece s)) (patch_size - Patch_Margin)); [lia|].
Qed.

Lemma append_context_covers ctx p :
  text1 (append_context ctx p) = text1 p ++ ctx ∧ text2 (append_context ctx p) = text2 p ++ ctx ∧
  start2 (append_context ctx p) = start2 p ∧ length1 (append_context ctx p) = (length1 p + zlen ctx)%Z.
Proof.
  unfold append_context. destruct ctx as [|c ctx]; [rewrite !app_nil_r; unfold zlen; cbn; split_and!; done || lia|].
  cbn [empty]. set (k := c :: ctx). unfold text1, text2. cbn [start2 length1 diffs].
  destruct (last (diffs p)) as [[op t]|] eqn:Hl; [|by rewrite diff_text1_snoc, diff_text2_snoc].
  destruct op; [by rewrite diff_text1_snoc, diff_text2_snoc..|].
  apply last_snoc_eq in Hl. rewrite Hl at 2 4. by rewrite !diff_text1_snoc, !diff_text2_snoc, !app_assoc.
Qed.

Lemma equality_text t : diff_text1 (equality t) = t ∧ diff_text2 (equality t) = t.
Proof. unfold equality. destruct t; [done|]. cbn [empty]. by rewrite diff_text1_one, diff_text2_one. Qed.

(** The rounds that the next context costs. *)
Definition full (pc : bytes) : nat := if (patch_size - Patch_Margin <=? zlen pc)%Z then 1 else 0.

Lemma split_context pc u : ∃ pc1 pc2, pc = pc1 ++ pc2 ∧
  safeMid (pc ++ u) (Z.max 0 (zlen pc - Patch_Margin)) = Ret (pc2 ++ u) ∧ (full pc = 1 → full pc2 = 0).
Proof.
  set (k := Z.max 0 (zlen pc - Patch_Margin)). assert (Hk : (0 ≤ k ≤ zlen pc)%Z).
  { unfold k, Patch_Margin. pose proof (zlen_nonneg pc). lia. }
  exists (take (Z.to_nat k) pc), (drop (Z.to_nat k) pc). rewrite take_drop. split; [done|]. split.
  - pose proof (safeMid_app (take (Z.to_nat k) pc) (drop (Z.to_nat k) pc ++ u)) as Hm.
    rewrite app_assoc, take_drop in Hm. rewrite <-Hm. f_equal. unfold zlen in *. rewrite length_take. lia.
  - unfold full, patch_size, Match_MaxBits, Patch_Margin. destruct (Z.leb_spec (32 - 4) (zlen pc)); [|done]. intros _.
    destruct (Z.leb_spec (32 - 4) (zlen (drop (Z.to_nat k) pc))) as [Hd|]; [|done].
    unfold k, zlen, Patch_Margin in *. rewrite length_drop in Hd. lia.
Qed.

(** What the inner loop makes of a fresh piece, and whether it costs a round. *)
Lemma round n big st1 st2 pc :
  big ≠ [] → size big < n →
  let k := zlen pc in
  let s0 := Splitting big (MkPatch (equality pc) (st1 - k) (st2 - k) k k) st1 st2 true in
  ∃ s' u1 u2, take_loop n s0 = Ret s' ∧ took s0 s' u1 u2 ∧ size (bigpatch s') ≤ size big ∧
    (full pc = 1 → u2 = []) ∧ (full pc = 0 → size (bigpatch s') < size big).
Proof.
  intros Hbig Hn k s0. unfold full. fold k.
  destruct (Z.leb_spec (patch_size - Patch_Margin) k) as [Hk|Hk].
  - destruct n as [|n]; [lia|]. exists s0, [], []. rewrite take_loop_full by done.
    split_and!; [done|apply took_refl|done..].
  - destruct (take_loop_took n s0 Hn) as (s' & u1 & u2 & H1 & H2 & H3 & H4). exists s', u1, u2.
    split_and!; [done..|]. intros _. by apply H4.
Qed.

Lemma split_loop_applies n big st1 st2 pc pre post :
  st2 = zlen (pre ++ pc) → 2 * size big + full pc < n →
  ∃ qs, split_loop n big st1 st2 pc = Ret qs ∧
    applies qs (pre ++ pc ++ diff_text1 big ++ post) (pre ++ pc ++ diff_text2 big ++ post).
Proof.
  revert big st1 st2 pc pre. induction n as [|n IH]; intros big st1 st2 pc pre Hst Hn; [lia|].
  cbn [split_loop]. case_decide as Hbig; [subst; exists []; split; [done|constructor]|].
  destruct (round (S (length big + length (diff_text1 big))) big st1 st2 pc Hbig) as
    (s' & u1 & u2 & Hs' & Ht & Hsz & Hfull & Hroom); [unfold size; lia|].
  rewrite Hs'. unfold bind_outcome. cbn [DmpDiff.bind_outcome].
  destruct Ht as (A1 & A2 & A3 & A4 & A5 & A6 & A7 & A8). unfold text1, text2 in A3, A4.
  cbn [bigpatch piece diffs length1 start2 pos2] in *.
  rewrite (proj1 (equality_text pc)) in A3. rewrite (proj2 (equality_text pc)) in A4. rewrite A4.
  destruct (split_context pc u2) as (pc1 & pc2 & Hpc & -> & Hshort). cbn [DmpDiff.bind_outcome].
  destruct (IH (bigpatch s') (pos1 s') (pos2 s') (pc2 ++ u2) (pre ++ pc1)) as (qs & Hqs & Happ).
  { rewrite A7, Hst, Hpc, !zlen_app. lia. }
  { destruct (full pc) as [|[|]] eqn:Hf; [| |unfold full in Hf; case_match; lia].
    - specialize (Hroom eq_refl). assert (full (pc2 ++ u2) ≤ 1) by (unfold full; case_match; lia). lia.
    - rewrite (Hfull eq_refl), app_nil_r, (Hshort eq_refl). lia. }
  rewrite Hqs. cbn [DmpDiff.bind_outcome]. eexists. split; [done|].
  assert (Happ' : applies qs (pre ++ pc ++ u2 ++ diff_text1 (bigpatch s') ++ post) (pre ++ pc ++ diff_text2 big ++ post)).
  { rewrite A2, Hpc, <-?app_assoc. by rewrite <-?app_assoc in Happ. }
  clear Happ. rewrite A1, <-app_assoc. destruct (piece_empty s') eqn:He; [destruct (A8 eq_refl) as [_ ->]; done|].
  set (ctx := take (Z.to_nat Patch_Margin) (diff_text1 (bigpatch s'))).
  set (r := drop (Z.to_nat Patch_Margin) (diff_text1 (bigpatch s'))).
  assert (Hr : diff_text1 (bigpatch s') = ctx ++ r) by (symmetry; apply take_drop). rewrite Hr in *.
  destruct (append_context_covers ctx (piece s')) as (T1 & T2 & St & Ln).
  unfold text1 at 2 in T1. unfold text2 at 2 in T2. rewrite A3 in T1. rewrite A4 in T2.
  assert (Hwhole : ∀ u, pre ++ pc ++ u ++ (ctx ++ r) ++ post = pre ++ ((pc ++ u) ++ ctx) ++ r ++ post)
    by (intros u; by rewrite <-?app_assoc).
  rewrite Hwhole in Happ' |- *. rewrite <-T1. rewrite <-T2 in Happ'. constructor; [| |done].
  - rewrite St, A6, Hst, zlen_app. lia.
  - rewrite Ln, A5, T1, !zlen_app. done.
Qed.

Lemma split_patch_applies p before after :
  start2 p = zlen before → length1 p = zlen (text1 p) →
  ∃ qs, split_patch p = Ret qs ∧ applies qs (before ++ text1 p ++ after) (before ++ text2 p ++ after).
Proof.
  intros Hs Hl. unfold split_patch. destruct (Z.leb_spec (length1 p) patch_size).
  - exists [p]. split; [done|]. constructor; [done|done|constructor].
  - destruct (split_loop_applies (2 * S (length (diffs p) + length (diff_text1 (diffs p)))) (diffs p)
      (start1 p) (start2 p) [] before after) as (qs & Hq & Ha); [by rewrite app_nil_r|change (full []) with 0; unfold size; lia|].
    by exists qs.
Qed.

Lemma splitMax_applies ps s t : applies ps s t → ∃ qs, patch_splitMax ps = Ret qs ∧ applies qs s t.
Proof.
  induction 1 as [s|p ps before after t Hs Hl _ (qs & Hq & Ha)]; [exists []; by split; [|constructor]|].
  destruct (split_patch_applies p before after Hs Hl) as (ps' & Hp & Hpa).
  exists (ps' ++ qs). cbn [patch_splitMax]. rewrite Hp, Hq. split; [done|]. by eapply applies_app.
Qed.

(** Patches that lead from [s] to [t], the first with its padding, are all
    applied and give [t]. *)
Theorem patch_apply_exact ps s t c :
  applies ps s t → padded ps s →
  ∃ rs, patch_apply ps s c = (Ret (t, rs), c) ∧ Forall (λ b, b = true) rs.
Proof.
  intros Ha Hp. unfold patch_apply. case_decide as Hn.
  { subst. inversion Ha; subst. exists []. by split. }
  destruct ps as [|p ps]; [done|]. destruct (addPadding_applies p ps s t Ha Hp) as (l & -> & _ & Hl). run.
  destruct (splitMax_applies _ _ _ Hl) as (qs & -> & Hq). run.
  rewrite (bind_run _ _ _ _ _ (apply_loop_exact _ _ _ _ Hq)).
  replace (zlen (nullPadding ++ t ++ nullPadding) - 2 * zlen nullPadding)%Z with (zlen t) by (rewrite !zlen_app; lia).
  rewrite safeMid_len_app. run. eexists. split; [done|].
  apply Forall_forall. by intros b [-> _]%elem_of_replicate.
Qed.

End DmpSplit.
