(* ===== verification/DmpMake.v ===== *)
(** * patch_make on diffs

    The patches [patch_make(text1, diffs)] makes apply to [text1] and give the
    text the diffs lead to, provided no small equality is taken for the last
    one.  [patch_make] compares a small equality inside a patch with
    [diffs.back()] by value, and leaves out one that is equal. *)

From S2P Require Import Prelude DmpDiff DmpPatch DmpText DmpApply DmpSplit.
Local Open Scope prog_scope.
Import DmpDiff.Str DmpDiff.DmpDiff DmpPatch.DmpPatch DmpText.DmpText DmpApply.DmpApply DmpSplit.DmpSplit.

Module DmpMake.
#[local] Hint Resolve zlen_nonneg : core.

(** ** The context of a patch *)

(** What [safeMid] takes around a part of a text. *)
Lemma safeMid_part s from len :
  (0 ≤ from)%Z → (0 ≤ len)%Z → (from + len ≤ zlen s)%Z →
  ∃ a b c, s = a ++ b ++ c ∧ zlen a = from ∧ zlen b = len ∧ safeMid_len s from len = Ret b.
Proof.
  intros Hf Hl Hs. unfold zlen in *.
  exists (take (Z.to_nat from) s), (take (Z.to_nat len) (drop (Z.to_nat from) s)), (drop (Z.to_nat len) (drop (Z.to_nat from) s)).
  assert (E1 : Z.of_nat (length (take (Z.to_nat from) s)) = from) by (rewrite length_take; lia).
  assert (E2 : Z.of_nat (length (take (Z.to_nat len) (drop (Z.to_nat from) s))) = len)
    by (rewrite length_take, length_drop; lia).
  rewrite !take_drop. split_and!; [done..|].
  pose proof (safeMid_len_app (take (Z.to_nat from) s) (take (Z.to_nat len) (drop (Z.to_nat from) s))
    (drop (Z.to_nat len) (drop (Z.to_nat from) s))) as H. unfold zlen in H. by rewrite !take_drop, E1, E2 in H.
Qed.

Lemma starts_with_length pat s : starts_with pat s = true → length pat ≤ length s.
Proof.
  revert s. induction pat as [|p pat IH]; intros [|c s]; cbn; try done; [lia|]. case_decide; [|done].
  intros ?%IH. lia.
Qed.

Lemma starts_with_refl s : starts_with s s = true.
Proof. rewrite <-(app_nil_r s) at 2. apply starts_with_app. Qed.

(** A text is found in itself once. *)
Lemma rfind_short pat s i k : length s < length pat → rfind_at pat s i k = None.
Proof.
  revert i. induction s as [|c s IH]; intros i Hl; cbn [rfind_at].
  - destruct (starts_with pat []) eqn:E; [apply starts_with_length in E; cbn in *; lia|]. by rewrite andb_false_r.
  - destruct (starts_with pat (c :: s)) eqn:E; [apply starts_with_length in E; lia|].
    rewrite IH by (cbn in *; lia). by rewrite andb_false_r.
Qed.

Lemma find_self s : s ≠ [] → find s s 0 = rfind s s (length s).
Proof.
  intros Hs. unfold find, rfind. cbn [Nat.leb drop]. destruct s as [|c s]; [done|].
  change (drop 0 (c :: s)) with (c :: s). cbn [find_at rfind_at].
  rewrite starts_with_refl, rfind_short by (cbn; lia). done.
Qed.

(** After six rounds the pattern is long, or the whole text. *)
Lemma context_loop_ends n i s st len pattern :
  (0 ≤ st)%Z → (0 ≤ len)%Z → (st + len ≤ zlen s)%Z → s ≠ [] →
  (zlen pattern = Z.min (zlen s) (st + len + 4 * Z.of_nat i) - Z.max 0 (st - 4 * Z.of_nat i))%Z →
  safeMid_len s (Z.max 0 (st - 4 * Z.of_nat i)) (zlen pattern) = Ret pattern →
  i ≤ 6 → 7 < n + i →
  ∃ padding, context_loop n s st len (4 * Z.of_nat i) pattern = Ret padding ∧ (0 ≤ padding)%Z.
Proof.
  intros Hst Hlen Hs Hne. revert i pattern. induction n as [|n IH]; intros i pattern Hp Hat Hi Hn; [lia|].
  cbn [context_loop]. case_decide as Hd; [|exists (4 * Z.of_nat i)%Z; split; [done|lia]].
  unfold Match_MaxBits, Patch_Margin. destruct (Z.ltb_spec (zlen pattern) (32 - 4 - 4)) as [Hlt|]; [|eexists; split; [done|lia]].
  assert (Hi6 : i ≤ 5).
  { destruct (decide (i = 6)) as [->|]; [|lia]. exfalso. apply Hd.
    assert (Hz : Z.max 0 (st - 4 * Z.of_nat 6) = 0%Z ∧ zlen pattern = zlen s) by lia. destruct Hz as [Hz1 Hz2].
    rewrite Hz1, Hz2 in Hat. destruct (safeMid_part s 0 (zlen s)) as (a & b & c & E & Ha & Hb & Hm); [lia..|].
    rewrite Hm in Hat. injection Hat as ->.
    assert (a = []) as -> by (destruct a; [done|unfold zlen in Ha; cbn in Ha; lia]).
    assert (c = []) as -> by (rewrite E, zlen_app in Hb; cbn [app] in Hb; rewrite zlen_app in Hb;
      destruct c; [done|unfold zlen in Hb; cbn in Hb; lia]).
    rewrite app_nil_r in E. cbn [app] in E. subst. by apply find_self. }
  replace (4 * Z.of_nat i + 4)%Z with (4 * Z.of_nat (S i))%Z by lia.
  set (from := Z.max 0 (st - 4 * Z.of_nat (S i))). set (len' := (Z.min (zlen s) (st + len + 4 * Z.of_nat (S i)) - from)%Z).
  destruct (safeMid_part s from len') as (a & b & c & _ & _ & Hb & Hm); [lia..|].
  rewrite Hm. unfold bind_outcome. cbn [DmpDiff.bind_outcome].
  apply IH; [by rewrite Hb|by rewrite Hb|lia|lia].
Qed.

Lemma context_padding s st len pattern :
  (0 ≤ st)%Z → (0 ≤ len)%Z → (st + len ≤ zlen s)%Z → s ≠ [] → safeMid_len s st len = Ret pattern →
  ∃ padding, context_loop 8 s st len 0 pattern = Ret padding ∧ (0 ≤ padding)%Z.
Proof.
  intros Hst Hlen Hs Hne Hp. destruct (safeMid_part s st len) as (a & b & c & _ & _ & Hb & Hm); [done..|].
  rewrite Hp in Hm. injection Hm as ->.
  apply (context_loop_ends 8 0 s st len b); [done..|lia| |lia|lia].
  replace (Z.max 0 (st - 4 * Z.of_nat 0)) with st by lia. by rewrite Hb.
Qed.

(** The context: at least a margin on both sides, or all there is. *)
Lemma addContext_covers p before0 rest :
  start1 p = zlen before0 → start2 p = zlen before0 → length1 p = zlen (text1 p) →
  ∃ before prefix suffix after, before0 = before ++ prefix ∧ rest = suffix ++ after ∧
    (4 ≤ length prefix ∨ before = []) ∧ (4 ≤ length suffix ∨ after = []) ∧
    patch_addContext p (before0 ++ text1 p ++ rest) =
      Ret (MkPatch (equality prefix ++ diffs p ++ equality suffix) (zlen before) (zlen before)
             (length1 p + (zlen prefix + zlen suffix)) (length2 p + (zlen prefix + zlen suffix))).
Proof.
  intros Hs1 Hs2 Hl. unfold patch_addContext. set (s := before0 ++ text1 p ++ rest).
  assert (Hlen : zlen s = (zlen before0 + zlen (text1 p) + zlen rest)%Z) by (unfold s; rewrite !zlen_app; lia).
  pose proof (zlen_nonneg before0). pose proof (zlen_nonneg (text1 p)). pose proof (zlen_nonneg rest).
  assert (Hempty : ∀ l : bytes, zlen l = 0%Z → l = []) by (intros []; [done|unfold zlen; cbn; lia]).
  destruct (empty s) eqn:He.
  { assert (s = []) as Hnil by by destruct s. rewrite Hnil in Hlen. change (zlen []) with 0%Z in Hlen.
    rewrite (Hempty before0), (Hempty rest) by lia. exists [], [], [], []. split_and!; [done|done|by right|by right|].
    destruct p; cbn in *. rewrite app_nil_r. f_equal. f_equal; unfold zlen in *; cbn in *; lia. }
  assert (Hne : s ≠ []) by by destruct s. rewrite Hs2, Hl.
  pose proof (safeMid_len_app before0 (text1 p) rest) as Hpat. fold s in Hpat. rewrite Hpat.
  unfold bind_outcome at 1. cbn [DmpDiff.bind_outcome].
  destruct (context_padding s (zlen before0) (zlen (text1 p)) (text1 p)) as (k & -> & Hk); [lia..|done|done|].
  unfold bind_outcome. cbn [DmpDiff.bind_outcome]. unfold Patch_Margin.
  set (from := Z.max 0 (zlen before0 - (k + 4))).
  destruct (safeMid_part before0 from (zlen before0 - from)) as (b & prefix & z & Eb & Hb & Hpre & _); [lia..|].
  assert (z = []) as ->.
  { apply Hempty. pose proof (f_equal zlen Eb) as Hz. rewrite !zlen_app in Hz. lia. }
  rewrite app_nil_r in Eb.
  set (m := (Z.min (zlen s) (zlen before0 + zlen (text1 p) + (k + 4)) - (zlen before0 + zlen (text1 p)))%Z).
  destruct (safeMid_part rest 0 m) as (y & suffix & a & Er & Hy & Hsuf & _); [lia..|].
  rewrite (Hempty y Hy) in Er. cbn [app] in Er.
  exists b, prefix, suffix, a. split; [done|]. split; [done|].
  assert (Hm1 : safeMid_len s from (zlen before0 - from) = Ret prefix).
  { rewrite <-Hpre, <-Hb. unfold s. rewrite Eb, <-app_assoc. apply safeMid_len_app. }
  assert (Hm2 : safeMid_len s (zlen before0 + zlen (text1 p)) m = Ret suffix).
  { rewrite <-Hsuf, <-zlen_app. unfold s. rewrite Er, app_assoc. apply safeMid_len_app. }
  rewrite Hm1. cbn [DmpDiff.bind_outcome]. rewrite Hm2. cbn [DmpDiff.bind_outcome].
  split_and!.
  - destruct (decide (b = [])); [by right|left]. assert (zlen b ≠ 0)%Z by (intros ?%Hempty; done). unfold zlen in *. lia.
  - destruct (decide (a = [])); [by right|left]. assert (zlen a ≠ 0)%Z by (intros ?%Hempty; done).
    pose proof (f_equal zlen Er) as Hz. rewrite zlen_app in Hz. pose proof (zlen_nonneg a). unfold zlen in *. lia.
  - pose proof (f_equal zlen Eb) as Hz. rewrite zlen_app in Hz. f_equal. f_equal; lia.
Qed.

(** ** The loop *)

(** No equality inside a patch is dropped: a short one that equals the last
    diff is the last.  [open] says that a patch has begun. *)
Fixpoint keeps_from (back : Diff) (open : bool) (l : Diffs) : bool :=
  match l with
  | [] => true
  | d :: l =>
      match operation d with
      | EQUAL =>
          if (2 * Patch_Margin <=? zlen (text d))%Z then keeps_from back false l
          else if open && bool_decide (d = back) then bool_decide (l = [])
          else keeps_from back open l
      | _ => keeps_from back true l
      end
  end.
Definition keeps_equalities (l : Diffs) : bool :=
  match last l with Some back => keeps_from back false l | None => true end.

Section loop.
(** A property of characters, and the text the patches are for. *)
Context (Q : ascii → Prop) (source : bytes).

Definition all_Q (l : Diffs) : Prop := Forall (λ d, Forall Q (text d)) l.

(** What is known of the patches made, at the text [s] they lead to. *)
Record made (ps : Patches) (s : bytes) : Prop := {
  made_applies : applies ps source s;
  made_padded : padded ps source;
  made_ok : Forall patch_ok ps;
  made_Q : Forall (λ p, all_Q (diffs p)) ps;
}.

Lemma made_snoc ps s p before after :
  made ps s → s = before ++ text1 p ++ after → start2 p = zlen before → length1 p = zlen (text1 p) →
  front_ok p before → back_ok p after → patch_ok p → all_Q (diffs p) →
  made (ps ++ [p]) (before ++ text2 p ++ after).
Proof.
  intros [Ha Hp Ho HQ] -> Hs Hl Hf Hb Hok HQp. split.
  - eapply applies_app; [done|]. constructor; [done|done|constructor].
  - destruct ps as [|p' ps]; [|done]. inversion Ha; subst. exists before, after. split_and!; done.
  - apply Forall_app. split; [done|]. by constructor.
  - apply Forall_app. split; [done|]. by constructor.
Qed.

(** The patch begun, at the end of [done], and what follows it. *)
Record patch_inv (m : making) (done : bytes) (rest : bytes) : Prop := {
  inv_made : made (patches m) (prepatch_text m);
  inv_pre : prepatch_text m = done ++ text1 (patch m) ++ rest;
  inv_post : postpatch_text m = done ++ text2 (patch m) ++ rest;
  inv_length1 : length1 (patch m) = zlen (text1 (patch m));
  inv_length2 : length2 (patch m) = zlen (text2 (patch m));
  inv_start : diffs (patch m) ≠ [] → start1 (patch m) = zlen done ∧ start2 (patch m) = zlen done;
  inv_head : match diffs (patch m) with MkDiff EQUAL _ :: _ => False | _ => True end;
  inv_Q : Forall Q (prepatch_text m) ∧ all_Q (diffs (patch m));
}.

Lemma equality_Q t : Forall Q t → all_Q (equality t).
Proof. intros Ht. unfold equality. destruct t; [constructor|]. by constructor; [|constructor]. Qed.

(** The patch that [flush] adds. *)
Lemma flush_made m done rest :
  patch_inv m done rest → diffs (patch m) ≠ [] → Forall Q (postpatch_text m) →
  (zlen (prepatch_text m) < 2 ^ 31 - 1)%Z → (zlen (postpatch_text m) < 2 ^ 31)%Z →
  ∃ ps, flush m = Ret (Making ps Patch_new (char_count2 m) (char_count2 m) (postpatch_text m) (postpatch_text m)) ∧
    made ps (postpatch_text m).
Proof.
  intros [Hm Hpre Hpost Hl1 Hl2 Hst Hhd [HQ1 HQ2]] Hne HQ Hb1 Hb2. destruct (Hst Hne) as [Hs1 Hs2].
  destruct (addContext_covers (patch m) done rest Hs1 Hs2 Hl1) as
    (before & prefix & suffix & after & -> & -> & Hprefix & Hsuffix & Hadd).
  unfold flush. rewrite Hpre, Hadd. eexists. split; [reflexivity|].
  set (p := MkPatch _ _ _ _ _). assert (Ht : text1 p = prefix ++ text1 (patch m) ++ suffix ∧
    text2 p = prefix ++ text2 (patch m) ++ suffix).
  { unfold p, text1, text2. cbn [diffs]. rewrite !diff_text1_app, !diff_text2_app.
    by rewrite !(proj1 (equality_text _)), !(proj2 (equality_text _)). }
  destruct Ht as [Ht1 Ht2].
  assert (Epre : prepatch_text m = before ++ text1 p ++ after) by (rewrite Hpre, Ht1; by rewrite <-?app_assoc).
  assert (Epost : postpatch_text m = before ++ text2 p ++ after) by (rewrite Hpost, Ht2; by rewrite <-?app_assoc).
  assert (Hl : length1 p = zlen (text1 p)) by (rewrite Ht1, !zlen_app; cbn [p length1]; lia).
  assert (Hl' : length2 p = zlen (text2 p)) by (rewrite Ht2, !zlen_app; cbn [p length2]; lia).
  rewrite Epost in *. rewrite Epre in Hb1. rewrite !zlen_app in Hb1, Hb2.
  pose proof (zlen_nonneg before). pose proof (zlen_nonneg after).
  pose proof (zlen_nonneg (text1 p)). pose proof (zlen_nonneg (text2 p)).
  apply (made_snoc _ (prepatch_text m)); [done|exact Epre|done|exact Hl|..].
  - destruct Hprefix as [Hp|Hp]; [left|by right]. unfold p. cbn [diffs]. by destruct prefix; [cbn in Hp; lia|].
  - destruct Hsuffix as [Hp|Hp]; [left|by right]. unfold p. cbn [diffs].
    destruct suffix as [|c suffix]; [cbn in Hp; lia|]. cbn [equality empty]. by rewrite app_assoc, last_snoc.
  - unfold patch_ok, coords_ok. rewrite Hl, Hl'. cbn [p start1 start2]. lia.
  - unfold p. cbn [diffs]. rewrite Hpre in HQ1. rewrite !Forall_app in HQ1. destruct HQ1 as ((_ & ?) & _ & ? & _).
    unfold all_Q. rewrite !Forall_app. split; [by apply equality_Q|split; [done|by apply equality_Q]].
Qed.

Lemma all_Q_text l : all_Q l → Forall Q (diff_text1 l) ∧ Forall Q (diff_text2 l).
Proof.
  intros Hl. induction Hl as [|[op t] l Ht _ [IH1 IH2]]; [by split|].
  rewrite diff_text1_cons, diff_text2_cons. split; apply Forall_app_2; try done; by destruct op.
Qed.

(** The loop before the diffs [l]; [target] is where they lead. *)
Record loop_inv (m : making) (done : bytes) (l : Diffs) (target : bytes) : Prop := {
  loop_patch : patch_inv m done (diff_text1 l);
  loop_count1 : char_count1 m = zlen (done ++ text1 (patch m));
  loop_count2 : char_count2 m = zlen (done ++ text2 (patch m));
  loop_target : target = done ++ text2 (patch m) ++ diff_text2 l;
  loop_Q : all_Q l;
  loop_bound : (zlen done + zlen (text1 (patch m)) + zlen (text2 (patch m)) + zlen (diff_text1 l) + zlen (diff_text2 l) < 2 ^ 31 - 1)%Z;
}.

Lemma loop_post_Q m done l target : loop_inv m done l target → Forall Q (postpatch_text m).
Proof.
  intros [[_ Hpre Hpost _ _ _ _ [HQ1 HQ2]] _ _ _ HQ _]. rewrite Hpre in HQ1. rewrite Hpost.
  rewrite !Forall_app in *. destruct HQ1 as (? & _ & ?). split_and!; try done. by apply all_Q_text.
Qed.

(** What [make_step] makes of the patch when an edit comes. *)
Lemma open_patch m done rest d :
  patch_inv m done rest → char_count1 m = zlen (done ++ text1 (patch m)) → char_count2 m = zlen (done ++ text2 (patch m)) →
  operation d ≠ EQUAL →
  let p := if decide (diffs (patch m) = [] ∧ operation d ≠ EQUAL)
           then MkPatch [] (char_count1 m) (char_count2 m) (length1 (patch m)) (length2 (patch m)) else patch m in
  diffs p = diffs (patch m) ∧ start1 p = zlen done ∧ start2 p = zlen done ∧
  length1 p = zlen (text1 (patch m)) ∧ length2 p = zlen (text2 (patch m)).
Proof.
  intros [_ _ _ Hl1 Hl2 Hst _ _] Hc1 Hc2 Hd p. subst p.
  destruct (decide (diffs (patch m) = [])) as [Hn|Hn].
  - rewrite decide_True by done. cbn. unfold text1, text2 in *. rewrite Hn in *. rewrite Hc1, Hc2, !app_nil_r. by split_and!.
  - rewrite decide_False by by intros [? _]. destruct (Hst Hn). by split_and!.
Qed.

Lemma head_snoc P d : operation d ≠ EQUAL ∨ P ≠ [] →
  match P with MkDiff EQUAL _ :: _ => False | _ => True end →
  match P ++ [d] with MkDiff EQUAL _ :: _ => False | _ => True end.
Proof. destruct P; [|done]. intros [Hd|?] _; [|done]. by destruct d as [[] t]. Qed.

Lemma snoc_texts P d : diff_text1 (P ++ [d]) = diff_text1 P ++ part1 d ∧ diff_text2 (P ++ [d]) = diff_text2 P ++ part2 d.
Proof. by rewrite diff_text1_app, diff_text2_app, diff_text1_one, diff_text2_one. Qed.

(** An edit goes to the patch. *)
Lemma step_edit back d m done l target :
  loop_inv m done (d :: l) target → operation d ≠ EQUAL →
  ∃ m', make_step back d m = Ret m' ∧ loop_inv m' done l target ∧ diffs (patch m') ≠ [].
Proof.
  intros [Hp Hc1 Hc2 Ht HQ Hb] Hd.
  pose proof (open_patch m done _ d Hp Hc1 Hc2 Hd) as Ho. cbv zeta in Ho.
  unfold make_step. set (p := if decide _ then _ else _) in *. destruct Ho as (Hdiffs & Hs1 & Hs2 & Hl1 & Hl2).
  destruct Hp as [Hm Hpre Hpost _ _ _ Hhd [HQ1 HQ2]]. apply Forall_cons in HQ as [HQd HQl].
  rewrite diff_text1_cons in *. rewrite diff_text2_cons in *. rewrite !zlen_app in Hb.
  assert (E1 : diff_text1 (diffs p ++ [d]) = text1 (patch m) ++ part1 d)
    by (rewrite (proj1 (snoc_texts (diffs p) d)); unfold text1; by rewrite Hdiffs).
  assert (E2 : diff_text2 (diffs p ++ [d]) = text2 (patch m) ++ part2 d)
    by (rewrite (proj2 (snoc_texts (diffs p) d)); unfold text2; by rewrite Hdiffs).
  clearbody p.
  destruct d as [op t]. unfold part1, part2 in *. cbn [operation text] in *. destruct op; [| |done].
  - replace (postpatch_text m) with (((done ++ text2 (patch m)) ++ t) ++ diff_text1 l) by (rewrite Hpost; by rewrite <-?app_assoc).
    rewrite Hc2, <-zlen_app, safeMid_app. unfold bind_outcome. cbn [DmpDiff.bind_outcome]. eexists. split; [done|].
    rewrite <-app_assoc, left_app. split; [|cbn; by destruct (diffs p)]. split; [split|..]; cbn [patches patch char_count1 char_count2 prepatch_text postpatch_text diffs start1 start2 length1 length2];
      unfold text1, text2; cbn [diffs]; rewrite ?E1, ?E2, ?app_nil_r; try done.
    + rewrite Hpre. by rewrite <-?app_assoc.
    + by rewrite <-?app_assoc.
    + rewrite Hl1, zlen_app. done.
    + by rewrite Hdiffs in *; apply head_snoc; [left|].
    + split; [done|]. apply Forall_app. rewrite Hdiffs. split; [done|by constructor].
    + rewrite Hc1, !zlen_app. lia.
    + unfold zlen in *. rewrite !length_app in *. cbn in *. lia.
  - rewrite Hpost. rewrite (app_assoc done), Hc2, safeMid_app. unfold bind_outcome. cbn [DmpDiff.bind_outcome]. eexists. split; [done|].
    rewrite left_app. split; [|cbn; by destruct (diffs p)]. split; [split|..]; cbn [patches patch char_count1 char_count2 prepatch_text postpatch_text diffs start1 start2 length1 length2];
      unfold text1, text2; cbn [diffs]; rewrite ?E1, ?E2, ?app_nil_r; try done.
    + by rewrite <-?app_assoc.
    + rewrite Hl2, zlen_app. done.
    + by rewrite Hdiffs in *; apply head_snoc; [left|].
    + split; [done|]. apply Forall_app. rewrite Hdiffs. split; [done|by constructor].
    + rewrite !zlen_app. unfold text2. lia.
    + rewrite Ht. by rewrite <-?app_assoc.
    + rewrite zlen_app. unfold zlen in *. cbn in *. lia.
Qed.
(** A small equality goes to the patch begun. *)
Definition pushed (t : bytes) (m : making) : making :=
  let p := patch m in
  Making (patches m)
    (MkPatch (diffs p ++ [MkDiff EQUAL t]) (start1 p) (start2 p) (length1 p + zlen t) (length2 p + zlen t))
    (char_count1 m) (char_count2 m) (prepatch_text m) (postpatch_text m).

Lemma pushed_inv t m done rest :
  patch_inv m done (t ++ rest) → diffs (patch m) ≠ [] → Forall Q t → patch_inv (pushed t m) done rest.
Proof.
  intros [Hm Hpre Hpost Hl1 Hl2 Hst Hhd [HQ1 HQ2]] Hne Ht.
  split; unfold text1, text2 in *; cbn [pushed patches patch prepatch_text postpatch_text diffs start1 start2 length1 length2];
    rewrite ?diff_text1_snoc, ?diff_text2_snoc.
  - done.
  - by rewrite Hpre, <-?app_assoc.
  - by rewrite Hpost, <-?app_assoc.
  - rewrite zlen_app. lia.
  - rewrite zlen_app. lia.
  - intros _. by apply Hst.
  - apply head_snoc; [by right|done].
  - split; [done|]. apply Forall_app. split; [done|]. by constructor.
Qed.

(** After a flush. *)
Lemma flushed_inv ps s n done rest :
  made ps s → s = done ++ rest → Forall Q s → patch_inv (Making ps Patch_new n n s s) done rest.
Proof.
  intros Hm -> HQ. split; cbn [patches patch prepatch_text postpatch_text Patch_new diffs]; try done.
  split; [done|constructor].
Qed.

Lemma made_bounds m done l target : loop_inv m done l target →
  (zlen (prepatch_text m) < 2 ^ 31 - 1)%Z ∧ (zlen (postpatch_text m) < 2 ^ 31)%Z.
Proof.
  intros [[_ Hpre Hpost _ _ _ _ _] _ _ _ _ Hb]. rewrite Hpre, Hpost, !zlen_app.
  pose proof (zlen_nonneg (text1 (patch m))). pose proof (zlen_nonneg (text2 (patch m))).
  pose proof (zlen_nonneg (diff_text2 l)). lia.
Qed.

(** A flush at an equality, of which [u] is not in the patch. *)
Lemma flush_step m done u l target n :
  patch_inv m done (u ++ diff_text1 l) → diffs (patch m) ≠ [] → all_Q l → Forall Q (postpatch_text m) →
  (zlen (prepatch_text m) < 2 ^ 31 - 1)%Z → (zlen (postpatch_text m) < 2 ^ 31)%Z →
  let done' := done ++ text2 (patch m) ++ u in
  target = done' ++ diff_text2 l → (char_count2 m + n)%Z = zlen done' →
  (zlen done' + zlen (diff_text1 l) + zlen (diff_text2 l) < 2 ^ 31 - 1)%Z →
  ∃ ps, bind_outcome (flush m) (λ m, Ret (Making (patches m) (patch m) (char_count1 m + n) (char_count2 m + n)
           (prepatch_text m) (postpatch_text m))) =
        Ret (Making ps Patch_new (char_count2 m + n) (char_count2 m + n) (postpatch_text m) (postpatch_text m)) ∧
    loop_inv (Making ps Patch_new (char_count2 m + n) (char_count2 m + n) (postpatch_text m) (postpatch_text m)) done' l target.
Proof.
  intros Hp Hne HQl HQ Hb1 Hb2 done' Ht Hn Hb. destruct (flush_made m done _ Hp Hne HQ Hb1 Hb2) as (ps & -> & Hm).
  exists ps. split; [done|]. split; cbn [patch char_count1 char_count2]; try done.
  - apply flushed_inv; [done| |done]. rewrite (inv_post _ _ _ Hp). unfold done'. by rewrite <-?app_assoc.
  - change (text1 Patch_new) with (@nil ascii). by rewrite app_nil_r.
  - change (text2 Patch_new) with (@nil ascii). by rewrite app_nil_r.
  - change (zlen (text1 Patch_new)) with 0%Z. change (zlen (text2 Patch_new)) with 0%Z. lia.
Qed.

Lemma step_equal back t m done l target :
  let d := MkDiff EQUAL t in
  loop_inv m done (d :: l) target → (zlen t < 2 * Patch_Margin → diffs (patch m) ≠ [] → d ≠ back)%Z →
  ∃ m' done', make_step back d m = Ret m' ∧ loop_inv m' done' l target ∧
    (diffs (patch m') ≠ [] ↔ diffs (patch m) ≠ [] ∧ (zlen t < 2 * Patch_Margin)%Z).
Proof.
  intros d Hinv Hkeep. subst d. pose proof (made_bounds _ _ _ _ Hinv) as [Hb1 Hb2]. pose proof (loop_post_Q _ _ _ _ Hinv) as HQp.
  destruct Hinv as [Hp Hc1 Hc2 Ht HQ Hb]. apply Forall_cons in HQ as [HQd HQl]. cbn [text] in HQd.
  rewrite diff_text1_cons in *. rewrite diff_text2_cons in *. unfold part1, part2 in *. cbn [operation text] in *.
  rewrite !zlen_app in Hb. pose proof (zlen_nonneg t). pose proof (zlen_nonneg (text1 (patch m))).
  unfold make_step. cbn [operation text]. rewrite (decide_False (P := diffs (patch m) = [] ∧ EQUAL ≠ EQUAL)) by by intros [_ ?].
  destruct (decide (diffs (patch m) = [])) as [Hn|Hne].
  { rewrite (decide_False (P := (zlen t ≤ 2 * Patch_Margin)%Z ∧ _)) by by intros (_ & ? & _).
    rewrite decide_False by by intros [_ ?].
    unfold bind_outcome. cbn [DmpDiff.bind_outcome].
    assert (Hnil : text1 (patch m) = [] ∧ text2 (patch m) = []) by (unfold text1, text2; by rewrite Hn). destruct Hnil as [N1 N2].
    eexists _, (done ++ t). split; [done|]. split; [|cbn; by rewrite Hn; split; [|intros [? _]]].
    destruct Hp as [Hm Hpre Hpost Hl1 Hl2 Hst Hhd HQm]. rewrite N1, N2 in *. cbn [app] in *.
    split; [split|..]; cbn [patches patch char_count1 char_count2 prepatch_text postpatch_text]; rewrite ?N1, ?N2; cbn [app]; try done.
    - by rewrite <-app_assoc.
    - by rewrite <-app_assoc.
    - rewrite !zlen_app in *. change (zlen []) with 0%Z in *. lia.
    - rewrite !zlen_app in *. change (zlen []) with 0%Z in *. lia.
    - rewrite Ht. by rewrite <-app_assoc.
    - rewrite zlen_app. lia. }
  destruct (Z.lt_ge_cases (zlen t) (2 * Patch_Margin)) as [Hlt|Hge].
  - rewrite (decide_True (P := (zlen t ≤ 2 * Patch_Margin)%Z ∧ _)) by (split_and!; [lia|done|by apply Hkeep]).
    rewrite decide_False by lia. unfold bind_outcome. cbn [DmpDiff.bind_outcome].
    eexists _, done. split; [done|]. split; [|cbn; split; [done|by destruct (diffs (patch m))]].
    pose proof (pushed_inv t m done _ Hp Hne HQd) as Hp'.
    split; cbn [patches patch char_count1 char_count2 prepatch_text postpatch_text]; try done.
    + by destruct Hp'.
    + unfold text1. cbn [diffs]. rewrite diff_text1_snoc, app_assoc, zlen_app. unfold text1 in Hc1. lia.
    + unfold text2. cbn [diffs]. rewrite diff_text2_snoc, app_assoc, zlen_app. unfold text2 in Hc2. lia.
    + unfold text2. cbn [diffs]. rewrite diff_text2_snoc, Ht. unfold text2. by rewrite <-?app_assoc.
    + unfold text1, text2 in *. cbn [diffs]. rewrite diff_text1_snoc, diff_text2_snoc, !zlen_app. lia.
  - rewrite (decide_True (P := (2 * Patch_Margin ≤ zlen t)%Z ∧ _)); [|split; [done|by case_decide; [destruct (diffs (patch m))|]]].
    assert (Hcount : (char_count2 m + zlen t)%Z = zlen (done ++ text2 (patch m) ++ t)) by (rewrite Hc2, !zlen_app; lia).
    case_decide as Hpush.
    + destruct (flush_step (pushed t m) done [] l target (zlen t)) as (ps & Hf & Hinv');
        [by apply pushed_inv|by cbn; destruct (diffs (patch m))|done..| | | |].
      * unfold text2. cbn [pushed patch diffs char_count2]. rewrite diff_text2_snoc, app_nil_r, Ht. unfold text2. by rewrite <-?app_assoc.
      * unfold text2. cbn [pushed patch diffs char_count2]. rewrite diff_text2_snoc, app_nil_r. exact Hcount.
      * unfold text2. cbn [pushed patch diffs char_count2]. rewrite diff_text2_snoc, app_nil_r, !zlen_app. unfold text2 in Hb. lia.
      * eexists _, _. split; [exact Hf|]. split; [exact Hinv'|]. cbn. split; [done|lia].
    + destruct (flush_step (Making (patches m) (patch m) (char_count1 m) (char_count2 m) (prepatch_text m) (postpatch_text m))
        done t l target (zlen t)) as (ps & Hf & Hinv'); [by destruct m|done..| | | |].
      * cbn. rewrite Ht. by rewrite <-?app_assoc.
      * exact Hcount.
      * cbn. rewrite !zlen_app. lia.
      * eexists _, _. split; [exact Hf|]. split; [exact Hinv'|]. cbn. split; [done|lia].
Qed.
Lemma make_loop_inv back l m done target :
  loop_inv m done l target → keeps_from back (bool_decide (diffs (patch m) ≠ [])) l = true →
  ∃ m' done' rest, make_loop back l m = Ret m' ∧ patch_inv m' done' rest ∧
    target = done' ++ text2 (patch m') ++ rest ∧ Forall Q (postpatch_text m') ∧
    (zlen (prepatch_text m') < 2 ^ 31 - 1)%Z ∧ (zlen (postpatch_text m') < 2 ^ 31)%Z.
Proof.
  revert m done. induction l as [|d l IH]; intros m done Hinv Hk.
  { exists m, done, []. pose proof (made_bounds _ _ _ _ Hinv) as [??]. pose proof (loop_post_Q _ _ _ _ Hinv).
    destruct Hinv as [Hp _ _ -> _ _]. by split_and!. }
  cbn [make_loop keeps_from] in *. destruct (decide (operation d = EQUAL)) as [He|He].
  - destruct d as [op t]. cbn [operation text] in *. subst op.
    destruct (Z.leb_spec (2 * Patch_Margin) (zlen t)) as [Hge|Hlt];
      [|destruct (bool_decide (diffs (patch m) ≠ []) && bool_decide (MkDiff EQUAL t = back)) eqn:Hdrop].
    + destruct (step_equal back t m done l target Hinv) as (m' & done' & -> & Hinv' & Hne); [lia|].
      eapply IH; [done|]. rewrite bool_decide_eq_false_2; [done|]. rewrite Hne. lia.
    + apply andb_true_iff in Hdrop as [Hne%bool_decide_eq_true_1 <-%bool_decide_eq_true_1].
      apply bool_decide_eq_true_1 in Hk as ->. cbn [make_loop].
      pose proof (made_bounds _ _ _ _ Hinv) as [??]. pose proof (loop_post_Q _ _ _ _ Hinv).
      destruct Hinv as [Hp _ _ -> _ _]. unfold make_step. cbn [operation text].
      rewrite (decide_False (P := diffs (patch m) = [] ∧ EQUAL ≠ EQUAL)) by by intros [_ ?].
      rewrite (decide_False (P := (zlen t ≤ 2 * Patch_Margin)%Z ∧ _)) by by intros (_ & _ & ?).
      rewrite decide_False by lia. unfold bind_outcome. cbn [DmpDiff.bind_outcome].
      eexists _, done, t. split; [done|]. rewrite diff_text1_one in Hp. rewrite diff_text2_one. cbn.
      split; [by destruct Hp|]. by split_and!.
    + destruct (step_equal back t m done l target Hinv) as (m' & done' & -> & Hinv' & Hne).
      { intros _ Hp Hd. by rewrite !bool_decide_eq_true_2 in Hdrop by done. }
      eapply IH; [done|]. replace (bool_decide (diffs (patch m') ≠ [])) with (bool_decide (diffs (patch m) ≠ [])); [done|].
      apply bool_decide_ext. rewrite Hne. naive_solver.
  - destruct (step_edit back d m done l target Hinv He) as (m' & -> & Hinv' & Hne).
    eapply IH; [done|]. rewrite bool_decide_eq_true_2 by done. by destruct d as [[] t].
Qed.

(** The patches made of the diffs [l]. *)
Lemma patch_make_diffs_made l :
  source = diff_text1 l → all_Q l → keeps_equalities l = true →
  (zlen (diff_text1 l) + zlen (diff_text2 l) < 2 ^ 31 - 1)%Z →
  ∃ ps, patch_make_diffs source l = Ret ps ∧ made ps (diff_text2 l).
Proof.
  intros Hs HQ Hk Hb. unfold patch_make_diffs, keeps_equalities in *.
  destruct (last l) as [back|] eqn:Hlast.
  2:{ apply last_None in Hlast as ->. exists []. split; [done|]. split; [rewrite Hs; constructor|done|constructor..]. }
  destruct (make_loop_inv back l (Making [] Patch_new 0 0 source source) [] (diff_text2 l)) as
    (m & before & rest & -> & Hp & Ht & HQp & Hb1 & Hb2); [|done|].
  - assert (HQs : Forall Q source) by (rewrite Hs; by apply all_Q_text).
    split; cbn [patch char_count1 char_count2]; try done.
    + split; cbn [patches patch prepatch_text postpatch_text Patch_new diffs]; try done.
      * by split; [constructor| |constructor..].
      * by split; [|constructor].
  - unfold bind_outcome. cbn [DmpDiff.bind_outcome]. case_decide as Hn.
    + exists (patches m). split; [done|]. destruct Hp as [Hm Hpre _ _ _ _ _ _]. rewrite Hpre in Hm.
      unfold text1, text2 in *. rewrite Hn in *. by rewrite Ht.
    + destruct (flush_made m before rest Hp Hn HQp Hb1 Hb2) as (ps & -> & Hm). cbn. exists ps. split; [done|].
      by rewrite Ht, <-(inv_post _ _ _ Hp).
Qed.
End loop.

(** ** Patches are always made *)

Lemma addContext_ends p s : (0 ≤ start2 p)%Z → (0 ≤ length1 p)%Z → (start2 p + length1 p ≤ zlen s)%Z →
  ∃ q, patch_addContext p s = Ret q.
Proof.
  intros Hs Hl Hb. unfold patch_addContext. destruct (empty s) eqn:He; [by eexists|].
  assert (Hne : s ≠ []) by by destruct s. unfold bind_outcome.
  destruct (safeMid_part s (start2 p) (length1 p)) as (? & b & ? & _ & _ & _ & Hm); [done..|]. rewrite Hm. cbn [DmpDiff.bind_outcome].
  destruct (context_padding s (start2 p) (length1 p) b) as (k & -> & Hk); [done..|]. cbn [DmpDiff.bind_outcome]. unfold Patch_Margin.
  destruct (safeMid_part s (Z.max 0 (start2 p - (k + 4))) (start2 p - Z.max 0 (start2 p - (k + 4)))) as (? & pre & ? & _ & _ & _ & Hp); [lia..|].
  rewrite Hp. cbn [DmpDiff.bind_outcome].
  destruct (safeMid_part s (start2 p + length1 p) (Z.min (zlen s) (start2 p + length1 p + (k + 4)) - (start2 p + length1 p))) as (? & suf & ? & _ & _ & _ & Hq); [lia..|].
  rewrite Hq. by eexists.
Qed.

(** In the loop, whatever it drops: the texts reach behind the characters that
    are still to come, of which the first text has [n]. *)
Record in_text (m : making) (n : nat) : Prop := {
  it_post : zlen (postpatch_text m) = (char_count2 m + Z.of_nat n)%Z;
  it_count : (0 ≤ char_count2 m)%Z ∧ (0 ≤ length1 (patch m))%Z;
  it_open : diffs (patch m) ≠ [] → (0 ≤ start2 (patch m) ∧ start2 (patch m) + length1 (patch m) + Z.of_nat n ≤ zlen (prepatch_text m))%Z;
  it_closed : diffs (patch m) = [] → length1 (patch m) = 0%Z ∧ (char_count2 m + Z.of_nat n ≤ zlen (prepatch_text m))%Z;
}.

Lemma flush_ends m : (0 ≤ start2 (patch m))%Z → (0 ≤ length1 (patch m))%Z →
  (start2 (patch m) + length1 (patch m) ≤ zlen (prepatch_text m))%Z →
  ∃ ps, flush m = Ret (Making ps Patch_new (char_count2 m) (char_count2 m) (postpatch_text m) (postpatch_text m)).
Proof.
  intros Hs Hl Hb. unfold flush. destruct (addContext_ends (patch m) (prepatch_text m) Hs Hl Hb) as (q & ->). by eexists.
Qed.

Lemma make_step_ends back d m n : in_text m (length (part1 d) + n) → ∃ m', make_step back d m = Ret m' ∧ in_text m' n.
Proof.
  destruct d as [op t], m as [ps p c1 c2 pre post]. intros [Hp [Hc Hl] Ho Hcl]. unfold make_step. cbn [operation text] in *.
  cbn [patches patch char_count1 char_count2 prepatch_text postpatch_text] in *.
  assert (Hmid : ∀ x, (0 ≤ x ≤ zlen post)%Z → ∃ r, safeMid post x = Ret r ∧ zlen r = (zlen post - x)%Z).
  { intros x Hx. unfold safeMid. rewrite (proj2 (Z.leb_le _ _)), (proj2 (Z.leb_le _ _)) by lia. eexists. split; [done|].
    unfold zlen in *. rewrite length_drop. lia. }
  assert (Hleft : zlen (left post c2) = c2).
  { unfold left, zlen in *. rewrite (proj2 (Z.ltb_ge _ _)), length_take by lia. lia. }
  assert (Hnil : diffs p = [] ∨ diffs p ≠ []) by (destruct (diffs p); [by left|by right]).
  destruct op; cbn [part1 operation text length] in *; unfold bind_outcome.
  - destruct (Hmid (c2 + zlen t)%Z) as (r & -> & Hr); [unfold zlen in *; lia|]. cbn [DmpDiff.bind_outcome].
    eexists. split; [done|]. split; cbn [patches patch char_count1 char_count2 prepatch_text postpatch_text length1 diffs start2].
    + rewrite zlen_app, Hleft, Hr. unfold zlen in *. lia.
    + case_decide; cbn [length1]; unfold zlen; lia.
    + intros _. case_decide as Hd; cbn [length1 start2].
      * destruct Hd as [Hd _]. specialize (Hcl Hd). unfold zlen in *. lia.
      * destruct Hnil as [Hn|Hn]; [destruct Hd; by split|]. specialize (Ho Hn). unfold zlen in *. lia.
    + by intros [_ ?]%app_eq_nil.
  - destruct (Hmid c2) as (r & -> & Hr); [lia|]. cbn [DmpDiff.bind_outcome].
    eexists. split; [done|]. split; cbn [patches patch char_count1 char_count2 prepatch_text postpatch_text length1 diffs start2].
    + rewrite !zlen_app, Hleft, Hr. unfold zlen in *. lia.
    + case_decide; cbn [length1]; unfold zlen; lia.
    + intros _. case_decide as Hd; cbn [length1 start2].
      * destruct Hd as [Hd _]. specialize (Hcl Hd). lia.
      * destruct Hnil as [Hn|Hn]; [destruct Hd; by split|]. specialize (Ho Hn). lia.
    + by intros [_ ?]%app_eq_nil.
  - rewrite (decide_False (P := diffs p = [] ∧ EQUAL ≠ EQUAL)) by (intros [_ ?]; done).
    set (q := if decide _ then _ else p).
    assert (Hq : in_text (Making ps q c1 (c2 + zlen t) pre post) n ∧ (0 ≤ length1 q)%Z).
    { unfold q. case_decide as Hd; (split; [split; cbn [patches patch char_count1 char_count2 prepatch_text postpatch_text length1 diffs start2]|cbn [length1]]);
        try (unfold zlen in *; lia); try done.
      - destruct Hd as (_ & Hd & _). specialize (Ho Hd). intros _. unfold zlen in *. lia.
      - by intros [_ ?]%app_eq_nil.
      - intros Hn. specialize (Ho Hn). unfold zlen in *. lia.
      - intros Hn. specialize (Hcl Hn). unfold zlen in *. lia. }
    clearbody q. destruct Hq as [Hq Hlq]. case_decide as Hflush; [|eexists; split; [done|]; destruct Hq; by split].
    destruct Hflush as [_ Hne]. pose proof (it_open _ _ Hq Hne) as Hqo. cbn in Hqo.
    destruct (flush_ends (Making ps q c1 c2 pre post)) as (qs & ->); [cbn; lia..|]. eexists. split; [done|].
    split; cbn; [unfold zlen in *; lia|unfold zlen in *; lia|done|unfold zlen in *; lia].
Qed.

Lemma make_loop_ends back l m : in_text m (length (diff_text1 l)) → ∃ m', make_loop back l m = Ret m' ∧ in_text m' 0.
Proof.
  revert m. induction l as [|d l IH]; intros m Hm; [by exists m|]. rewrite diff_text1_cons, length_app in Hm.
  destruct (make_step_ends back d m _ Hm) as (m1 & Hm1 & Hin). cbn [make_loop]. rewrite Hm1. apply IH, Hin.
Qed.

(** Patches are made of every diff of the length of the text, also where an
    equality is dropped. *)
Lemma patch_make_diffs_ends s l : length (diff_text1 l) = length s → ∃ ps, patch_make_diffs s l = Ret ps.
Proof.
  intros Hl. unfold patch_make_diffs. destruct (last l) as [back|]; [|by eexists].
  destruct (make_loop_ends back l (Making [] Patch_new 0 0 s s)) as (m & -> & [_ [_ Hl1] Ho _]).
  { rewrite Hl. split; cbn; [done|lia|done|split; [done|unfold zlen; lia]]. }
  unfold bind_outcome. cbn [DmpDiff.bind_outcome]. case_decide as Hn; [by eexists|].
  specialize (Ho Hn). destruct (flush_ends m) as (ps & ->); [lia..|]. by eexists.
Qed.

End DmpMake.
