(* ===== verification/DmpCleanup.v ===== *)
(** * The cleanups of a diff

    What [diff_cleanupMerge], [diff_cleanupSemanticLossless],
    [diff_cleanupSemantic] and [diff_cleanupEfficiency] keep: the two texts of
    the diff.  They end: the rounds of DmpDiff.v are enough, by the weight of a
    diff for the first and the equalities left for the loops of the last two.
    [diff_cleanupSemantic] keeps the texts when the overlaps it takes out are
    overlaps, which [diff_commonOverlap] does not promise. *)

From Stdlib Require Import Setoid Morphisms.
From S2P Require Import Prelude DmpDiff DmpPatch DmpText DmpApply DmpSplit DmpMake.
Local Open Scope prog_scope.
Import DmpDiff.Str DmpDiff.DmpDiff DmpApply.DmpApply DmpSplit.DmpSplit DmpMake.DmpMake.

Module DmpCleanup.

(** ** Diffs of the same two texts *)
Definition same_texts (l k : Diffs) : Prop := diff_text1 l = diff_text1 k ∧ diff_text2 l = diff_text2 k.
Infix "≈" := same_texts (at level 70, no associativity).

#[export] Instance same_texts_equivalence : Equivalence same_texts.
Proof. split; [by intros l|intros l k []; by split|intros l k m [] []; split; congruence]. Qed.
#[export] Instance app_same : Proper (same_texts ==> same_texts ==> same_texts) (@app Diff).
Proof. intros l l' [H1 H2] k k' [H3 H4]. split; rewrite ?diff_text1_app, ?diff_text2_app; by f_equal. Qed.
#[export] Instance cons_same : Proper (eq ==> same_texts ==> same_texts) (@cons Diff).
Proof. intros d _ <- l l' [H1 H2]. split; rewrite ?diff_text1_cons, ?diff_text2_cons; by f_equal. Qed.

(** Both texts, computed: what the lemmas below reduce [≈] to. *)
Ltac texts :=
  cbn [rev app]; split;
  repeat (rewrite ?diff_text1_app, ?diff_text2_app, ?diff_text1_cons, ?diff_text2_cons);
  change (diff_text1 []) with (@nil ascii); change (diff_text2 []) with (@nil ascii);
  cbn [part1 part2 operation text]; rewrite ?app_nil_r, ?app_nil_l, <-?app_assoc.

Lemma empty_edit op : [MkDiff op []] ≈ [].
Proof. by destruct op. Qed.

(** ** The weight of a diff *)
Definition edit_chars (d : Diff) : nat := match operation d with EQUAL => 0 | _ => length (text d) end.
Definition weight (l : Diffs) : nat := 3 * edit_length l + length l.

Lemma edit_length_app l k : edit_length (l ++ k) = edit_length l + edit_length k.
Proof. unfold edit_length. by rewrite map_app, list_sum_app. Qed.
Lemma edit_length_cons d l : edit_length (d :: l) = edit_chars d + edit_length l.
Proof. by destruct d. Qed.
Lemma weight_app l k : weight (l ++ k) = weight l + weight k.
Proof. unfold weight. rewrite edit_length_app, length_app. lia. Qed.
Lemma weight_cons d l : weight (d :: l) = 3 * edit_chars d + 1 + weight l.
Proof. unfold weight. rewrite edit_length_cons. simpl. lia. Qed.
Lemma weight_rev l : weight (rev l) = weight l.
Proof.
  induction l as [|d l IH]; [done|]. cbn [rev]. rewrite weight_app, !weight_cons, IH.
  unfold weight at 2. simpl. lia.
Qed.

(** ** The first pass of diff_cleanupMerge *)

(** A block of edits, the last of them first, before any equality. *)
Fixpoint edits_of (op : Operation) (edits : Diffs) : nat :=
  match edits with [] => 0 | d :: l => (if decide (operation d = op) then 1 else 0) + edits_of op l end.

Record block (done : Diffs) (count_delete count_insert : nat) (text_delete text_insert : bytes)
    (edits base : Diffs) : Prop := {
  bl_done : done = edits ++ base;
  bl_edits : Forall (λ d, operation d ≠ EQUAL) edits;
  bl_delete : edits_of DELETE edits = count_delete;
  bl_insert : edits_of INSERT edits = count_insert;
  bl_text1 : diff_text1 (rev edits) = text_delete;
  bl_text2 : diff_text2 (rev edits) = text_insert;
  bl_base : base = [] ∨ ∃ t l, base = MkDiff EQUAL t :: l;
}.

Lemma block_start base : base = [] ∨ (∃ t l, base = MkDiff EQUAL t :: l) → block base 0 0 [] [] [] base.
Proof. intros Hb. by split. Qed.

Lemma block_edit done nd ni td ti edits base op t :
  block done nd ni td ti edits base → op ≠ EQUAL →
  block (MkDiff op t :: done)
    (if decide (op = DELETE) then S nd else nd) (if decide (op = INSERT) then S ni else ni)
    (if decide (op = DELETE) then td ++ t else td) (if decide (op = INSERT) then ti ++ t else ti)
    (MkDiff op t :: edits) base.
Proof.
  intros [-> He Hd Hi H1 H2 Hb] Hop. split; try done.
  - by constructor.
  - cbn. rewrite Hd. by case_decide.
  - cbn. rewrite Hi. by case_decide.
  - cbn [rev]. rewrite diff_text1_app, H1, diff_text1_one. destruct op; [done|by rewrite app_nil_r|done].
  - cbn [rev]. rewrite diff_text2_app, H2, diff_text2_one. destruct op; [by rewrite app_nil_r|done|done].
Qed.

Lemma edits_counts edits : Forall (λ d, operation d ≠ EQUAL) edits →
  edits_of DELETE edits + edits_of INSERT edits = length edits ∧
  (edits_of DELETE edits = 0 → diff_text1 (rev edits) = []) ∧
  (edits_of INSERT edits = 0 → diff_text2 (rev edits) = []) ∧
  edit_length edits = length (diff_text1 (rev edits)) + length (diff_text2 (rev edits)).
Proof.
  induction 1 as [|[op t] edits Hop _ (IH1 & IH2 & IH3 & IH4)]; [done|].
  cbn [edits_of rev length operation]. rewrite edit_length_cons, diff_text1_app, diff_text2_app, !length_app.
  rewrite diff_text1_one, diff_text2_one. unfold edit_chars, part1, part2. cbn in *.
  destruct op; [| |done]; cbn; repeat case_decide; try done; split_and!; try lia;
    intros; by rewrite ?IH2, ?IH3 by lia.
Qed.

(** The edits of a block commute with each other: they are its deletion and
    its insertion. *)
Lemma push_edit_texts td ti done :
  rev (push_edit INSERT ti (push_edit DELETE td done)) ≈ rev done ++ [MkDiff DELETE td; MkDiff INSERT ti].
Proof.
  unfold push_edit. destruct ti as [|c ti], td as [|e td]; cbn [empty]; by texts.
Qed.

Lemma push_edit_weight td ti done :
  weight (push_edit INSERT ti (push_edit DELETE td done)) + (if empty td then 1 else 0) + (if empty ti then 1 else 0)
    = 3 * (length td + length ti) + 2 + weight done.
Proof.
  unfold push_edit. destruct ti as [|c ti], td as [|e td]; cbn [empty]; rewrite ?weight_cons; unfold edit_chars; cbn; lia.
Qed.

Lemma commonPrefix_split s t :
  let n := diff_commonPrefix s t in take n s = take n t ∧ n ≤ length s ∧ n ≤ length t.
Proof.
  revert t. induction s as [|c s IH]; intros [|e t]; cbn; [split_and!; lia || done..|].
  case_decide as Hc; [|split_and!; cbn; [done|lia..]]. subst e. destruct (IH t) as (Ht & ? & ?). cbn.
  split_and!; [by f_equal|lia..].
Qed.

Lemma commonSuffix_split s t :
  let n := diff_commonSuffix s t in
  drop (length s - n) s = drop (length t - n) t ∧ n ≤ length s ∧ n ≤ length t.
Proof.
  unfold diff_commonSuffix. destruct (commonPrefix_split (rev s) (rev t)) as (Ht & Hs & Hl).
  rewrite !length_rev in *. split_and!; [|done..].
  apply (f_equal (@rev _)) in Ht. rewrite !firstn_rev, !rev_involutive in Ht. exact Ht.
Qed.

Lemma factor_prefix_ok base td ti :
  base = [] ∨ (∃ t l, base = MkDiff EQUAL t :: l) →
  ∃ base' td' ti', factor_prefix base td ti = Ret (base', td', ti') ∧
    rev base' ++ [MkDiff DELETE td'; MkDiff INSERT ti'] ≈ rev base ++ [MkDiff DELETE td; MkDiff INSERT ti] ∧
    weight base' + 3 * (length td' + length ti') ≤ weight base + 3 * (length td + length ti).
Proof.
  intros Hb. unfold factor_prefix. destruct (commonPrefix_split ti td) as (Hc & Hi & Hd).
  set (n := diff_commonPrefix ti td) in *. case_decide as Hn; [by exists base, td, ti|].
  exists (match base with MkDiff EQUAL t :: l => MkDiff EQUAL (t ++ take n ti) :: l | _ => [MkDiff EQUAL (take n ti)] end),
    (drop n td), (drop n ti). split_and!.
  - destruct Hb as [->|(t & l & ->)]; done.
  - transitivity (rev base ++ [MkDiff DELETE (take n td ++ drop n td); MkDiff INSERT (take n ti ++ drop n ti)]);
      [|by rewrite !take_drop]. rewrite <-Hc. destruct Hb as [->|(t & l & ->)]; by texts.
  - rewrite !length_drop. destruct Hb as [->|(t & l & ->)]; rewrite !weight_cons; cbn; lia.
Qed.

Lemma factor_suffix_ok td ti t :
  ∃ td' ti' t', factor_suffix td ti t = (td', ti', t') ∧
    [MkDiff DELETE td'; MkDiff INSERT ti'; MkDiff EQUAL t'] ≈ [MkDiff DELETE td; MkDiff INSERT ti; MkDiff EQUAL t] ∧
    length td' + length ti' ≤ length td + length ti ∧ (t' = t ∨ length td' + length ti' < length td + length ti).
Proof.
  unfold factor_suffix. destruct (commonSuffix_split ti td) as (Hc & Hi & Hd).
  set (n := diff_commonSuffix ti td) in *. eexists _, _, _. split; [done|]. split_and!.
  - transitivity [MkDiff DELETE (take (length td - n) td ++ drop (length td - n) td);
                  MkDiff INSERT (take (length ti - n) ti ++ drop (length ti - n) ti); MkDiff EQUAL t];
      [|by rewrite !take_drop]. rewrite <-Hc. by texts.
  - rewrite !length_take. lia.
  - rewrite !length_take. destruct (decide (n = 0)) as [-> |]; [left|right; lia].
    rewrite Nat.sub_0_r, drop_all. done.
Qed.

(** An equality ends the block. *)
Lemma merge_equal done nd ni td ti edits base pe t rest :
  block done nd ni td ti edits base → (pe = true → edits = [] ∧ base ≠ []) →
  ∃ t' done', merge_pass done nd ni td ti pe (MkDiff EQUAL t :: rest) =
      merge_pass (MkDiff EQUAL t' :: done') 0 0 [] [] true rest ∧
    rev (MkDiff EQUAL t' :: done') ≈ rev done ++ [MkDiff EQUAL t] ∧
    weight (MkDiff EQUAL t' :: done') ≤ weight done + 1 ∧
    (t' = t ∨ weight (MkDiff EQUAL t' :: done') ≤ weight done).
Proof.
  intros [-> He <- <- <- <- Hb] Hpe. cbn [merge_pass].
  destruct (edits_counts edits He) as (Hn & H1 & H2 & Hl).
  set (td := diff_text1 (rev edits)) in *. set (ti := diff_text2 (rev edits)) in *.
  assert (Hr : rev edits ≈ [MkDiff DELETE td; MkDiff INSERT ti]) by by texts.
  destruct (1 <? _) eqn:Hlt.
  - apply Nat.ltb_lt in Hlt. rewrite Hn, drop_app_length. rewrite rev_app_distr, weight_app.
    assert (Hw : weight edits = 3 * (length td + length ti) + length edits) by (unfold weight; by rewrite Hl).
    case_decide as Hboth.
    + destruct (factor_prefix_ok base td ti Hb) as (base' & td' & ti' & -> & Hp & Hpw). cbn [bind_outcome].
      destruct (factor_suffix_ok td' ti' t) as (td2 & ti2 & t2 & -> & Hs & Hsw & Ht).
      pose proof (push_edit_weight td2 ti2 base') as Hpush.
      eexists _, _. split; [done|]. cbn [rev]. rewrite push_edit_texts, !weight_cons. cbn [edit_chars operation]. split_and!.
      * rewrite Hr, <-Hp, <-!app_assoc. cbn [app]. by rewrite Hs.
      * lia.
      * destruct Ht as [-> |Ht]; [by left|right; lia].
    + pose proof (push_edit_weight td ti base) as Hpush.
      assert ((if empty td then 1 else 0) + (if empty ti then 1 else 0) ≥ 1) as Hone.
      { destruct (decide (edits_of DELETE edits = 0)) as [E|E]; [rewrite (H1 E); simpl; lia|].
        rewrite H2 by lia. simpl. lia. }
      eexists _, _. split; [done|]. cbn [rev]. rewrite push_edit_texts, !weight_cons. cbn [edit_chars operation]. split_and!.
      * by rewrite Hr.
      * lia.
      * by left.
  - apply Nat.ltb_ge in Hlt. destruct pe.
    + destruct (Hpe eq_refl) as [-> Hne]. destruct Hb as [-> |(t0 & l & ->)]; [done|]. cbn [app operation text].
      eexists _, _. split; [done|]. rewrite !weight_cons. cbn [edit_chars operation]. split_and!; [by texts|lia|right; lia].
    + eexists _, _. split; [done|]. rewrite !weight_cons. cbn. split_and!; [done|lia|by left].
Qed.

(** The pass over [rest], to whose end an empty equality is added: the last
    diff of the result is an equality, empty again or paid for. *)
Lemma merge_pass_ok rest done nd ni td ti edits base pe :
  block done nd ni td ti edits base → (pe = true → edits = [] ∧ base ≠ []) →
  ∃ l t, merge_pass done nd ni td ti pe (rest ++ [MkDiff EQUAL []]) = Ret (l ++ [MkDiff EQUAL t]) ∧
    l ++ [MkDiff EQUAL t] ≈ rev done ++ rest ∧
    length (l ++ [MkDiff EQUAL t]) + 3 * edit_length l ≤ weight (rev done) + weight rest + (if empty t then 1 else 0).
Proof.
  revert done nd ni td ti edits base pe. induction rest as [|[op t] rest IH]; intros done nd ni td ti edits base pe Hbl Hpe.
  - destruct (merge_equal _ _ _ _ _ _ _ pe [] [] Hbl Hpe) as (t' & done' & Hm & Ht & Hw & Hc).
    exists (rev done'), t'. cbn [app]. rewrite Hm. cbn [merge_pass rev]. split; [done|]. split.
    + cbn [rev] in Ht. by rewrite Ht, empty_edit.
    + rewrite length_app, weight_rev. rewrite weight_cons in Hw, Hc. rewrite <-(weight_rev done') in Hw, Hc.
      unfold weight in Hw, Hc |- *. cbn in *. destruct Hc as [-> |Hc]; cbn; [lia|destruct (empty t'); lia].
  - assert (Hedit : op ≠ EQUAL → ∃ l t', merge_pass done nd ni td ti pe ((MkDiff op t :: rest) ++ [MkDiff EQUAL []]) = Ret (l ++ [MkDiff EQUAL t']) ∧
      l ++ [MkDiff EQUAL t'] ≈ rev done ++ MkDiff op t :: rest ∧
      length (l ++ [MkDiff EQUAL t']) + 3 * edit_length l ≤ weight (rev done) + weight (MkDiff op t :: rest) + (if empty t' then 1 else 0)).
    { intros Hop. destruct (IH _ _ _ _ _ _ _ false (block_edit _ _ _ _ _ _ _ op t Hbl Hop)) as (l & t' & Hm & Ht & Hw); [done|].
      exists l, t'. split; [by destruct op|]. cbn [rev] in Ht, Hw. rewrite <-app_assoc in Ht. split; [done|].
      rewrite weight_app in Hw. change (weight (MkDiff op t :: rest)) with (weight ([MkDiff op t] ++ rest)). rewrite weight_app. lia. }
    destruct op; [by apply Hedit..|]. clear Hedit. cbn [app].
    destruct (merge_equal _ _ _ _ _ _ _ pe t (rest ++ [MkDiff EQUAL []]) Hbl Hpe) as (t1 & done' & -> & Ht & Hw & _).
    destruct (IH _ 0 0 [] [] [] (MkDiff EQUAL t1 :: done') true (block_start _ ltac:(right; eauto)))
      as (l & t' & Hm & Ht' & Hw'); [done|].
    exists l, t'. split; [done|]. rewrite Ht in Ht'. rewrite <-app_assoc in Ht'. split; [done|].
    rewrite weight_rev in Hw' |- *. rewrite (weight_cons (MkDiff EQUAL t) rest). lia.
Qed.

(** The pass and the removal of the equality at its end. *)
Lemma merged diffs :
  ∃ l, bind_outcome (merge_pass [] 0 0 [] [] false (diffs ++ [MkDiff EQUAL []])) pop_empty = Ret l ∧
    l ≈ diffs ∧ weight l ≤ weight diffs.
Proof.
  destruct (merge_pass_ok diffs [] 0 0 [] [] [] [] false (block_start [] (or_introl eq_refl))) as (l & t & -> & Ht & Hw); [done|].
  cbn [bind_outcome]. unfold pop_empty. rewrite last_snoc. cbn [text rev app] in *.
  change (weight []) with 0 in Hw. rewrite length_app in Hw. cbn [length] in Hw. destruct t as [|c t]; cbn [empty] in *.
  - exists l. rewrite removelast_last. split; [done|]. split; [by rewrite <-Ht, empty_edit, app_nil_r|]. change (weight l) with (3 * edit_length l + length l). lia.
  - exists (l ++ [MkDiff EQUAL (c :: t)]). split_and!; [done|done|]. rewrite weight_app.
    change (weight [_]) with 1. change (weight l) with (3 * edit_length l + length l). lia.
Qed.

(** ** The second pass *)
Lemma ends_with_split s t : ends_with s t = true → s = take (length s - length t) s ++ t.
Proof.
  unfold ends_with. intros [_ Hd%bool_decide_eq_true]%andb_prop. transitivity (take (length s - length t) s ++ drop (length s - length t) s); [by rewrite take_drop|by rewrite Hd].
Qed.

Lemma starts_with_split t s : starts_with t s = true → s = t ++ drop (length t) s.
Proof.
  revert s. induction t as [|c t IH]; intros s; [done|]. destruct s as [|e s]; cbn; [done|].
  case_decide as Hc; [|done]. intros Hs%IH. subst e. by rewrite <-Hs.
Qed.

(** Both shifts keep the texts and make three diffs two. *)
Lemma shift_left prev cur next : operation prev = EQUAL → operation next = EQUAL → ends_with (text cur) (text prev) = true →
  let cur' := MkDiff (operation cur) (text prev ++ take (length (text cur) - length (text prev)) (text cur)) in
  let next' := MkDiff EQUAL (text prev ++ text next) in
  [cur'; next'] ≈ [prev; cur; next] ∧ weight [cur'; next'] < weight [prev; cur; next].
Proof.
  destruct prev as [? p], next as [? n], cur as [op c]. cbn [operation text]. intros -> -> He%ends_with_split.
  set (u := take _ c) in *. rewrite He. split; [destruct op; by texts|].
  rewrite !weight_cons. unfold edit_chars. cbn. rewrite !length_app. destruct op; lia.
Qed.

Lemma shift_right prev cur next : operation prev = EQUAL → operation next = EQUAL → starts_with (text next) (text cur) = true →
  let prev' := MkDiff EQUAL (text prev ++ text next) in
  let cur' := MkDiff (operation cur) (drop (length (text next)) (text cur) ++ text next) in
  [prev'; cur'] ≈ [prev; cur; next] ∧ weight [prev'; cur'] < weight [prev; cur; next].
Proof.
  destruct prev as [? p], next as [? n], cur as [op c]. cbn [operation text]. intros -> -> He%starts_with_split.
  set (u := drop _ c) in *. rewrite He. split; [destruct op; by texts|].
  rewrite !weight_cons. unfold edit_chars. cbn. rewrite !length_app. destruct op; lia.
Qed.

Definition shifted (from : Diffs) (changes : bool) (r : Diffs * bool) : Prop :=
  fst r ≈ from ∧ weight (fst r) ≤ weight from ∧ (snd r = true → changes = true ∨ weight (fst r) < weight from).

Lemma shifted_refl l changes : shifted l changes (l, changes).
Proof. split_and!; [done|done|by left]. Qed.

Lemma shifted_less from from' changes r :
  from' ≈ from → weight from' < weight from → shifted from' true r → shifted from changes r.
Proof.
  intros He Hw (H1 & H2 & _). split_and!; [by rewrite H1|lia|intros _; right; lia].
Qed.

Lemma shift_pass_ok n rest done prev cur changes :
  length rest ≤ n → shifted (rev done ++ prev :: cur :: rest) changes (shift_pass done prev cur rest changes).
Proof.
  revert rest done prev cur changes. induction n as [|n IH]; intros [|next rest] done prev cur changes Hn;
    try (by simpl in Hn; lia); try exact (shifted_refl _ _).
  assert (Hgo : shifted (rev done ++ prev :: cur :: next :: rest) changes (shift_pass (prev :: done) cur next rest changes)).
  { specialize (IH rest (prev :: done) cur next changes). cbn [rev] in IH. rewrite <-app_assoc in IH. apply IH. cbn in Hn. lia. }
  assert (Hcut : ∀ x y, [x; y] ≈ [prev; cur; next] → weight [x; y] < weight [prev; cur; next] →
    shifted (rev done ++ prev :: cur :: next :: rest) changes
      (match rest with [] => (rev done ++ [x; y], true) | c :: rest => shift_pass (x :: done) y c rest true end)).
  { intros x y Hxy Hw.
    apply (shifted_less _ (rev done ++ [x; y] ++ rest)).
    - rewrite Hxy. done.
    - change (prev :: cur :: next :: rest) with ([prev; cur; next] ++ rest). rewrite !weight_app. lia.
    - destruct rest as [|c rest]; [exact (shifted_refl _ _)|].
      specialize (IH rest (x :: done) y c true). cbn [rev] in IH. rewrite <-app_assoc in IH. apply IH. cbn in Hn. lia. }
  cbn [shift_pass]. case_decide as Heq; [|done]. destruct Heq as [Hp Hx].
  destruct (ends_with _ _) eqn:He; [by apply Hcut; apply shift_left|].
  destruct (starts_with _ _) eqn:Hs; [by apply Hcut; apply shift_right|done].
Qed.

Lemma shift_sweep_ok diffs : shifted diffs false (shift_sweep diffs).
Proof.
  destruct diffs as [|prev [|cur rest]]; [exact (shifted_refl _ _)..|]. by apply (shift_pass_ok (length rest) rest []).
Qed.

Lemma cleanupMerge_n_ok n diffs : weight diffs < n → ∃ l, cleanupMerge_n n diffs = Ret l ∧ l ≈ diffs ∧ weight l ≤ weight diffs.
Proof.
  revert diffs. induction n as [|n IH]; intros diffs Hn; [lia|]. cbn [cleanupMerge_n].
  destruct (merged diffs) as (l & Hm & Ht & Hw).
  destruct (merge_pass [] 0 0 [] [] false (diffs ++ [MkDiff EQUAL []])) as [l0| |]; cbn [bind_outcome] in *; try done.
  rewrite Hm. cbn [bind_outcome].
  destruct (shift_sweep_ok l) as (Hs & Hsw & Hc). destruct (shift_sweep l) as [l' [|]]; cbn [fst snd] in *.
  - destruct (Hc eq_refl) as [|Hlt]; [done|]. destruct (IH l') as (k & -> & Hk & Hkw); [lia|].
    exists k. split; [done|]. split; [by rewrite Hk, Hs|lia].
  - exists l'. split; [done|]. split; [by rewrite Hs|lia].
Qed.

(** diff_cleanupMerge ends, whatever diff it is given, and keeps its texts. *)
Lemma cleanupMerge_keeps diffs : ∃ l, diff_cleanupMerge diffs = Ret l ∧ diff_text1 l = diff_text1 diffs ∧ diff_text2 l = diff_text2 diffs.
Proof.
  destruct (cleanupMerge_n_ok (S (3 * edit_length diffs + length diffs)) diffs) as (l & Hl & Ht & _); [unfold weight; lia|].
  by exists l.
Qed.

(** ** diff_cleanupSemanticLossless *)

(** Three texts that read the same with the edit as without it. *)
Definition same_place (p q : bytes * bytes * bytes) : Prop :=
  let '(e1, ed, e2) := p in let '(f1, fd, f2) := q in
  e1 ++ ed ++ e2 = f1 ++ fd ++ f2 ∧ e1 ++ e2 = f1 ++ f2.

Lemma same_place_trans p q r : same_place p q → same_place q r → same_place p r.
Proof. destruct p as [[]], q as [[]], r as [[]]. intros [] []. split; congruence. Qed.

Lemma step_right_place from e1 ed e2 n best :
  same_place (e1, ed, e2) from → same_place best from → same_place (step_right e1 ed e2 n best) from.
Proof.
  revert e1 ed n best. induction e2 as [|c2 e2 IH]; intros e1 [|c ed] n best Hp Hb; try done. cbn [step_right].
  case_decide as Hc; [|done]. subst c2.
  assert (Hp' : same_place (e1 ++ [c], ed ++ [c], e2) from).
  { eapply same_place_trans; [|exact Hp]. cbn. by rewrite <-!app_assoc. }
  cbv zeta. destruct (n <=? _); by apply IH.
Qed.

Lemma shift_edit_place e1 ed e2 : same_place (shift_edit e1 ed e2) (e1, ed, e2).
Proof.
  unfold shift_edit. destruct (commonSuffix_split e1 ed) as (Hc & _). set (n := diff_commonSuffix e1 ed) in *.
  assert (Hp : same_place (take (length e1 - n) e1, drop (length ed - n) ed ++ take (length ed - n) ed, drop (length ed - n) ed ++ e2)
    (e1, ed, e2)).
  { pose proof (take_drop (length e1 - n) e1) as H1. pose proof (take_drop (length ed - n) ed) as H2. rewrite Hc in H1.
    revert H1 H2. generalize (take (length e1 - n) e1), (drop (length ed - n) ed), (take (length ed - n) ed).
    intros a cs u <- <-. cbn. by rewrite <-!app_assoc. }
  by apply step_right_place.
Qed.

Lemma lossless_pass_ok n rest done prev cur :
  length rest ≤ n → ∃ l, lossless_pass done prev cur rest = Ret l ∧ l ≈ rev done ++ prev :: cur :: rest.
Proof.
  revert rest done prev cur. induction n as [|n IH]; intros [|next rest] done prev cur Hn;
    try (by simpl in Hn; lia); try (by eexists).
  assert (Hgo : ∀ p c x, [p; c; x] ≈ [prev; cur; next] →
    ∃ l, lossless_pass (p :: done) c x rest = Ret l ∧ l ≈ rev done ++ prev :: cur :: next :: rest).
  { intros p c x Hx. destruct (IH rest (p :: done) c x) as (l & -> & Hl); [cbn in Hn; lia|]. exists l. split; [done|].
    change (prev :: cur :: next :: rest) with ([prev; cur; next] ++ rest). rewrite <-Hx, Hl. cbn [rev]. by rewrite <-app_assoc. }
  assert (Hdrop : ∀ c x, [c; x] ≈ [prev; cur; next] →
    ∃ l, lossless_pass done c x rest = Ret l ∧ l ≈ rev done ++ prev :: cur :: next :: rest).
  { intros c x Hx. destruct (IH rest done c x) as (l & -> & Hl); [cbn in Hn; lia|]. exists l. split; [done|].
    change (prev :: cur :: next :: rest) with ([prev; cur; next] ++ rest). by rewrite <-Hx, Hl. }
  cbn [lossless_pass]. case_decide as Heq; [|by apply Hgo]. destruct Heq as [Hp Hx].
  pose proof (shift_edit_place (text prev) (text cur) (text next)) as Hpl.
  destruct (shift_edit _ _ _) as [[b1 be] b2]. destruct Hpl as [Ha He].
  case_decide as Hne; [|by apply Hgo]. destruct prev as [? p], next as [? x], cur as [op c]. cbn [operation text] in *. subst.
  destruct b1 as [|d1 b1], b2 as [|d2 b2]; cbn [empty].
  - destruct p; [done|]. done.
  - apply Hdrop. destruct op; texts; by rewrite <-?He, <-?Ha.
  - apply Hdrop. rewrite !app_nil_r in Ha, He. destruct op; texts; by rewrite <-?He, <-?Ha.
  - apply Hgo. destruct op; texts; by rewrite ?He, ?Ha.
Qed.

(** It never takes an equality away on both sides of an edit, which would
    leave the code with an iterator it has erased. *)
Lemma cleanupSemanticLossless_keeps diffs :
  ∃ l, diff_cleanupSemanticLossless diffs = Ret l ∧ diff_text1 l = diff_text1 diffs ∧ diff_text2 l = diff_text2 diffs.
Proof.
  destruct diffs as [|prev [|cur rest]]; [by eexists..|]. exact (lossless_pass_ok (length rest) rest [] prev cur (le_n _)).
Qed.

(** ** The loops that split equalities *)
Lemma count_equal_cons d l : count_equal (d :: l) = (if decide (operation d = EQUAL) then 1 else 0) + count_equal l.
Proof. unfold count_equal. rewrite filter_cons. by case_decide. Qed.
Lemma count_equal_app l k : count_equal (l ++ k) = count_equal l + count_equal k.
Proof. unfold count_equal. by rewrite filter_app, length_app. Qed.

(** The equality becomes two edits, of the same texts. *)
Lemma split_equality_ok i t diffs : diffs !! i = Some (MkDiff EQUAL t) →
  ∃ l, split_equality i t diffs = Ret l ∧ l ≈ diffs ∧ length l = S (length diffs) ∧ S (count_equal l) = count_equal diffs.
Proof.
  intros Hi. unfold split_equality. rewrite Hi. eexists. split; [done|]. cbn [text].
  pose proof (take_drop_middle _ _ _ Hi) as Hm. revert Hm. generalize (take i diffs), (drop (S i) diffs).
  intros a b <-. split_and!.
  - by texts.
  - rewrite !length_app. cbn. lia.
  - rewrite !count_equal_app, !count_equal_cons. cbn [operation]. repeat case_decide; try done; lia.
Qed.

(** What a loop knows of its stack: the iterators are of the list, and the
    last equality is at the top. *)
Definition stack_ok (diffs : Diffs) (equalities : list nat) (lastequality : bytes) : Prop :=
  Forall (λ j, j < length diffs) equalities ∧
  (lastequality ≠ [] → ∃ i l, equalities = i :: l ∧ diffs !! i = Some (MkDiff EQUAL lastequality)).

Lemma stack_push diffs cur equalities last t :
  stack_ok diffs equalities last → diffs !! cur = Some (MkDiff EQUAL t) → stack_ok diffs (cur :: equalities) t.
Proof. intros [Hj _] Hc. split; [constructor; [by eapply lookup_lt_Some|done]|]. intros _. by exists cur, equalities. Qed.

Lemma stack_none diffs equalities : Forall (λ j, j < length diffs) equalities → stack_ok diffs equalities [].
Proof. by split. Qed.

(** The rounds left: every equality can send the loop back to the start. *)
Definition enough (n : nat) (diffs : Diffs) (cur : nat) : Prop :=
  cur ≤ length diffs ∧
  let k := length diffs + count_equal diffs in count_equal diffs * S k + (length diffs - cur) < n.

Lemma enough_next n diffs cur : cur < length diffs → enough (S n) diffs cur → enough n diffs (S cur).
Proof. intros Hc [_ Hn]. split; [lia|]. cbn zeta in *. lia. Qed.

Lemma enough_split n diffs cur l cur' :
  enough (S n) diffs cur → length l = S (length diffs) → S (count_equal l) = count_equal diffs → cur' ≤ length l → enough n l cur'.
Proof. intros [Hc Hn] Hl He Hc'. split; [done|]. cbn zeta in *. rewrite Hl, <-He in *.
  replace (S (length diffs) + count_equal l) with (length diffs + S (count_equal l)) by lia.
  set (k := S (length diffs + S (count_equal l))) in *. rewrite Nat.mul_succ_l in Hn. lia. Qed.

Lemma enough_rounds diffs : enough (rounds diffs) diffs 0.
Proof. unfold enough, rounds. cbn zeta. lia. Qed.

(** The split of the top of the stack, and the iterators two below it. *)
Lemma split_top n diffs cur i rest t :
  Forall (λ j, j < length diffs) (i :: rest) → diffs !! i = Some (MkDiff EQUAL t) → enough (S n) diffs cur →
  ∃ l, split_equality i t diffs = Ret l ∧ l ≈ diffs ∧ Forall (λ j, j < length l) (tail rest) ∧
    enough n l 0 ∧ enough n l (S (S i)) ∧ ∀ j, j ∈ tail rest → enough n l (S j).
Proof.
  intros Hj Hi Hn. destruct (split_equality_ok i t diffs Hi) as (l & Hl & Ht & Hll & Hce).
  pose proof (lookup_lt_Some _ _ _ Hi) as Hlt. apply Forall_cons in Hj as [_ Hj].
  assert (Hj' : Forall (λ j, j < length l) (tail rest)).
  { destruct Hj; [constructor|]. cbn. eapply Forall_impl; [done|]. cbn. intros; lia. }
  exists l. split_and!; try done; [apply (enough_split _ _ _ _ _ Hn Hll Hce); lia..|].
  intros j Hin. pose proof (proj1 (Forall_forall _ _) Hj' j Hin). by apply (enough_split _ _ _ _ _ Hn Hll Hce).
Qed.

Lemma semantic_loop_ok n diffs cur s ch :
  stack_ok diffs (equalities s) (lastequality s) → enough n diffs cur →
  ∃ l ch', semantic_loop n diffs cur s ch = Ret (l, ch') ∧ l ≈ diffs.
Proof.
  revert diffs cur s ch. induction n as [|n IH]; intros diffs cur s ch Hs Hn; [destruct Hn as [_ Hn]; cbn zeta in Hn; lia|]. cbn [semantic_loop].
  destruct (diffs !! cur) as [[op t]|] eqn:Hc; [|by eexists _, _].
  pose proof (lookup_lt_Some _ _ _ Hc) as Hlt. pose proof (enough_next _ _ _ Hlt Hn) as Hn'.
  destruct (decide (op = EQUAL)) as [-> |Hop]; [by apply IH; [eapply stack_push|]|].
  assert (Hcount : ∀ d, equalities (count_edit d s) = equalities s ∧ lastequality (count_edit d s) = lastequality s)
    by by intros [[] ?].
  destruct (Hcount (MkDiff op t)) as [He Hl]. set (s' := count_edit (MkDiff op t) s) in *.
  enough (∃ l ch', (if trivial_equality s' then
    match equalities s' with
    | [] => Undef
    | i :: equalities =>
        bind_outcome (split_equality i (lastequality s') diffs) (λ diffs,
        match tail equalities with
        | [] => semantic_loop n diffs 0 (Semantic (tail equalities) [] 0 0 0 0) true
        | j :: _ => semantic_loop n diffs (S j) (Semantic (tail equalities) [] 0 0 0 0) true
        end)
    end else semantic_loop n diffs (S cur) s' ch) = Ret (l, ch') ∧ l ≈ diffs) as (l & ch' & Hr & Ht).
  { exists l, ch'. split; [|done]. by destruct op. }
  destruct Hs as [Hj Hlast]. rewrite He, Hl. destruct (trivial_equality s') eqn:Htr.
  - destruct Hlast as (i & rest & Heq & Hi).
    { unfold trivial_equality in Htr. rewrite Hl in Htr. by destruct (lastequality s). }
    rewrite Heq in Hj |- *. destruct (split_top n diffs cur i rest _ Hj Hi Hn) as (l & -> & Ht & Hj' & H0 & _ & HS).
    cbn [bind_outcome]. destruct (tail rest) as [|j rest'] eqn:Hrest.
    + destruct (IH l 0 (Semantic [] [] 0 0 0 0) true) as (k & ch' & -> & Hk); [by apply stack_none|done|].
      exists k, ch'. split; [done|by rewrite Hk].
    + destruct (IH l (S j) (Semantic (j :: rest') [] 0 0 0 0) true) as (k & ch' & -> & Hk);
        [by apply stack_none|by apply HS; left|]. exists k, ch'. split; [done|by rewrite Hk].
  - destruct (IH diffs (S cur) s' ch) as (k & ch' & -> & Hk); [|done|by exists k, ch'].
    split; rewrite ?He, ?Hl; done.
Qed.

Lemma efficiency_loop_ok n diffs cur s ch :
  stack_ok diffs (e_equalities s) (e_lastequality s) → enough n diffs cur →
  ∃ l ch', efficiency_loop n diffs cur s ch = Ret (l, ch') ∧ l ≈ diffs.
Proof.
  revert diffs cur s ch. induction n as [|n IH]; intros diffs cur s ch Hs Hn; [destruct Hn as [_ Hn]; cbn zeta in Hn; lia|].
  cbn [efficiency_loop]. destruct (diffs !! cur) as [[op t]|] eqn:Hc; [|by eexists _, _].
  pose proof (lookup_lt_Some _ _ _ Hc) as Hlt. pose proof (enough_next _ _ _ Hlt Hn) as Hn'.
  destruct (decide (op = EQUAL)) as [-> |Hop].
  { apply IH; [|done]. destruct (_ && _); [by eapply stack_push|by apply stack_none]. }
  set (s' := mark_edit (MkDiff op t) s).
  assert (e_equalities s' = e_equalities s ∧ e_lastequality s' = e_lastequality s) as [He Hl] by by destruct op.
  enough (∃ l ch', (if to_split s' then
    match e_equalities s' with
    | [] => Undef
    | i :: equalities =>
        bind_outcome (split_equality i (e_lastequality s') diffs) (λ diffs,
        if pre_ins s' && pre_del s' then
          efficiency_loop n diffs (S (S i)) (Efficiency [] [] (pre_ins s') (pre_del s') true true) true
        else
        match tail equalities with
        | [] => efficiency_loop n diffs 0 (Efficiency (tail equalities) [] (pre_ins s') (pre_del s') false false) true
        | j :: _ => efficiency_loop n diffs (S j) (Efficiency (tail equalities) [] (pre_ins s') (pre_del s') false false) true
        end)
    end else efficiency_loop n diffs (S cur) s' ch) = Ret (l, ch') ∧ l ≈ diffs) as (l & ch' & Hr & Ht).
  { exists l, ch'. split; [|done]. by destruct op. }
  destruct Hs as [Hj Hlast]. rewrite He, Hl. destruct (to_split s') eqn:Htr.
  - destruct Hlast as (i & rest & Heq & Hi).
    { unfold to_split in Htr. rewrite Hl in Htr. by destruct (e_lastequality s). }
    rewrite Heq in Hj |- *. destruct (split_top n diffs cur i rest _ Hj Hi Hn) as (l & -> & Ht & Hj' & H0 & Hi2 & HS).
    cbn [bind_outcome].
    assert (Hgo : ∀ cur' s2, stack_ok l (e_equalities s2) (e_lastequality s2) → enough n l cur' →
      ∃ k ch', efficiency_loop n l cur' s2 true = Ret (k, ch') ∧ k ≈ diffs).
    { intros cur' s2 Hs2 Hn2. destruct (IH l cur' s2 true Hs2 Hn2) as (k & ch' & -> & Hk).
      exists k, ch'. split; [done|by rewrite Hk]. }
    destruct (pre_ins s' && pre_del s'); [apply Hgo; [by apply stack_none|done]|].
    destruct (tail rest) as [|j rest'] eqn:Hrest; apply Hgo; try done; [by apply stack_none..|by apply HS; left].
  - apply IH; [|done]. split; rewrite ?He, ?Hl; done.
Qed.

(** diff_cleanupEfficiency ends and keeps the texts. *)
Lemma cleanupEfficiency_keeps diffs :
  ∃ l, diff_cleanupEfficiency diffs = Ret l ∧ diff_text1 l = diff_text1 diffs ∧ diff_text2 l = diff_text2 diffs.
Proof.
  unfold diff_cleanupEfficiency. case_decide; [by exists diffs|].
  destruct (efficiency_loop_ok (rounds diffs) diffs 0 (Efficiency [] [] false false false false) false)
    as (l & ch & -> & Ht); [by apply stack_none|apply enough_rounds|]. cbn [bind_outcome].
  destruct ch; [|by exists l]. destruct (cleanupMerge_keeps l) as (k & -> & H1 & H2). exists k.
  destruct Ht as [<- <-]. done.
Qed.

(** ** Overlaps *)
Lemma right_ret s n : n ≤ length s → right s n = Ret (drop (length s - n) s).
Proof. intros Hn. unfold right. by rewrite (proj2 (Nat.leb_le _ _) Hn). Qed.

Lemma find_at_bound pat s i j : find_at pat s i = Some j → i ≤ j ∧ j - i + length pat ≤ length s.
Proof.
  revert i. induction s as [|c s IH]; intros i; cbn [find_at]; destruct (starts_with pat _) eqn:Hs; try done;
    apply starts_with_length in Hs || clear Hs.
  - intros [= <-]. lia.
  - intros [= <-]. lia.
  - intros [? ?]%IH. cbn. lia.
Qed.

Lemma find_at_here pat s i : find_at pat s i = Some i → starts_with pat s = true.
Proof.
  destruct s as [|c s]; cbn [find_at]; destruct (starts_with pat _) eqn:Hs; try done.
  intros [? _]%find_at_bound. lia.
Qed.

(** diff_commonOverlap ends, with at most the shorter text. *)
Lemma overlap_loop_ends n text1 text2 best len :
  length text1 = length text2 → text1 ≠ text2 → 1 ≤ len ≤ length text1 → length text1 < n + len → best ≤ length text1 →
  ∃ r, overlap_loop n text1 text2 best len = Ret r ∧ r ≤ length text1.
Proof.
  intros Hll Hne. revert best len. induction n as [|n IH]; intros best len Hlen Hn Hb; [lia|]. cbn [overlap_loop].
  rewrite right_ret by lia. cbn [bind_outcome]. set (pat := drop (length text1 - len) text1).
  assert (Hpat : length pat = len) by (unfold pat; rewrite length_drop; lia).
  unfold find. change (drop 0 text2) with text2. rewrite (proj2 (Nat.leb_le _ _)) by lia.
  destruct (find_at pat text2 0) as [found|] eqn:Hf; [|by exists best].
  pose proof (find_at_bound _ _ _ _ Hf) as [_ Hle]. rewrite Nat.sub_0_r, Hpat in Hle.
  destruct found as [|found].
  - apply IH; try lia. enough (len ≠ length text1) by lia. intros ->. apply Hne.
    apply find_at_here, starts_with_split in Hf. unfold pat in Hf. rewrite Nat.sub_diag in Hf.
    change (drop 0 text1) with text1 in Hf. rewrite (drop_ge text2), app_nil_r in Hf by lia. done.
  - remember (len + S found) as m eqn:Hmeq. cbv zeta. rewrite !right_ret by lia. cbn [bind_outcome]. case_decide as He; apply IH; try lia.
    enough (m ≠ length text1) by lia. intros Hm. apply Hne. rewrite <-Hll, Hm, Nat.sub_diag in He. exact He.
Qed.

Lemma commonOverlap_ends text1 text2 : ∃ n, diff_commonOverlap text1 text2 = Ret n ∧ n ≤ length text1 ∧ n ≤ length text2.
Proof.
  unfold diff_commonOverlap. destruct text1 as [|c1 text1]; [by exists 0; cbn; split_and!; [|lia..]|]. destruct text2 as [|c2 text2]; [by exists 0; cbn; split_and!; [|lia..]|].
  cbn [empty orb]. set (s := c1 :: text1). set (t := c2 :: text2). set (n := Nat.min (length s) (length t)).
  assert (Hn : 1 ≤ n ≤ length s ∧ n ≤ length t) by (unfold n, s, t; cbn; lia). clearbody n s t.
  rewrite right_ret by lia. cbn [bind_outcome]. case_decide as He; [exists n; split; [done|lia]|].
  assert (Hs : length (drop (length s - n) s) = n) by (rewrite length_drop; lia).
  assert (Ht : length (take n t) = n) by (rewrite length_take; lia).
  destruct (overlap_loop_ends (S n) (drop (length s - n) s) (take n t) 0 1) as (r & -> & Hr); try lia; [done|].
  exists r. split; [done|lia].
Qed.

(** The overlaps found between the diffs of a list are overlaps: what
    [diff_commonOverlap] answers is the length of an end of the deletion with
    which the insertion begins. *)
Definition overlap_true (text1 text2 : bytes) : bool :=
  match diff_commonOverlap text1 text2 with
  | Ret n => bool_decide (drop (length text1 - n) text1 = take n text2)
  | _ => false
  end.

Fixpoint overlaps_true (prev : Diff) (rest : Diffs) : bool :=
  match rest with
  | [] => true
  | cur :: rest =>
      if decide (operation prev = DELETE ∧ operation cur = INSERT) then
        overlap_true (text prev) (text cur) && match rest with [] => true | next :: rest => overlaps_true next rest end
      else overlaps_true cur rest
  end.

(** The second text is kept whatever is taken out, the first one to its length. *)
Definition second_text (l k : Diffs) : Prop := length (diff_text1 l) = length (diff_text1 k) ∧ diff_text2 l = diff_text2 k.

Lemma same_second l k : l ≈ k → second_text l k.
Proof. intros [H1 H2]. split; congruence. Qed.

Lemma second_text_app l l' k k' : second_text l k → second_text l' k' → second_text (l ++ l') (k ++ k').
Proof. intros [H1 H2] [H3 H4]. split; rewrite ?diff_text1_app, ?diff_text2_app, ?length_app; congruence. Qed.

Lemma overlaps_ok n prev rest : length rest ≤ n →
  ∃ l, overlaps prev rest = Ret l ∧ second_text l (prev :: rest) ∧ (overlaps_true prev rest = true → l ≈ prev :: rest).
Proof.
  revert prev rest. induction n as [|n IH]; intros prev [|cur rest] Hn; try (by simpl in Hn; lia); try by eexists.
  cbn [overlaps overlaps_true]. case_decide as Hop.
  - destruct (commonOverlap_ends (text prev) (text cur)) as (m & Hm & H1 & H2). unfold overlap_true. rewrite Hm. cbn [bind_outcome].
    set (here := if decide (m = 0) then _ else _).
    assert (Hhere : second_text here [prev; cur] ∧ (bool_decide (drop (length (text prev) - m) (text prev) = take m (text cur)) = true → here ≈ [prev; cur])).
    { unfold here. case_decide; [done|].
      destruct prev as [? p], cur as [? c], Hop as [Hp Hc]. cbn [operation text] in *. subst. split.
      - split; cbn; rewrite ?app_nil_r; [rewrite length_app, !length_take; lia|apply take_drop].
      - intros He%bool_decide_eq_true.
        transitivity [MkDiff DELETE (take (length p - m) p ++ drop (length p - m) p); MkDiff INSERT (take m c ++ drop m c)];
        [|by rewrite !take_drop]. rewrite He. by texts. }
    clearbody here. destruct Hhere as [Hh2 Hhere]. destruct rest as [|next rest].
    + exists here. split_and!; [done|done|]. intros [Ht _]%andb_prop. auto.
    + destruct (IH next rest) as (l & -> & Hl2 & Hl); [cbn in Hn; lia|]. exists (here ++ l). split; [done|].
      split; [exact (second_text_app _ _ _ _ Hh2 Hl2)|]. intros [Ht Hr]%andb_prop. rewrite Hhere, Hl by done. done.
  - destruct (IH cur rest) as (l & -> & Hl2 & Hl); [cbn in Hn; lia|]. exists (prev :: l). split; [done|].
    split; [exact (second_text_app [prev] _ [prev] _ (conj eq_refl eq_refl) Hl2)|]. intros Ht. by rewrite Hl.
Qed.

Lemma before_overlaps_ok diffs : ∃ l, before_overlaps diffs = Ret l ∧ l ≈ diffs.
Proof.
  unfold before_overlaps.
  destruct (semantic_loop_ok (rounds diffs) diffs 0 (Semantic [] [] 0 0 0 0) false) as (l1 & ch & -> & H1);
    [by apply stack_none|apply enough_rounds|]. cbn [bind_outcome].
  assert (∃ l2, (if ch then diff_cleanupMerge l1 else Ret l1) = Ret l2 ∧ l2 ≈ l1) as (l2 & -> & H2).
  { destruct ch; [|by exists l1]. destruct (cleanupMerge_keeps l1) as (k & ? & ? & ?). by exists k. }
  cbn [bind_outcome]. destruct (cleanupSemanticLossless_keeps l2) as (l3 & -> & H3).
  exists l3. split; [done|]. rewrite <-H1, <-H2. exact H3.
Qed.

(** Every overlap that diff_cleanupSemantic takes out of a diff is one. *)
Definition true_overlaps (diffs : Diffs) : bool :=
  match before_overlaps diffs with Ret (d :: l) => overlaps_true d l | Ret [] => true | _ => false end.

(** diff_cleanupSemantic ends, and keeps the texts if the overlaps it takes
    out are overlaps. *)
Lemma cleanupSemantic_keeps diffs :
  ∃ l, diff_cleanupSemantic diffs = Ret l ∧ second_text l diffs ∧ (true_overlaps diffs = true → l ≈ diffs).
Proof.
  unfold diff_cleanupSemantic, true_overlaps. case_decide as Hd; [by exists diffs|].
  destruct (before_overlaps_ok diffs) as (k & -> & Hk). cbn [bind_outcome].
  destruct k as [|d k]; [exists []; split_and!; [done|by apply same_second|done]|].
  destruct (overlaps_ok (length k) d k (le_n _)) as (l & -> & [H1 H2] & Hl).
  exists l. split; [done|]. split; [destruct Hk; split; congruence|]. intros Ht. by rewrite Hl.
Qed.

(** C16 The cleanups end on every diff and keep both of its texts, no iterator of
    theirs being left on a diff they have erased, no equality being missing
    where one is expected. The semantic one keeps the second text and the length
    of the first, and the first if the overlaps it takes out are overlaps. *)
Theorem cleanups_keep_texts diffs :
  (∃ l, diff_cleanupMerge diffs = Ret l ∧ l ≈ diffs) ∧
  (∃ l, diff_cleanupSemanticLossless diffs = Ret l ∧ l ≈ diffs) ∧
  (∃ l, diff_cleanupEfficiency diffs = Ret l ∧ l ≈ diffs) ∧
  (∃ l, diff_cleanupSemantic diffs = Ret l ∧ second_text l diffs ∧ (true_overlaps diffs = true → l ≈ diffs)).
Proof.
  split_and!; [apply cleanupMerge_keeps|apply cleanupSemanticLossless_keeps|apply cleanupEfficiency_keeps|].
  apply cleanupSemantic_keeps.
Qed.
End DmpCleanup.
