(* ===== verification/DmpGraph.v ===== *)
(** * The edit graph of two texts

    The points of the graph are pairs of positions in the two texts; a step to
    the right drops a character of the first text, a step down takes one of the
    second, and where the texts agree a diagonal step keeps a character and
    costs nothing.  The search of diff_bisect walks this graph from both of its
    corners, and also beyond the last character of either text, where there are no
    diagonals. *)

From S2P Require Import Prelude DmpDiff DmpPatch DmpText DmpApply.
Import DmpDiff.DmpDiff DmpApply.DmpApply.
Local Open Scope Z_scope.

(** [lia] with parities. *)
#[local] Ltac Zify.zify_post_hook ::= Z.div_mod_to_equations.

(** What holds for a number and gives a decidable goal for the least such number, gives it. *)
Lemma least_gives (P : nat → Prop) (G : Prop) n :
  Decision G → P n → (∀ m, P m → (∀ j, P j → (m ≤ j)%nat) → G) → G.
Proof.
  intros [HG|HG] Hn Hmin; [done|]. exfalso. induction (lt_wf n) as [n _ IH].
  apply HG, (Hmin n Hn). intros j Hj. destruct (decide (n ≤ j)%nat) as [|Hlt]; [done|]. destruct (IH j); [lia|done].
Qed.

Module DmpGraph.

Section graph.
Context (a b : bytes).
Implicit Types (x y k : Z) (n m i : nat).

(** The texts agree behind the point. *)
Definition matches x y : Prop :=
  0 ≤ x < zlen a ∧ 0 ≤ y < zlen b ∧ a !! Z.to_nat x = b !! Z.to_nat y.

(** A point that [n] edits from the start lead to. *)
Inductive reach : nat → Z → Z → Prop :=
  | reach_start : reach 0 0 0
  | reach_right n x y : reach n x y → reach (S n) (x + 1) y
  | reach_down n x y : reach n x y → reach (S n) x (y + 1)
  | reach_match n x y : reach n x y → matches x y → reach n (x + 1) (y + 1).

(** A point that [n] edits lead from to the end. *)
Inductive rest : nat → Z → Z → Prop :=
  | rest_end : rest 0 (zlen a) (zlen b)
  | rest_right n x y : rest n (x + 1) y → rest (S n) x y
  | rest_down n x y : rest n x (y + 1) → rest (S n) x y
  | rest_match n x y : rest n (x + 1) (y + 1) → matches x y → rest n x y.

Lemma reach_bounds n x y : reach n x y →
  0 ≤ x ∧ 0 ≤ y ∧ - Z.of_nat n ≤ x - y ≤ Z.of_nat n ∧ (x - y - Z.of_nat n) mod 2 = 0.
Proof. induction 1; lia. Qed.

Lemma rest_bounds n x y : rest n x y →
  x ≤ zlen a ∧ y ≤ zlen b ∧ - Z.of_nat n ≤ (zlen a - zlen b) - (x - y) ≤ Z.of_nat n.
Proof. induction 1; lia. Qed.

Lemma reach_rest m n x y : reach m x y → rest n x y → reach (m + n) (zlen a) (zlen b).
Proof.
  intros Hr He. revert m Hr. induction He; intros m Hr.
  - by rewrite Nat.add_0_r.
  - rewrite Nat.add_succ_r, <-Nat.add_succ_l. auto using reach_right.
  - rewrite Nat.add_succ_r, <-Nat.add_succ_l. auto using reach_down.
  - auto using reach_match.
Qed.

Lemma rest_reach m n x y : reach m x y → rest n x y → rest (m + n) 0 0.
Proof.
  intros Hr. revert n. induction Hr as [|m x y ? IH|m x y ? IH|m x y ? IH]; intros n He; [done|..]; cbn [Nat.add].
  - rewrite <-Nat.add_succ_r. auto using rest_right.
  - rewrite <-Nat.add_succ_r. auto using rest_down.
  - auto using rest_match.
Qed.

(** A path can be cut after any number of edits. *)
Lemma cut_path n m x y i : reach n x y → rest m x y → (i ≤ n)%nat →
  ∃ x' y', reach i x' y' ∧ rest (m + (n - i)) x' y'.
Proof.
  intros Hr. revert m. induction Hr as [|n x y Hr IH|n x y Hr IH|n x y Hr IH]; intros m He Hi.
  - exists 0, 0. assert (i = 0)%nat as -> by lia. rewrite Nat.add_0_r. split; [constructor|done].
  - destruct (decide (i = S n)) as [->|]; [exists (x + 1), y; rewrite Nat.sub_diag, Nat.add_0_r; auto using reach_right|].
    destruct (IH (S m)) as (x' & y' & ? & ?); [by apply rest_right|lia|].
    exists x', y'. split; [done|]. by replace (m + (S n - i))%nat with (S m + (n - i))%nat by lia.
  - destruct (decide (i = S n)) as [->|]; [exists x, (y + 1); rewrite Nat.sub_diag, Nat.add_0_r; auto using reach_down|].
    destruct (IH (S m)) as (x' & y' & ? & ?); [by apply rest_down|lia|].
    exists x', y'. split; [done|]. by replace (m + (S n - i))%nat with (S m + (n - i))%nat by lia.
  - apply IH; [by apply rest_match|done].
Qed.

(** Without the steps beyond the texts, a path is so much shorter. *)
Lemma reach_clamped n x y : reach n x y → ∃ m, reach m (Z.min x (zlen a)) (Z.min y (zlen b)) ∧
  Z.of_nat m + Z.max 0 (x - zlen a) + Z.max 0 (y - zlen b) ≤ Z.of_nat n.
Proof.
  pose proof (zlen_nonneg a). pose proof (zlen_nonneg b).
  induction 1 as [|n x y _ (m & Hm & Hle)|n x y _ (m & Hm & Hle)|n x y _ (m & Hm & Hle) Hxy].
  - exists 0%nat. rewrite !Z.min_l by lia. split; [constructor|lia].
  - destruct (decide (x < zlen a)).
    + exists (S m). rewrite (Z.min_l x), (Z.min_l (x + 1)) in * by lia. split; [by constructor|lia].
    + exists m. rewrite (Z.min_r x), (Z.min_r (x + 1)) in * by lia. split; [done|lia].
  - destruct (decide (y < zlen b)).
    + exists (S m). rewrite (Z.min_l y), (Z.min_l (y + 1)) in * by lia. split; [by constructor|lia].
    + exists m. rewrite (Z.min_r y), (Z.min_r (y + 1)) in * by lia. split; [done|lia].
  - pose proof Hxy as (? & ? & _). exists m. rewrite !Z.min_l in * by lia.
    split; [by apply reach_match|lia].
Qed.

(** From a point of the texts straight to the end. *)
Lemma reach_straight n x y i j : reach n x y → reach (n + i + j) (x + Z.of_nat i) (y + Z.of_nat j).
Proof.
  intros Hr. induction j as [|j IHj]; [induction i as [|i IHi]|].
  - by rewrite !Nat.add_0_r, !Z.add_0_r.
  - rewrite Z.add_0_r, !Nat.add_0_r, Nat.add_succ_r in *. replace (x + Z.of_nat (S i)) with (x + Z.of_nat i + 1) by lia. by constructor.
  - rewrite Nat.add_succ_r. replace (y + Z.of_nat (S j)) with (y + Z.of_nat j + 1) by lia. by constructor.
Qed.

(** The number of edits of a shortest path. *)
Definition distance (D : nat) : Prop :=
  reach D (zlen a) (zlen b) ∧ ∀ n, reach n (zlen a) (zlen b) → (D ≤ n)%nat.

Lemma some_path : reach (length a + length b) (zlen a) (zlen b).
Proof. exact (reach_straight 0 0 0 (length a) (length b) reach_start). Qed.

Section shortest.
Context (D : nat) (HD : distance D).
Let delta := zlen a - zlen b.

(** A point beyond the end of a text is on a diagonal that no shortest path
    crosses after so many edits. *)
Lemma beyond n x y : reach n x y →
  (zlen a < x → Z.of_nat D - Z.of_nat n + 2 + delta ≤ x - y) ∧
  (zlen b < y → x - y ≤ delta - (Z.of_nat D - Z.of_nat n) - 2).
Proof.
  intros (m & Hm & Hle)%reach_clamped.
  pose proof (reach_straight m _ _ (Z.to_nat (zlen a - Z.min x (zlen a))) (Z.to_nat (zlen b - Z.min y (zlen b))) Hm) as Hs.
  rewrite !Z2Nat.id, !Zplus_minus in Hs by lia. apply (proj2 HD) in Hs. unfold delta. lia.
Qed.

(** A point of a shortest path, after [d] edits. *)
Definition opt (d : nat) x y : Prop := reach d x y ∧ rest (D - d) x y.

Lemma opt_exists d : (d ≤ D)%nat → ∃ x y, opt d x y.
Proof.
  intros Hd. destruct (cut_path D 0 (zlen a) (zlen b) d (proj1 HD) rest_end Hd) as (x & y & ? & ?). exists x, y. by split.
Qed.

Lemma opt_bounds d x y : (d ≤ D)%nat → opt d x y →
  0 ≤ x ≤ zlen a ∧ 0 ≤ y ≤ zlen b ∧ - Z.of_nat d ≤ x - y ≤ Z.of_nat d ∧
  delta - (Z.of_nat D - Z.of_nat d) ≤ x - y ≤ delta + (Z.of_nat D - Z.of_nat d) ∧ (x - y - Z.of_nat d) mod 2 = 0.
Proof. intros Hd [Hr%reach_bounds He%rest_bounds]. unfold delta. lia. Qed.

Lemma distance_parity : (Z.of_nat D - delta) mod 2 = 0.
Proof. destruct (reach_bounds _ _ _ (proj1 HD)) as (_ & _ & _ & Hp). unfold delta. lia. Qed.

(** How a shortest path gets to a point: it is the first, or by an edit from a
    point before, or after a point on the same diagonal. *)
Lemma opt_inv d x y : (d ≤ D)%nat → opt d x y →
  (d = 0%nat ∧ x = 0 ∧ y = 0) ∨
  (∃ d', d = S d' ∧ (opt d' (x - 1) y ∨ opt d' x (y - 1))) ∨
  (opt d (x - 1) (y - 1) ∧ matches (x - 1) (y - 1)).
Proof.
  intros Hd [Hr He]. unfold opt. inversion Hr as [|n x' y' Hn|n x' y' Hn|n x' y' Hn Hm]; subst; [by left|right..].
  - left. exists n. split; [done|]. left. rewrite Z.add_simpl_r. split; [done|].
    replace (D - n)%nat with (S (D - S n)) by lia. by apply rest_right.
  - left. exists n. split; [done|]. right. rewrite Z.add_simpl_r. split; [done|].
    replace (D - n)%nat with (S (D - S n)) by lia. by apply rest_down.
  - right. rewrite !Z.add_simpl_r. split; [|done]. split; [done|]. by apply rest_match.
Qed.
End shortest.
End graph.

(** ** The graph from the other corner *)
Lemma matches_rev a b x y : matches a b x y → matches (rev a) (rev b) (zlen a - 1 - x) (zlen b - 1 - y).
Proof.
  unfold matches, zlen. rewrite !length_rev. intros (Hx & Hy & He). split_and!; try lia.
  rewrite !rev_alt. change (reverse a !! Z.to_nat (Z.of_nat (length a) - 1 - x) = reverse b !! Z.to_nat (Z.of_nat (length b) - 1 - y)).
  rewrite !reverse_lookup by lia.
  replace (length a - S (Z.to_nat (Z.of_nat (length a) - 1 - x)))%nat with (Z.to_nat x) by lia.
  by replace (length b - S (Z.to_nat (Z.of_nat (length b) - 1 - y)))%nat with (Z.to_nat y) by lia.
Qed.

Lemma zlen_rev {A} (l : list A) : zlen (rev l) = zlen l.
Proof. unfold zlen. by rewrite length_rev. Qed.

Lemma rest_rev a b n x y : rest a b n x y → reach (rev a) (rev b) n (zlen a - x) (zlen b - y).
Proof.
  induction 1 as [|n x y _ IH|n x y _ IH|n x y _ IH Hm].
  - rewrite !Z.sub_diag. constructor.
  - replace (zlen a - x) with (zlen a - (x + 1) + 1) by lia. by constructor.
  - replace (zlen b - y) with (zlen b - (y + 1) + 1) by lia. by constructor.
  - apply matches_rev in Hm. replace (zlen a - x) with (zlen a - (x + 1) + 1) by lia.
    replace (zlen b - y) with (zlen b - (y + 1) + 1) by lia. constructor; [done|].
    by replace (zlen a - (x + 1)) with (zlen a - 1 - x) by lia; replace (zlen b - (y + 1)) with (zlen b - 1 - y) by lia.
Qed.

Lemma reach_rev a b n x y : reach a b n x y → rest (rev a) (rev b) n (zlen a - x) (zlen b - y).
Proof.
  induction 1 as [|n x y _ IH|n x y _ IH|n x y _ IH Hm].
  - rewrite !Z.sub_0_r, <-(zlen_rev a), <-(zlen_rev b). constructor.
  - apply rest_right. by replace (zlen a - (x + 1) + 1) with (zlen a - x) by lia.
  - apply rest_down. by replace (zlen b - (y + 1) + 1) with (zlen b - y) by lia.
  - apply matches_rev in Hm. apply rest_match.
    + by replace (zlen a - (x + 1) + 1) with (zlen a - x) by lia; replace (zlen b - (y + 1) + 1) with (zlen b - y) by lia.
    + by replace (zlen a - (x + 1)) with (zlen a - 1 - x) by lia; replace (zlen b - (y + 1)) with (zlen b - 1 - y) by lia.
Qed.

Lemma distance_rev a b D : distance a b D → distance (rev a) (rev b) D.
Proof.
  assert (Hto : ∀ s t n, reach s t n (zlen s) (zlen t) → reach (rev s) (rev t) n (zlen s) (zlen t)).
  { intros s t n Hr. pose proof (rest_reach _ _ _ _ _ _ Hr (rest_end s t)) as He%rest_rev. by rewrite !Z.sub_0_r, Nat.add_0_r in He. }
  unfold distance. rewrite !zlen_rev. intros [Hr Hm]. split; [by apply Hto|]. intros n Hn. apply Hm.
  rewrite <-(zlen_rev a), <-(zlen_rev b) in Hn. apply Hto in Hn. by rewrite !rev_involutive, !zlen_rev in Hn.
Qed.

Lemma opt_rev a b D d x y : (d ≤ D)%nat → opt a b D d x y → opt (rev a) (rev b) D (D - d) (zlen a - x) (zlen b - y).
Proof.
  intros Hd [Hr He]. split; [by apply rest_rev|]. replace (D - (D - d))%nat with d by lia. by apply reach_rev.
Qed.

End DmpGraph.
