(* ===== verification/DmpBisect.v ===== *)
(** * diff_bisect finds a place to split at

    The search for the middle snake keeps, for each diagonal of the edit graph,
    the furthest point of it that so many edits lead to.  In every round each
    diagonal has a neighbour that the round before has visited, which keeps the
    points on the grid and the indices in range; the diagonals that are no
    longer visited, since a path has left the texts there, are never crossed by
    a shortest path, so that the two searches meet after half its edits; and
    where they meet is inside both texts and at neither of their ends. *)

From S2P Require Import Prelude DmpDiff DmpPatch DmpText DmpApply DmpCleanup DmpGraph.
Local Open Scope prog_scope.
Import DmpDiff.Str DmpDiff.DmpDiff DmpApply.DmpApply DmpCleanup.DmpCleanup DmpGraph.DmpGraph.

(** [lia] with parities. *)
#[local] Ltac Zify.zify_post_hook ::= Z.div_mod_to_equations.

Module DmpBisect.

(** ** The vectors *)
Section vector.
Context (D : Z).
Implicit Types (v : list Z) (d k x : Z).

Definition entry v k : option Z := v !! Z.to_nat (D + k).

(** Before the first round: the search starts on the diagonal 1. *)
Definition started v : Prop :=
  zlen v = (2 * D)%Z ∧ entry v 1 = Some 0%Z ∧ ∀ k x, (- D ≤ k)%Z → entry v k = Some x → x = (-1)%Z ∨ (k = 1 ∧ x = 0)%Z.

Lemma vec_get_entry v k x : (- D ≤ k)%Z → entry v k = Some x → vec_get v (D + k) = Ret x.
Proof.
  intros Hk He. unfold vec_get. destruct (D + k <? 0)%Z eqn:Hn; [apply Z.ltb_lt in Hn; lia|]. unfold entry in He. by rewrite He.
Qed.

Lemma entry_some v k : zlen v = (2 * D)%Z → (- D ≤ k < D)%Z → ∃ x, entry v k = Some x.
Proof.
  intros Hl Hk. unfold entry. destruct (v !! Z.to_nat (D + k)) eqn:He; [eauto|].
  apply lookup_ge_None in He. unfold zlen in Hl. lia.
Qed.

Lemma entry_set v k x j : zlen v = (2 * D)%Z → (- D ≤ k < D)%Z → (- D ≤ j)%Z →
  entry (<[Z.to_nat (D + k) := x]> v) j = if decide (j = k) then Some x else entry v j.
Proof.
  intros Hl Hk Hj. unfold entry. case_decide as Hd.
  - subst j. apply list_lookup_insert_eq. unfold zlen in Hl. lia.
  - apply list_lookup_insert_ne. lia.
Qed.

Lemma vec_set_entry v k x : zlen v = (2 * D)%Z → (- D ≤ k < D)%Z →
  vec_set v (D + k) x = Ret (<[Z.to_nat (D + k) := x]> v) ∧ zlen (<[Z.to_nat (D + k) := x]> v) = (2 * D)%Z.
Proof.
  intros Hl Hk. unfold vec_set, zlen in *. rewrite length_insert, (proj2 (Z.leb_le 0 _)), (proj2 (Z.ltb_lt _ _)) by lia. done.
Qed.

Lemma vector_started : (2 ≤ D)%Z → ∃ v, vec_set (replicate (Z.to_nat (2 * D)) (-1)%Z) (D + 1) 0 = Ret v ∧ started v.
Proof.
  intros HD. set (v := replicate _ _). assert (Hl : zlen v = (2 * D)%Z) by (unfold zlen, v; rewrite length_replicate; lia).
  destruct (vec_set_entry v 1 0 Hl) as [-> Hl']; [lia|]. eexists. split; [done|]. split; [done|].
  split; [by rewrite entry_set by lia|]. intros k x Hk. rewrite entry_set by lia. case_decide as Hd; [intros [= <-]; by right|].
  unfold entry, v. intros [-> _]%lookup_replicate. by left.
Qed.

(** What is known of the other path's entry, by its index. *)
Lemma other_path_entry v k x : other_path v (D + k) = Some x → (- D ≤ k)%Z ∧ entry v k = Some x ∧ x ≠ (-1)%Z.
Proof.
  unfold other_path, entry. destruct (_ && _) eqn:Hr; [|done]. apply andb_prop in Hr as [?%Z.leb_le _].
  destruct (v !! _) as [z|]; [|done]. destruct (z =? -1)%Z eqn:Hz; [done|]. intros [= <-]. apply Z.eqb_neq in Hz. split_and!; [lia|done|done].
Qed.

Lemma entry_other_path v k x : zlen v = (2 * D)%Z → (- D ≤ k < D)%Z → entry v k = Some x → (0 ≤ x)%Z → other_path v (D + k) = Some x.
Proof.
  intros Hl Hk He Hx. unfold other_path, entry in *. rewrite Hl, (proj2 (Z.leb_le _ _)), (proj2 (Z.ltb_lt _ _)), He by lia.
  by rewrite (proj2 (Z.eqb_neq _ _)) by lia.
Qed.
End vector.

(** ** Along a diagonal *)
Section diagonal.
Context (a b : bytes).
Implicit Types (d k x : Z).

Lemma commonPrefix_lookup (s t : bytes) i : i < diff_commonPrefix s t → is_Some (s !! i) ∧ s !! i = t !! i.
Proof.
  revert t i. induction s as [|c s IH]; intros [|c' t] i; cbn [diff_commonPrefix]; try lia.
  case_decide as Hc; [|lia]. subst c'. destruct i as [|i]; intros Hi; [by cbn|]. cbn. apply IH. lia.
Qed.

Lemma commonPrefix_stops (s t : bytes) : s !! diff_commonPrefix s t = t !! diff_commonPrefix s t → s !! diff_commonPrefix s t = None.
Proof.
  revert t. induction s as [|c s IH]; intros [|c' t]; cbn [diff_commonPrefix]; try done.
  case_decide as Hc; [apply IH|]. cbn. congruence.
Qed.

(** Texts that begin differently have no other point without an edit. *)
Lemma reach_zero x y : ¬ matches a b 0 0 → reach a b 0 x y → x = 0%Z ∧ y = 0%Z.
Proof.
  intros Hm0 Hr. remember 0 as i eqn:Hi. induction Hr as [|i x y _ _|i x y _ _|i x y _ IH Hm]; try done.
  destruct (IH Hi) as [-> ->]. done.
Qed.

(** [slide] goes on as far as the texts agree. *)
Lemma slide_spec x y : (0 ≤ x)%Z → (0 ≤ y)%Z → ∃ n, slide a b x y = Ret n ∧ (0 ≤ n)%Z ∧
  ¬ matches a b (x + n) (y + n) ∧ ∀ e, reach a b e x y → reach a b e (x + n) (y + n).
Proof.
  intros Hx Hy. unfold slide. destruct (_ && _) eqn:Hin.
  - apply andb_prop in Hin as [Hxa%Z.ltb_lt Hyb%Z.ltb_lt]. rewrite (proj2 (Z.leb_le 0 x)), (proj2 (Z.leb_le 0 y)) by lia.
    set (s := drop (Z.to_nat x) a). set (t := drop (Z.to_nat y) b). eexists. split; [done|]. split; [lia|].
    assert (Hs : ∀ i, s !! i = a !! Z.to_nat (x + Z.of_nat i)) by (intros; unfold s; rewrite lookup_drop; f_equal; lia).
    assert (Ht : ∀ i, t !! i = b !! Z.to_nat (y + Z.of_nat i)) by (intros; unfold t; rewrite lookup_drop; f_equal; lia).
    split.
    + intros (Hm1 & Hm2 & Hm). rewrite <-Hs, <-Ht in Hm. apply commonPrefix_stops in Hm.
      rewrite Hs in Hm. apply lookup_ge_None in Hm. unfold zlen in *. lia.
    + intros e He. assert (∀ i, i ≤ diff_commonPrefix s t → reach a b e (x + Z.of_nat i) (y + Z.of_nat i)) as Hr; [|by apply Hr].
      induction i as [|i IH]; intros Hi; [by rewrite !Z.add_0_r|].
      destruct (commonPrefix_lookup s t i) as [[c Hc] Heq]; [lia|]. rewrite Hc, Hs, Ht in *.
      replace (x + Z.of_nat (S i))%Z with (x + Z.of_nat i + 1)%Z by lia. replace (y + Z.of_nat (S i))%Z with (y + Z.of_nat i + 1)%Z by lia.
      apply reach_match; [apply IH; lia|]. apply lookup_lt_Some in Hc as Hca. symmetry in Heq. apply lookup_lt_Some in Heq as Hcb.
      unfold matches, zlen. split_and!; try lia. congruence.
  - exists 0%Z. rewrite !Z.add_0_r. split_and!; [done|done| |done]. intros (Hm1 & Hm2 & _).
    apply andb_false_iff in Hin as [?%Z.ltb_ge|?%Z.ltb_ge]; lia.
Qed.

(** ** What the entries mean *)
Context (N : nat) (HN : distance a b N).
Let delta := (zlen a - zlen b)%Z.

Definition on_grid k x : Prop := (0 ≤ x ∧ k ≤ x)%Z.

(** At most [d] edits lead to the point at [x] of the diagonal [k]. *)
Definition sound d k x : Prop := ∃ e, (Z.of_nat e ≤ d)%Z ∧ reach a b e x (x - k).

(** No shortest path is further there after [d] edits. *)
Definition furthest d k x : Prop := ∀ x' y', opt a b N (Z.to_nat d) x' y' → (x' - y' = k)%Z → (x' ≤ x)%Z.

Lemma sound_grid d k x : sound d k x → on_grid k x ∧ (- d ≤ k ≤ d)%Z.
Proof. intros (e & He & Hr%reach_bounds). unfold on_grid. lia. Qed.

Lemma sound_le d d' k x : (d ≤ d')%Z → sound d k x → sound d' k x.
Proof. intros Hd (e & He & Hr). exists e. split; [lia|done]. Qed.

(** The parity of a diagonal is that of the edits that lead to it. *)
Lemma sound_parity d k x : ((k - d) mod 2 = 1)%Z → sound d k x → sound (d - 1) k x.
Proof.
  intros Hp (e & He & Hr). exists e. split; [|done]. apply reach_bounds in Hr as (_ & _ & _ & Hpar).
  enough (Z.of_nat e ≠ d) by lia. intros <-. lia.
Qed.

Lemma sound_right d k x : sound (d - 1) (k - 1) x → sound d k (x + 1).
Proof. intros (e & He & Hr%reach_right). exists (S e). split; [lia|]. by replace (x + 1 - k)%Z with (x - (k - 1))%Z by lia. Qed.

Lemma sound_down d k x : sound (d - 1) (k + 1) x → sound d k x.
Proof. intros (e & He & Hr%reach_down). exists (S e). split; [lia|]. by replace (x - k)%Z with (x - (k + 1) + 1)%Z by lia. Qed.

(** Beyond the texts, no shortest path is met. *)
Definition top d : Z := Z.of_nat N - d + 2 + delta.
Definition bottom d : Z := delta - (Z.of_nat N - d) - 2.

Lemma sound_beyond d k x : sound d k x → (zlen a < x → top d ≤ k)%Z ∧ (zlen b < x - k → k ≤ bottom d)%Z.
Proof.
  intros (e & He & Hr). destruct (beyond a b N HN e x (x - k) Hr) as [H1 H2]. unfold top, bottom, delta. lia.
Qed.

(** The furthest point is reached by an edit from the furthest ones before it,
    and along the diagonal. *)
Lemma slide_furthest d k x n : (Z.to_nat d ≤ N) → (0 ≤ n)%Z → ¬ matches a b (x + n) (x - k + n) →
  (∀ x' y', (x' - y' = k)%Z → (Z.to_nat d = 0 ∧ x' = 0%Z) ∨
     (∃ m, Z.to_nat d = S m ∧ (opt a b N m (x' - 1) y' ∨ opt a b N m x' (y' - 1))) → (x' ≤ x)%Z) →
  furthest d k (x + n).
Proof.
  intros Hd Hn Hstop Hbefore x' y'. remember (Z.to_nat x') as i eqn:Hi. revert x' y' Hi.
  induction i as [|i IH]; intros x' y' Hi Hopt Hk; pose proof (opt_bounds a b N _ _ _ Hd Hopt) as Hb;
    apply opt_inv in Hopt as [(H0 & -> & ->)|[Hs|[Hopt Hm]]]; try done.
  - specialize (Hbefore 0%Z 0%Z Hk ltac:(by left)). lia.
  - specialize (Hbefore x' y' Hk (or_intror Hs)). lia.
  - destruct Hm as [? _]. lia.
  - specialize (Hbefore x' y' Hk (or_intror Hs)). lia.
  - specialize (IH (x' - 1)%Z (y' - 1)%Z ltac:(lia) Hopt ltac:(lia)). destruct (decide (x' - 1 = x + n)%Z) as [He|]; [|lia].
    destruct Hstop. replace (x - k + n)%Z with (y' - 1)%Z by lia. by rewrite <-He.
Qed.
End diagonal.

(** ** One path *)
Section path.
Context (a b : bytes) (N : nat) (HN : distance a b N) (D : Z) (HD : (2 ≤ D)%Z) (meets : Z → Z → option (Z * Z)).
Implicit Types (v : list Z) (d k x ks ke : Z).

Definition ahead d k x : Prop := sound a b d k x ∧ furthest a b N d k x.

(** What an entry holds: nothing yet, a point, or the start of the search. *)
Definition holds d k x : Prop := x = (-1)%Z ∨ sound a b d k x ∨ (k = 1 ∧ x = 0)%Z.

(** After round [d] visited every second diagonal from [s] to [e], and some of
    the round [d'] have been visited too. *)
Record visited v d' d s e : Prop := {
  vs_length : zlen v = (2 * D)%Z;
  vs_holds : ∀ k x, (- D ≤ k)%Z → entry D v k = Some x → holds d' k x;
  vs_ahead : ∀ k, (s ≤ k ≤ e)%Z → ((k - s) mod 2 = 0)%Z → ∃ x, entry D v k = Some x ∧ ahead d k x;
  vs_opt : ∀ x y, opt a b N (Z.to_nat d) x y → (s ≤ x - y ≤ e)%Z;
  vs_range : (- d ≤ s ∧ s ≤ e ∧ e ≤ d)%Z ∧ ((s - d) mod 2 = 0)%Z;
}.

(** What a path is at the start of round [d]. *)
Record ready v d ks ke s e : Prop := {
  rd_visited : visited v (d - 1) (d - 1) s e;
  rd_range : (s - 1 ≤ - d + ks ≤ d - ke ∧ d - ke ≤ e + 1)%Z;
  rd_start : (ks mod 2 = 0 ∧ (ks = 0 ∨ 0 ≤ ks ∧ - d + ks ≤ bottom a b N d))%Z;
  rd_end : (ke mod 2 = 0 ∧ (ke = 0 ∨ 0 ≤ ke ∧ top a b N d ≤ d - ke))%Z;
}.

(** A point inside the texts that does not meet the other path. *)
Definition missed k x : Prop := (x ≤ zlen a)%Z → (x - k ≤ zlen b)%Z → meets k x = None.

(** What a round answers. *)
Definition round_answer d (p : path) : Prop :=
  match p with
  | Overlap x y => ∃ k x0, meets k x0 = Some (x, y) ∧ sound a b d k x0 ∧ (0 < d → 0 < 2 * x0 - k)%Z ∧ (x0 ≤ zlen a ∧ x0 - k ≤ zlen b)%Z
  | Walked v ks ke => (∃ s e, ready v (d + 1) ks ke s e) ∧
      ∀ x y, opt a b N (Z.to_nat d) x y → ∃ x0, entry D v (x - y) = Some x0 ∧ ahead d (x - y) x0 ∧ missed (x - y) x0
  end.

(** One round, [d], after the diagonals from [s] to [e] in the one before. *)
Section round.
Context (d s e ks0 ke0 : Z) (Hd : (1 ≤ d < D)%Z) (HdN : (d ≤ Z.of_nat N)%Z).

(** The choice between the two neighbours. *)
Lemma choice_ahead v k : visited v d (d - 1) s e → (s - 1 ≤ k ≤ e + 1)%Z → ((k - d) mod 2 = 0)%Z →
  ∃ x, (if (k =? - d)%Z then vec_get v (D + k + 1)
        else if (k =? d)%Z then bind_outcome (vec_get v (D + k - 1)) (λ x, Ret (x + 1)%Z)
        else bind_outcome (vec_get v (D + k - 1)) (λ l,
             bind_outcome (vec_get v (D + k + 1)) (λ a, Ret (if (l <? a)%Z then a else l + 1)%Z))) = Ret x ∧
    sound a b d k x ∧ (0 < 2 * x - k)%Z ∧
    (∀ l, (s ≤ k - 1)%Z → entry D v (k - 1) = Some l → (l + 1 ≤ x)%Z) ∧ (∀ u, (k + 1 ≤ e)%Z → entry D v (k + 1) = Some u → (u ≤ x)%Z).
Proof.
  intros [Hl Hh Ha _ Hr] Hk Hpar. replace (D + k + 1)%Z with (D + (k + 1))%Z by lia. replace (D + k - 1)%Z with (D + (k - 1))%Z by lia.
  assert (Hup : (k + 1 ≤ e)%Z → ∃ x, entry D v (k + 1) = Some x ∧ sound a b (d - 1) (k + 1) x).
  { intros He. destruct (Ha (k + 1)%Z) as (x & ? & ? & _); [lia..|]. by exists x. }
  assert (Hdown : (s ≤ k - 1)%Z → ∃ x, entry D v (k - 1) = Some x ∧ sound a b (d - 1) (k - 1) x).
  { intros He. destruct (Ha (k - 1)%Z) as (x & ? & ? & _); [lia..|]. by exists x. }
  assert (Hfrom_left : ∀ l, sound a b (d - 1) (k - 1) l → sound a b d k (l + 1) ∧ (0 < 2 * (l + 1) - k)%Z).
  { intros l Hs. split; [by apply sound_right|]. apply sound_grid in Hs as [[? ?] _]. lia. }
  assert (Hfrom_above : ∀ u, sound a b (d - 1) (k + 1) u → sound a b d k u ∧ (0 < 2 * u - k)%Z).
  { intros u Hs. split; [by apply sound_down|]. apply sound_grid in Hs as [[? ?] _]. lia. }
  destruct (k =? - d)%Z eqn:Hlow; [|destruct (k =? d)%Z eqn:Hhigh].
  - apply Z.eqb_eq in Hlow. destruct Hup as (u & Hu & Hs); [lia|]. rewrite (vec_get_entry D v (k + 1) u) by (done || lia).
    exists u. apply Hfrom_above in Hs as [? ?]. split_and!; try done; [intros; lia|]. intros u' _. rewrite Hu. intros [= <-]. lia.
  - apply Z.eqb_eq in Hhigh. destruct Hdown as (l & Hlk & Hs); [lia|]. rewrite (vec_get_entry D v (k - 1) l) by (done || lia).
    exists (l + 1)%Z. apply Hfrom_left in Hs as [? ?]. split_and!; try done; [|intros; lia]. intros l' _. rewrite Hlk. intros [= <-]. lia.
  - apply Z.eqb_neq in Hlow, Hhigh.
    destruct (entry_some D v (k - 1) Hl) as [l Hle]; [lia|]. destruct (entry_some D v (k + 1) Hl) as [u Hue]; [lia|].
    rewrite (vec_get_entry D v (k - 1) l), (vec_get_entry D v (k + 1) u) by (done || lia). cbn [bind_outcome].
    eexists. split; [done|]. rewrite Hle in *. rewrite Hue in *.
    assert (Hl' : sound a b (d - 1) (k - 1) l ∨ ¬ (s ≤ k - 1)%Z).
    { destruct (decide (s ≤ k - 1)%Z) as [Hc|]; [|by right]. destruct (Hdown Hc) as (? & [= <-] & ?). by left. }
    assert (Hu' : sound a b (d - 1) (k + 1) u ∨ ¬ (k + 1 ≤ e)%Z).
    { destruct (decide (k + 1 ≤ e)%Z) as [Hc|]; [|by right]. destruct (Hup Hc) as (? & [= <-] & ?). by left. }
    pose proof (Hh (k - 1)%Z l ltac:(lia) Hle) as Hhl. pose proof (Hh (k + 1)%Z u ltac:(lia) Hue) as Hhu.
    destruct (l <? u)%Z eqn:Hlt; [apply Z.ltb_lt in Hlt|apply Z.ltb_ge in Hlt].
    + assert (Hs : sound a b (d - 1) (k + 1) u).
      { destruct Hu' as [|Hc]; [done|]. destruct Hl' as [Hs|]; [|lia]. apply sound_grid in Hs as [[? ?] _].
        destruct Hhu as [|[|]]; [lia| |lia]. apply sound_parity; [lia|done]. }
      apply Hfrom_above in Hs as [? ?]. split_and!; [done|done| |]; intros ? _ [= <-]; lia.
    + assert (Hs : sound a b (d - 1) (k - 1) l).
      { destruct Hl' as [|Hc]; [done|]. destruct Hu' as [Hs|]; [|lia]. apply sound_grid in Hs as [[? ?] _].
        destruct Hhl as [|[|]]; [lia| |lia]. apply sound_parity; [lia|done]. }
      apply Hfrom_left in Hs as [? ?]. split_and!; [done|done| |]; intros ? _ [= <-]; lia.
Qed.

(** A step reaches the furthest point of its diagonal, and keeps what the round
    before has left on the others. *)
Lemma walk_ahead v k : visited v d (d - 1) s e → (s - 1 ≤ k ≤ e + 1)%Z → ((k - d) mod 2 = 0)%Z →
  ∃ x, walk a b D d k v = Ret (x, <[Z.to_nat (D + k) := x]> v) ∧ ahead d k x ∧ (0 < 2 * x - k)%Z ∧
    visited (<[Z.to_nat (D + k) := x]> v) d (d - 1) s e.
Proof.
  intros Hv Hk Hpar. destruct (choice_ahead v k Hv Hk Hpar) as (x0 & Hx & Hs & Hpos & Hleft & Habove).
  destruct Hv as [Hl Hh Ha Ho Hr]. destruct (sound_grid _ _ _ _ _ Hs) as [[? ?] ?].
  destruct (slide_spec a b x0 (x0 - k)) as (n & Hn & Hn0 & Hstop & Hreach); [lia..|].
  destruct (vec_set_entry D v k (x0 + n) Hl) as [Hset Hl']; [lia|].
  exists (x0 + n)%Z. unfold walk. cbv zeta. rewrite Hx. cbn [bind_outcome]. rewrite Hn. cbn [bind_outcome]. rewrite Hset.
  assert (Hs' : sound a b d k (x0 + n)).
  { destruct Hs as (i & Hi & Hri). exists i. split; [done|]. replace (x0 + n - k)%Z with (x0 - k + n)%Z by lia. by apply Hreach. }
  split_and!; [done|split; [done|]|lia|].
  - apply slide_furthest; [lia|done|done|]. intros x' y' Hxy [[? _]|(m & Hm & Hopt)]; [lia|].
    replace m with (Z.to_nat (d - 1)) in Hopt by lia. destruct Hopt as [Hopt|Hopt]; pose proof (Ho _ _ Hopt) as Hin.
    + destruct (Ha (k - 1)%Z) as (l & Hle & _ & Hf); [lia..|]. specialize (Hleft l ltac:(lia) Hle). specialize (Hf _ _ Hopt). lia.
    + destruct (Ha (k + 1)%Z) as (u & Hue & _ & Hf); [lia..|]. specialize (Habove u ltac:(lia) Hue). specialize (Hf _ _ Hopt). lia.
  - split; [done| | |done|done].
    + intros j y Hj. rewrite entry_set by lia. case_decide; [intros [= <-]; subst; right; by left|by apply Hh].
    + intros j Hj Hjp. rewrite entry_set by lia. rewrite decide_False by (intros ->; lia). by apply Ha.
Qed.

Hypothesis Hprev : (- (d - 1) ≤ s ∧ s - 1 ≤ - d + ks0 ≤ d - ke0 ∧ d - ke0 ≤ e + 1)%Z.
Hypothesis Hstart : (ks0 mod 2 = 0 ∧ (ks0 = 0 ∨ 0 ≤ ks0 ∧ - d + ks0 ≤ bottom a b N d))%Z.
Hypothesis Hend : (ke0 mod 2 = 0 ∧ (ke0 = 0 ∨ 0 ≤ ke0 ∧ top a b N d ≤ d - ke0))%Z.
Let k0 := (- d + ks0)%Z.

(** Before the diagonal [k] of the round. *)
Record in_round k v ks ke : Prop := {
  ir_visited : visited v d (d - 1) s e;
  ir_start : (ks mod 2 = 0 ∧ ks0 ≤ ks ∧ (ks = ks0 ∨ - d + ks ≤ bottom a b N d + 2))%Z;
  ir_end : (ke mod 2 = 0 ∧ ke0 ≤ ke ∧ (ke = ke0 ∨ top a b N d + 2 ≤ k ∧ top a b N d - 2 ≤ d - ke))%Z;
  ir_sum : (ks + ke ≤ ks0 + ke0 + (k - k0))%Z;
  ir_k : (k0 ≤ k ≤ d - ke0 + 2 ∧ (k - d) mod 2 = 0 ∧ (k = k0 → ks = ks0 ∧ ke = ke0))%Z;
  ir_done : ∀ j, (k0 ≤ j < k)%Z → ((j - d) mod 2 = 0)%Z → ∃ x, entry D v j = Some x ∧ ahead d j x ∧ missed j x;
}.

(** A diagonal of the round that is no crossing of the two paths. *)
Lemma in_round_next k v ks ke x ks' ke' :
  in_round k v ks ke → (k ≤ d - ke)%Z → ahead d k x → missed k x →
  visited (<[Z.to_nat (D + k) := x]> v) d (d - 1) s e →
  (ks' = ks ∧ ke' = ke ∨ ks' = ks ∧ ke' = ke + 2 ∧ zlen a < x ∨ ks' = ks + 2 ∧ ke' = ke ∧ zlen b < x - k)%Z →
  in_round (k + 2) (<[Z.to_nat (D + k) := x]> v) ks' ke'.
Proof.
  intros [Hv Hs He Hsum Hk Hdone] Hend' Ha Hmiss Hv' Hcase.
  destruct (sound_beyond a b N HN d k x (proj1 Ha)) as [Htop Hbottom].
  assert (Hl := vs_length _ _ _ _ _ Hv). split; [done|unfold k0 in *; lia|unfold k0 in *; lia|unfold k0 in *; lia|unfold k0 in *; lia|].
  intros j Hj Hjp. rewrite entry_set by (unfold k0 in *; lia). case_decide as Hd'; [subst; by exists x|]. apply Hdone; lia.
Qed.

(** The diagonals of the round are those a shortest path can be on. *)
Lemma round_opt k v ks ke x y : in_round k v ks ke → (d - ke < k)%Z → opt a b N (Z.to_nat d) x y →
  (k0 ≤ x - y ≤ k - 2 ∧ (x - y - d) mod 2 = 0)%Z.
Proof.
  intros [Hv Hs He Hsum Hk Hdone] Hstop Hopt%opt_bounds; [|lia]. unfold top, bottom, k0 in *. lia.
Qed.

Lemma round_walked k v ks ke : in_round k v ks ke → (d - ke < k)%Z → round_answer d (Walked v ks ke).
Proof.
  intros Hi Hstop. pose proof (λ x y, round_opt k v ks ke x y Hi Hstop) as Hopt. destruct Hi as [Hv Hs He Hsum Hk Hdone].
  assert (Hne : k ≠ k0) by lia. split.
  - exists k0, (k - 2)%Z. replace (d + 1 - 1)%Z with d by lia. split.
    + destruct Hv as [Hl Hh _ _ Hr]. replace (d + 1 - 1)%Z with d by lia. split; [done|done| |intros x y Hxy; by destruct (Hopt _ _ Hxy)|unfold k0 in *; lia].
      intros j Hj Hjp. destruct (Hdone j) as (x & ? & ? & _); [unfold k0 in *; lia..|]. by exists x.
    + unfold k0 in *. lia.
    + unfold bottom in *. lia.
    + unfold top in *. lia.
  - intros x y Hxy%Hopt. apply Hdone; lia.
Qed.

Lemma path_loop_ahead n k v ks ke : in_round k v ks ke → (d - k + 3 ≤ 2 * Z.of_nat n)%Z →
  ∃ p, path_loop a b D meets n d k v ks ke = Ret p ∧ round_answer d p.
Proof.
  revert k v ks ke. induction n as [|n IH]; intros k v ks ke Hi Hn.
  { destruct Hi as [_ _ He _ Hk _]. lia. }
  cbn [path_loop]. destruct (d - ke <? k)%Z eqn:Hstop.
  { apply Z.ltb_lt in Hstop. eexists. split; [done|]. by apply (round_walked k). }
  apply Z.ltb_ge in Hstop. pose proof Hi as [Hv Hs He Hsum Hk Hdone].
  destruct (walk_ahead v k Hv) as (x & -> & Ha & Hpos & Hv'); [unfold k0 in *; lia|lia|]. cbn [bind_outcome].
  assert (Hnext := λ ks' ke' Hm, in_round_next k v ks ke x ks' ke' Hi Hstop Ha Hm Hv').
  destruct (zlen a <? x)%Z eqn:Hxa; [apply Z.ltb_lt in Hxa|apply Z.ltb_ge in Hxa].
  { apply IH; [|lia]. apply Hnext; [intros ?; lia|]. right. by left. }
  destruct (zlen b <? x - k)%Z eqn:Hyb; [apply Z.ltb_lt in Hyb|apply Z.ltb_ge in Hyb].
  { apply IH; [|lia]. apply Hnext; [intros _ ?; lia|]. right. by right. }
  destruct (meets k x) as [[x1 y1]|] eqn:Hm.
  - eexists. split; [done|]. exists k, x. destruct Ha as [Ha _]. split_and!; try done; lia.
  - apply IH; [|lia]. apply Hnext; [by intros _ _|]. by left.
Qed.

End round.
Lemma path_round d v ks ke s e : ready v d ks ke s e → (1 ≤ d < D)%Z → (d ≤ Z.of_nat N)%Z →
  ∃ p, path_loop a b D meets (Z.to_nat d + 2) d (- d + ks) v ks ke = Ret p ∧ round_answer d p.
Proof.
  intros [Hv Hr Hs He] Hd HdN. destruct (vs_range _ _ _ _ _ Hv) as [Hse Hpar].
  apply (path_loop_ahead d s e ks ke); [done|done|lia|done|done| |lia]. split; try lia.
  destruct Hv as [Hl Hh Ha Ho Hrg]. split; [done| |done|done|done].
  intros k x Hk Hx. destruct (Hh k x Hk Hx) as [?|[Hsd|?]]; [by left| |right; by right].
  right. left. apply (sound_le a b (d - 1)); [lia|done].
Qed.

(** The first round visits the start alone, which is not beyond the texts. *)
Lemma first_round v : started D v → (1 ≤ zlen a)%Z → (1 ≤ zlen b)%Z → ¬ matches a b 0 0 →
  ∃ p, path_loop a b D meets 2 0 0 v 0 0 = Ret p ∧ round_answer 0 p ∧ ∀ x y, p = Overlap x y → meets 0 0 = Some (x, y).
Proof.
  intros (Hl & H1 & Hh) Hla Hlb Hm00. destruct (slide_spec a b 0 0) as (n & Hn & Hn0 & _ & _); [lia..|].
  assert (n = 0)%Z as ->.
  { unfold slide in Hn. destruct (_ && _) eqn:Hin; [|by injection Hn as <-]. change ((0 <=? 0)%Z && (0 <=? 0)%Z) with true in Hn. cbn iota in Hn. injection Hn as <-.
    change (drop (Z.to_nat 0) a) with a. change (drop (Z.to_nat 0) b) with b.
    destruct a as [|c s] eqn:Ea, b as [|c' t] eqn:Eb; try done. cbn [diff_commonPrefix]. case_decide as Hc; [|done]. subst c'.
    destruct Hm00. unfold matches. cbn. split_and!; try lia. done. }
  destruct (vec_set_entry D v 0 0 Hl) as [Hset Hl']; [lia|].
  assert (Hw : walk a b D 0 0 v = Ret (0%Z, <[Z.to_nat (D + 0) := 0%Z]> v)).
  { unfold walk. cbv zeta. rewrite Z.eqb_refl. replace (D + 0 + 1)%Z with (D + 1)%Z by lia.
    rewrite (vec_get_entry D v 1 0) by (done || lia). cbn [bind_outcome]. change (0 - 0)%Z with 0%Z. rewrite Hn. cbn [bind_outcome].
    change (0 + 0)%Z with 0%Z. by rewrite Hset. }
  assert (Hs0 : sound a b 0 0 0) by (exists 0; split; [lia|constructor]).
  assert (Hopt0 : ∀ x y, opt a b N (Z.to_nat 0) x y → x = 0%Z ∧ y = 0%Z) by (intros x y [Hr _]; by apply reach_zero in Hr).
  assert (Ha0 : ahead 0 0 0) by (split; [done|]; intros x y [-> ->]%Hopt0 _; lia).
  cbn [path_loop]. rewrite (proj2 (Z.ltb_ge _ _)) by lia. rewrite Hw. cbn [bind_outcome].
  rewrite (proj2 (Z.ltb_ge (zlen a) 0)), (proj2 (Z.ltb_ge (zlen b) (0 - 0))) by lia.
  destruct (meets 0 0) as [[x1 y1]|] eqn:Hm.
  - eexists. split; [reflexivity|]. split; [|by intros x y [= <- <-]]. exists 0%Z, 0%Z. split_and!; [done|done|lia|lia|lia].
  - change (0 - 0 <? 0 + 2)%Z with true. cbn iota. eexists. split; [reflexivity|]. split; [|done]. split.
    + exists 0%Z, 0%Z. split; [|lia|lia|lia]. change (0 + 1 - 1)%Z with 0%Z. split; [done| | |by intros x y [-> ->]%Hopt0|lia].
      * intros k x Hk. rewrite entry_set by lia. case_decide as Hd; [intros [= <-]; subst; right; by left|].
        intros Hx. destruct (Hh k x Hk Hx); [by left|right; by right].
      * intros k Hk _. assert (k = 0)%Z as -> by lia. exists 0%Z. by rewrite entry_set by lia.
    + intros x y [-> ->]%Hopt0. exists 0%Z. change (0 - 0)%Z with 0%Z. rewrite entry_set by lia. split_and!; [done|done|]. intros _ _. done.
Qed.

End path.

(** ** The search *)
Section search.
Context (a b : bytes) (N : nat) (HN : distance a b N).
Context (Hla : (2 ≤ zlen a)%Z) (Hlb : (2 ≤ zlen b)%Z) (Hint : (zlen a + zlen b < 2 ^ 31 - 1)%Z).
Context (Hfirst : ¬ matches a b 0 0) (Hlast : ¬ matches a b (zlen a - 1) (zlen b - 1)).
Implicit Types (v : list Z) (d k x y : Z).
Let D := ((zlen a + zlen b + 1) / 2)%Z.
Let delta := (zlen a - zlen b)%Z.

(** A point of both texts other than their starts and their ends. *)
Definition inside (a b : bytes) x y : Prop := (0 ≤ x ≤ zlen a ∧ 0 ≤ y ≤ zlen b ∧ 0 < x + y < zlen a + zlen b)%Z.

Lemma end_two_edits n : reach a b n (zlen a) (zlen b) → 2 ≤ n.
Proof.
  intros Hr. inversion Hr as [Hx Hy|m x y Hm|m x y Hm|m x y Hm Hxy]; subst; try lia.
  - destruct m as [|m]; [apply reach_zero in Hm; [lia|done]|lia].
  - destruct m as [|m]; [apply reach_zero in Hm; [lia|done]|lia].
  - destruct Hlast. replace (zlen a - 1)%Z with x by lia. by replace (zlen b - 1)%Z with y by lia.
Qed.

Lemma distance_two : 2 ≤ N.
Proof. apply end_two_edits, HN. Qed.

Lemma sound_not_end d x : (2 * d ≤ Z.of_nat N + 1)%Z → ¬ (sound a b d delta x ∧ x = zlen a).
Proof.
  intros Hd [(e & He & Hr) ->]. replace (zlen a - delta)%Z with (zlen b) in Hr by (unfold delta; lia).
  apply (proj2 HN) in Hr. pose proof distance_two. lia.
Qed.

Lemma visited_opt s t M (HM : distance s t M) v d' d i e x y : visited s t M D v d' d i e → (0 ≤ d ≤ Z.of_nat M)%Z →
  opt s t M (Z.to_nat d) x y → ∃ x0, entry D v (x - y) = Some x0 ∧ ahead s t M d (x - y) x0 ∧ (- d ≤ x - y ≤ d)%Z.
Proof.
  intros [_ _ Ha Ho Hr] Hd Hopt. pose proof (Ho _ _ Hopt). pose proof (opt_bounds s t M (Z.to_nat d) x y ltac:(lia) Hopt) as Hb.
  destruct (Ha (x - y)%Z) as (x0 & ? & ?); [lia|lia|]. exists x0. split_and!; [done|done|lia|lia].
Qed.

(** ** Where the front path meets the reverse one *)
Lemma front_meets_inside v2 d k x0 x y : front_meets a b v2 k x0 = Some (x, y) → sound a b d k x0 → (0 < 2 * x0 - k)%Z →
  (x0 ≤ zlen a ∧ x0 - k ≤ zlen b)%Z → (2 * d ≤ Z.of_nat N + 1)%Z → inside a b x y.
Proof.
  unfold front_meets. destruct (negb _); [|done]. destruct (other_path _ _) as [x2|]; [|done]. destruct (_ <=? _)%Z; [|done].
  intros [= <- <-] Hs Hpos Hb Hd. destruct (sound_grid _ _ _ _ _ Hs) as [[? ?] _]. unfold inside.
  enough (¬ (x0 = zlen a ∧ x0 - k = zlen b)%Z) by lia. intros [H1 H2]. apply (sound_not_end d x0 Hd). split; [|done].
  replace delta with k by (unfold delta; lia). done.
Qed.

Lemma front_meets_started v2 : started D v2 → front_meets a b v2 0 0 = None.
Proof.
  intros (_ & _ & Hh). unfold front_meets. destruct (negb _); [|done]. fold D delta. rewrite Z.sub_0_r.
  destruct (other_path _ _) as [x2|] eqn:Ho; [|done]. apply other_path_entry in Ho as (Hk & He & Hx).
  destruct (Hh _ _ Hk He) as [|[? ->]]; [done|]. by rewrite (proj2 (Z.leb_gt _ _)) by lia.
Qed.

(** With an odd distance, the front path has met the other by then. *)
Lemma front_path_meets d v2 ks ke s e p : ready (rev a) (rev b) N D v2 d ks ke s e → (1 ≤ d ≤ D)%Z → (2 * d = Z.of_nat N + 1)%Z →
  round_answer a b N D (front_meets a b v2) d p → ∃ x y, p = Overlap x y.
Proof.
  intros Hready Hd Hdn. destruct p as [x y|v ks' ke']; [by eexists _, _|]. intros [_ Hmiss]. exfalso.
  destruct (opt_exists a b N HN (Z.to_nat d)) as (x & y & Hopt); [lia|].
  destruct (Hmiss x y Hopt) as (x0 & _ & [Hs Hf] & Hm). pose proof (opt_bounds a b N (Z.to_nat d) x y ltac:(lia) Hopt) as Hb.
  destruct (sound_beyond a b N HN d _ _ Hs) as [Htop Hbot]. unfold top, bottom in *. fold delta in Htop, Hbot, Hb.
  specialize (Hm ltac:(lia) ltac:(lia)). specialize (Hf x y Hopt eq_refl).
  apply opt_rev in Hopt; [|lia]. replace (N - Z.to_nat d) with (Z.to_nat (d - 1)) in Hopt by lia.
  destruct (visited_opt _ _ _ (distance_rev a b N HN) _ _ _ _ _ _ _ (rd_visited _ _ _ _ _ _ _ _ _ _ Hready) ltac:(lia) Hopt) as (x2 & He & [Hs2 Hf2] & Hr).
  specialize (Hf2 _ _ Hopt eq_refl). revert Hm. unfold front_meets. fold D delta.
  pose proof (distance_parity a b N HN) as Hp. fold delta in Hp. rewrite (proj2 (Z.eqb_neq _ _)) by lia. cbn [negb].
  replace (D + delta - (x - y))%Z with (D + (zlen a - x - (zlen b - y)))%Z by (unfold delta; lia).
  rewrite (entry_other_path D v2 _ x2); [|exact (vs_length _ _ _ _ _ _ _ _ _ (rd_visited _ _ _ _ _ _ _ _ _ _ Hready))|lia|done|].
  - by rewrite (proj2 (Z.leb_le _ _)) by lia.
  - apply sound_grid in Hs2 as [[? ?] _]. lia.
Qed.

(** ** Where the reverse path meets the front one *)
Lemma reverse_meets_inside v1 d k2 x2 x y s e : visited a b N D v1 d d s e → reverse_meets a b v1 k2 x2 = Some (x, y) →
  sound (rev a) (rev b) d k2 x2 → (x2 ≤ zlen a ∧ x2 - k2 ≤ zlen b)%Z → (0 ≤ 2 * d ≤ Z.of_nat N)%Z → inside a b x y.
Proof.
  intros Hv. unfold reverse_meets. destruct (negb _); [done|]. fold D delta. cbv zeta.
  replace (D + delta - k2)%Z with (D + (delta - k2))%Z by lia. destruct (other_path _ _) as [x1|] eqn:Ho; [|done].
  apply other_path_entry in Ho as (Hk & He & Hne). destruct (_ <=? x1)%Z eqn:Hle; [|done]. apply Z.leb_le in Hle.
  replace (D + x1 - (D + (delta - k2)))%Z with (x1 - (delta - k2))%Z by lia. intros [= <- <-] Hs2 Hb Hd.
  pose proof (sound_grid _ _ _ _ _ Hs2) as [[? ?] ?].
  destruct (vs_holds _ _ _ _ _ _ _ _ _ Hv _ _ Hk He) as [|[Hs|[? ->]]]; [done| |unfold delta in *; lia].
  destruct (sound_beyond a b N HN d _ _ Hs) as [Htop Hbot]. pose proof (sound_grid _ _ _ _ _ Hs) as [[? ?] ?].
  pose proof distance_two. unfold top, bottom in *. fold delta in Htop, Hbot. unfold inside.
  assert (¬ (x1 = zlen a ∧ k2 = 0)%Z).
  { intros [-> ->]. apply (sound_not_end d (zlen a)); [lia|]. rewrite Z.sub_0_r in Hs. by split. }
  enough (¬ (x1 = 0 ∧ delta - k2 = 0)%Z) by (unfold delta in *; lia). intros [-> Hk2].
  destruct Hs2 as (i & Hi & Hr). replace x2 with (zlen a) in Hr by lia. replace (zlen a - k2)%Z with (zlen b) in Hr by (unfold delta in *; lia).
  rewrite <-(zlen_rev a), <-(zlen_rev b) in Hr. apply (proj2 (distance_rev a b N HN)) in Hr. lia.
Qed.

(** With an even distance, the reverse path has met the other by then. *)
Lemma reverse_path_meets d v1 ks ke s e p : ready a b N D v1 (d + 1) ks ke s e → (1 ≤ d < D)%Z → (2 * d = Z.of_nat N)%Z →
  round_answer (rev a) (rev b) N D (reverse_meets a b v1) d p → ∃ x y, p = Overlap x y.
Proof.
  intros Hready Hd Hdn. destruct p as [x y|v ks' ke']; [by eexists _, _|]. intros [_ Hmiss]. exfalso.
  destruct (opt_exists a b N HN (Z.to_nat d)) as (x & y & Hopt); [lia|].
  pose proof (opt_rev a b N (Z.to_nat d) x y ltac:(lia) Hopt) as Hopt2. replace (N - Z.to_nat d) with (Z.to_nat d) in Hopt2 by lia.
  destruct (Hmiss _ _ Hopt2) as (x2 & _ & [Hs2 Hf2] & Hm). specialize (Hf2 _ _ Hopt2 eq_refl).
  pose proof (opt_bounds (rev a) (rev b) N (Z.to_nat d) (zlen a - x) (zlen b - y) ltac:(lia) Hopt2) as Hb. rewrite !zlen_rev in Hb. fold delta in Hb.
  destruct (sound_beyond _ _ N (distance_rev a b N HN) d _ _ Hs2) as [Htop Hbot]. unfold top, bottom in *. rewrite !zlen_rev in Htop, Hbot. fold delta in Htop, Hbot.
  unfold missed in Hm. rewrite !zlen_rev in Hm. specialize (Hm ltac:(lia) ltac:(lia)).
  pose proof (rd_visited _ _ _ _ _ _ _ _ _ _ Hready) as Hv. replace (d + 1 - 1)%Z with d in Hv by lia.
  destruct (visited_opt _ _ _ HN _ _ _ _ _ _ _ Hv ltac:(lia) Hopt) as (x1 & He & [Hs1 Hf1] & Hr). specialize (Hf1 _ _ Hopt eq_refl).
  revert Hm. unfold reverse_meets. fold D delta.
  pose proof (distance_parity a b N HN) as Hp. fold delta in Hp. rewrite (proj2 (Z.eqb_eq _ _)) by lia. cbn [negb]. cbv zeta.
  replace (D + delta - (zlen a - x - (zlen b - y)))%Z with (D + (x - y))%Z by (unfold delta; lia).
  rewrite (entry_other_path D v1 _ x1); [|exact (vs_length _ _ _ _ _ _ _ _ _ Hv)|lia|done|].
  - by rewrite (proj2 (Z.leb_le _ _)) by lia.
  - apply sound_grid in Hs1 as [[? ?] _]. lia.
Qed.
(** ** The rounds *)
Lemma bisect_loop_inside n d v1 v2 k1start k1end k2start k2end s1 e1 s2 e2 c :
  Z.of_nat n = (D - d)%Z → (1 ≤ d)%Z → (2 * d ≤ Z.of_nat N + 1)%Z →
  ready a b N D v1 d k1start k1end s1 e1 → ready (rev a) (rev b) N D v2 d k2start k2end s2 e2 →
  ∃ r c', bisect_loop a b n d v1 v2 k1start k1end k2start k2end c = (Ret r, c') ∧ ∀ x y, r = Some (x, y) → inside a b x y.
Proof.
  pose proof distance_two as HN2. pose proof (distance_parity a b N HN) as Hpar. fold delta in Hpar.
  revert d v1 v2 k1start k1end k2start k2end s1 e1 s2 e2 c.
  induction n as [|n IH]; intros d v1 v2 k1s k1e k2s k2e s1 e1 s2 e2 c Hn Hd HdN R1 R2; [by eexists _, _|].
  cbn [bisect_loop]. unfold bind at 1. destruct c as [|[] c]; cbn [late]; try (by eexists _, _).
  all: unfold front_path, reverse_path; fold D.
  all: destruct (path_round a b N HN D ltac:(lia) (front_meets a b v2) d v1 k1s k1e s1 e1 R1 ltac:(lia) ltac:(lia)) as (p1 & -> & A1);
    rewrite bind_lift_ret.
  all: pose proof (λ H, front_path_meets d v2 _ _ _ _ p1 R2 ltac:(lia) H A1) as M1.
  all: destruct p1 as [x y|w1 l1 h1];
    [destruct A1 as (k & x0 & Hm & Hs & Hpos & Hb); eexists _, _; split; [done|]; intros ? ? [= <- <-];
     by apply (front_meets_inside v2 d k x0 x y Hm Hs); [lia|..]|].
  all: destruct A1 as [(s1' & e1' & R1') _].
  all: assert (2 * d ≤ Z.of_nat N)%Z by (destruct (decide (2 * d = Z.of_nat N + 1)%Z) as [He|]; [destruct (M1 He) as (? & ? & ?); done|lia]).
  all: destruct (path_round (rev a) (rev b) N (distance_rev a b N HN) D ltac:(lia) (reverse_meets a b w1) d v2 k2s k2e s2 e2 R2 ltac:(lia) ltac:(lia)) as (p2 & -> & A2);
    rewrite bind_lift_ret.
  all: pose proof (λ H, reverse_path_meets d w1 _ _ _ _ p2 R1' ltac:(lia) H A2) as M2.
  all: destruct p2 as [x y|w2 l2 h2].
  all: try (destruct A2 as (k & x0 & Hm & Hs & Hpos & Hb); rewrite !zlen_rev in Hb; eexists _, _; split; [done|]; intros ? ? [= <- <-];
    pose proof (rd_visited _ _ _ _ _ _ _ _ _ _ R1') as Hv; replace (d + 1 - 1)%Z with d in Hv by lia;
    by apply (reverse_meets_inside w1 d k x0 x y s1' e1' Hv Hm Hs); [|lia]).
  all: destruct A2 as [(s2' & e2' & R2') _].
  all: apply (IH _ _ _ _ _ _ _ s1' e1' s2' e2'); try done; try lia.
  all: destruct (decide (2 * d = Z.of_nat N)%Z) as [He|]; [destruct (M2 He) as (? & ? & ?); done|lia].
Qed.

Lemma middle_snake_inside c : ∃ r c', middle_snake a b c = (Ret r, c') ∧ ∀ x y, r = Some (x, y) → inside a b x y.
Proof.
  pose proof distance_two as HN2. assert (HD : (2 ≤ D)%Z) by (unfold D; lia). unfold middle_snake.
  rewrite (proj2 (Z.leb_gt _ _)) by lia. fold D. destruct (vector_started D HD) as (v & -> & Hv). rewrite bind_lift_ret.
  destruct (Z.to_nat D) as [|n] eqn:Hn; [lia|]. cbn [bisect_loop]. unfold bind at 1.
  destruct c as [|[] c]; cbn [late]; try (by eexists _, _).
  all: unfold front_path, reverse_path; change (Z.to_nat 0 + 2) with 2; change (- 0 + 0)%Z with 0%Z;
    change ((zlen a + zlen b + 1) / 2)%Z with D.
  all: destruct (first_round a b N HN D HD (front_meets a b v) v Hv ltac:(lia) ltac:(lia) Hfirst) as (p1 & -> & A1 & F1); rewrite bind_lift_ret.
  all: destruct p1 as [x y|w1 l1 h1]; [specialize (F1 x y eq_refl); by rewrite (front_meets_started v Hv) in F1|].
  all: destruct A1 as [(s1 & e1 & R1) _].
  all: assert (Hfirst' : ¬ matches (rev a) (rev b) 0 0) by
    (intros Hm%matches_rev; rewrite !rev_involutive, !zlen_rev, !Z.sub_0_r in Hm; done).
  all: destruct (first_round (rev a) (rev b) N (distance_rev a b N HN) D HD (reverse_meets a b w1) v Hv ltac:(rewrite zlen_rev; lia) ltac:(rewrite zlen_rev; lia) Hfirst') as (p2 & -> & A2 & _);
    rewrite bind_lift_ret.
  all: destruct p2 as [x y|w2 l2 h2].
  all: try (destruct A2 as (k & x0 & Hm & Hs & Hpos & Hb); rewrite !zlen_rev in Hb; eexists _, _; split; [done|]; intros ? ? [= <- <-];
    by apply (reverse_meets_inside w1 0 k x0 x y s1 e1 (rd_visited _ _ _ _ _ _ _ _ _ _ R1) Hm Hs); [|lia]).
  all: destruct A2 as [(s2 & e2 & R2) _].
  all: apply (bisect_loop_inside n _ _ _ _ _ _ _ s1 e1 s2 e2); try done; lia.
Qed.

End search.

(** ** Whatever the texts *)

(** The computation answers, neither throwing nor undefined, with a [P]. *)
Definition answers_with {S A} (P : A → Prop) (m : M S A) (c : S) : Prop := ∃ r c', m c = (Ret r, c') ∧ P r.

#[export] Instance answers_with_decision {S A} (P : A → Prop) `{∀ r, Decision (P r)} (m : M S A) c : Decision (answers_with P m c).
Proof.
  destruct (m c) as [[r| |] c'] eqn:Hm.
  - destruct (decide (P r)) as [Hp|Hp]; [left; by exists r, c'|right]. intros (r' & c'' & Hr & Hp'). congruence.
  - right. intros (r' & c'' & Hr & _). congruence.
  - right. intros (r' & c'' & Hr & _). congruence.
Defined.

(** A place to split at, or none. *)
Definition splits (text1 text2 : bytes) (r : option (Z * Z)) : Prop :=
  match r with Some (x, y) => inside text1 text2 x y | None => True end.
#[export] Instance splits_decision text1 text2 r : Decision (splits text1 text2 r).
Proof. unfold splits, inside. destruct r as [[x y]|]; apply _. Defined.

Lemma head_matches (a b : bytes) : matches a b 0 0 → head a = head b.
Proof. intros (_ & _ & He). by rewrite !head_lookup. Qed.

Lemma last_matches (a b : bytes) : matches a b (zlen a - 1) (zlen b - 1) → last a = last b.
Proof.
  intros (_ & _ & He). rewrite !last_lookup. unfold zlen in *.
  by replace (pred (length a)) with (Z.to_nat (Z.of_nat (length a) - 1)) by lia;
    replace (pred (length b)) with (Z.to_nat (Z.of_nat (length b) - 1)) by lia.
Qed.

Lemma middle_snake_answers text1 text2 c :
  2 ≤ length text1 → 2 ≤ length text2 → head text1 ≠ head text2 → last text1 ≠ last text2 →
  (zlen text1 + zlen text2 < 2 ^ 31 - 1)%Z →
  answers_with (splits text1 text2) (middle_snake text1 text2) c.
Proof.
  intros H1 H2 Hh Hl Hint.
  apply (least_gives (λ n, reach text1 text2 n (zlen text1) (zlen text2)) _ (length text1 + length text2)); [apply _|apply some_path|].
  intros N HN Hmin. destruct (middle_snake_inside text1 text2 N (conj HN Hmin)) with (c := c) as (r & c' & Hr & Hin).
  1, 2: unfold zlen; lia. 1: done. 1: by intros ?%head_matches. 1: by intros ?%last_matches.
  exists r, c'. split; [done|]. destruct r as [[x y]|]; [by apply Hin|done].
Qed.

(** C17 The search for the middle snake answers, whatever the clock says, on the
    texts diff_compute starts it on, which have two characters and more and
    differ in their first and in their last: it reads and writes its vectors and
    the texts within their ranges, and a place it answers with is inside both texts
    and splits them into smaller ones. The lengths of the texts are [int]s, also
    together and with one more. *)
Theorem middle_snake_splits text1 text2 c :
  2 ≤ length text1 → 2 ≤ length text2 → head text1 ≠ head text2 → last text1 ≠ last text2 →
  (zlen text1 + zlen text2 < 2 ^ 31 - 1)%Z →
  answers_with (splits text1 text2) (middle_snake text1 text2) c.
Proof. apply middle_snake_answers. Qed.

Module Example.
Lemma middle_snake_splits_witness :
  answers_with (splits (lit "ABCABBA") (lit "CBABAC")) (middle_snake (lit "ABCABBA") (lit "CBABAC")) [] ∧
  fst (middle_snake (lit "ABCABBA") (lit "CBABAC") []) = Ret (Some (5, 4)%Z).
Proof. split; [|vm_compute; reflexivity]. apply middle_snake_splits; [apply Nat.leb_le; reflexivity..|done|done|by vm_compute]. Defined.
End Example.

End DmpBisect.
