(* ===== verification/DmpLines.v ===== *)
(** * Line mode

    Two long texts are first compared line by line: each different line gets a
    number, the numbers become the characters of two short texts, and the blocks
    that their diff replaces are compared again character by character.  A
    character being signed, the numbers read back as lines while there are
    fewer than 128 lines. *)

From S2P Require Import Prelude DmpDiff DmpPatch DmpText DmpApply DmpSplit DmpMake DmpCleanup DmpGraph DmpBisect.
Local Open Scope prog_scope.
Import DmpDiff.Str DmpDiff.DmpDiff DmpApply.DmpApply DmpSplit.DmpSplit DmpMake.DmpMake DmpCleanup.DmpCleanup DmpBisect.DmpBisect.

Module DmpLines.

(** The diff [l] reads as the texts [a] and [b]. *)
Definition reads (l : Diffs) (a b : bytes) : Prop := diff_text1 l = a ∧ diff_text2 l = b.

(** It reads as the second, and is of the length of the first. *)
Definition reads_second (l : Diffs) (a b : bytes) : Prop := length (diff_text1 l) = length a ∧ diff_text2 l = b.

(** ** Lines and their numbers *)
Definition newlines (t : bytes) : nat := length (filter (λ c, c = char_of_Z 10) t).

Lemma newlines_app s t : newlines (s ++ t) = newlines s + newlines t.
Proof. unfold newlines. by rewrite filter_app, length_app. Qed.

Lemma lines_concat t : concat (lines t) = t.
Proof.
  induction t as [|c t IH]; [done|]. cbn [lines]. case_decide; [cbn; by rewrite IH|].
  destruct (lines t) as [|l ls]; cbn in *; by rewrite <-IH.
Qed.

Lemma lines_length t : length (lines t) ≤ S (newlines t) ∧ length (lines t) ≤ length t.
Proof.
  induction t as [|c t [IH1 IH2]]; [cbn; lia|]. cbn [lines]. unfold newlines in *. rewrite filter_cons.
  case_decide; cbn [length]; [lia|]. destruct (lines t) as [|l ls]; cbn in *; lia.
Qed.

Lemma line_number_spec l h i h' : line_number l h = (i, h') →
  (∃ e, h' = h ++ e ∧ length e ≤ 1) ∧ h' !! (i - 1) = Some l ∧ 1 ≤ i ≤ length h'.
Proof.
  revert i h'. induction h as [|x h IH]; intros i h'; cbn [line_number].
  - intros [= <- <-]. split; [by exists [l]|]. cbn. split; [done|lia].
  - case_decide as Hx; [intros [= <- <-]; split; [exists []; cbn; rewrite app_nil_r; split; [done|lia]|]; subst; cbn; split; [done|lia]|].
    destruct (line_number l h) as [j k] eqn:Hj. intros [= <- <-]. destruct (IH _ _ eq_refl) as ((e & -> & He) & Hk & ?).
    split; [by exists e|]. cbn [length]. split; [|lia]. replace (S j - 1) with (S (j - 1)) by lia. done.
Qed.

(** A line is found, or it is added behind the others. *)
Lemma line_number_cases l h i h' : line_number l h = (i, h') →
  (h' = h ∧ l ∈ h) ∨ (h' = h ++ [l] ∧ l ∉ h ∧ i = length h').
Proof.
  revert i h'. induction h as [|x h IH]; intros i h'; cbn [line_number].
  - intros [= <- <-]. right. split_and!; [done|by intros ?%elem_of_nil|done].
  - case_decide as Hx; [intros [= <- <-]; left; split; [done|]; subst; by left|].
    destruct (line_number l h) as [j k] eqn:Hj. intros [= <- <-].
    destruct (IH _ _ eq_refl) as [[-> Hin]|(-> & Hin & ->)]; [left; split; [done|by right]|].
    right. split_and!; [done| |done]. intros [?|?]%elem_of_cons; [congruence|done].
Qed.

Lemma line_number_lines l h i h' : line_number l h = (i, h') → NoDup h → NoDup h' ∧ ∀ x, x ∈ h' ↔ x ∈ h ∨ x = l.
Proof.
  intros [[-> Hin]|(-> & Hin & _)]%line_number_cases Hnd.
  - split; [done|]. intros x. split; [by left|]. by intros [? | ->].
  - split; [|intros x; rewrite elem_of_app, list_elem_of_singleton; done].
    apply NoDup_app. split_and!; [done| |apply NoDup_singleton]. by intros x Hx ->%list_elem_of_singleton.
Qed.

(** The array holds each of the lines once. *)
Lemma munge_lines ls h cs h' : munge ls h = (cs, h') → NoDup h → NoDup h' ∧ ∀ x, x ∈ h' ↔ x ∈ h ∨ x ∈ ls.
Proof.
  revert h cs h'. induction ls as [|l ls IH]; intros h cs h'; cbn [munge].
  - intros [= <- <-] Hnd. split; [done|]. intros x. rewrite elem_of_nil. tauto.
  - destruct (line_number l h) as [i h1] eqn:Hi, (munge ls h1) as [cs' h2] eqn:Hm. intros [= <- <-] Hnd.
    destruct (line_number_lines _ _ _ _ Hi Hnd) as [Hnd1 Hin1]. destruct (IH _ _ _ Hm Hnd1) as [Hnd2 Hin2].
    split; [done|]. intros x. rewrite Hin2, Hin1, elem_of_cons. tauto.
Qed.

(** The 128th line gets its number. *)
Lemma munge_reaches ls h cs h' : munge ls h = (cs, h') → length h < 128 ≤ length h' → char_of_Z 128 ∈ cs.
Proof.
  revert h cs h'. induction ls as [|l ls IH]; intros h cs h'; cbn [munge]; [intros [= <- <-]; lia|].
  destruct (line_number l h) as [i h1] eqn:Hi, (munge ls h1) as [cs' h2] eqn:Hm. intros [= <- <-] Hlen.
  destruct (decide (length h1 < 128)) as [Hlt|Hge]; [right; apply (IH h1 _ h2 Hm); lia|].
  destruct (line_number_cases _ _ _ _ Hi) as [[-> _]|(-> & _ & ->)]; [lia|].
  rewrite length_app in *. cbn [length] in *. replace (length h + 1) with 128 by lia. by left.
Qed.

(** The different lines of two texts. *)
Definition all_lines (a b : bytes) : list bytes := remove_dups (lines a ++ lines b).

Lemma same_length {A} (l k : list A) : NoDup l → NoDup k → (∀ x, x ∈ l ↔ x ∈ k) → length l = length k.
Proof. intros Hl Hk Hlk. apply Permutation_length, NoDup_Permutation; done. Qed.

Lemma all_lines_array a b c1 h1 c2 h2 : munge (lines a) [] = (c1, h1) → munge (lines b) h1 = (c2, h2) → length h2 = length (all_lines a b).
Proof.
  intros H1 H2. destruct (munge_lines _ _ _ _ H1 (NoDup_nil_2)) as [Hnd1 Hin1]. destruct (munge_lines _ _ _ _ H2 Hnd1) as [Hnd2 Hin2].
  apply same_length; [done|apply NoDup_remove_dups|]. intros x. unfold all_lines.
  rewrite Hin2, Hin1, elem_of_remove_dups, elem_of_app, elem_of_nil. tauto.
Qed.

Lemma all_lines_newlines a b : newlines a + newlines b ≤ 125 → length (all_lines a b) < 128.
Proof.
  intros Hn. pose proof (lines_length a) as [? _]. pose proof (lines_length b) as [? _].
  assert (length (all_lines a b) ≤ length (lines a ++ lines b)); [|rewrite length_app in *; lia].
  apply submseteq_length, NoDup_submseteq; [apply NoDup_remove_dups|]. intros x. unfold all_lines. by rewrite elem_of_remove_dups.
Qed.

Lemma schar_small i : i ≤ 127 → schar (char_of_Z (Z.of_nat i)) = Z.of_nat i.
Proof.
  intros Hi. unfold schar. rewrite uchar_char_of_Z by lia. by rewrite (proj2 (Z.ltb_lt _ _)) by lia.
Qed.

Lemma chars_to_text_app arr s t u v : chars_to_text arr s = Ret u → chars_to_text arr t = Ret v → chars_to_text arr (s ++ t) = Ret (u ++ v).
Proof.
  revert u. induction s as [|c s IH]; intros u; [by intros [= <-]|]. cbn [chars_to_text app].
  destruct (if _ : bool then _ else _) as [l|]; [|done]. destruct (chars_to_text arr s) as [w| |] eqn:Hs; try done.
  intros [= <-] Ht. cbn [bind_outcome]. rewrite (IH w) by done. cbn. by rewrite app_assoc.
Qed.

Lemma chars_to_text_inv arr s t w : chars_to_text arr (s ++ t) = Ret w →
  ∃ u v, chars_to_text arr s = Ret u ∧ chars_to_text arr t = Ret v ∧ w = u ++ v.
Proof.
  revert w. induction s as [|c s IH]; intros w; [by exists [], w|]. cbn [chars_to_text app].
  destruct (if _ : bool then _ else _) as [l|]; [|done]. destruct (chars_to_text arr (s ++ t)) as [w'| |] eqn:Hs; try done.
  intros [= <-]. destruct (IH w') as (u & v & -> & -> & ->); [done|]. exists (l ++ u), v. cbn. by rewrite app_assoc.
Qed.

(** The numbers of fewer than 128 lines read back. *)
Lemma munge_spec ls h cs h' : munge ls h = (cs, h') →
  (∃ e, h' = h ++ e ∧ length e ≤ length ls) ∧ length cs = length ls ∧
  ∀ f, length (h' ++ f) ≤ 127 → chars_to_text ([] :: h' ++ f) cs = Ret (concat ls).
Proof.
  revert h cs h'. induction ls as [|l ls IH]; intros h cs h'; cbn [munge].
  - intros [= <- <-]. split; [exists []; by rewrite app_nil_r|]. done.
  - destruct (line_number l h) as [i h1] eqn:Hi, (munge ls h1) as [cs' h2] eqn:Hm. intros [= <- <-].
    destruct (line_number_spec _ _ _ _ Hi) as ((e & -> & He) & Hl & Hr). destruct (IH _ _ _ Hm) as ((e' & -> & He') & Hlen & Hread).
    split; [exists (e ++ e'); rewrite app_assoc, length_app; cbn; split; [done|lia]|]. split; [cbn; by rewrite Hlen|].
    intros f Hf. cbn [chars_to_text]. assert (Hi' : i ≤ 127) by (rewrite !length_app in *; lia). rewrite (schar_small i Hi').
    rewrite (proj2 (Z.ltb_ge _ _)) by lia. rewrite Nat2Z.id. destruct i as [|i]; [lia|]. cbn [lookup list_lookup].
    change (list_lookup i (((h ++ e) ++ e') ++ f)) with ((((h ++ e) ++ e') ++ f) !! i). cbn in Hl. rewrite Nat.sub_0_r in Hl.
    rewrite (lookup_app_l_Some _ _ _ _ (lookup_app_l_Some _ _ _ _ Hl)), (Hread f Hf). done.
Qed.

Lemma linesToChars_spec a b : length (all_lines a b) < 128 →
  ∃ c1 c2 arr, diff_linesToChars a b = (c1, c2, arr) ∧ length c1 ≤ length a ∧ length c2 ≤ length b ∧
    chars_to_text arr c1 = Ret a ∧ chars_to_text arr c2 = Ret b.
Proof.
  intros Hn. unfold diff_linesToChars. destruct (munge (lines a) []) as [c1 h1] eqn:H1, (munge (lines b) h1) as [c2 h2] eqn:H2.
  rewrite <-(all_lines_array _ _ _ _ _ _ H1 H2) in Hn.
  destruct (munge_spec _ _ _ _ H1) as ((e1 & -> & He1) & Hl1 & Hr1). destruct (munge_spec _ _ _ _ H2) as ((e2 & -> & He2) & Hl2 & Hr2).
  pose proof (lines_length a) as [? ?]. pose proof (lines_length b) as [? ?]. cbn [app] in *.
  eexists _, _, _. split; [done|]. split_and!; [lia|lia| |].
  - rewrite (Hr1 e2) by lia. by rewrite lines_concat.
  - rewrite <-(app_nil_r (e1 ++ e2)), (Hr2 []) by (rewrite app_nil_r; lia). by rewrite lines_concat.
Qed.

(** *** Too many lines *)
Lemma chars_to_text_negative arr s c : c ∈ s → (schar c < 0)%Z → chars_to_text arr s = Undef.
Proof.
  intros Hin Hc. induction s as [|x s IH]; [by apply elem_of_nil in Hin|]. cbn [chars_to_text].
  apply elem_of_cons in Hin as [<-|Hin]; [by rewrite (proj2 (Z.ltb_lt _ _))|].
  rewrite IH by done. by destruct (if _ : bool then _ else _).
Qed.

Lemma chars_to_text_outcome arr s : chars_to_text arr s = Undef ∨ ∃ t, chars_to_text arr s = Ret t.
Proof.
  induction s as [|c s IH]; [by right; exists []|]. cbn [chars_to_text]. destruct (if _ : bool then _ else _) as [l|]; [|by left].
  destruct IH as [-> |[t ->]]; [by left|right; by exists (l ++ t)].
Qed.

Lemma charsToLines_negative arr l c : c ∈ diff_text1 l ++ diff_text2 l → (schar c < 0)%Z → diff_charsToLines l arr = Undef.
Proof.
  intros Hin Hc. induction l as [|d l IH]; [by apply elem_of_nil in Hin|]. cbn [diff_charsToLines].
  destruct (chars_to_text_outcome arr (text d)) as [-> |[t Ht]]; [done|]. rewrite Ht. cbn [bind_outcome].
  rewrite IH; [done|]. rewrite diff_text1_cons, diff_text2_cons, !elem_of_app in Hin. apply elem_of_app.
  assert (c ∉ text d) as Hd by (intros Hd; by rewrite (chars_to_text_negative _ _ _ Hd Hc) in Ht).
  destruct d as [[] u]; unfold part1, part2 in Hin; cbn in *; rewrite ?elem_of_nil in Hin; tauto.
Qed.

(** The two texts as numbers, when 128 lines have one. *)
Lemma linesToChars_many a b : 128 ≤ length (all_lines a b) →
  ∃ c1 c2 arr, diff_linesToChars a b = (c1, c2, arr) ∧ length c1 ≤ length a ∧ length c2 ≤ length b ∧ char_of_Z 128 ∈ c1 ++ c2.
Proof.
  intros Hn. unfold diff_linesToChars. destruct (munge (lines a) []) as [c1 h1] eqn:H1, (munge (lines b) h1) as [c2 h2] eqn:H2.
  rewrite <-(all_lines_array _ _ _ _ _ _ H1 H2) in Hn.
  destruct (munge_spec _ _ _ _ H1) as (_ & Hl1 & _). destruct (munge_spec _ _ _ _ H2) as (_ & Hl2 & _).
  pose proof (lines_length a) as [? ?]. pose proof (lines_length b) as [? ?].
  eexists _, _, _. split; [done|]. split_and!; [lia|lia|]. apply elem_of_app.
  destruct (decide (length h1 < 128)) as [Hlt|Hge]; [right; by apply (munge_reaches _ _ _ _ H2)|].
  left. apply (munge_reaches _ _ _ _ H1). cbn. lia.
Qed.

(** A diff of the numbers is one of the lines. *)
Lemma charsToLines_reads arr l a b : chars_to_text arr (diff_text1 l) = Ret a → chars_to_text arr (diff_text2 l) = Ret b →
  ∃ k, diff_charsToLines l arr = Ret k ∧ reads k a b.
Proof.
  revert a b. induction l as [|[op t] l IH]; intros a b; [by intros [= <-] [= <-]; exists []|].
  rewrite diff_text1_cons, diff_text2_cons. intros (u1 & v1 & Hu1 & Hv1 & ->)%chars_to_text_inv (u2 & v2 & Hu2 & Hv2 & ->)%chars_to_text_inv.
  cbn [diff_charsToLines text operation]. assert (∃ u, chars_to_text arr t = Ret u ∧ u1 = part1 (MkDiff op u) ∧ u2 = part2 (MkDiff op u)) as (u & -> & -> & ->).
  { destruct op; cbn in *; [injection Hu2 as <-|injection Hu1 as <-|rewrite Hu1 in Hu2; injection Hu2 as <-]; eauto. }
  destruct (IH v1 v2) as (k & -> & <- & <-); [done|done|]. eexists. split; [done|]. split; [apply diff_text1_cons|apply diff_text2_cons].
Qed.

(** ** The blocks, compared again *)
Section rediff.
Context (diff_main : bytes → bytes → bool → M (list bool) Diffs) (T : nat).
Context (Hmain : ∀ a b c, length a + length b ≤ T → answers_with (λ l, reads l a b) (diff_main a b false) c).

(** The lengths of both texts. *)
Definition both_lengths (l : Diffs) : nat := length (diff_text1 l) + length (diff_text2 l).

Lemma both_lengths_same l k : l ≈ k → both_lengths l = both_lengths k.
Proof. intros [H1 H2]. unfold both_lengths. by rewrite H1, H2. Qed.

(** The end of a block, with the blocks before it. *)
Lemma rediff_block done nd ni td ti edits base t rest c :
  block done nd ni td ti edits base → both_lengths (rev done ++ rest) ≤ T →
  ∃ done' c', rediff diff_main done nd ni td ti (MkDiff EQUAL t :: rest) c = rediff diff_main (MkDiff EQUAL t :: done') 0 0 [] [] rest c' ∧
    rev done' ≈ rev done.
Proof.
  intros [-> Hed Hnd Hni Ht1 Ht2 Hb] Hlen. cbn [rediff]. destruct (_ && _) eqn:Hboth; [|by eexists _, _].
  pose proof (edits_counts edits Hed) as (Hcount & _).
  destruct (Hmain td ti c) as (l & c' & Hl & H1 & H2).
  { subst. unfold both_lengths in Hlen. rewrite rev_app_distr, !diff_text1_app, !diff_text2_app, !length_app in Hlen. lia. }
  rewrite (bind_run _ _ _ _ _ Hl). eexists _, _. split; [done|].
  replace (drop (nd + ni) (edits ++ base)) with base by (rewrite drop_app_length'; [done|lia]).
  rewrite !rev_app_distr, rev_involutive. apply app_same; [done|]. split; congruence.
Qed.

Lemma rediff_keeps rest done nd ni td ti edits base c :
  block done nd ni td ti edits base → both_lengths (rev done ++ rest) ≤ T →
  answers_with (λ l, ∃ k, l = k ++ [MkDiff EQUAL []] ∧ k ≈ rev done ++ rest) (rediff diff_main done nd ni td ti (rest ++ [MkDiff EQUAL []])) c.
Proof.
  revert done nd ni td ti edits base c. induction rest as [|[op t] rest IH]; intros done nd ni td ti edits base c Hbl Hlen; cbn [app].
  - destruct (rediff_block _ _ _ _ _ _ _ [] [] c Hbl Hlen) as (done' & c' & Heq & Ht). unfold answers_with. rewrite Heq.
    eexists _, c'. split; [done|]. exists (rev done'). split; [done|]. by rewrite app_nil_r.
  - assert (Hedit : op ≠ EQUAL → answers_with (λ l, ∃ k, l = k ++ [MkDiff EQUAL []] ∧ k ≈ rev done ++ MkDiff op t :: rest)
      (rediff diff_main (MkDiff op t :: done) (if decide (op = DELETE) then S nd else nd) (if decide (op = INSERT) then S ni else ni)
         (if decide (op = DELETE) then td ++ t else td) (if decide (op = INSERT) then ti ++ t else ti) (rest ++ [MkDiff EQUAL []])) c).
    { intros Hop. pose proof (block_edit _ _ _ _ _ _ _ op t Hbl Hop) as Hbl'.
      destruct (IH (MkDiff op t :: done) _ _ _ _ _ _ c Hbl') as (l & c' & Hl & k & -> & Hk).
      { cbn [rev]. rewrite <-app_assoc. done. }
      exists (k ++ [MkDiff EQUAL []]), c'. split; [by destruct op|]. exists k. split; [done|]. rewrite Hk. cbn [rev]. by rewrite <-app_assoc. }
    destruct op; [by apply Hedit..|].
    destruct (rediff_block _ _ _ _ _ _ _ t (rest ++ [MkDiff EQUAL []]) c Hbl) as (done' & c' & Heq & Ht).
    { unfold both_lengths in *. rewrite !diff_text1_app, !diff_text2_app, diff_text1_cons, diff_text2_cons, !length_app in *. cbn in *. lia. }
    destruct (IH (MkDiff EQUAL t :: done') 0 0 [] [] [] _ c' (block_start _ ltac:(right; eauto))) as (l & c'' & Hl & k & -> & Hk).
    { rewrite <-Hlen. apply Nat.eq_le_incl, both_lengths_same. cbn [rev]. rewrite <-app_assoc, Ht. done. }
    exists (k ++ [MkDiff EQUAL []]), c''. split; [by rewrite Heq|]. exists k. split; [done|]. rewrite Hk. cbn [rev]. by rewrite <-app_assoc, Ht.
Qed.

(** Line mode answers with a diff that reads as the second text; as the first
    too, if the cleanup takes out no false overlap. *)
Lemma lineMode_answers a b c : length (all_lines a b) < 128 → length a + length b ≤ T →
  answers_with (λ l, reads_second l a b) (diff_lineMode diff_main a b) c.
Proof.
  intros Hn HT. unfold diff_lineMode. destruct (linesToChars_spec a b Hn) as (c1 & c2 & arr & -> & Hl1 & Hl2 & Hr1 & Hr2).
  destruct (Hmain c1 c2 c) as (l & c' & Hl & <- & <-); [lia|]. unfold answers_with. rewrite (bind_run _ _ _ _ _ Hl).
  destruct (charsToLines_reads arr l a b Hr1 Hr2) as (k & -> & <- & <-). rewrite bind_lift_ret.
  destruct (cleanupSemantic_keeps k) as (m & -> & [Hm1 Hm2] & _). rewrite bind_lift_ret.
  destruct (rediff_keeps m [] 0 0 [] [] [] [] c' (block_start [] (or_introl eq_refl))) as (r & c'' & Hr & k' & -> & [Hk1 Hk2]).
  { cbn [rev app]. unfold both_lengths. rewrite Hm1, Hm2. exact HT. }
  rewrite (bind_run _ _ _ _ _ Hr), removelast_last. eexists _, _. split; [done|]. cbn [rev app] in *. split; congruence.
Qed.

(** Of 128 different lines one has a negative number, which is in the diff of
    the numbers, whatever that is. *)
Lemma lineMode_undefined a b c : 128 ≤ length (all_lines a b) → length a + length b ≤ T →
  ∃ c', diff_lineMode diff_main a b c = (Undef, c').
Proof.
  intros Hn HT. unfold diff_lineMode. destruct (linesToChars_many a b Hn) as (c1 & c2 & arr & -> & Hl1 & Hl2 & Hin).
  destruct (Hmain c1 c2 c) as (l & c' & Hl & <- & <-); [lia|]. rewrite (bind_run _ _ _ _ _ Hl).
  rewrite (charsToLines_negative arr l _ Hin) by (by vm_compute). by eexists.
Qed.
End rediff.

End DmpLines.
