(* ===== verification/DmpMain.v ===== *)
(** * diff_main computes a diff of its two texts

    It answers on every two texts, by any clock: the half match and the
    bisection cut the texts into smaller ones, line mode calls it on the numbers
    of the lines, and no call finds an index out of range while the lines are
    fewer than 128.  The diff reads as the two texts; in line mode, which is for
    two texts of more than 100 characters, as the second and with the length of
    the first, since the cleanup it ends with takes out overlaps that are none
    (DmpRoundtrip.v). *)

From S2P Require Import Prelude Decimal DmpDiff DmpPatch DmpText DmpApply DmpSplit DmpMake DmpCleanup DmpGraph DmpBisect DmpLines.
Local Open Scope prog_scope.
Import DmpDiff.Str DmpDiff.DmpDiff DmpApply.DmpApply DmpSplit.DmpSplit DmpMake.DmpMake DmpCleanup.DmpCleanup DmpBisect.DmpBisect DmpLines.DmpLines.

Module DmpMain.

Lemma reads_app l k a b a' b' : reads l a b → reads k a' b' → reads (l ++ k) (a ++ a') (b ++ b').
Proof. intros [<- <-] [<- <-]. split; [apply diff_text1_app|apply diff_text2_app]. Qed.

Lemma reads_equality t : reads (equality t) t t.
Proof. apply equality_text. Qed.

(** ** Half matches *)

(** [hm] cuts the two texts around a common middle. *)
Definition halves (a b : bytes) (hm : HalfMatchResult) : Prop :=
  a = text1_a hm ++ mid_common hm ++ text1_b hm ∧ b = text2_a hm ++ mid_common hm ++ text2_b hm.

Lemma find_bound s pat from j : find s pat from = Some j → j + length pat ≤ length s ∧ starts_with pat (drop j s) = true.
Proof.
  unfold find. destruct (from <=? length s) eqn:Hf; [|done]. apply Nat.leb_le in Hf.
  enough (∀ t i, find_at pat t i = Some j → i ≤ j ∧ j - i + length pat ≤ length t ∧ starts_with pat (drop (j - i) t) = true) as Hat.
  { intros (? & Hl & Hs)%Hat. rewrite drop_drop, length_drop in *. replace (from + (j - from)) with j in Hs by lia. split; [lia|done]. }
  induction t as [|c t IH]; intros i; cbn [find_at]; destruct (starts_with pat _) eqn:Hs; try done.
  - intros [= ->]. rewrite Nat.sub_diag. pose proof (starts_with_length _ _ Hs). cbn in *. split_and!; [lia|lia|done].
  - intros [= ->]. rewrite Nat.sub_diag. pose proof (starts_with_length _ _ Hs). split_and!; [lia|lia|done].
  - intros (? & ? & ?)%IH. replace (j - i) with (S (j - S i)) by lia. cbn. split_and!; [lia|lia|done].
Qed.

Lemma cut_middle (s : bytes) i n m : n ≤ i → i ≤ length s →
  s = take (i - n) s ++ (take n (drop (i - n) s) ++ take m (drop i s)) ++ drop (i + m) s.
Proof.
  intros Hn Hi. rewrite <-(drop_drop s m i), <-app_assoc, take_drop.
  replace (drop i s) with (drop n (drop (i - n) s)) by (rewrite drop_drop; f_equal; lia). by rewrite !take_drop.
Qed.

Lemma halfMatch_loop_halves n long short seed i from best :
  i ≤ length long → (mid_common best = [] ∨ halves long short best) →
  let r := halfMatch_loop n long short seed i from best in mid_common r = [] ∨ halves long short r.
Proof.
  intros Hi. revert from best. induction n as [|n IH]; intros from best Hb; [done|]. cbn [halfMatch_loop].
  destruct (find short seed from) as [j|] eqn:Hf; [|done]. apply find_bound in Hf as [Hj _]. apply IH.
  destruct (_ <? _); [|done]. right. cbn [mid_common text1_a text1_b text2_a text2_b].
  set (p := diff_commonPrefix (drop i long) (drop j short)). set (q := diff_commonSuffix (take i long) (take j short)).
  destruct (commonPrefix_split (drop i long) (drop j short)) as (Hp & _).
  destruct (commonSuffix_split (take i long) (take j short)) as (Hq & Hq1 & Hq2). fold p in Hp. fold q in Hq, Hq1, Hq2.
  rewrite !length_take, !Nat.min_l in * by lia. unfold halves. cbn. split.
  - rewrite <-Hp. replace (take q (drop (j - q) short)) with (take q (drop (i - q) long)); [by apply cut_middle|].
    rewrite !skipn_firstn_comm in Hq. replace (i - (i - q)) with q in Hq by lia. by replace (j - (j - q)) with q in Hq by lia.
  - apply cut_middle; lia.
Qed.

(** The middle is not empty. *)
Definition cuts (a b : bytes) (hm : HalfMatchResult) : Prop := halves a b hm ∧ 1 ≤ length (mid_common hm).

Lemma halfMatchI_halves long short i : 4 ≤ length long → i ≤ length long →
  fst (diff_halfMatchI long short i) = true → cuts long short (snd (diff_halfMatchI long short i)).
Proof.
  intros Hl Hi. unfold diff_halfMatchI. cbn [fst snd]. intros Hle%Nat.leb_le.
  destruct (halfMatch_loop_halves (S (length short)) long short (take (length long / 4) (drop i long)) i 0
    (HalfMatch [] [] [] [] []) Hi (or_introl eq_refl)) as [Hm|Hm]; [rewrite Hm in Hle; cbn in Hle; lia|split; [exact Hm|lia]].
Qed.

Lemma halfMatch_halves a b hm : diff_halfMatch a b = Some hm → cuts a b hm.
Proof.
  unfold diff_halfMatch. generalize (length b <? length a). intros longer.
  set (long := if longer then a else b). set (short := if longer then b else a).
  destruct (_ || _) eqn:Hg; [done|]. apply orb_false_elim in Hg as [Hg%Nat.ltb_ge _].
  pose proof (halfMatchI_halves long short ((length long + 3) / 4) Hg) as H1.
  pose proof (halfMatchI_halves long short ((length long + 1) / 2) Hg) as H2.
  destruct (diff_halfMatchI long short ((length long + 3) / 4)) as [hm1 r1],
    (diff_halfMatchI long short ((length long + 1) / 2)) as [hm2 r2]. cbn [fst snd] in *.
  assert (Hi1 : (length long + 3) / 4 ≤ length long) by (apply Nat.Div0.div_le_upper_bound; lia).
  assert (Hi2 : (length long + 1) / 2 ≤ length long) by (apply Nat.Div0.div_le_upper_bound; lia).
  specialize (H1 Hi1). specialize (H2 Hi2).
  assert (Hr : ∀ r, cuts long short r →
    (let 'HalfMatch a1 b1 a2 b2 m := r in Some (if longer then HalfMatch a1 b1 a2 b2 m else HalfMatch a2 b2 a1 b1 m)) = Some hm →
    cuts a b hm).
  { intros [a1 b1 a2 b2 m] [[Ha Hb] Hm] [= <-]. unfold cuts, halves, long, short in *. destruct longer; by split. }
  destruct hm1, hm2; try done.
  - destruct (_ <? _); [exact (Hr r1 (H1 eq_refl))|exact (Hr r2 (H2 eq_refl))].
  - exact (Hr r1 (H1 eq_refl)).
  - exact (Hr r2 (H2 eq_refl)).
Qed.

(** ** What is shown of the calls *)

(** One of the texts has at most 100 characters, or lines are not asked for:
    no line mode. *)
Definition no_lines (a b : bytes) (checklines : bool) : Prop := checklines = false ∨ length a ≤ 100 ∨ length b ≤ 100.

(** The lengths of the texts are [int]s, also together and with one more. *)
Definition int_lengths (a b : bytes) : Prop := (zlen a + zlen b < 2 ^ 31 - 1)%Z.

(** Line mode is not entered, or the lines have numbers below 128, also those of
    parts of the texts. *)
Definition fits (a b : bytes) (checklines : bool) : Prop :=
  int_lengths a b ∧ (no_lines a b checklines ∨ newlines a + newlines b ≤ 125).

(** A diff of the texts, or at least of the second. *)
Definition good (a b : bytes) (checklines : bool) (l : Diffs) : Prop :=
  reads_second l a b ∧ (no_lines a b checklines → diff_text1 l = a).

(** How deep the calls go: a line diff is on texts that may be as long. *)
Definition depth (a b : bytes) (checklines : bool) : nat :=
  if checklines then S (2 * (length a + length b)) else length a + length b.

Lemma reads_good l a b cl : reads l a b → good a b cl l.
Proof. intros [<- <-]. by split. Qed.

Lemma good_reads l a b cl : no_lines a b cl → good a b cl l → reads l a b.
Proof. intros Hn [[_ H2] H1]. split; auto. Qed.

(** [a'] is a part of [a]. *)
Definition part_of (a' a : bytes) : Prop := length a' ≤ length a ∧ newlines a' ≤ newlines a.

Lemma part_of_app x y z : part_of y (x ++ y ++ z).
Proof. unfold part_of. rewrite !newlines_app, !length_app. lia. Qed.

Lemma eq_part s x y z : s = x ++ y ++ z → part_of y s.
Proof. intros ->. apply part_of_app. Qed.

Lemma no_lines_part a b a' b' cl : part_of a' a → part_of b' b → no_lines a b cl → no_lines a' b' cl.
Proof. intros [? _] [? _] [?|[?|?]]; [by left|right; left; lia|right; right; lia]. Qed.

Lemma fits_part a b a' b' cl : part_of a' a → part_of b' b → fits a b cl → fits a' b' cl.
Proof.
  intros Ha Hb [Hi Hn]. split; [unfold int_lengths, zlen in *; destruct Ha, Hb; lia|].
  destruct Hn as [Hn|Hn]; [left; by apply (no_lines_part a b)|right]. destruct Ha, Hb. lia.
Qed.

(** Parts put together again. *)
Lemma good_app a b a' b' cl l k :
  good a b cl l → good a' b' cl k → good (a ++ a') (b ++ b') cl (l ++ k).
Proof.
  intros [[H1 H2] H3] [[H4 H5] H6]. split; [split|].
  - rewrite diff_text1_app, !length_app. congruence.
  - rewrite diff_text2_app. congruence.
  - intros Hn. rewrite diff_text1_app, H3, H6; [done|..]; (eapply no_lines_part; [..|exact Hn]);
      unfold part_of; rewrite ?newlines_app, ?length_app; lia.
Qed.

Lemma safeMid_ret s x : (0 ≤ x ≤ zlen s)%Z → safeMid s x = Ret (drop (Z.to_nat x) s) ∧ left s x = take (Z.to_nat x) s.
Proof.
  intros Hx. unfold safeMid, left. by rewrite (proj2 (Z.leb_le _ _)), (proj2 (Z.leb_le _ _)), (proj2 (Z.ltb_ge _ _)) by lia.
Qed.

Section calls.
Context (main : bytes → bytes → bool → M (list bool) Diffs) (n : nat).
Context (Hmain : ∀ a b cl c, fits a b cl → depth a b cl < n → answers_with (good a b cl) (main a b cl) c).

Lemma main_reads a b c : int_lengths a b → length a + length b < n → answers_with (λ l, reads l a b) (main a b false) c.
Proof.
  intros Hi Hn. destruct (Hmain a b false c) as (l & c' & Hl & Hg); [split; [done|by left; left]|done|].
  exists l, c'. split; [done|]. by apply (good_reads _ _ _ false); [left|].
Qed.

Lemma bisect_answers a b c : 2 ≤ length a → 2 ≤ length b → head a ≠ head b → last a ≠ last b → int_lengths a b → length a + length b ≤ n →
  answers_with (λ l, reads l a b) (diff_bisect main a b) c.
Proof.
  intros Ha Hb Hh Hl Hi Hn. unfold diff_bisect, answers_with.
  destruct (middle_snake_answers a b c Ha Hb Hh Hl Hi) as (r & c1 & Hr & Hin). rewrite (bind_run _ _ _ _ _ Hr).
  destruct r as [[x y]|]; [|eexists _, _; split; [done|by texts]].
  destruct Hin as (Hx & Hy & Hxy). unfold diff_bisectSplit.
  destruct (safeMid_ret a x Hx) as [-> ->], (safeMid_ret b y Hy) as [-> ->]. rewrite !bind_lift_ret. unfold int_lengths, zlen in *.
  destruct (main_reads (take (Z.to_nat x) a) (take (Z.to_nat y) b) c1) as (l1 & c2 & H1 & R1); [unfold int_lengths, zlen; rewrite !length_take; lia..|].
  destruct (main_reads (drop (Z.to_nat x) a) (drop (Z.to_nat y) b) c2) as (l2 & c3 & H2 & R2); [unfold int_lengths, zlen; rewrite !length_drop; lia..|].
  rewrite (bind_run _ _ _ _ _ H1), (bind_run _ _ _ _ _ H2). eexists _, _. split; [done|].
  rewrite <-(take_drop (Z.to_nat x) a), <-(take_drop (Z.to_nat y) b). by apply reads_app.
Qed.

(** The half match leaves smaller texts on both sides of the common middle. *)
Lemma half_match_answers a b cl hm c : cuts a b hm → fits a b cl → depth a b cl ≤ n →
  answers_with (good a b cl) (let! diffs := main (text1_a hm) (text2_a hm) cl in
    let! diffs_b := main (text1_b hm) (text2_b hm) cl in ret (diffs ++ MkDiff EQUAL (mid_common hm) :: diffs_b)) c.
Proof.
  intros [[H1 H2] Hm] Hfit Hn. unfold answers_with. rewrite H1, H2 in *.
  destruct (Hmain (text1_a hm) (text2_a hm) cl c) as (l1 & c1 & Hl1 & G1).
  { eapply fits_part; [..|exact Hfit]; apply (part_of_app []). }
  { unfold depth in *. rewrite !length_app in Hn. destruct cl; lia. }
  destruct (Hmain (text1_b hm) (text2_b hm) cl c1) as (l2 & c2 & Hl2 & G2).
  { eapply fits_part; [..|exact Hfit]; unfold part_of; rewrite !newlines_app, !length_app; lia. }
  { unfold depth in *. rewrite !length_app in Hn. destruct cl; lia. }
  rewrite (bind_run _ _ _ _ _ Hl1), (bind_run _ _ _ _ _ Hl2). eexists _, _. split; [done|].
  apply good_app; [done|]. apply (good_app _ _ _ _ cl [MkDiff EQUAL (mid_common hm)]); [apply reads_good; by texts|done].
Qed.

Lemma compute_answers a b cl c : (a = [] ∨ b = [] ∨ head a ≠ head b ∧ last a ≠ last b) → fits a b cl → depth a b cl ≤ n →
  answers_with (good a b cl) (diff_compute main a b cl) c.
Proof.
  intros Hends Hfit Hn. unfold diff_compute. destruct a as [|ca a]; [eexists _, _; split; [done|apply reads_good; by texts]|].
  destruct b as [|cb b]; [eexists _, _; split; [done|apply reads_good; by texts]|]. cbn [empty].
  destruct Hends as [|[|[Hh Hl]]]; [done..|].
  set (s := ca :: a) in *. set (t := cb :: b) in *.
  assert (Hlens : 1 ≤ length s ∧ 1 ≤ length t) by (unfold s, t; cbn; lia). clearbody s t.
  destruct (find _ _ 0) as [i|] eqn:Hf.
  - eexists _, _. split; [done|]. apply reads_good. apply find_bound in Hf as [_ Hs%starts_with_split]. rewrite drop_drop in Hs.
    destruct (length t <? length s).
    + texts; [|done]. by rewrite <-Hs, take_drop.
    + texts; [done|]. by rewrite <-Hs, take_drop.
  - destruct (_ =? 1) eqn:H1; [eexists _, _; split; [done|apply reads_good; by texts]|]. apply Nat.eqb_neq in H1.
    assert (2 ≤ length s ∧ 2 ≤ length t) as [Hs Ht] by (destruct (length t <? length s) eqn:Hlt; [apply Nat.ltb_lt in Hlt|apply Nat.ltb_ge in Hlt]; lia).
    destruct (diff_halfMatch s t) as [hm|] eqn:Hhm; [apply half_match_answers; [by apply halfMatch_halves|done|done]|].
    destruct (cl && _ && _) eqn:Hcl.
    + apply andb_prop in Hcl as [[-> ?%Nat.ltb_lt]%andb_prop ?%Nat.ltb_lt]. unfold depth in Hn.
      assert (Hno : ¬ no_lines s t true) by (intros [|[|]]; [done|lia..]). destruct Hfit as [Hi [|Hfit]]; [done|].
      destruct (lineMode_answers main (length s + length t)) with (a := s) (b := t) (c := c) as (l & c' & Hr & Hg); [|by apply all_lines_newlines|done|].
      { intros x y c1 Hxy. apply main_reads; [unfold int_lengths, zlen in *|]; lia. }
      exists l, c'. by split.
    + destruct (bisect_answers s t c Hs Ht Hh Hl (proj1 Hfit)) as (l & c' & Hr & Hg); [unfold depth in Hn; destruct cl; lia|].
      exists l, c'. split; [done|]. by apply reads_good.
Qed.
End calls.

(** ** The parts between the common ones *)
Lemma prefix_differs (a b : bytes) : let p := diff_commonPrefix a b in
  drop p a = [] ∨ drop p b = [] ∨ head (drop p a) ≠ head (drop p b).
Proof.
  cbv zeta. set (p := diff_commonPrefix a b). destruct (decide (head (drop p a) = head (drop p b))) as [He|]; [left|by right; right].
  rewrite !head_lookup, !lookup_drop, Nat.add_0_r in He. apply commonPrefix_stops in He. fold p in He.
  apply lookup_ge_None in He. by apply drop_ge.
Qed.

Lemma last_rev (s : bytes) : last (rev s) = head s.
Proof. rewrite rev_alt. apply last_reverse. Qed.

Lemma suffix_differs (a b : bytes) : let q := diff_commonSuffix a b in
  take (length a - q) a = [] ∨ take (length b - q) b = [] ∨ last (take (length a - q) a) ≠ last (take (length b - q) b).
Proof.
  cbv zeta. unfold diff_commonSuffix. set (q := diff_commonPrefix (rev a) (rev b)).
  assert (Hrev : ∀ s : bytes, take (length s - q) s = rev (drop q (rev s))).
  { intros s. by rewrite skipn_rev, rev_involutive. }
  rewrite !Hrev. pose proof (prefix_differs (rev a) (rev b)) as Hd. cbv zeta in Hd. fold q in Hd.
  destruct Hd as [-> |[-> |Hd]]; [by left|by right; left|]. right. right. intros He. apply Hd. by rewrite !last_rev in He.
Qed.

Lemma head_take (s : bytes) n : take n s ≠ [] → head (take n s) = head s.
Proof. by destruct n, s. Qed.

(** What is left of two texts without their common ends differs at both of its ends. *)
Lemma chopped_differ (a b : bytes) :
  let a1 := drop (diff_commonPrefix a b) a in let b1 := drop (diff_commonPrefix a b) b in
  let a2 := take (length a1 - diff_commonSuffix a1 b1) a1 in let b2 := take (length b1 - diff_commonSuffix a1 b1) b1 in
  a2 = [] ∨ b2 = [] ∨ head a2 ≠ head b2 ∧ last a2 ≠ last b2.
Proof.
  cbv zeta. set (a1 := drop _ a). set (b1 := drop _ b). set (q := diff_commonSuffix a1 b1).
  destruct (suffix_differs a1 b1) as [H|[H|Hl]]; [by left|by right; left|]. fold q in Hl.
  destruct (decide (take (length a1 - q) a1 = [])) as [|Ha]; [by left|].
  destruct (decide (take (length b1 - q) b1 = [])) as [|Hb]; [by right; left|].
  right. right. split; [|done]. rewrite !head_take by done.
  destruct (prefix_differs a b) as [H|[H|Hh]]; [|by fold b1 in H; rewrite H in Hb; destruct (length [] - q)|done].
  fold a1 in H. rewrite H in Ha. by destruct (length [] - q).
Qed.

Section step.
Context (main : bytes → bytes → bool → M (list bool) Diffs) (n : nat).
Context (Hmain : ∀ a b cl c, fits a b cl → depth a b cl < n → answers_with (good a b cl) (main a b cl) c).

Lemma main_step_answers a b cl c : fits a b cl → depth a b cl ≤ n → answers_with (good a b cl) (diff_main_step main a b cl) c.
Proof.
  intros Hfit Hn. unfold diff_main_step. case_decide as Hab; [subst b; eexists _, _; split; [done|apply reads_good, reads_equality]|].
  pose proof (chopped_differ a b) as Hends. cbv zeta in Hends |- *.
  destruct (commonPrefix_split a b) as (Hp & Hpa & Hpb). set (p := diff_commonPrefix a b) in *.
  set (a1 := drop p a) in *. set (b1 := drop p b) in *.
  destruct (commonSuffix_split a1 b1) as (Hs & Hqa & Hqb). set (q := diff_commonSuffix a1 b1) in *.
  assert (Ha : a = take p a ++ take (length a1 - q) a1 ++ drop (length a1 - q) a1) by (rewrite take_drop; symmetry; apply take_drop).
  assert (Hb : b = take p a ++ take (length b1 - q) b1 ++ drop (length a1 - q) a1) by (rewrite Hs, take_drop, Hp; symmetry; apply take_drop).
  destruct (compute_answers main n Hmain (take (length a1 - q) a1) (take (length b1 - q) b1) cl c Hends) as (l & c' & Hl & Hg).
  { eapply fits_part; [eapply eq_part; exact Ha|eapply eq_part; exact Hb|exact Hfit]. }
  { unfold depth in *. unfold a1, b1. rewrite !length_take, !length_drop. destruct cl; lia. }
  unfold answers_with. rewrite (bind_run _ _ _ _ _ Hl).
  destruct (cleanupMerge_keeps (equality (take p a) ++ l ++ equality (drop (length a1 - q) a1))) as (k & -> & Hk1 & Hk2).
  eexists _, _. split; [done|].
  assert (Hall : good a b cl (equality (take p a) ++ l ++ equality (drop (length a1 - q) a1))).
  { rewrite Ha at 1. rewrite Hb. apply good_app; [apply reads_good, reads_equality|].
    apply good_app; [done|apply reads_good, reads_equality]. }
  unfold good, reads_second in *. by rewrite Hk1, Hk2.
Qed.
End step.

Lemma main_n_answers n a b cl c : fits a b cl → depth a b cl < n → answers_with (good a b cl) (diff_main_n n a b cl) c.
Proof.
  revert a b cl c. induction n as [|n IH]; intros a b cl c Hfit Hn; [lia|]. apply (main_step_answers _ n IH); [done|lia].
Qed.

Lemma depth_enough a b cl : depth a b cl < 2 * (length a + length b) + 3.
Proof. unfold depth. destruct cl; lia. Qed.

(** C15 diff_main answers, by any clock, on every two texts whose lengths are
    [int]s, together and with one more, and for which it takes no lines or which
    have at most 125 line ends. The diff reads as the second text; it has the
    length of the first, and reads as it if no lines are taken.
    No call is out of range, throws or needs more fuel than it has. *)
Theorem diff_main_answers a b checklines c :
  fits a b checklines → answers_with (good a b checklines) (diff_main a b checklines) c.
Proof. intros Hfit. apply main_n_answers; [done|apply depth_enough]. Qed.

(** C35 Line mode answers on two texts of fewer than 128 different lines
    together, with a diff that reads as the second text and has the length of
    the first; on every two texts of 128 and more its behaviour is undefined:
    the numbers of lines are [char]s, and the 128th, which is negative, is an
    index of the line array. *)
Theorem line_mode_bound a b c :
  int_lengths a b →
  if decide (length (all_lines a b) < 128)
  then answers_with (λ l, reads_second l a b) (diff_lineMode diff_main a b) c
  else fst (diff_lineMode diff_main a b c) = Undef.
Proof.
  intros Hi. assert (Hmain : ∀ x y c, length x + length y ≤ length a + length b → answers_with (λ l, reads l x y) (diff_main x y false) c).
  { intros x y c0 Hxy. apply main_reads with (n := S (2 * (length x + length y) + 3)); [|unfold int_lengths, zlen in *; lia|lia].
    intros a' b' cl c1 Hfit _. by apply main_n_answers, depth_enough. }
  case_decide as Hn; [by eapply lineMode_answers|].
  destruct (lineMode_undefined _ _ Hmain a b c) as [c' ->]; [lia|done|done].
Qed.

(** Two texts of more than 100 characters, in lines. *)
Module Example.
Definition line (i : nat) : bytes := lit "line " ++ [char_of_Z (65 + Z.of_nat i); char_of_Z 10].
Definition a : bytes := concat (map line (seq 0 18)).
Definition b : bytes := concat (map line (seq 2 18)).

Lemma diff_main_answers_witness : fits a b true ∧ ¬ no_lines a b true ∧ answers_with (good a b true) (diff_main a b true) [false; true].
Proof.
  assert (Hfit : fits a b true) by (split; [by vm_compute|right]; apply Nat.leb_le; vm_compute; reflexivity).
  split; [exact Hfit|]. split; [|exact (diff_main_answers a b true [false; true] Hfit)].
  intros [H|[H|H]]; [done| |]; apply Nat.leb_le in H; vm_compute in H; done.
Defined.

(** The lines [p]0, [p]1, ..., 64 of each text: 128 different ones. *)
Definition numbered (p : bytes) (n : nat) : bytes :=
  concat (map (λ i, p ++ digits 10 (Z.of_nat i) ++ [char_of_Z 10]) (seq 0 n)).

Lemma line_mode_bound_witness :
  answers_with (λ l, reads_second l (numbered (lit "a") 64) (numbered (lit "b") 63))
    (diff_lineMode diff_main (numbered (lit "a") 64) (numbered (lit "b") 63)) [] ∧
  fst (diff_lineMode diff_main (numbered (lit "a") 64) (numbered (lit "b") 64) []) = Undef.
Proof.
  split.
  - pose proof (line_mode_bound (numbered (lit "a") 64) (numbered (lit "b") 63) []) as H.
    rewrite decide_True in H by (apply Nat.ltb_lt; vm_compute; reflexivity). apply H. by vm_compute.
  - pose proof (line_mode_bound (numbered (lit "a") 64) (numbered (lit "b") 64) []) as H.
    rewrite decide_False in H by (apply Nat.nlt_ge, Nat.leb_le; vm_compute; reflexivity). apply H. by vm_compute.
Defined.
End Example.

End DmpMain.
