(* ===== verification/DmpRoundtrip.v ===== *)
(** * From two texts to a patch and back

    What db.cc and db_manager.cc do with the library:
    [patch_toText(patch_make(a, b))] and
    [patch_apply(patch_fromText(p), a).first].  Which patches lead back to the
    text they were made for, and which do not. *)

From S2P Require Import Prelude Decimal DmpDiff DmpPatch DmpText DmpApply DmpSplit DmpMake DmpCleanup DmpGraph DmpBisect DmpLines DmpMain.
Local Open Scope prog_scope.
Import DmpDiff.Str DmpDiff.DmpDiff DmpPatch.DmpPatch DmpText.DmpText DmpApply.DmpApply DmpSplit.DmpSplit DmpMake.DmpMake DmpCleanup.DmpCleanup DmpBisect.DmpBisect DmpLines.DmpLines DmpMain.DmpMain.

Module DmpRoundtrip.

(** The calls of the library in one, over what the clock answers meanwhile. *)
Definition make_text (a b : bytes) : M (list bool) bytes :=
  let! ps := patch_make a b in ret (patch_toText ps).
Definition apply_text (p a : bytes) : M (list bool) bytes :=
  let! ps := lift_outcome (patch_fromText p) in
  let! r := patch_apply ps a in ret (fst r).

Definition all_ascii (s : bytes) : Prop := Forall (λ c, is_ascii c = true) s.

Lemma ascii_patches ps :
  Forall (λ p, all_Q (λ c, is_ascii c = true) (diffs p)) ps → map ascii_patch ps = ps.
Proof.
  intros Hps. rewrite <-(map_id ps) at 2. apply map_ext_in. intros p Hin%list_elem_of_In.
  pose proof (proj1 (Forall_forall _ _) Hps p Hin) as Hp. destruct p as [l s1 s2 l1 l2]. unfold ascii_patch.
  cbn [diffs start1 start2 length1 length2] in *. f_equal.
  rewrite <-(map_id l) at 2. apply map_ext_in. intros [op t] Hd%list_elem_of_In.
  pose proof (proj1 (Forall_forall _ _) Hp _ Hd) as Ht. unfold ascii_diff. cbn in *. by rewrite ascii_part_id.
Qed.

Lemma all_ascii_diffs l :
  all_ascii (diff_text1 l) → all_ascii (diff_text2 l) → all_Q (λ c, is_ascii c = true) l.
Proof.
  unfold all_ascii. induction l as [|[op t] l IH]; [constructor|]. rewrite diff_text1_cons, diff_text2_cons, !Forall_app.
  intros [H1 ?] [H2 ?]. constructor; [by destruct op|by apply IH].
Qed.

(** The patches of diffs, written as text, read back and applied. *)
Lemma diffs_replay l :
  all_ascii (diff_text1 l) → all_ascii (diff_text2 l) → keeps_equalities l = true →
  (zlen (diff_text1 l) + zlen (diff_text2 l) < 2 ^ 31 - 1)%Z →
  ∃ ps, patch_make_diffs (diff_text1 l) l = Ret ps ∧
    ∀ c, apply_text (patch_toText ps) (diff_text1 l) c = (Ret (diff_text2 l), c).
Proof.
  intros H1 H2 Hk Hb.
  destruct (patch_make_diffs_made _ (diff_text1 l) l eq_refl (all_ascii_diffs l H1 H2) Hk Hb) as (ps & Hps & [Ha Hp Ho HQ]).
  exists ps. split; [done|]. intros c. unfold apply_text. rewrite fromText_toText, ascii_patches by done. run.
  destruct (patch_apply_exact ps _ _ c Ha Hp) as (rs & Hr & _). by rewrite (bind_run _ _ _ _ _ Hr).
Qed.

(** Coordinates in range, and characters of ASCII. *)
Definition plain_patch (p : Patch) : Prop := patch_ok p ∧ all_Q (λ c, is_ascii c = true) (diffs p).

(** C18 Patches of ASCII characters with coordinates in range, written by
    patch_toText, are read back by patch_fromText as they were. *)
Theorem patches_text_roundtrip ps : Forall plain_patch ps → patch_fromText (patch_toText ps) = Ret ps.
Proof.
  intros [Hok HQ]%Forall_and. by rewrite fromText_toText, ascii_patches.
Qed.

(** C14 The patches made of a diff that keeps its equalities, applied to its
    first text, all apply and give the second, whatever its length: padding,
    splitting and the search for the places included. *)
Theorem made_patches_apply l c :
  keeps_equalities l = true → (zlen (diff_text1 l) + zlen (diff_text2 l) < 2 ^ 31 - 1)%Z →
  ∃ ps rs, patch_make_diffs (diff_text1 l) l = Ret ps ∧
    patch_apply ps (diff_text1 l) c = (Ret (diff_text2 l, rs), c) ∧ Forall (λ b, b = true) rs.
Proof.
  intros Hk Hb. destruct (patch_make_diffs_made (λ _, True) _ l eq_refl) as (ps & Hps & [Ha Hp _ _]); [|done|done|].
  { apply Forall_true. intros d. by apply Forall_true. }
  destruct (patch_apply_exact ps _ _ c Ha Hp) as (rs & Hr & Hall). by exists ps, rs.
Qed.

(** ** The first patch of an object *)
Definition initial (b : bytes) : Patches :=
  if empty b then [] else [MkPatch [MkDiff INSERT b] 0 0 0 (zlen b)].

Lemma patch_make_initial b c : patch_make [] b c = (Ret (initial b), c).
Proof.
  unfold patch_make, patch_diffs, diff_main. rewrite !bind_assoc. cbn [length Nat.add].
  destruct b as [|x b].
  { done. }
  assert (Hm : diff_main_n (2 * (0 + length (x :: b)) + 3) [] (x :: b) true c = (Ret [MkDiff INSERT (x :: b)], c)).
  { rewrite Nat.add_comm. cbn [Nat.add diff_main_n]. unfold diff_main_step. cbn [diff_commonPrefix].
    rewrite decide_False by done. cbn. by rewrite take_ge. }
  rewrite (bind_run _ _ _ _ _ Hm). done.
Qed.

(** The patch from the empty text to [b] gives [b] without its characters of
    128 and more, whatever the clock says. *)
Lemma initial_replays b c c' :
  (zlen b < 2 ^ 31)%Z →
  ∃ p, make_text [] b c = (Ret p, c) ∧ apply_text p [] c' = (Ret (ascii_part b), c').
Proof.
  intros Hb. exists (patch_toText (initial b)). unfold make_text, apply_text.
  rewrite (bind_run _ _ _ _ _ (patch_make_initial b c)). split; [done|].
  pose proof (zlen_nonneg b). unfold initial. destruct (empty b) eqn:He; [by destruct b|].
  rewrite fromText_toText; [run|by constructor; [split; split; cbn; lia|]].
  cbn [map]. set (p := ascii_patch (MkPatch [MkDiff INSERT b] 0 0 0 (zlen b))).
  destruct (patch_apply_exact [p] [] (ascii_part b) c') as (rs & Hr & _); [| |by rewrite (bind_run _ _ _ _ _ Hr)].
  - apply (applies_cons p [] [] [] (ascii_part b)); [done|done|].
    replace ([] ++ text2 p ++ []) with (ascii_part b) by (cbn; by rewrite !app_nil_r). constructor.
  - exists [], []. split_and!; try done; by right.
Qed.

(** A patch between texts without such characters leads back to the second,
    if the diffs it was made of are of the two texts and no equality of
    theirs is dropped. *)
Lemma update_replays a b l c c1 :
  patch_diffs a b c = (Ret l, c1) → diff_text1 l = a → diff_text2 l = b → keeps_equalities l = true →
  all_ascii a → all_ascii b → (zlen a + zlen b < 2 ^ 31 - 1)%Z →
  ∃ p, make_text a b c = (Ret p, c1) ∧ ∀ c2, apply_text p a c2 = (Ret b, c2).
Proof.
  intros Hl H1 H2 Hk Ha Hb Hlen. subst a b. destruct (diffs_replay l Ha Hb Hk Hlen) as (ps & Hps & Happ).
  exists (patch_toText ps). split; [|done]. unfold make_text, patch_make. rewrite bind_assoc.
  rewrite (bind_run _ _ _ _ _ Hl). rewrite Hps. by run.
Qed.

(** ** Short texts *)

(** The semantic cleanup runs on more than two diffs. *)
Definition true_cleanup (l : Diffs) : bool := (length l <=? 2) || true_overlaps l.

(** The diffs that patches are made of are always there, and read as the
    second text; as both, if no lines are taken and the cleanup takes out no overlap that is none. *)
Lemma patch_diffs_answers a b c : fits a b true → ∃ l0 l c1,
  diff_main a b true c = (Ret l0, c1) ∧ patch_diffs a b c = (Ret l, c1) ∧ reads_second l a b ∧
  (no_lines a b true → true_cleanup l0 = true → reads l a b).
Proof.
  intros Hfit. destruct (main_n_answers _ a b true c Hfit (depth_enough a b true)) as (l0 & c1 & Hl & [[H1 H2] H3]).
  change (diff_main a b true c = (Ret l0, c1)) in Hl. unfold patch_diffs. rewrite (bind_run _ _ _ _ _ Hl). unfold true_cleanup.
  destruct (length l0 <=? 2) eqn:Hlen.
  - apply Nat.leb_le in Hlen. rewrite (proj2 (Nat.ltb_ge _ _)) by lia. exists l0, l0, c1. split_and!; [done|done|done|].
    intros Hn _. by split; [apply H3|].
  - apply Nat.leb_gt in Hlen. rewrite (proj2 (Nat.ltb_lt _ _)) by lia.
    destruct (cleanupSemantic_keeps l0) as (k & -> & [Hk1 Hk2] & Hk).
    change (bind_outcome (Ret k) diff_cleanupEfficiency) with (diff_cleanupEfficiency k).
    destruct (cleanupEfficiency_keeps k) as (l & -> & Hl1 & Hl2). exists l0, l, c1. split_and!; [done|done|split; congruence|].
    rewrite (proj2 (Nat.leb_gt _ _) Hlen). intros Hn [Ht1 Ht2]%Hk. specialize (H3 Hn). split; congruence.
Qed.

(** A patch is made of every two texts that fit, whether it replays or not. *)
Lemma make_text_ends a b c : fits a b true → ∃ p c1, make_text a b c = (Ret p, c1).
Proof.
  intros Hfit. destruct (patch_diffs_answers a b c Hfit) as (l0 & l & c1 & _ & Hl & [H1 _] & _).
  destruct (patch_make_diffs_ends a l H1) as (ps & Hps). exists (patch_toText ps), c1.
  unfold make_text, patch_make. rewrite bind_assoc, (bind_run _ _ _ _ _ Hl), Hps. by run.
Qed.

(** C13 Of two ASCII texts, one of at most 100 characters, the update replays: the
    diffs are there, and unless one of their overlaps is taken out that is none or
    an equality is dropped, the patch made of the old text and the new one, as
    text, turns the one into the other, by any clock. *)
Theorem short_update_replays a b c :
  length a ≤ 100 ∨ length b ≤ 100 → all_ascii a → all_ascii b → (zlen a + zlen b < 2 ^ 31 - 1)%Z →
  ∃ l0 l c1, diff_main a b true c = (Ret l0, c1) ∧ patch_diffs a b c = (Ret l, c1) ∧
    (true_cleanup l0 = true → keeps_equalities l = true →
     ∃ p, make_text a b c = (Ret p, c1) ∧ ∀ c2, apply_text p a c2 = (Ret b, c2)).
Proof.
  intros Hab Ha Hb Hlen. destruct (patch_diffs_answers a b c (conj Hlen (or_introl (or_intror Hab)))) as (l0 & l & c1 & Hl0 & Hl & _ & Hr).
  exists l0, l, c1. split_and!; [done|done|]. intros Ht Hk. destruct (Hr (or_intror Hab) Ht) as [H1 H2].
  apply (update_replays a b l c c1); done.
Qed.

(** ** Updates that do not replay *)

(** What a call has answered. *)
Definition answer {A} (r : outcome A * list bool) (d : A) : A := match fst r with Ret x => x | _ => d end.

(** [patch_make] does not put the last equality into its patch, and knows it by
    value: an inner equality of the same text is left out too, so that the
    edits after it end up in its place. *)
Lemma equality_dropped :
  let a := lit "axxxxcxxxx" in let b := lit "bxxxxdxxxx" in
  ∃ p, make_text a b [] = (Ret p, []) ∧ apply_text p a [] = (Ret (lit "bdxxxcxxxx"), []).
Proof. intros a b. exists (answer (make_text a b []) []). split; vm_compute; reflexivity. Qed.

(** The end of "ppxc" is not the start of "zcxcqq", but both are "c" after
    one character: [diff_commonOverlap] compares the ends of the two. *)
Lemma overlap_misplaced :
  let a := lit "kppxc" in let b := lit "kzcxcqq" in
  fst (patch_diffs a b []) =
    Ret [MkDiff EQUAL (lit "k"); MkDiff DELETE (lit "pp"); MkDiff EQUAL (lit "zc"); MkDiff INSERT (lit "xcqq")] ∧
  ∃ p, make_text a b [] = (Ret p, []) ∧ apply_text p a [] = (Ret (lit "kxcxcqq"), []).
Proof.
  intros a b. split; [vm_compute; reflexivity|]. exists (answer (make_text a b []) []). split; vm_compute; reflexivity.
Qed.

(** The lines [p]1, [p]2, ... [p]n. *)
Definition numbered (p : bytes) (n : nat) : bytes :=
  concat (map (λ i, p ++ digits 10 (Z.of_nat i) ++ [char_of_Z 10]) (seq 1 n)).

(** An update that enters line mode with 128 different lines ([all_lines]). *)
Lemma many_lines_undefined :
  fst (make_text (numbered (lit "a") 64) (numbered (lit "b") 64) []) = Undef.
Proof. vm_compute. reflexivity. Qed.

(** ** Examples *)
Module Example.
Definition a : bytes := lit "The quick brown fox jumps over the lazy dog.".
Definition b : bytes := lit "That quick brown fox jumped over a lazy dog.".

Lemma ascii_check s : forallb is_ascii s = true → all_ascii s.
Proof. intros H. apply Forall_forall. intros c Hc%list_elem_of_In. exact (proj1 (forallb_forall _ _) H c Hc). Qed.

(** What the clock says does not matter here. *)
Definition main_diffs : Diffs := Eval vm_compute in answer (diff_main a b true []) [].
Definition made_diffs : Diffs := Eval vm_compute in answer (patch_diffs a b []) [].
Definition made_patches : Patches := Eval vm_compute in answer (patch_make a b []) [].

Lemma main_diffs_eq : fst (diff_main a b true []) = Ret main_diffs.
Proof. vm_compute. reflexivity. Qed.
Lemma made_diffs_eq : fst (patch_diffs a b []) = Ret made_diffs.
Proof. vm_compute. reflexivity. Qed.

Lemma short_update_replays_witness : ∃ p c1, make_text a b [] = (Ret p, c1) ∧ ∀ c2, apply_text p a c2 = (Ret b, c2).
Proof.
  destruct (short_update_replays a b []) as (l0 & l & c1 & H0 & H1 & Hr).
  - left. apply Nat.leb_le. vm_compute. reflexivity.
  - apply ascii_check. vm_compute. reflexivity.
  - apply ascii_check. vm_compute. reflexivity.
  - vm_compute. reflexivity.
  - pose proof main_diffs_eq as Hm. rewrite H0 in Hm. injection Hm as ->.
    pose proof made_diffs_eq as Hd. rewrite H1 in Hd. injection Hd as ->.
    destruct Hr as (p & Hp & Happ); [vm_compute; reflexivity|vm_compute; reflexivity|]. exists p, c1. exact (conj Hp Happ).
Defined.

Lemma patches_text_roundtrip_witness : patch_fromText (patch_toText made_patches) = Ret made_patches.
Proof.
  apply patches_text_roundtrip.
  repeat constructor; cbn; lia.
Defined.

Lemma made_patches_apply_witness : ∃ ps rs, patch_make_diffs a made_diffs = Ret ps ∧
  patch_apply ps a [] = (Ret (b, rs), []) ∧ Forall (λ b, b = true) rs.
Proof. apply (made_patches_apply made_diffs []); vm_compute; reflexivity. Defined.
End Example.

End DmpRoundtrip.
