(* ===== verification/Crypto.v ===== *)
(** * crypto.cc: hexadecimal rendering and hashing

    [toHex] of src/src/daemon/crypto.cc is executable.  SHA-512 itself is
    Crypto++, outside the repository: the class [Digest] is the parameter of
    every definition that hashes, and states the one documented fact the code
    relies on, the 64-byte length of a digest. *)

From S2P Require Import Prelude.
Local Open Scope Z_scope.

(** [CryptoPP::SHA512] *)
Class Digest := {
  sha512 : bytes → bytes;
  sha512_length : ∀ x, length (sha512 x) = 64%nat;
}.

(** A digest to compute with in the examples: the first 64 bytes, padded. *)
Definition example_sha512 (x : bytes) : bytes := take 64 (x ++ replicate 64 NUL).

Lemma example_sha512_length x : length (example_sha512 x) = 64%nat.
Proof. unfold example_sha512. rewrite length_take, length_app, length_replicate. lia. Qed.

Definition example_digest : Digest := Build_Digest example_sha512 example_sha512_length.

Module Crypto.

Definition hexDigits : bytes := "0123456789abcdef"%string.

Definition hex_digit (i : Z) : ascii := nth (Z.to_nat i) hexDigits "000"%char.

(** The loop body pushes the digit of the high nibble, then the low one.
    [inp[i]] is a [char]: it is sign-extended before the mask. *)
Definition toHex_char (c : ascii) : bytes :=
  [hex_digit (Z.shiftr (Z.land (schar c) 0xf0) 4);
   hex_digit (Z.land (schar c) 0x0f)].

Fixpoint toHex (inp : bytes) : bytes :=
  match inp with
  | [] => []
  | c :: rest => toHex_char c ++ toHex rest
  end.

(** The value of a hexadecimal digit: the specification [toHex] is judged
    by, there is no decoder in the source. *)
Definition hex_value (c : ascii) : option Z :=
  let i := list_find (λ d, d = c) hexDigits in
  match i with Some (n, _) => Some (Z.of_nat n) | None => None end.

Fixpoint ofHex (h : bytes) : option bytes :=
  match h with
  | [] => Some []
  | a :: b :: rest =>
      match hex_value a, hex_value b, ofHex rest with
      | Some x, Some y, Some r => Some (char_of_Z (16 * x + y) :: r)
      | _, _, _ => None
      end
  | _ => None
  end.

Definition is_hex (c : ascii) : bool := bool_decide (c ∈ hexDigits).

Section hash.
Context `{Digest}.

Definition Hash (inp : bytes) : bytes := sha512 inp.

(** [HashFile]: [contents] is what reading the file gives, [None] when
    opening or reading it throws; the [catch(...)] clears the result. *)
Definition HashFile (contents : option bytes) : bytes :=
  match contents with
  | Some c => sha512 c
  | None => []
  end.

(** The composition every caller uses. *)
Definition hex_hash (x : bytes) : bytes := toHex (Hash x).
End hash.

(** ** Lemmas *)

Lemma toHex_char_spec c :
  match toHex_char c with
  | [a; b] => match hex_value a, hex_value b with
              | Some x, Some y => bool_decide (char_of_Z (16 * x + y) = c)
              | _, _ => false
              end && is_hex a && is_hex b
  | _ => false
  end = true.
Proof. revert c. apply forall_chars. vm_compute. reflexivity. Qed.

Lemma toHex_char_two c : ∃ a b, toHex_char c = [a; b] ∧ is_hex a ∧ is_hex b ∧
  ∃ x y, hex_value a = Some x ∧ hex_value b = Some y ∧ char_of_Z (16 * x + y) = c.
Proof.
  pose proof (toHex_char_spec c) as Hc. unfold toHex_char in *.
  eexists _, _. split; [reflexivity|].
  apply andb_prop in Hc as [[Hc Ha]%andb_prop Hb].
  repeat case_match; try done. apply bool_decide_eq_true in Hc. naive_solver.
Qed.

Lemma toHex_app x y : toHex (x ++ y) = toHex x ++ toHex y.
Proof. induction x; simpl; [done|]. by rewrite IHx. Qed.

Lemma toHex_length inp : length (toHex inp) = (2 * length inp)%nat.
Proof. induction inp; simpl in *; lia. Qed.

Lemma toHex_hex inp : Forall is_hex (toHex inp).
Proof.
  induction inp as [|c inp IH]; [constructor|]. cbn [toHex].
  destruct (toHex_char_two c) as (a & b & -> & Ha & Hb & _). by repeat constructor.
Qed.

(** [toHex] loses nothing: reading the digits two by two gives the bytes
    back, for every byte, those above 127 included (the [char] is negative
    there). *)
Theorem ofHex_toHex inp : ofHex (toHex inp) = Some inp.
Proof.
  induction inp as [|c inp IH]; [done|]. cbn [toHex].
  destruct (toHex_char_two c) as (a & b & -> & _ & _ & x & y & Ha & Hb & Hc).
  cbn [app ofHex]. by rewrite Ha, Hb, IH, Hc.
Qed.
End Crypto.
