(* ===== verification/Base64.v ===== *)
(** * libb64: the base64 coder the RPC layer uses

    third-party/libb64/src/cencode.c and cdecode.c are coroutines: a [switch]
    jumps into a [while (1)] at the step the state remembers.  Each character
    consumed moves the machine one step on, so the loops are structural on the
    input.  encode.h and decode.h feed them a stream in buffers. *)

From S2P Require Import Prelude.
Local Open Scope Z_scope.

Module Base64.

(** ** Encoder *)

Definition CHARS_PER_LINE : Z := 72.

Inductive encodestep := step_A | step_B | step_C.

Record encodestate := EncState {
  e_step : encodestep;
  e_result : Z;        (* char *)
  e_stepcount : Z;     (* int *)
}.

Definition init_encodestate : encodestate := EncState step_A 0 0.

Definition encoding : bytes :=
  "ABCDEFGHIJKLMNOPQRSTUVWXYZabcdefghijklmnopqrstuvwxyz0123456789+/"%string.

(** [value_in] is never negative here: every call masks it. *)
Definition encode_value (value_in : Z) : ascii :=
  if value_in >? 63 then "="%char else nth (Z.to_nat value_in) encoding NUL.

Fixpoint encode_block (plaintext : bytes) (st : encodestate) : bytes * encodestate :=
  match plaintext with
  | [] => ([], st)
  | c :: rest =>
      let fragment := schar c in
      match e_step st with
      | step_A =>
          let out := encode_value (Z.shiftr (Z.land fragment 0xfc) 2) in
          let result := Z.shiftl (Z.land fragment 0x03) 4 in
          let '(o, st') := encode_block rest (EncState step_B result (e_stepcount st)) in
          (out :: o, st')
      | step_B =>
          let out := encode_value (Z.lor (e_result st) (Z.shiftr (Z.land fragment 0xf0) 4)) in
          let result := Z.shiftl (Z.land fragment 0x0f) 2 in
          let '(o, st') := encode_block rest (EncState step_C result (e_stepcount st)) in
          (out :: o, st')
      | step_C =>
          let out1 := encode_value (Z.lor (e_result st) (Z.shiftr (Z.land fragment 0xc0) 6)) in
          let result := Z.shiftr (Z.land fragment 0x3f) 0 in
          let out2 := encode_value result in
          let count := e_stepcount st + 1 in
          let nl := count =? CHARS_PER_LINE / 4 in
          let '(o, st') :=
            encode_block rest (EncState step_A result (if nl then 0 else count)) in
          (out1 :: out2 :: (if nl then ["010"%char] else []) ++ o, st')
      end
  end.

Definition encode_blockend (st : encodestate) : bytes :=
  match e_step st with
  | step_B => [encode_value (e_result st); "="%char; "="%char]
  | step_C => [encode_value (e_result st); "="%char]
  | step_A => []
  end ++ ["010"%char].

(** [encoder::encode(istream, ostream)]: [istream::read] of [N] characters
    delivers [gcount] of them and leaves the stream [good] when it got all
    [N].  [fuel] bounds the [do]-[while]. *)
Fixpoint encode_loop (fuel : nat) (N : nat) (input : bytes) (st : encodestate)
    : option (bytes * encodestate) :=
  match fuel with
  | O => None
  | S fuel =>
      let plaintext := take N input in
      let plainlength := length plaintext in
      let '(code, st) := encode_block plaintext st in
      if bool_decide (plainlength = N ∧ 0 < plainlength)%nat then
        '(o, st) ← encode_loop fuel N (drop N input) st; Some (code ++ o, st)
      else Some (code, st)
  end.

Definition encode (N : nat) (input : bytes) : option bytes :=
  '(code, st) ← encode_loop (S (length input)) N input init_encodestate;
  Some (code ++ encode_blockend st).

(** ** Decoder *)

Inductive decodestep := step_a | step_b | step_c | step_d.

Record decodestate := DecState {
  d_step : decodestep;
  d_plainchar : Z;     (* char, as its unsigned value *)
}.

Definition init_decodestate : decodestate := DecState step_a 0.

Definition decoding : list Z :=
  [62;-1;-1;-1;63;52;53;54;55;56;57;58;59;60;61;-1;-1;-1;-2;-1;-1;-1;0;1;2;3;4;5;6;7;8;9;
   10;11;12;13;14;15;16;17;18;19;20;21;22;23;24;25;-1;-1;-1;-1;-1;-1;26;27;28;29;30;31;32;
   33;34;35;36;37;38;39;40;41;42;43;44;45;46;47;48;49;50;51].
Definition decoding_size : Z := zlen decoding.

(** [value_in -= 43] wraps in a [char].  The bound check lets
    [value_in = decoding_size] through: [None] is that read past the end of
    the table. *)
Definition decode_value (c : ascii) : option Z :=
  let value_in := schar (char_of_Z (schar c - 43)) in
  if (value_in <? 0) || (value_in >? decoding_size) then Some (-1)
  else decoding !! Z.to_nat value_in.

(** One pass over the input; a [fragment < 0] stays in the same step.  The
    byte under construction is [*plainchar]; it is emitted when the pointer
    moves on. *)
Fixpoint decode_block (code : bytes) (st : decodestate) : option (bytes * decodestate) :=
  match code with
  | [] => Some ([], st)
  | c :: rest =>
      fragment ← decode_value c;
      if fragment <? 0 then decode_block rest st else
      match d_step st with
      | step_a =>
          decode_block rest (DecState step_b (Z.shiftl (Z.land fragment 0x3f) 2))
      | step_b =>
          let out := Z.lor (d_plainchar st) (Z.shiftr (Z.land fragment 0x30) 4) in
          '(o, st') ← decode_block rest
            (DecState step_c (Z.shiftl (Z.land fragment 0x0f) 4));
          Some (char_of_Z out :: o, st')
      | step_c =>
          let out := Z.lor (d_plainchar st) (Z.shiftr (Z.land fragment 0x3c) 2) in
          '(o, st') ← decode_block rest
            (DecState step_d (Z.shiftl (Z.land fragment 0x03) 6));
          Some (char_of_Z out :: o, st')
      | step_d =>
          let out := Z.lor (d_plainchar st) (Z.land fragment 0x3f) in
          '(o, st') ← decode_block rest (DecState step_a (d_plainchar st));
          Some (char_of_Z out :: o, st')
      end
  end.

Fixpoint decode_loop (fuel : nat) (N : nat) (input : bytes) (st : decodestate)
    : option (option (bytes * decodestate)) :=
  match fuel with
  | O => None
  | S fuel =>
      let code := take N input in
      let codelength := length code in
      match decode_block code st with
      | None => Some None
      | Some (plain, st) =>
          if bool_decide (codelength = N ∧ 0 < codelength)%nat then
            match decode_loop fuel N (drop N input) st with
            | Some (Some (o, st)) => Some (Some (plain ++ o, st))
            | r => r
            end
          else Some (Some (plain, st))
      end
  end.

(** The outer [option] is the loop bound, the inner one the table overrun. *)
Definition decode (N : nat) (input : bytes) : option (option bytes) :=
  match decode_loop (S (length input)) N input init_decodestate with
  | Some (Some (plain, _)) => Some (Some plain)
  | Some None => Some None
  | None => None
  end.

(** ** Feeding a block in pieces *)

Lemma encode_block_app a b st :
  encode_block (a ++ b) st =
    (let '(o1, st1) := encode_block a st in
     let '(o2, st2) := encode_block b st1 in (o1 ++ o2, st2)).
Proof.
  revert st. induction a as [|c a IH]; intros st; simpl.
  - by destruct (encode_block b st).
  - destruct (e_step st); rewrite IH; repeat case_match; simplify_eq/=; auto.
    all: by rewrite <-?app_assoc.
Qed.

Lemma decode_block_app a b st :
  decode_block (a ++ b) st =
    ('(o1, st1) ← decode_block a st;
     '(o2, st2) ← decode_block b st1; Some (o1 ++ o2, st2)).
Proof.
  revert st. induction a as [|c a IH]; intros st; simpl.
  - by destruct (decode_block b st) as [[]|].
  - destruct (decode_value c) as [v|]; simpl; [|done].
    case_match; [apply IH|].
    destruct (d_step st); rewrite IH;
      destruct (decode_block a _) as [[o1 st1]|]; simpl; try done;
      by destruct (decode_block b st1) as [[]|].
Qed.

Lemma take_short_drop {A} N (l : list A) : length (take N l) ≠ N → take N l = l.
Proof. intros H. apply take_ge. rewrite length_take in H. lia. Qed.

(** The stream loops compute the one-shot block function, whatever the
    buffer size. *)
Lemma encode_loop_block fuel N input st :
  (0 < N)%nat → (length input < fuel)%nat →
  encode_loop fuel N input st = Some (encode_block input st).
Proof.
  intros HN. revert input st. induction fuel as [|fuel IH]; intros input st Hf; [lia|].
  rewrite <-(take_drop N input) at 2. rewrite encode_block_app. simpl.
  destruct (encode_block (take N input) st) as [o1 st1] eqn:E1.
  rewrite length_take. case_bool_decide as Hc; simpl.
  - rewrite IH by (rewrite length_drop; lia).
    simpl. by destruct (encode_block _ st1).
  - rewrite drop_ge by lia. simpl. by rewrite app_nil_r.
Qed.

Lemma decode_loop_block fuel N input st :
  (0 < N)%nat → (length input < fuel)%nat →
  decode_loop fuel N input st = Some (decode_block input st).
Proof.
  intros HN. revert input st. induction fuel as [|fuel IH]; intros input st Hf; [lia|].
  rewrite <-(take_drop N input) at 2. rewrite decode_block_app. simpl.
  destruct (decode_block (take N input) st) as [[o1 st1]|] eqn:E1; [|done].
  rewrite length_take. case_bool_decide as Hc; simpl.
  - rewrite IH by (rewrite length_drop; lia).
    by destruct (decode_block _ st1) as [[]|].
  - rewrite drop_ge by lia. simpl. by rewrite app_nil_r.
Qed.

(** The coder without its buffers. *)
Definition encode_all (input : bytes) : bytes :=
  let '(code, st) := encode_block input init_encodestate in code ++ encode_blockend st.

Lemma encode_eq N input : (0 < N)%nat → encode N input = Some (encode_all input).
Proof.
  intros HN. unfold encode, encode_all. rewrite encode_loop_block by (done || lia).
  simpl. by destruct (encode_block _ _).
Qed.

Lemma decode_eq N input :
  (0 < N)%nat → decode N input = Some (fst <$> decode_block input init_decodestate).
Proof.
  intros HN. unfold decode. rewrite decode_loop_block by (done || lia).
  by destruct (decode_block _ _) as [[]|].
Qed.

(** ** What a decoder makes of an encoder's characters

    The bit facts are decided by enumeration, over one character or over the
    two parts of a six-bit value. *)

Definition upto (n : nat) : list Z := map Z.of_nat (seq 0 n).

Lemma forall_upto n (P : Z → bool) :
  forallb P (upto n) = true → ∀ z, 0 ≤ z < Z.of_nat n → P z = true.
Proof.
  intros H z Hz. eapply forallb_forall in H; [done|].
  apply in_map_iff. exists (Z.to_nat z). rewrite in_seq. lia.
Qed.

Lemma decode_encode_value v : 0 ≤ v < 64 → decode_value (encode_value v) = Some v.
Proof.
  intros Hv. eapply bool_decide_eq_true.
  revert v Hv. apply (forall_upto 64). vm_compute. reflexivity.
Qed.

(** The bits of a character the coder splits off: [highA]/[keepA] are the
    upper six and lower two, [highB]/[keepB] the upper and lower four,
    [highC]/[keepC] the upper two and lower six. *)
Definition highA (x : ascii) : Z := Z.shiftr (Z.land (schar x) 0xfc) 2.
Definition keepA (x : ascii) : Z := Z.shiftl (Z.land (schar x) 0x03) 4.
Definition highB (y : ascii) : Z := Z.shiftr (Z.land (schar y) 0xf0) 4.
Definition keepB (y : ascii) : Z := Z.shiftl (Z.land (schar y) 0x0f) 2.
Definition highC (z : ascii) : Z := Z.shiftr (Z.land (schar z) 0xc0) 6.
Definition keepC (z : ascii) : Z := Z.shiftr (Z.land (schar z) 0x3f) 0.

Definition char_bits_ok (x : ascii) : bool :=
  (0 <=? highA x) && (highA x <? 64) && (0 <=? highB x) && (highB x <? 16) &&
  (0 <=? highC x) && (highC x <? 4) && (0 <=? keepC x) && (keepC x <? 64) &&
  bool_decide (keepA x ∈ map (Z.mul 16) (upto 4)) &&
  bool_decide (keepB x ∈ map (Z.mul 4) (upto 16)) &&
  bool_decide (char_of_Z (Z.lor (Z.shiftl (Z.land (highA x) 0x3f) 2) (Z.shiftr (keepA x) 4)) = x) &&
  bool_decide (char_of_Z (Z.lor (Z.shiftl (highB x) 4) (Z.shiftr (keepB x) 2)) = x) &&
  bool_decide (char_of_Z (Z.lor (Z.shiftl (highC x) 6) (Z.land (keepC x) 0x3f)) = x).

Lemma char_bits x : char_bits_ok x = true.
Proof. revert x. apply forall_chars. vm_compute. reflexivity. Qed.

Definition mix_ok (m n k h : Z) : bool :=
  (0 <=? Z.lor k h) && (Z.lor k h <? 64) && (Z.land (Z.lor k h) m =? k) &&
  (Z.land (Z.lor k h) n =? h).

Lemma mix_B k h : k ∈ map (Z.mul 16) (upto 4) → 0 ≤ h < 16 → mix_ok 0x30 0x0f k h = true.
Proof.
  intros Hk. revert h. apply (forall_upto 16).
  assert (Hall : forallb (λ k, forallb (mix_ok 0x30 0x0f k) (upto 16)) (map (Z.mul 16) (upto 4)) = true)
    by (vm_compute; reflexivity).
  eapply forallb_forall in Hall; [done|]. by apply list_elem_of_In.
Qed.

Lemma mix_C k h : k ∈ map (Z.mul 4) (upto 16) → 0 ≤ h < 4 → mix_ok 0x3c 0x03 k h = true.
Proof.
  intros Hk. revert h. apply (forall_upto 4).
  assert (Hall : forallb (λ k, forallb (mix_ok 0x3c 0x03 k) (upto 4)) (map (Z.mul 4) (upto 16)) = true)
    by (vm_compute; reflexivity).
  eapply forallb_forall in Hall; [done|]. by apply list_elem_of_In.
Qed.

Ltac split_ok H :=
  repeat match type of H with
    | (_ && _) = true =>
        let H' := fresh "Hb" in apply andb_prop in H as [H H']; split_ok H'
    end;
  try apply bool_decide_eq_true in H; try apply Z.eqb_eq in H;
  try apply Z.leb_le in H; try apply Z.ltb_lt in H.

Lemma decode_block_read v rest st :
  0 ≤ v < 64 →
  decode_block (encode_value v :: rest) st =
    match d_step st with
    | step_a => decode_block rest (DecState step_b (Z.shiftl (Z.land v 0x3f) 2))
    | step_b =>
        '(o, st') ← decode_block rest (DecState step_c (Z.shiftl (Z.land v 0x0f) 4));
        Some (char_of_Z (Z.lor (d_plainchar st) (Z.shiftr (Z.land v 0x30) 4)) :: o, st')
    | step_c =>
        '(o, st') ← decode_block rest (DecState step_d (Z.shiftl (Z.land v 0x03) 6));
        Some (char_of_Z (Z.lor (d_plainchar st) (Z.shiftr (Z.land v 0x3c) 2)) :: o, st')
    | step_d =>
        '(o, st') ← decode_block rest (DecState step_a (d_plainchar st));
        Some (char_of_Z (Z.lor (d_plainchar st) (Z.land v 0x3f)) :: o, st')
    end.
Proof.
  intros Hv. cbn [decode_block]. rewrite decode_encode_value by done. simpl.
  by rewrite (proj2 (Z.ltb_ge v 0)) by lia.
Qed.

(** [sync e d p]: the decoder in state [d] has consumed what the encoder in
    state [e] wrote, and [p] is the character still in flight. *)
Inductive sync : encodestate → decodestate → bytes → Prop :=
  | sync_A r n pc : sync (EncState step_A r n) (DecState step_a pc) []
  | sync_B n x : sync (EncState step_B (keepA x) n)
                   (DecState step_b (Z.shiftl (Z.land (highA x) 0x3f) 2)) [x]
  | sync_C n y : sync (EncState step_C (keepB y) n)
                   (DecState step_c (Z.shiftl (highB y) 4)) [y].

(** One character through both machines. *)
Lemma sync_step e d p c :
  sync e d p →
  ∃ o e' d' out p',
    encode_block [c] e = (o, e') ∧ decode_block o d = Some (out, d') ∧
    sync e' d' p' ∧ p ++ [c] = out ++ p'.
Proof.
  intros Hs. pose proof (char_bits c) as Hc. unfold char_bits_ok in Hc. split_ok Hc.
  destruct Hs as [r n pc|n x|n y]; cbn [encode_block e_step e_result e_stepcount].
  - do 5 eexists. split_and!; [done| |apply sync_B|done].
    rewrite (decode_block_read (highA c)) by lia. done.
  - pose proof (char_bits x) as Hx. unfold char_bits_ok in Hx. split_ok Hx.
    pose proof (mix_B (keepA x) (highB c) ltac:(done) ltac:(lia)) as Hm.
    unfold mix_ok in Hm. split_ok Hm.
    do 5 eexists. split_and!; [done| |apply sync_C|].
    + rewrite (decode_block_read (Z.lor (keepA x) (highB c))) by lia.
      cbn [d_step decode_block]. by replace (Z.land _ 15) with (highB c).
    + cbn [d_plainchar app]. repeat f_equal. congruence.
  - pose proof (char_bits y) as Hy. unfold char_bits_ok in Hy. split_ok Hy.
    pose proof (mix_C (keepB y) (highC c) ltac:(done) ltac:(lia)) as Hm.
    unfold mix_ok in Hm. split_ok Hm.
    assert (Hd : ∀ nl : bool, decode_block (encode_value (Z.lor (keepB y) (highC c)) ::
              encode_value (keepC c) :: (if nl then ["010"%char] else []))
              (DecState step_c (Z.shiftl (highB y) 4)) =
            Some ([y; c], DecState step_a (Z.shiftl (highC c) 6))).
    { intros nl. rewrite decode_block_read by lia. cbn [d_step d_plainchar].
      rewrite decode_block_read by lia. cbn [d_step d_plainchar].
      assert (Hnl : ∀ st, decode_block (if nl then ["010"%char] else []) st = Some ([], st))
        by (by destruct nl).
      rewrite Hnl. simpl. repeat f_equal; congruence. }
    do 5 eexists. rewrite app_nil_r. split_and!; [done|apply Hd|apply sync_A|done].
Qed.

Lemma sync_block e d p s :
  sync e d p →
  ∃ o e' d' out p',
    encode_block s e = (o, e') ∧ decode_block o d = Some (out, d') ∧
    sync e' d' p' ∧ p ++ s = out ++ p'.
Proof.
  revert e d p. induction s as [|c s IH]; intros e d p Hs.
  - exists [], e, d, [], p. by rewrite app_nil_r.
  - destruct (sync_step e d p c Hs) as (o1 & e1 & d1 & out1 & p1 & He1 & Hd1 & Hs1 & Hp1).
    destruct (IH e1 d1 p1 Hs1) as (o2 & e2 & d2 & out2 & p2 & He2 & Hd2 & Hs2 & Hp2).
    exists (o1 ++ o2), e2, d2, (out1 ++ out2), p2. split_and!; [| |done|].
    + rewrite (encode_block_app [c] s). by rewrite He1, He2.
    + rewrite decode_block_app, Hd1. simpl. by rewrite Hd2.
    + change (c :: s) with ([c] ++ s). by rewrite app_assoc, Hp1, <-!app_assoc, Hp2.
Qed.

(** The padding flushes the character in flight and nothing else. *)
Lemma sync_blockend e d p :
  sync e d p → ∃ d', decode_block (encode_blockend e) d = Some (p, d').
Proof.
  intros Hs. destruct Hs as [r n pc|n x|n y]; [by eexists| |]; unfold encode_blockend;
    cbn [e_step e_result app].
  - pose proof (char_bits x) as Hx. unfold char_bits_ok in Hx. split_ok Hx.
    pose proof (mix_B (keepA x) 0 ltac:(done) ltac:(lia)) as Hm.
    unfold mix_ok in Hm. split_ok Hm. rewrite Z.lor_0_r in *.
    rewrite decode_block_read by lia. cbn [d_step d_plainchar].
    eexists. simpl. repeat f_equal. congruence.
  - pose proof (char_bits y) as Hy. unfold char_bits_ok in Hy. split_ok Hy.
    pose proof (mix_C (keepB y) 0 ltac:(done) ltac:(lia)) as Hm.
    unfold mix_ok in Hm. split_ok Hm. rewrite Z.lor_0_r in *.
    rewrite decode_block_read by lia. cbn [d_step d_plainchar].
    eexists. simpl. repeat f_equal. congruence.
Qed.

Lemma decode_block_encode_all s : fst <$> decode_block (encode_all s) init_decodestate = Some s.
Proof.
  destruct (sync_block init_encodestate init_decodestate [] s) as
    (o & e' & d' & out & p' & He & Hd & Hs & Hp); [constructor|].
  destruct (sync_blockend _ _ _ Hs) as [d'' Hend].
  unfold encode_all. rewrite He, decode_block_app, Hd. simpl. rewrite Hend. simpl.
  simpl in Hp. by rewrite Hp.
Qed.

(** C19 [RPC_Request::decode_base64 (RPC_Response::encode_base64 s)] gives [s]
    back, for any buffer sizes of the two loops; in particular both loops
    end and the decoder never reads past its table on encoder output. *)
Theorem decode_encode N M s :
  (0 < N)%nat → (0 < M)%nat →
  ∃ code, encode N s = Some code ∧ decode M code = Some (Some s).
Proof.
  intros HN HM. exists (encode_all s). split; [by apply encode_eq|].
  rewrite decode_eq by done. by rewrite decode_block_encode_all.
Qed.


(** ** The buffers are large enough

    [encode] allocates [2*N] characters for the code of at most [N]
    characters, [decode] allocates [N].  [enc_potential] counts, in 54ths of
    a character, how far the encoder is ahead of its average 73/54. *)

Definition enc_potential (e : encodestate) : Z :=
  3 * e_stepcount e + match e_step e with step_A => 0 | step_B => 19 | step_C => 38 end.

Lemma encode_block_size s e :
  0 ≤ e_stepcount e < 18 →
  0 ≤ e_stepcount (encode_block s e).2 < 18 ∧
  54 * zlen (encode_block s e).1 + enc_potential (encode_block s e).2
    = 73 * zlen s + enc_potential e.
Proof.
  unfold zlen, enc_potential. revert e.
  induction s as [|c s IH]; intros [st r n] Hn; simpl in *; [lia|].
  destruct st; simpl.
  - specialize (IH (EncState step_B (Z.shiftl (Z.land (schar c) 3) 4) n) Hn).
    destruct (encode_block s _) as [o e']; simpl in *. lia.
  - specialize (IH (EncState step_C (Z.shiftl (Z.land (schar c) 15) 2) n) Hn).
    destruct (encode_block s _) as [o e']; simpl in *. lia.
  - change (CHARS_PER_LINE / 4) with 18. destruct (Z.eqb_spec (n + 1) 18);
      match goal with |- context [encode_block s ?e] => specialize (IH e) end;
      destruct (encode_block s _) as [o e']; simpl in *; lia.
Qed.

Definition dec_potential (d : decodestate) : Z :=
  match d_step d with step_a => 0 | step_b => 3 | step_c => 2 | step_d => 1 end.

Lemma decode_block_size s d out d' :
  decode_block s d = Some (out, d') →
  4 * zlen out + dec_potential d' ≤ 3 * zlen s + dec_potential d.
Proof.
  unfold zlen, dec_potential. revert d out d'.
  induction s as [|c s IH]; intros [st pc] out d' Hd; [by simplify_eq/=; lia|].
  cbn [decode_block] in Hd. destruct (decode_value c) as [v|]; simpl in Hd; [|done].
  destruct (v <? 0); [apply IH in Hd; simpl in *; lia|].
  destruct st; simpl in Hd; [by apply IH in Hd; simpl in *; lia|..];
    destruct (decode_block s _) as [[o d1]|] eqn:E; simplify_eq/=; apply IH in E; simpl in *; lia.
Qed.

(** C23 Neither loop writes past its buffer when [N >= 4] (the callers use
    [BUFFERSIZE], 16777216): a block of at most [N] characters, met in any
    state the coder can be in, yields at most [2*N] code characters, the
    padding fits as well, and the decoder's [plainchar] ends below [N]. *)
Theorem buffers_suffice N s :
  4 ≤ N → zlen s ≤ N →
  (∀ e, 0 ≤ e_stepcount e < 18 →
     zlen (encode_block s e).1 ≤ 2 * N ∧ zlen (encode_blockend e) ≤ 2 * N) ∧
  (∀ d out d', decode_block s d = Some (out, d') → zlen out < N).
Proof.
  intros HN Hs. split.
  - intros e He. destruct (encode_block_size s e He) as [He' Hsz]. split.
    + unfold enc_potential in Hsz. repeat case_match; lia.
    + unfold encode_blockend, zlen. destruct (e_step e); simpl length; lia.
  - intros d out d' Hd. apply decode_block_size in Hd. unfold dec_potential in Hd.
    destruct (d_step d), (d_step d'); lia.
Qed.

(** A string with a line break in its code, in buffers of five and seven. *)
Definition sample : bytes := concat (replicate 20 (lit "anarchNet")) ++ [NUL; "255"%char].

Lemma decode_encode_witness :
  ∃ code, encode 5 sample = Some code ∧ decode 7 code = Some (Some sample).
Proof. apply (decode_encode 5 7 sample); lia. Defined.

Lemma buffers_suffice_witness :
  zlen (encode_block (lit "abcd") init_encodestate).1 ≤ 2 * 4 ∧
  ∀ out d', decode_block (lit "YWJj") init_decodestate = Some (out, d') → zlen out < 4.
Proof.
  split.
  - apply (proj1 (buffers_suffice 4 (lit "abcd") ltac:(lia) ltac:(done))). done.
  - apply (proj2 (buffers_suffice 4 (lit "YWJj") ltac:(lia) ltac:(done))).
Defined.
End Base64.
