(* ===== verification/LruCache.v ===== *)
(** * lru_cache.h: the LRU cache over a loading function

    [lru_cache_base] keeps a [boost::bimap] from keys to a list of values in
    recency order: the left view is a set of keys, the right view a list whose
    front is the least recently used record.  The model keeps that list of
    records; the left view is its keys.  The cached function [_fn] may throw
    and may change the state [St] of its owner; [drop] is what destroying an
    evicted value does to [St] (the values are [shared_ptr]s). *)

From S2P Require Import Prelude.
Local Open Scope prog_scope.

Module LruCache.
Section lru.
Context {K V : Type} `{EqDecision K}.

Record lru_cache := Lru {
  capacity : nat;
  container : list (K * V);
}.

Definition keys (l : list (K * V)) : list K := l.*1.

(** [_container.left.find(k)] *)
Fixpoint find (k : K) (l : list (K * V)) : option V :=
  match l with
  | [] => None
  | (k', v) :: rest => if decide (k' = k) then Some v else find k rest
  end.

(** [right.relocate(right.end(), project_right(it))] *)
Definition relocate (k : K) (v : V) (l : list (K * V)) : list (K * V) :=
  filter (λ r, r.1 ≠ k) l ++ [(k, v)].

(** [_container.insert]: appended at the list tail; the set view refuses a
    key that is already there. *)
Definition container_insert (k : K) (v : V) (l : list (K * V)) : list (K * V) :=
  match find k l with Some _ => l | None => l ++ [(k, v)] end.

(** ** Lemmas on the container *)

Lemma find_None k l : find k l = None ↔ k ∉ keys l.
Proof.
  induction l as [|[k' v] l IH]; simpl; [split; intros; [apply not_elem_of_nil|done]|].
  rewrite not_elem_of_cons, <-IH. case_decide as Hd; [|intuition congruence].
  split; [done|]. by intros [? ?].
Qed.

Lemma find_Some k v l : find k l = Some v → (k, v) ∈ l.
Proof.
  induction l as [|[k' v'] l IH]; simpl; [done|].
  rewrite elem_of_cons. case_decide; intros; simplify_eq; auto.
Qed.

Lemma find_Some_key k v l : find k l = Some v → k ∈ keys l.
Proof. intros H%find_Some. unfold keys. apply list_elem_of_fmap. by exists (k, v). Qed.

Lemma keys_filter k l : keys (filter (λ r, r.1 ≠ k) l) = filter (.≠ k) (keys l).
Proof.
  induction l as [|[k' v] l IH]; [done|].
  rewrite filter_cons. simpl. rewrite filter_cons.
  repeat case_decide; simpl in *; congruence.
Qed.

Lemma filter_ne_id k (l : list K) : k ∉ l → filter (.≠ k) l = l.
Proof. intros Hk. apply filter_id. by intros x Hx ->. Qed.

Lemma filter_ne_length k (l : list K) :
  NoDup l → k ∈ l → length l = S (length (filter (.≠ k) l)).
Proof.
  induction 1 as [|x l Hx Hl IH]; intros Hk; [by apply elem_of_nil in Hk|].
  rewrite filter_cons. case_decide as Hd; simpl.
  - rewrite <-IH; [done|]. apply elem_of_cons in Hk as [->|]; done.
  - destruct (decide (x = k)) as [->|]; [|done]. by rewrite filter_ne_id.
Qed.

Lemma relocate_keys k v l : keys (relocate k v l) = filter (.≠ k) (keys l) ++ [k].
Proof. unfold relocate, keys. rewrite fmap_app. simpl. f_equal. apply keys_filter. Qed.

Lemma container_insert_keys k v l : k ∉ keys l → keys (container_insert k v l) = keys l ++ [k].
Proof.
  intros Hk. unfold container_insert. apply find_None in Hk as ->.
  unfold keys. by rewrite fmap_app.
Qed.

(** What the class comment promises: the cached keys are the last [n]
    distinct keys asked for, most recent first.  [recent] is computed from
    the history of calls alone. *)
Fixpoint distinct (l : list K) : list K :=
  match l with
  | [] => []
  | k :: l => k :: filter (.≠ k) (distinct l)
  end.

Definition recent (n : nat) (history : list K) : list K :=
  take n (distinct (reverse history)).

(** The calls of [ks], after [history], that find no record. *)
Fixpoint misses (n : nat) (history ks : list K) : nat :=
  match ks with
  | [] => 0
  | k :: ks =>
      (if decide (k ∈ recent n history) then 0 else 1) + misses n (history ++ [k]) ks
  end.

Lemma distinct_NoDup l : NoDup (distinct l).
Proof.
  induction l as [|k l IH]; simpl; [constructor|]. constructor.
  - by intros [? _]%list_elem_of_filter.
  - by apply NoDup_filter.
Qed.

Lemma take_filter_in k m (l : list K) :
  NoDup l → k ∈ take (S m) l → take m (filter (.≠ k) l) = filter (.≠ k) (take (S m) l).
Proof.
  intros Hl. revert m. induction Hl as [|x l Hx Hl IH]; intros m Hk; [by destruct m|].
  rewrite firstn_cons in *. rewrite !filter_cons. case_decide as Hd.
  - apply elem_of_cons in Hk as [->|Hk]; [done|].
    destruct m as [|m]; [by apply elem_of_nil in Hk|]. simpl. f_equal. by apply IH.
  - destruct (decide (x = k)) as [->|]; [|done].
    rewrite !filter_ne_id; [done| |done].
    intros Hin. apply Hx. apply elem_of_take in Hin as (i & Hi & _). by eapply list_elem_of_lookup_2.
Qed.

Lemma take_filter_notin k m (l : list K) :
  k ∉ take m l → take m (filter (.≠ k) l) = take m l.
Proof.
  revert m. induction l as [|x l IH]; intros [|m] Hk; try done.
  rewrite firstn_cons in *. apply not_elem_of_cons in Hk as [Hne Hk].
  rewrite filter_cons_True by done. simpl. f_equal. by apply IH.
Qed.

Lemma recent_snoc n history k :
  recent (S n) (history ++ [k]) = k :: take n (filter (.≠ k) (distinct (reverse history))).
Proof. unfold recent. by rewrite reverse_snoc. Qed.
End lru.

Arguments lru_cache : clear implicits.

Section operations.
Context {K V St : Type} `{EqDecision K}.
Context (_fn : K → M St V) (drop : V → St → St).

(** [insert]: purge the front record when the container is full, then add
    the new one. *)
Definition insert (k : K) (v : V) : M (lru_cache K V * St) () := λ '(c, s),
  if decide (length (container c) = capacity c) then
    match container c with
    | [] => (Undef, (c, s))           (* erase(begin()) of an empty list *)
    | (_, old) :: rest =>
        (Ret tt, (Lru (capacity c) (container_insert k v rest), drop old s))
    end
  else (Ret tt, (Lru (capacity c) (container_insert k v (container c)), s)).

(** [operator()] *)
Definition call (k : K) : M (lru_cache K V * St) V := λ '(c, s),
  match find k (container c) with
  | None =>
      (let! v := zoom snd (λ s '(c, _), (c, s)) (_fn k) in
       insert k v ;;; ret v)%prog (c, s)
  | Some v => (Ret v, (Lru (capacity c) (relocate k v (container c)), s))
  end.

(** [get_keys]: from the most recently used to the least. *)
Definition get_keys (c : lru_cache K V) : list K := reverse (keys (container c)).

(** A run of calls, stopping at the first that does not return. *)
Fixpoint calls (ks : list K) : M (lru_cache K V * St) (list V) :=
  match ks with
  | [] => ret []
  | k :: ks => let! v := call k in let! vs := calls ks in ret (v :: vs)
  end.

(** ** Invariant *)

Definition wf (c : lru_cache K V) : Prop :=
  0 < capacity c ∧ length (container c) ≤ capacity c ∧ NoDup (keys (container c)).


Lemma insert_spec k v c s o c' s' :
  wf c → k ∉ keys (container c) → insert k v (c, s) = (o, (c', s')) →
  o = Ret tt ∧ capacity c' = capacity c ∧
  keys (container c') =
    (if decide (length (container c) = capacity c)
     then tail (keys (container c)) else keys (container c)) ++ [k] ∧
  (∀ r, r ∈ container c' → r ∈ container c ∨ r = (k, v)).
Proof.
  intros (Hpos & Hlen & Hnd) Hk Hi. destruct c as [n l]. simpl in *. case_decide as Hfull.
  - destruct l as [|[k0 v0] l]; simpl in *; [lia|]. simplify_eq/=.
    apply not_elem_of_cons in Hk as [_ Hk].
    split_and!; [done|done|by apply container_insert_keys|].
    unfold container_insert. apply find_None in Hk as ->.
    intros r [?|?%list_elem_of_singleton]%elem_of_app; auto using list_elem_of_further.
  - simplify_eq/=. split_and!; [done|done|by apply container_insert_keys|].
    unfold container_insert. apply find_None in Hk as ->.
    intros r [?|?%list_elem_of_singleton]%elem_of_app; auto using list_elem_of_further.
Qed.

Lemma relocate_spec k v c :
  wf c → find k (container c) = Some v →
  wf (Lru (capacity c) (relocate k v (container c))).
Proof.
  intros (Hpos & Hlen & Hnd) Hf. split_and!; simpl; [done| |].
  - rewrite <-(length_fmap fst). fold (keys (relocate k v (container c))).
    rewrite relocate_keys, length_app. simpl.
    rewrite <-(length_fmap fst) in Hlen. fold (keys (container c)) in Hlen.
    rewrite (filter_ne_length k (keys (container c))) in Hlen;
      [lia|done|by eapply find_Some_key].
  - rewrite relocate_keys. apply NoDup_snoc; [by apply NoDup_filter|].
    by intros [? _]%list_elem_of_filter.
Qed.

Lemma call_hit k v c s :
  find k (container c) = Some v →
  call k (c, s) = (Ret v, (Lru (capacity c) (relocate k v (container c)), s)).
Proof. simpl. by intros ->. Qed.

Lemma call_miss k v c s s' :
  find k (container c) = None → _fn k s = (Ret v, s') →
  call k (c, s) = (let '(o, st) := insert k v (c, s') in
                   match o with Ret _ => (Ret v, st) | Throw e => (Throw e, st)
                              | Undef => (Undef, st) end).
Proof.
  intros Hf Hfn. unfold call. rewrite Hf. unfold bind, zoom. cbn [snd]. rewrite Hfn.
  by destruct (insert k v (c, s')) as [[] ?].
Qed.

(** A loader that throws, or is undefined, leaves the records alone. *)
Lemma call_miss_fail k c s o s' :
  find k (container c) = None → _fn k s = (o, s') → (∀ v, o ≠ Ret v) →
  call k (c, s) = (o, (c, s')).
Proof.
  intros Hf Hfn Ho. simpl. rewrite Hf. unfold bind, zoom. simpl. rewrite Hfn.
  destruct o; [by destruct (Ho a)|done..].
Qed.

Lemma insert_wf k v c s :
  wf c → find k (container c) = None →
  ∃ c' s', insert k v (c, s) = (Ret tt, (c', s')) ∧ wf c' ∧ capacity c' = capacity c.
Proof.
  intros Hwf Hk%find_None. destruct (insert k v (c, s)) as [o [c' s']] eqn:Hi.
  destruct (insert_spec _ _ _ _ _ _ _ Hwf Hk Hi) as (-> & Hcap & Hkeys & _).
  exists c', s'. split_and!; [done| |done].
  destruct Hwf as (Hpos & Hlen & Hnd). unfold wf.
  rewrite Hcap, <-(length_fmap fst). fold (keys (container c')).
  rewrite Hkeys, length_app. unfold keys in *. simpl. case_decide.
  - destruct (container c) as [|r l]; simpl in *; [lia|].
    apply not_elem_of_cons in Hk as [_ Hk]. apply NoDup_cons in Hnd as [_ Hnd].
    rewrite length_fmap. split_and!; [lia|lia|by apply NoDup_snoc].
  - rewrite length_fmap. split_and!; [lia|lia|by apply NoDup_snoc].
Qed.

(** One call in a well-formed cache: it stays well formed, the capacity is
    fixed, and it has undefined behaviour only where the loader has. *)
Theorem call_invariant k c s o c' s' :
  wf c → call k (c, s) = (o, (c', s')) →
  wf c' ∧ capacity c' = capacity c ∧
  (o = Undef → find k (container c) = None ∧ (_fn k s).1 = Undef).
Proof.
  intros Hwf Hc. destruct (find k (container c)) as [v|] eqn:Hf.
  { rewrite (call_hit _ _ _ _ Hf) in Hc. simplify_eq.
    split_and!; [by apply relocate_spec|done|done]. }
  destruct (_fn k s) as [[v|e|] s1] eqn:Hfn;
    [|rewrite (call_miss_fail k c s (Throw e) s1) in Hc by done; by simplify_eq
     |rewrite (call_miss_fail k c s Undef s1) in Hc by done; by simplify_eq].
  rewrite (call_miss _ _ _ _ _ Hf Hfn) in Hc.
  destruct (insert_wf k v c s1 Hwf Hf) as (c1 & s2 & Hi & Hwf1 & Hcap).
  rewrite Hi in Hc. by simplify_eq.
Qed.

(** A record at the back of the list is found and stays there. *)
Lemma back_found k v (l : list (K * V)) : k ∉ keys l → find k (l ++ [(k, v)]) = Some v.
Proof.
  induction l as [|[k' v'] l IH]; simpl; [by rewrite decide_True|].
  intros [Hne Hk]%not_elem_of_cons. rewrite decide_False by done. by apply IH.
Qed.

Lemma back_relocated k v (l : list (K * V)) : k ∉ keys l → relocate k v (l ++ [(k, v)]) = l ++ [(k, v)].
Proof.
  intros Hk. unfold relocate. rewrite filter_app, filter_cons_False by naive_solver.
  rewrite filter_nil, app_nil_r. f_equal. apply filter_id. intros [k' v'] Hin Hd. simpl in Hd. subst k'.
  apply Hk. unfold keys. apply list_elem_of_fmap. by exists (k, v').
Qed.

(** A key just asked for is answered from its record, which is already the
    most recent one. *)
Lemma call_again k v c s c' s' s2 :
  wf c → call k (c, s) = (Ret v, (c', s')) → call k (c', s2) = (Ret v, (c', s2)).
Proof.
  intros Hwf Hc.
  assert (∃ n l, c' = Lru n (l ++ [(k, v)]) ∧ k ∉ keys l) as (n & l & -> & Hk).
  { destruct (find k (container c)) as [v0|] eqn:Hf.
    - rewrite (call_hit _ _ _ _ Hf) in Hc. simplify_eq. eexists _, _. split; [reflexivity|].
      rewrite keys_filter. by intros [? _]%list_elem_of_filter.
    - pose proof Hf as Hk%find_None. destruct (_fn k s) as [[v0|e|] s1] eqn:Hfn.
      2-3: rewrite (call_miss_fail k c s _ _ Hf Hfn) in Hc by done; by simplify_eq.
      rewrite (call_miss _ _ _ _ _ Hf Hfn) in Hc. unfold insert in Hc.
      assert (Hins : ∀ l, k ∉ keys l → container_insert k v0 l = l ++ [(k, v0)]).
      { intros l Hl. unfold container_insert. by apply find_None in Hl as ->. }
      destruct (decide (length (container c) = capacity c)).
      + destruct (container c) as [|[k0 old] rest]; [by simplify_eq|].
        simpl in Hk. apply not_elem_of_cons in Hk as [_ Hk]. rewrite Hins in Hc by done.
        simplify_eq. eauto.
      + rewrite Hins in Hc by done. simplify_eq. eauto. }
  rewrite (call_hit k v) by by apply back_found. simpl. by rewrite back_relocated.
Qed.

(** ** Against the specification *)

(** After the calls of [history] the cache holds the recent keys, each with
    the value of the loaded function [f]. *)
Definition tracks (f : K → V) (history : list K) (c : lru_cache K V) : Prop :=
  wf c ∧ get_keys c = recent (capacity c) history ∧
  ∀ k v, (k, v) ∈ container c → v = f k.

Lemma get_keys_elem k c : k ∈ get_keys c ↔ k ∈ keys (container c).
Proof. apply elem_of_reverse. Qed.

Lemma recent_hit n (history : list K) k :
  0 < n → k ∈ recent n history →
  recent n (history ++ [k]) = k :: filter (.≠ k) (recent n history).
Proof.
  intros Hn Hk. destruct n as [|n]; [lia|]. rewrite recent_snoc. f_equal.
  apply take_filter_in; [apply distinct_NoDup|done].
Qed.

Lemma recent_miss n (history : list K) k :
  0 < n → k ∉ recent n history →
  recent n (history ++ [k]) =
    k :: (if decide (length (recent n history) = n)
          then take (n - 1) (recent n history) else recent n history).
Proof.
  intros Hn Hk. destruct n as [|n]; [lia|]. rewrite recent_snoc. f_equal.
  unfold recent in *. set (d := distinct (reverse history)) in *.
  rewrite length_take. case_decide as Hd.
  - rewrite take_take. replace (S n - 1) with n by lia. rewrite Nat.min_l by lia.
    apply take_filter_notin. intros Hin. apply Hk.
    apply elem_of_take in Hin as (i & Hi & Hlt). apply elem_of_take. exists i. split; [done|lia].
  - rewrite (take_ge d) in * by lia. rewrite filter_ne_id by done. by rewrite take_ge by lia.
Qed.

Lemma call_tracks f history c s k s1 :
  tracks f history c → _fn k s = (Ret (f k), s1) →
  ∃ c' s2, call k (c, s) = (Ret (f k), (c', s2)) ∧
    tracks f (history ++ [k]) c' ∧ capacity c' = capacity c ∧
    if decide (k ∈ recent (capacity c) history) then s2 = s
    else s2 = s1 ∨ ∃ old, s2 = drop old s1.
Proof.
  intros (Hwf & Hrec & Hval) Hfn. pose proof Hwf as (Hpos & _).
  destruct (find k (container c)) as [v|] eqn:Hf.
  - assert (Hin : k ∈ recent (capacity c) history)
      by (rewrite <-Hrec; by apply get_keys_elem, (find_Some_key _ v)).
    assert (v = f k) as -> by (by apply Hval, find_Some).
    eexists _, s. rewrite (call_hit _ _ _ _ Hf). split_and!; [done| |done|by rewrite decide_True].
    split_and!; [by apply relocate_spec| |].
    + unfold get_keys. cbn [container capacity]. rewrite relocate_keys, reverse_snoc.
      rewrite recent_hit, <-Hrec by done. unfold get_keys. by rewrite filter_reverse.
    + cbn [container]. unfold relocate. intros k' v' [[_ ?]%list_elem_of_filter|He]%elem_of_app;
        [by apply Hval|]. apply list_elem_of_singleton in He. by simplify_eq.
  - pose proof Hf as Hk%find_None.
    assert (Hin : k ∉ recent (capacity c) history) by (by rewrite <-Hrec, get_keys_elem).
    rewrite (call_miss _ _ _ _ _ Hf Hfn).
    destruct (insert_wf k (f k) c s1 Hwf Hf) as (c' & s2 & Hi & Hwf' & Hcap). rewrite Hi.
    destruct (insert_spec _ _ _ _ _ _ _ Hwf Hk Hi) as (_ & _ & Hkeys & Hsub).
    exists c', s2. split_and!; [done| |done|].
    + split_and!; [done| |].
      * rewrite Hcap, recent_miss, <-Hrec by done. unfold get_keys.
        rewrite Hkeys, reverse_snoc, length_reverse. f_equal. unfold keys.
        rewrite length_fmap. case_decide; [|done].
        destruct (container c) as [|r l]; simpl in *; [lia|].
        rewrite reverse_cons, take_app_le by (rewrite length_reverse, length_fmap; lia).
        by rewrite take_ge by (rewrite length_reverse, length_fmap; lia).
      * intros k' v' [?|?]%Hsub; [by apply Hval|by simplify_eq].
    + rewrite decide_False by done. unfold insert in Hi. case_decide.
      * destruct (container c) as [|[k0 old] l]; simplify_eq; eauto.
      * simplify_eq. eauto.
Qed.

(** A loader that throws propagates and is not cached: the next call for
    the key runs it again. *)
Theorem call_throws k c s e s' :
  find k (container c) = None → _fn k s = (Throw e, s') → call k (c, s) = (Throw e, (c, s')).
Proof. intros. by apply call_miss_fail. Qed.
End operations.

(** ** A counted loader

    With a loader that computes [f] and counts its evaluations, as in the
    unit test of src/src/tests/modules/test_modules.cc. *)
Section counted.
Context {K V : Type} `{EqDecision K} (f : K → V).

Definition counted (k : K) : M nat V := λ n, (Ret (f k), S n).
Definition keep (_ : V) (n : nat) : nat := n.

Lemma calls_tracks ks history c n :
  tracks f history c →
  ∃ c', calls counted keep ks (c, n) =
          (Ret (map f ks), (c', n + misses (capacity c) history ks)) ∧
        tracks f (history ++ ks) c' ∧ capacity c' = capacity c.
Proof.
  revert history c n. induction ks as [|k ks IH]; intros history c n Ht; simpl.
  - exists c. rewrite app_nil_r, Nat.add_0_r. done.
  - destruct (call_tracks counted keep f history c n k (S n) Ht eq_refl)
      as (c1 & n1 & Hc & Ht1 & Hcap & Hn1).
    destruct (IH (history ++ [k]) c1 n1 Ht1) as (c2 & Hcs & Ht2 & Hcap2).
    exists c2. rewrite <-app_assoc in Ht2. rewrite Hcap2, Hcap. split_and!; [|done|done].
    rewrite (bind_run _ _ _ _ _ Hc), (bind_run _ _ _ _ _ Hcs). unfold ret.
    rewrite Hcap. do 2 f_equal. destruct (decide (k ∈ recent (capacity c) history));
      [subst; lia|]. destruct Hn1 as [->|[old ->]]; unfold keep; lia.
Qed.

(** C20 From an empty cache of capacity [n > 0], any sequence of calls returns
    what the function itself returns, leaves cached exactly the [n] most
    recently used keys in recency order, and evaluates the function once
    per call whose key was not among them. *)
Theorem lru_refines n ks :
  0 < n →
  ∃ c, calls counted keep ks (Lru n [], 0) = (Ret (map f ks), (c, misses n [] ks)) ∧
       get_keys c = recent n ks ∧ wf c ∧ capacity c = n.
Proof.
  intros Hn.
  destruct (calls_tracks ks [] (Lru n []) 0) as (c & Hc & (Hwf & Hk & _) & Hcap).
  { split_and!; [|by destruct n|by intros ?? ?%elem_of_nil].
    split_and!; simpl; [done|lia|constructor]. }
  exists c. simpl in *. by rewrite Hc, Hk, Hcap.
Qed.
End counted.

(** The scenario of the unit test: capacity 5, and the evaluation counts and
    the final keys it asserts. *)
Example test_scenario :
  misses 5 [] [1;2;3;4;5;6;2;1;4;7;5] = 9 ∧
  recent 5 [1;2;3;4;5;6;2;1;4;7;5] = [5;7;4;1;2].
Proof. split; reflexivity. Qed.

Lemma lru_refines_witness :
  ∃ c, calls (counted (λ k : nat, k * k)) keep [1;2;1;3;2] (Lru 2 [], 0) =
         (Ret [1;4;1;9;4], (c, 4)) ∧ get_keys c = [2;3] ∧ wf c ∧ capacity c = 2.
Proof.
  change 4 with (misses 2 [] [1;2;1;3;2]) at 2. change [2;3] with (recent 2 [1;2;1;3;2]).
  exact (lru_refines (λ k : nat, k * k) 2 [1;2;1;3;2] (Nat.lt_0_succ 1)).
Defined.

Lemma call_throws_witness :
  call (λ (k : nat) n, (Throw file_not_found : outcome nat, S n)) keep 7 (Lru 2 [(1, 1)], 0) =
    (Throw file_not_found, (Lru 2 [(1, 1)], 1)).
Proof. apply (call_throws _ _ 7 (Lru 2 [(1, 1)])); reflexivity. Defined.
End LruCache.
