(* ===== verification/FileSystem.v ===== *)
(** * The file system the storage modules run on

    boost::filesystem, [std::ifstream]/[std::ofstream] and the operating system
    are not part of the repository: they are the class [FileSystem], a
    parameter of every definition that touches files, and [FsLaws] states the
    documented behaviour the modules rely on.  The laws speak of absolute paths
    without empty, [.] or [..] components, given by their component lists, of
    directories reached without crossing a symbolic link, and of a run without
    I/O faults.  [MemFs], an in-memory file system, is the instance that shows
    the laws can hold and that the witnesses compute with. *)

From S2P Require Import Prelude.
Local Open Scope prog_scope.

(** What [lstat] can find at a path. *)
Inductive node :=
  | NFile (contents : bytes)
  | NDir
  | NLink (target : bytes).

#[export] Instance node_eq_dec : EqDecision node.
Proof. solve_decision. Defined.

(** The operations the sources call. *)
Class FileSystem := {
  fs : Type;
  (** what is at a path, links not followed *)
  node_at : fs → bytes → option node;
  (** fs::exists, fs::is_directory *)
  fs_exists : bytes → fs → bool;
  fs_is_directory : bytes → fs → bool;
  (** fs::create_directory, fs::create_directories: true when created *)
  fs_create_directory : bytes → M fs bool;
  fs_create_directories : bytes → M fs bool;
  (** fs::create_symlink(to, new_symlink) *)
  fs_create_symlink : bytes → bytes → M fs ();
  (** fs::remove: true when something was removed; fs::remove_all: how many *)
  fs_remove : bytes → M fs bool;
  fs_remove_all : bytes → M fs Z;
  (** the entries a fs::directory_iterator visits, in its order *)
  fs_directory : bytes → M fs (list bytes);
  (** fs::file_size *)
  fs_file_size : bytes → M fs Z;
  (** ofstream f(p), truncating; [None] when [!f.good()] *)
  ofs_open : bytes → fs → option fs;
  (** f << data; f.write(data) on the open stream of [p] *)
  ofs_write : bytes → bytes → fs → fs;
  (** ifstream f(p): what it can read; [None] when [!f.good()] *)
  ifs_open : bytes → fs → option bytes;
  (** path::remove_filename, path::filename *)
  remove_filename : bytes → bytes;
  filename : bytes → bytes;
}.

(** ** Paths *)

Definition good_comp (c : bytes) : Prop :=
  c ≠ [] ∧ (SLASH ∉ c) ∧ c ≠ lit "." ∧ c ≠ lit "..".
#[export] Instance good_comp_dec c : Decision (good_comp c).
Proof. apply _. Defined.

(** The absolute path with components [cs]. *)
Definition path_of (cs : list bytes) : bytes := concat (map (cons SLASH) cs).

Definition good (cs : list bytes) : Prop := cs ≠ [] ∧ Forall good_comp cs.
#[export] Instance good_dec cs : Decision (good cs).
Proof. apply _. Defined.

(** ** Documented behaviour *)

Class FsLaws `{FileSystem} := {
  exists_none σ p : good p → node_at σ (path_of p) = None → fs_exists (path_of p) σ = false;
  exists_node σ p n : good p → node_at σ (path_of p) = Some n → (∀ t, n ≠ NLink t) →
    fs_exists (path_of p) σ = true;
  exists_link σ p t c : good p → good t → node_at σ (path_of p) = Some (NLink (path_of t)) →
    node_at σ (path_of t) = Some (NFile c) → fs_exists (path_of p) σ = true;
  is_directory_dir σ p : good p → node_at σ (path_of p) = Some NDir →
    fs_is_directory (path_of p) σ = true;
  is_directory_none σ p : good p → node_at σ (path_of p) = None →
    fs_is_directory (path_of p) σ = false;
  create_directories_ok σ p : good p →
    (∀ q, good q → (q `prefix_of` p) → node_at σ (path_of q) = None ∨ node_at σ (path_of q) = Some NDir) →
    ∃ σ', fs_create_directories (path_of p) σ =
            (Ret (bool_decide (node_at σ (path_of p) = None)), σ') ∧
      ∀ q, good q → node_at σ' (path_of q) =
        if decide (q `prefix_of` p) then Some NDir else node_at σ (path_of q);
  create_directory_ok σ d n : good (d ++ [n]) → node_at σ (path_of d) = Some NDir →
    node_at σ (path_of (d ++ [n])) = None →
    ∃ σ', fs_create_directory (path_of (d ++ [n])) σ = (Ret true, σ') ∧
      ∀ q, good q → node_at σ' (path_of q) =
        if decide (q = d ++ [n]) then Some NDir else node_at σ (path_of q);
  open_ok σ d n : good (d ++ [n]) → node_at σ (path_of d) = Some NDir →
    (∀ m, node_at σ (path_of (d ++ [n])) = Some m → ∃ c, m = NFile c) →
    ∃ σ', ofs_open (path_of (d ++ [n])) σ = Some σ' ∧
      ∀ q, good q → node_at σ' (path_of q) =
        if decide (q = d ++ [n]) then Some (NFile []) else node_at σ (path_of q);
  write_ok σ p c data : good p → node_at σ (path_of p) = Some (NFile c) →
    ∀ q, good q → node_at (ofs_write (path_of p) data σ) (path_of q) =
      if decide (q = p) then Some (NFile (c ++ data)) else node_at σ (path_of q);
  symlink_ok σ d n t : good (d ++ [n]) → node_at σ (path_of d) = Some NDir →
    node_at σ (path_of (d ++ [n])) = None →
    ∃ σ', fs_create_symlink t (path_of (d ++ [n])) σ = (Ret tt, σ') ∧
      ∀ q, good q → node_at σ' (path_of q) =
        if decide (q = d ++ [n]) then Some (NLink t) else node_at σ (path_of q);
  remove_none σ p : good p → node_at σ (path_of p) = None →
    fs_remove (path_of p) σ = (Ret false, σ);
  remove_leaf σ p n : good p → node_at σ (path_of p) = Some n → n ≠ NDir →
    ∃ σ', fs_remove (path_of p) σ = (Ret true, σ') ∧
      ∀ q, good q → node_at σ' (path_of q) = if decide (q = p) then None else node_at σ (path_of q);
  remove_all_none σ p : good p → node_at σ (path_of p) = None →
    fs_remove_all (path_of p) σ = (Ret 0%Z, σ);
  remove_all_some σ p n : good p → node_at σ (path_of p) = Some n →
    ∃ k σ', fs_remove_all (path_of p) σ = (Ret k, σ') ∧ k ≠ 0%Z ∧
      ∀ q, good q → node_at σ' (path_of q) =
        if decide (p `prefix_of` q) then None else node_at σ (path_of q);
  directory_none σ p : good p → node_at σ (path_of p) = None →
    fs_directory (path_of p) σ = (Throw filesystem_error, σ);
  directory_dir σ p : good p → node_at σ (path_of p) = Some NDir →
    ∃ l, fs_directory (path_of p) σ = (Ret l, σ) ∧
      ∀ e, e ∈ l ↔ ∃ n, good_comp n ∧ e = path_of (p ++ [n]) ∧ is_Some (node_at σ e);
  ifs_open_none σ p : good p → node_at σ (path_of p) = None → ifs_open (path_of p) σ = None;
  ifs_open_file σ p c : good p → node_at σ (path_of p) = Some (NFile c) →
    ifs_open (path_of p) σ = Some c;
  ifs_open_link σ p t c : good p → good t → node_at σ (path_of p) = Some (NLink (path_of t)) →
    node_at σ (path_of t) = Some (NFile c) → ifs_open (path_of p) σ = Some c;
  file_size_file σ p c : good p → node_at σ (path_of p) = Some (NFile c) →
    fs_file_size (path_of p) σ = (Ret (zlen c), σ);
  file_size_link σ p t c : good p → good t → node_at σ (path_of p) = Some (NLink (path_of t)) →
    node_at σ (path_of t) = Some (NFile c) → fs_file_size (path_of p) σ = (Ret (zlen c), σ);
  remove_filename_ok d n : good (d ++ [n]) → d ≠ [] → remove_filename (path_of (d ++ [n])) = path_of d;
  filename_ok d n : good (d ++ [n]) → filename (path_of (d ++ [n])) = n;
}.

(** ** Lemmas on paths *)

Lemma path_of_app a b : path_of (a ++ b) = path_of a ++ path_of b.
Proof. unfold path_of. by rewrite map_app, concat_app. Qed.

Lemma path_of_snoc d n : path_of (d ++ [n]) = path_of d ++ SLASH :: n.
Proof. rewrite path_of_app. unfold path_of at 2. simpl. by rewrite app_nil_r. Qed.

Lemma good_app_l d e : good (d ++ e) → d ≠ [] → good d.
Proof. intros [_ [Hd _]%Forall_app] Hne. by split. Qed.

Lemma good_snoc d n : good d → good_comp n → good (d ++ [n]).
Proof.
  intros [Hne Hd] Hn. split; [by destruct d|]. apply Forall_app. split; [done|by apply Forall_singleton].
Qed.

Lemma good_comp_snoc d n : good (d ++ [n]) → good_comp n.
Proof. intros [_ [_ Hn]%Forall_app]. by inversion_clear Hn. Qed.

(** ** The in-memory file system

    A map from component lists to nodes; the root is a directory.  Paths are
    parsed by splitting at slashes, dropping empty components and resolving [.]
    and [..]. *)
Module MemFs.

Fixpoint split_slash (cur : bytes) (p : bytes) : list bytes :=
  match p with
  | [] => match cur with [] => [] | _ => [rev cur] end
  | c :: p => if decide (c = SLASH)
              then match cur with [] => split_slash [] p | _ => rev cur :: split_slash [] p end
              else split_slash (c :: cur) p
  end.

(** [.] stays, [..] goes up *)
Fixpoint normalise (up : list bytes) (cs : list bytes) : list bytes :=
  match cs with
  | [] => rev up
  | c :: cs => if decide (c = lit ".") then normalise up cs
               else if decide (c = lit "..") then normalise (tail up) cs
               else normalise (c :: up) cs
  end.

Definition parse (p : bytes) : list bytes := normalise [] (split_slash [] p).

Record state := State { tree : gmap (list bytes) node }.

Definition at_comps (σ : state) (cs : list bytes) : option node :=
  match cs with [] => Some NDir | _ => tree σ !! cs end.

Definition lnode (σ : state) (p : bytes) : option node := at_comps σ (parse p).

(** one link is followed: a link to a link is not resolved further *)
Definition follow (σ : state) (p : bytes) : option node :=
  match lnode σ p with Some (NLink t) => lnode σ t | n => n end.

Definition parent (cs : list bytes) : list bytes := take (length cs - 1) cs.

Definition set_node (cs : list bytes) (n : node) (σ : state) : state :=
  State (<[cs := n]> (tree σ)).

Fixpoint prefixes (cs : list bytes) : list (list bytes) :=
  match cs with [] => [] | c :: cs => [c] :: map (cons c) (prefixes cs) end.

Definition dir_or_none (o : option node) : bool :=
  match o with None | Some NDir => true | _ => false end.

Definition mkdirs (cs : list bytes) (σ : state) : state :=
  State (foldr (λ q t, <[q := NDir]> t) (tree σ) (prefixes cs)).

Definition create_directories (p : bytes) : M state bool := λ σ,
  let cs := parse p in
  if forallb (λ q, dir_or_none (at_comps σ q)) (prefixes cs)
  then (Ret (bool_decide (at_comps σ cs = None)), mkdirs cs σ)
  else (Throw filesystem_error, σ).

Definition create_directory (p : bytes) : M state bool := λ σ,
  let cs := parse p in
  match at_comps σ cs with
  | None => match at_comps σ (parent cs) with
            | Some NDir => (Ret true, set_node cs NDir σ)
            | _ => (Throw filesystem_error, σ)
            end
  | Some NDir => (Ret false, σ)
  | Some _ => (Throw filesystem_error, σ)
  end.

Definition create_symlink (t p : bytes) : M state () := λ σ,
  let cs := parse p in
  match at_comps σ cs, at_comps σ (parent cs) with
  | None, Some NDir => (Ret tt, set_node cs (NLink t) σ)
  | _, _ => (Throw filesystem_error, σ)
  end.

Definition children (cs : list bytes) (σ : state) : list (list bytes) :=
  filter (λ q, parent q = cs ∧ good q) (map_to_list (tree σ)).*1.

Definition remove (p : bytes) : M state bool := λ σ,
  let cs := parse p in
  match at_comps σ cs with
  | None => (Ret false, σ)
  | Some NDir => match children cs σ with
                 | [] => (Ret true, State (delete cs (tree σ)))
                 | _ => (Throw filesystem_error, σ)
                 end
  | Some _ => (Ret true, State (delete cs (tree σ)))
  end.

Definition remove_all (p : bytes) : M state Z := λ σ,
  let cs := parse p in
  match at_comps σ cs with
  | None => (Ret 0%Z, σ)
  | Some _ =>
      let below := filter (λ r : list bytes * node, cs `prefix_of` r.1) (tree σ) in
      (Ret (1 + Z.of_nat (size below - 1))%Z, State (tree σ ∖ below))
  end.

Definition directory (p : bytes) : M state (list bytes) := λ σ,
  let cs := parse p in
  match at_comps σ cs with
  | Some NDir => (Ret (map path_of (children cs σ)), σ)
  | _ => (Throw filesystem_error, σ)
  end.

Definition file_size (p : bytes) : M state Z := λ σ,
  match follow σ p with
  | Some (NFile c) => (Ret (zlen c), σ)
  | _ => (Throw filesystem_error, σ)
  end.

Definition open_out (p : bytes) (σ : state) : option state :=
  let cs := parse p in
  match at_comps σ cs, at_comps σ (parent cs) with
  | (None | Some (NFile _)), Some NDir => Some (set_node cs (NFile []) σ)
  | _, _ => None
  end.

Definition write (p data : bytes) (σ : state) : state :=
  let cs := parse p in
  match at_comps σ cs with
  | Some (NFile c) => set_node cs (NFile (c ++ data)) σ
  | _ => σ
  end.

Definition open_in (p : bytes) (σ : state) : option bytes :=
  match follow σ p with Some (NFile c) => Some c | _ => None end.

#[export] Instance mem_fs : FileSystem := {|
  fs := state;
  node_at := lnode;
  fs_exists p σ := bool_decide (is_Some (follow σ p));
  fs_is_directory p σ := bool_decide (follow σ p = Some NDir);
  fs_create_directory := create_directory;
  fs_create_directories := create_directories;
  fs_create_symlink := create_symlink;
  fs_remove := remove;
  fs_remove_all := remove_all;
  fs_directory := directory;
  fs_file_size := file_size;
  ofs_open := open_out;
  ofs_write := write;
  ifs_open := open_in;
  remove_filename p := path_of (parent (parse p));
  filename p := default [] (last (parse p));
|}.

(** The empty file system. *)
Definition empty : state := State ∅.

(** ** The laws hold *)

Lemma split_slash_comp c cur rest :
  SLASH ∉ c → split_slash cur (c ++ rest) = split_slash (rev c ++ cur) rest.
Proof.
  revert cur. induction c as [|a c IH]; intros cur Hc; [done|].
  apply not_elem_of_cons in Hc as [Ha Hc]. simpl.
  rewrite decide_False by congruence. rewrite IH by done. by rewrite <-app_assoc.
Qed.

Lemma split_slash_path cs cur :
  Forall good_comp cs →
  split_slash cur (path_of cs) = match cur with [] => cs | _ => rev cur :: cs end.
Proof.
  intros Hcs. revert cur. induction Hcs as [|c cs (Hne & Hsl & _) _ IH]; intros cur.
  { by destruct cur. }
  assert (Hrec : split_slash [] (c ++ path_of cs) = c :: cs).
  { rewrite split_slash_comp by done. rewrite app_nil_r, IH.
    destruct (rev c) eqn:E.
    - apply (f_equal (@rev _)) in E. by rewrite rev_involutive in E.
    - by rewrite <-E, rev_involutive. }
  change (path_of (c :: cs)) with (SLASH :: c ++ path_of cs).
  cbn [split_slash]. rewrite decide_True by done. rewrite Hrec. by destruct cur.
Qed.

Lemma normalise_good up cs : Forall good_comp cs → normalise up cs = rev up ++ cs.
Proof.
  intros Hcs. revert up. induction Hcs as [|c cs (_ & _ & H1 & H2) _ IH]; intros up; simpl.
  { by rewrite app_nil_r. }
  rewrite !decide_False by done. rewrite IH. simpl. by rewrite <-app_assoc.
Qed.

Lemma parse_path cs : Forall good_comp cs → parse (path_of cs) = cs.
Proof. intros Hcs. unfold parse. rewrite split_slash_path by done. by rewrite normalise_good. Qed.

Lemma parse_good p : good p → parse (path_of p) = p.
Proof. intros [_ ?]. by apply parse_path. Qed.

Lemma path_of_inj p q : good p → good q → path_of p = path_of q → p = q.
Proof. intros Hp Hq H. by rewrite <-(parse_good p), <-(parse_good q), H. Qed.

Lemma lnode_good σ p : good p → lnode σ (path_of p) = tree σ !! p.
Proof. intros Hp. unfold lnode. rewrite parse_good by done. by destruct p, Hp. Qed.

Lemma at_comps_good σ p : good p → at_comps σ p = tree σ !! p.
Proof. intros [? _]. by destruct p. Qed.

Lemma parent_snoc d n : parent (d ++ [n]) = d.
Proof. unfold parent. rewrite length_app. simpl. by rewrite Nat.add_sub, take_app_length. Qed.

Lemma elem_of_prefixes q cs : q ∈ prefixes cs ↔ q ≠ [] ∧ q `prefix_of` cs.
Proof.
  revert q. induction cs as [|c cs IH]; intros q; simpl.
  - rewrite elem_of_nil. split; [done|]. by intros [Hq ->%prefix_nil_inv].
  - rewrite elem_of_cons, list_elem_of_fmap. split.
    + intros [->|(q' & -> & [_ Hq]%IH)]; split; try done.
      * apply prefix_cons, prefix_nil.
      * by apply prefix_cons.
    + intros [Hq Hp]. destruct q as [|c' q]; [done|].
      pose proof (prefix_cons_inv_1 _ _ _ _ Hp) as ->. apply prefix_cons_inv_2 in Hp.
      destruct q as [|a q]; [by left|]. right. exists (a :: q). split; [done|]. by apply IH.
Qed.

Lemma mkdirs_lookup cs σ q :
  tree (mkdirs cs σ) !! q = if decide (q ∈ prefixes cs) then Some NDir else tree σ !! q.
Proof.
  unfold mkdirs. simpl. induction (prefixes cs) as [|p l IH]; cbn [foldr].
  - case_decide as Hd; [by apply elem_of_nil in Hd|done].
  - destruct (decide (p = q)) as [->|Hne].
    + rewrite lookup_insert_eq, decide_True; [done|]. set_solver.
    + rewrite lookup_insert_ne, IH by done. repeat case_decide; rewrite elem_of_cons in *; naive_solver.
Qed.

Lemma set_node_lookup p n σ q :
  tree (set_node p n σ) !! q = if decide (q = p) then Some n else tree σ !! q.
Proof.
  unfold set_node. simpl. case_decide as Hd.
  - subst. apply lookup_insert_eq.
  - by apply lookup_insert_ne.
Qed.

Lemma lnode_at σ d n o :
  good (d ++ [n]) → lnode σ (path_of d) = o → at_comps σ d = o.
Proof.
  intros [_ [Hd _]%Forall_app] <-. unfold lnode. by rewrite parse_path.
Qed.

Lemma follow_plain σ p n :
  good p → lnode σ (path_of p) = n → (∀ t, n ≠ Some (NLink t)) → follow σ (path_of p) = n.
Proof. intros Hp Hn Ht. unfold follow. rewrite Hn. by destruct n as [[| |t]|]; try destruct (Ht t). Qed.

Lemma follow_link σ p t c :
  lnode σ (path_of p) = Some (NLink (path_of t)) → lnode σ (path_of t) = Some (NFile c) →
  follow σ (path_of p) = Some (NFile c).
Proof. unfold follow. by intros -> ->. Qed.

Lemma mem_create_directories σ p :
  good p →
  (∀ q, good q → (q `prefix_of` p) → lnode σ (path_of q) = None ∨ lnode σ (path_of q) = Some NDir) →
  ∃ σ', create_directories (path_of p) σ = (Ret (bool_decide (lnode σ (path_of p) = None)), σ') ∧
    ∀ q, good q → lnode σ' (path_of q) =
      if decide (q `prefix_of` p) then Some NDir else lnode σ (path_of q).
Proof.
  intros Hp Hq. exists (mkdirs p σ). unfold create_directories. rewrite parse_good by done.
  assert (Hall : forallb (λ q, dir_or_none (at_comps σ q)) (prefixes p) = true).
  { apply forallb_forall. intros q [Hne Hpre]%list_elem_of_In%elem_of_prefixes.
    assert (good q) as Hgq by (destruct Hpre as [r ->]; by eapply good_app_l).
    specialize (Hq q Hgq Hpre). rewrite at_comps_good, <-lnode_good by done.
    by destruct Hq as [->| ->]. }
  rewrite Hall. split.
  - by rewrite at_comps_good, <-lnode_good by done.
  - intros q Hgq. rewrite !lnode_good by done. rewrite mkdirs_lookup.
    destruct Hgq as [Hne _]. repeat case_decide; rewrite elem_of_prefixes in *; tauto.
Qed.

Lemma mem_remove_all σ p n :
  good p → lnode σ (path_of p) = Some n →
  ∃ k σ', remove_all (path_of p) σ = (Ret k, σ') ∧ k ≠ 0%Z ∧
    ∀ q, good q → lnode σ' (path_of q) =
      if decide (p `prefix_of` q) then None else lnode σ (path_of q).
Proof.
  intros Hp Hn. unfold remove_all. rewrite parse_good, at_comps_good, <-lnode_good, Hn by done.
  eexists _, _. split; [done|]. split; [lia|].
  intros q Hq. rewrite !lnode_good by done. simpl. rewrite lookup_difference, map_lookup_filter.
  destruct (tree σ !! q) as [m|]; simpl; [|by case_decide].
  unfold guard. case_decide; by rewrite ?decide_True, ?decide_False by done.
Qed.

Lemma mem_directory σ p :
  good p → lnode σ (path_of p) = Some NDir →
  ∃ l, directory (path_of p) σ = (Ret l, σ) ∧
    ∀ e, e ∈ l ↔ ∃ n, good_comp n ∧ e = path_of (p ++ [n]) ∧ is_Some (lnode σ e).
Proof.
  intros Hp Hd. unfold directory. rewrite parse_good, at_comps_good, <-lnode_good, Hd by done.
  eexists. split; [done|]. intros e. rewrite list_elem_of_In, in_map_iff. split.
  - intros (q & <- & ((Hpar & Hq) & Hin)%list_elem_of_In%list_elem_of_filter).
    apply list_elem_of_fmap in Hin as ([q' m] & -> & Hm%elem_of_map_to_list). simpl in *.
    destruct (exists_last (proj1 Hq)) as (d & n & ->). rewrite parent_snoc in Hpar. subst d.
    exists n. split_and!; [by eapply good_comp_snoc|done|]. rewrite lnode_good by done. eauto.
  - intros (n & Hn & -> & [m Hm]). exists (p ++ [n]). split; [done|].
    assert (Hg : good (p ++ [n])) by by apply good_snoc.
    rewrite lnode_good in Hm by done.
    apply list_elem_of_In, list_elem_of_filter. split.
    + by rewrite parent_snoc.
    + apply list_elem_of_fmap. exists (p ++ [n], m). by rewrite elem_of_map_to_list.
Qed.

Ltac mem_new Hg :=
  rewrite !(parse_good _ Hg), !parent_snoc, !(at_comps_good _ _ Hg), <-!(lnode_good _ _ Hg).
Ltac mem_frame :=
  let q := fresh "q" in let Hq := fresh "Hq" in
  intros q Hq; rewrite !lnode_good, ?set_node_lookup by done; done.

#[export] Instance mem_fs_laws : FsLaws (H := mem_fs).
Proof.
  split; cbn [node_at fs_exists fs_is_directory fs_create_directory fs_create_directories fs_create_symlink fs_remove
    fs_remove_all fs_directory fs_file_size ofs_open ofs_write ifs_open remove_filename filename
    mem_fs fs].
  - intros σ p Hp Hn. by rewrite (follow_plain σ p None).
  - intros σ p n Hp Hn Ht. rewrite (follow_plain σ p (Some n)) by naive_solver.
    by apply bool_decide_eq_true.
  - intros σ p t c Hp _ Ht Hc. rewrite (follow_link σ p t c) by done. by apply bool_decide_eq_true.
  - intros σ p Hp Hn. rewrite (follow_plain σ p (Some NDir)) by done. by apply bool_decide_eq_true.
  - intros σ p Hp Hn. by rewrite (follow_plain σ p None).
  - apply mem_create_directories.
  - intros σ d n Hg Hd Hc. pose proof (lnode_at _ _ _ _ Hg Hd) as Hd'.
    unfold create_directory. mem_new Hg. rewrite Hd', Hc. eexists. split; [done|mem_frame].
  - intros σ d n Hg Hd Hc. pose proof (lnode_at _ _ _ _ Hg Hd) as Hd'.
    unfold open_out. mem_new Hg. rewrite Hd'. exists (set_node (d ++ [n]) (NFile []) σ). split; [|mem_frame].
    destruct (lnode σ (path_of (d ++ [n]))) as [m|]; [|done].
    by destruct (Hc m eq_refl) as [c ->].
  - intros σ p c data Hp Hc. unfold write.
    rewrite parse_good, at_comps_good, <-lnode_good, Hc by done. mem_frame.
  - intros σ d n t Hg Hd Hc. pose proof (lnode_at _ _ _ _ Hg Hd) as Hd'.
    unfold create_symlink. mem_new Hg. rewrite Hd', Hc. eexists. split; [done|mem_frame].
  - intros σ p Hp Hn. unfold remove. by rewrite parse_good, at_comps_good, <-lnode_good, Hn.
  - intros σ p n Hp Hn Hd. unfold remove. rewrite parse_good, at_comps_good, <-lnode_good, Hn by done.
    eexists. split; [by destruct n|]. intros q Hq. rewrite !lnode_good by done. simpl.
    case_decide; [subst; apply lookup_delete_eq|by apply lookup_delete_ne].
  - intros σ p Hp Hn. unfold remove_all. by rewrite parse_good, at_comps_good, <-lnode_good, Hn.
  - apply mem_remove_all.
  - intros σ p Hp Hn. unfold directory. by rewrite parse_good, at_comps_good, <-lnode_good, Hn.
  - apply mem_directory.
  - intros σ p Hp Hn. unfold open_in. by rewrite (follow_plain σ p None).
  - intros σ p c Hp Hn. unfold open_in. by rewrite (follow_plain σ p (Some (NFile c))).
  - intros σ p t c Hp _ Ht Hc. unfold open_in. by rewrite (follow_link σ p t c).
  - intros σ p c Hp Hn. unfold file_size. by rewrite (follow_plain σ p (Some (NFile c))).
  - intros σ p t c Hp _ Ht Hc. unfold file_size. by rewrite (follow_link σ p t c).
  - intros d n Hg _. by rewrite parse_good, parent_snoc.
  - intros d n Hg. by rewrite parse_good, last_snoc.
Qed.
End MemFs.
