(* ===== verification/KvStore.v ===== *)
(** * The key-value interface of the local storage plugins

    plugins/localstorage.h promises [kv_put], [kv_get] and [kv_remove];
    module_manager.h types their result ([KV_ResMap], [KV_ResPtr]).  [KvStore]
    is the interface, [KvLaws] the contract its clients (DBManager, the RPC
    handlers) are verified against: a store refines [KvSpec], a map from keys
    to the set of values put under them since the last removal. *)

From S2P Require Import Prelude Crypto.
Local Open Scope prog_scope.

(** [std::map<std::string,std::string>], and the shared pointer to it, null
    until a plugin sets it. *)
Abbreviation KV_ResMap := (gmap bytes bytes).
Abbreviation KV_ResPtr := (option (gmap bytes bytes)).

Class KvStore (S : Type) := {
  kv_put : bytes → bytes → M S bool;
  (** the out-parameter is threaded *)
  kv_get : bytes → KV_ResPtr → M S (bool * KV_ResPtr);
  kv_remove : bytes → M S bool;
}.

(** ** The abstract store *)
Module KvSpec.
Section spec.
Context `{Digest}.

Record spec := Spec {
  links : gmap bytes (gset bytes);   (* key to the names of its values *)
  blobs : gmap bytes bytes;          (* name, the hex digest, to value *)
}.

Definition empty : spec := Spec ∅ ∅.

Definition names (key : bytes) (m : spec) : gset bytes := default ∅ (links m !! key).

Definition put (key value : bytes) (m : spec) : spec :=
  let h := Crypto.hex_hash value in
  Spec (<[key := {[h]} ∪ names key m]> (links m)) (<[h := value]> (blobs m)).

Definition remove (key : bytes) (m : spec) : spec := Spec (delete key (links m)) (blobs m).

(** Only finitely many digests exist, so two values can share a name.
    [honest m] says it did not happen: every name is the digest of its
    value, and [fresh value m] that storing [value] keeps it so. *)
Definition fresh (value : bytes) (m : spec) : Prop :=
  ∀ v, blobs m !! Crypto.hex_hash value = Some v → v = value.
End spec.
End KvSpec.

(** The key a store really uses: [validate_key] of the plugins hashes a key of
    fewer than 128 characters. *)
Definition validate_key `{Digest} (key : bytes) : bytes :=
  if (zlen key <? 128)%Z then Crypto.hex_hash key else key.

Class KvLaws (S : Type) `{Digest} `{KvStore S} := {
  (** keys the store can hold *)
  kv_ok : bytes → Prop;
  kv_refines : S → KvSpec.spec → Prop;
  kv_ok_short key : (zlen key < 128)%Z → kv_ok key;
  (** values below 4 GiB: the stores keep sizes in a [uint] *)
  kv_put_ok s m key value : kv_refines s m → kv_ok key → (zlen value < 2 ^ 32)%Z →
    ∃ s', kv_put key value s = (Ret true, s') ∧
          kv_refines s' (KvSpec.put (validate_key key) value m);
  kv_remove_present s m key : kv_refines s m → kv_ok key →
    is_Some (KvSpec.links m !! validate_key key) →
    ∃ s', kv_remove key s = (Ret true, s') ∧
          kv_refines s' (KvSpec.remove (validate_key key) m);
  kv_remove_absent s m key : kv_refines s m → kv_ok key →
    KvSpec.links m !! validate_key key = None →
    kv_remove key s = (Throw filesystem_error, s);
  kv_get_absent s m key res : kv_refines s m → kv_ok key →
    KvSpec.links m !! validate_key key = None →
    kv_get key res s = (Ret (false, Some ∅), s);
  kv_get_present s m key res : kv_refines s m → kv_ok key →
    is_Some (KvSpec.links m !! validate_key key) →
    ∃ h v, h ∈ KvSpec.names (validate_key key) m ∧ KvSpec.blobs m !! h = Some v ∧
           kv_get key res s = (Ret (true, Some {[h := v]}), s);
}.

Section spec_lemmas.
Context `{Digest}.

Lemma links_put key key' value m :
  KvSpec.links (KvSpec.put key value m) !! key' =
    if decide (key = key') then Some ({[Crypto.hex_hash value]} ∪ KvSpec.names key m)
    else KvSpec.links m !! key'.
Proof. unfold KvSpec.put. simpl. apply lookup_insert. Qed.

Lemma blobs_put key value m :
  KvSpec.blobs (KvSpec.put key value m) = <[Crypto.hex_hash value := value]> (KvSpec.blobs m).
Proof. done. Qed.

Lemma names_put key value m :
  KvSpec.names key (KvSpec.put key value m) = {[Crypto.hex_hash value]} ∪ KvSpec.names key m.
Proof. unfold KvSpec.names at 1. by rewrite links_put, decide_True. Qed.

Lemma names_remove key m : KvSpec.names key (KvSpec.remove key m) = ∅.
Proof. unfold KvSpec.names, KvSpec.remove. simpl. by rewrite lookup_delete_eq. Qed.
End spec_lemmas.

(** ** Sequences of operations *)
Module KvRun.
Inductive op :=
  | Put (key value : bytes)
  | Get (key : bytes)
  | Remove (key : bytes).

(** What the caller sees of a call: what it returned or threw, and for
    [kv_get] the result object. *)
Definition reply : Type := outcome (bool * KV_ResPtr).

Definition op_key (o : op) : bytes := match o with Put k _ | Get k | Remove k => k end.
Definition op_size (o : op) : Z := match o with Put _ v => zlen v | _ => 0%Z end.

Section impl.
Context {S : Type} `{KvStore S}.

Definition call (o : op) : S → reply * S := λ s,
  match o with
  | Put k v => let '(r, s') := kv_put k v s in
               (match r with Ret b => Ret (b, None) | Throw e => Throw e | Undef => Undef end, s')
  | Get k => kv_get k None s
  | Remove k => let '(r, s') := kv_remove k s in
                (match r with Ret b => Ret (b, None) | Throw e => Throw e | Undef => Undef end, s')
  end.

(** The caller handles every exception and goes on. *)
Fixpoint calls (os : list op) (s : S) : list reply * S :=
  match os with
  | [] => ([], s)
  | o :: os => let '(r, s1) := call o s in
               let '(rs, s2) := calls os s1 in (r :: rs, s2)
  end.
End impl.

(** What the abstract store may answer. [kv_get] picks one of the values. *)
Inductive step `{Digest} (m : KvSpec.spec) : op → reply → KvSpec.spec → Prop :=
  | step_put key value :
      step m (Put key value) (Ret (true, None)) (KvSpec.put (validate_key key) value m)
  | step_get_absent key :
      KvSpec.links m !! validate_key key = None →
      step m (Get key) (Ret (false, Some ∅)) m
  | step_get key h v :
      h ∈ KvSpec.names (validate_key key) m → KvSpec.blobs m !! h = Some v →
      step m (Get key) (Ret (true, Some {[h := v]})) m
  | step_remove key :
      is_Some (KvSpec.links m !! validate_key key) →
      step m (Remove key) (Ret (true, None)) (KvSpec.remove (validate_key key) m)
  | step_remove_absent key :
      KvSpec.links m !! validate_key key = None →
      step m (Remove key) (Throw filesystem_error) m.

Inductive steps `{Digest} : KvSpec.spec → list op → list reply → KvSpec.spec → Prop :=
  | steps_nil m : steps m [] [] m
  | steps_cons m o r m1 os rs m2 :
      step m o r m1 → steps m1 os rs m2 → steps m (o :: os) (r :: rs) m2.

Section simulation.
Context {S : Type} `{HD : Digest} `{HS : KvStore S} {L : KvLaws S}.

Lemma call_simulates s m o :
  kv_refines s m → kv_ok (op_key o) ∧ (op_size o < 2 ^ 32)%Z →
  ∃ m', step m o (call o s).1 m' ∧ kv_refines (call o s).2 m'.
Proof.
  intros HR [Hok Hsz]. destruct o as [k v|k|k]; simpl in *;
    [|destruct (KvSpec.links m !! validate_key k) eqn:E..].
  - destruct (kv_put_ok s m k v HR Hok Hsz) as (s' & -> & HR'). eauto using step.
  - destruct (kv_get_present s m k None HR Hok) as (h & v & Hh & Hv & ->); eauto using step.
  - rewrite (kv_get_absent s m k None HR Hok) by done. eauto using step.
  - destruct (kv_remove_present s m k HR Hok) as (s' & -> & HR'); eauto using step.
  - rewrite (kv_remove_absent s m k HR Hok) by done. eauto using step.
Qed.

Lemma calls_simulate s m os :
  kv_refines s m → Forall (λ o, kv_ok (op_key o) ∧ (op_size o < 2 ^ 32)%Z) os →
  ∃ m', steps m os (calls os s).1 m' ∧ kv_refines (calls os s).2 m'.
Proof.
  intros HR Hok. revert s m HR. induction Hok as [|o os Ho _ IH]; intros s m HR; simpl.
  { eauto using steps. }
  destruct (call_simulates s m o HR Ho) as (m1 & Hs1 & HR1).
  destruct (call o s) as [r s1]. simpl in Hs1, HR1. destruct (IH _ _ HR1) as (m2 & Hs2 & HR2).
  destruct (calls os s1) as [rs s2]. simpl in *. eauto using steps.
Qed.
End simulation.
End KvRun.
