(* ===== verification/StorePaths.v ===== *)
(** * Paths and write sequences shared by the storage modules

    ffstore.cc and blockstore.cc both spread a digest over directories,
    ["aabbcc..." -> "aa/bb/cc..."], create missing directories on the way and
    write whole files.  The lemmas give the effect of each step on what a file
    system has at the paths below a base directory. *)

From S2P Require Import Prelude Crypto FileSystem KvStore.
Local Open Scope prog_scope.

(** [std::string::insert(pos, s)] *)
Definition str_insert (pos : nat) (s str : bytes) : outcome bytes :=
  if decide (pos ≤ length str) then Ret (take pos str ++ s ++ drop pos str) else Throw out_of_range.

(** [if(!fs::exists(ppath)) if(!fs::create_directories(ppath)) return false;]
    appears in every operation that writes: the result says whether to go on. *)
Definition ensure_directories `{FileSystem} (ppath : bytes) : M fs bool :=
  let! e := gets (fs_exists ppath) in
  if e then ret true else fs_create_directories ppath.

(** [if(!fs::exists(p)) if(!fs::create_directory(p)) return false;] *)
Definition make_directory `{FileSystem} (p : bytes) : M fs bool :=
  let! e := gets (fs_exists p) in
  if e then ret true else fs_create_directory p.

(** [fs::ofstream file(p); if(!file.good()) return false; file << content;
    file.close()] *)
Definition write_file `{FileSystem} (p content : bytes) : M fs bool := λ σ,
  match ofs_open p σ with
  | None => (Ret false, σ)
  | Some σ' => (Ret true, ofs_write p content σ')
  end.

(** [res.insert(4,"/").insert(2,"/")] *)
Definition hash_to_path (inp : bytes) : outcome bytes :=
  match str_insert 4 "/"%string inp with
  | Ret res => str_insert 2 "/"%string res
  | o => o
  end.


(** ** Keys as path components *)

Definition key_comps (k : bytes) : list bytes := [take 2 k; take 2 (drop 2 k); drop 4 k].

(** A key whose three parts are ordinary path components. *)
Definition good_key (k : bytes) : Prop := 5 ≤ length k ∧ Forall good_comp (key_comps k).
#[export] Instance good_key_dec k : Decision (good_key k).
Proof. apply _. Defined.

Lemma key_comps_inj k k' : key_comps k = key_comps k' → k = k'.
Proof.
  intros [= H1 H2 H3]. rewrite <-(take_drop 2 k), <-(take_drop 2 k'), H1. f_equal.
  rewrite <-(take_drop 2 (drop 2 k)), <-(take_drop 2 (drop 2 k')), H2, !drop_drop. by f_equal.
Qed.

Lemma hash_to_path_long k :
  4 ≤ length k →
  hash_to_path k = Ret (take 2 k ++ SLASH :: take 2 (drop 2 k) ++ SLASH :: drop 4 k).
Proof.
  intros Hk. unfold hash_to_path, str_insert. rewrite decide_True by done.
  rewrite decide_True by (rewrite !length_app, length_take; lia). f_equal.
  rewrite take_app_le by (rewrite length_take; lia). rewrite take_take. f_equal.
  rewrite drop_app_le by (rewrite length_take; lia). simpl. f_equal.
  by rewrite skipn_firstn_comm.
Qed.

Lemma hash_to_path_short k : length k < 4 → hash_to_path k = Throw out_of_range.
Proof. intros Hk. unfold hash_to_path, str_insert. by rewrite decide_False by lia. Qed.

(** [dir + hash_to_path(k)] for a directory name that ends in a slash. *)
Lemma key_path B k :
  take 2 k ++ SLASH :: take 2 (drop 2 k) ++ SLASH :: drop 4 k = tail (path_of (key_comps k)) ∧
  (path_of B ++ "/"%string) ++ (take 2 k ++ SLASH :: take 2 (drop 2 k) ++ SLASH :: drop 4 k)
  = path_of (B ++ key_comps k).
Proof.
  rewrite path_of_app. unfold key_comps, path_of. simpl. rewrite app_nil_r.
  split; [done|]. rewrite <-!app_assoc. done.
Qed.

Lemma good_key_length k : good_key k → 4 ≤ length k.
Proof. intros [? _]. lia. Qed.

Lemma hash_to_path_good k : good_key k → ∃ hp, hash_to_path k = Ret hp ∧
  ∀ B, (path_of B ++ "/"%string) ++ hp = path_of (B ++ key_comps k).
Proof.
  intros Hk%good_key_length. eexists. split; [by apply hash_to_path_long|].
  intros B. apply key_path.
Qed.

Lemma good_app_key B k : good B → good_key k → good (B ++ key_comps k).
Proof. intros [Hne HB] [_ Hk]. split; [by destruct B|]. by apply Forall_app. Qed.

(** Digits of a digest make ordinary components. *)
Lemma good_comp_hex c : c ≠ [] → Forall (λ a, Crypto.is_hex a) c → good_comp c.
Proof.
  intros Hne Hc. assert (Hnot : ∀ a, a ∈ c → Crypto.is_hex a) by (by apply Forall_forall).
  split_and!; [done|..]; intros Ha; first apply Hnot in Ha; try subst c;
    try specialize (Hnot "."%char ltac:(set_solver)); by vm_compute in *.
Qed.

Lemma good_key_hex k : 5 ≤ length k → Forall (λ a, Crypto.is_hex a) k → good_key k.
Proof.
  intros Hlen Hk. split; [done|].
  assert (Hl : ∀ l, 0 < length l → (∀ a, a ∈ l → a ∈ k) → good_comp l).
  { intros l Hne Hl. apply good_comp_hex; [by apply length_not_nil|].
    rewrite Forall_forall in *. eauto. }
  unfold key_comps. repeat (apply Forall_cons; split); [..|apply Forall_nil; done];
    apply Hl; rewrite ?length_take, ?length_drop; try lia;
    eauto using elem_of_take_1, elem_of_drop_1.
Qed.

Lemma good_key_hash `{Digest} x : good_key (Crypto.hex_hash x).
Proof.
  apply good_key_hex; [|apply Crypto.toHex_hex].
  unfold Crypto.hex_hash. rewrite Crypto.toHex_length, sha512_length. lia.
Qed.

Lemma good_comp_hash `{Digest} x : good_comp (Crypto.hex_hash x).
Proof.
  apply good_comp_hex; [|apply Crypto.toHex_hex]. intros H0%(f_equal length). revert H0.
  unfold Crypto.hex_hash. by rewrite Crypto.toHex_length, sha512_length.
Qed.

(** ** Effects *)

Abbreviation view σ q := (node_at σ (path_of q)).

(** Nothing changed but below [B]. *)
Definition frame `{FileSystem} (B : list bytes) (σ σ' : fs) : Prop :=
  ∀ q, good q → ¬ (B `prefix_of` q) → view σ' q = view σ q.

(** [B] and its ancestors are directories; between [B] and the files three
    levels below it there are only directories. *)
Record base_dir `{FileSystem} (σ : fs) (B : list bytes) : Prop := {
  base_good : good B;
  base_chain q : good q → q `prefix_of` B → view σ q = Some NDir;
  base_interior q : good (B ++ q) → length q < 3 → view σ (B ++ q) = None ∨ view σ (B ++ q) = Some NDir;
}.

(** A directory of files named by keys, as [_data_dir]. *)
Record blob_dir `{FileSystem} (σ : fs) (B : list bytes) (blobs : gmap bytes bytes) : Prop := {
  blob_base : base_dir σ B;
  blob_at k : good_key k → view σ (B ++ key_comps k) = NFile <$> blobs !! k;
}.

(** A directory with a directory of entries per key, as [_link_dir]: [E] gives
    the names of the entries of every key that has a directory, [ent] what an
    entry of that name is. *)
Record multi_dir `{FileSystem} (ent : bytes → node) (σ : fs) (B : list bytes)
    (E : gmap bytes (gset bytes)) : Prop := {
  multi_base : base_dir σ B;
  multi_at k : good_key k → view σ (B ++ key_comps k) = (λ _, NDir) <$> E !! k;
  multi_entry k n : good_key k → good_comp n →
    view σ (B ++ key_comps k ++ [n]) = if decide (n ∈ default ∅ (E !! k)) then Some (ent n) else None;
}.

(** Neither directory contains the other. *)
Definition apart (B C : list bytes) : Prop := ¬ (B `prefix_of` C) ∧ ¬ (C `prefix_of` B).

Lemma apart_sym B C : apart B C → apart C B.
Proof. by intros []. Qed.

Lemma prefix_app_cases {A} (q B p : list A) :
  q `prefix_of` (B ++ p) → q `prefix_of` B ∨ ∃ r, q = B ++ r ∧ r `prefix_of` p.
Proof.
  intros Hq. destruct (prefix_weak_total q B (B ++ p) Hq) as [?|[r ->]];
    [by apply prefix_app_r|by left|]. right. exists r. split; [done|].
  by apply prefix_app_inv in Hq.
Qed.

Lemma apart_below B C p : apart C B → ¬ (C `prefix_of` (B ++ p)).
Proof.
  intros [H1 H2] Hpre. apply prefix_app_cases in Hpre as [?|(r & -> & _)]; [done|].
  destruct H2. by apply prefix_app_r.
Qed.

Lemma key_comps_snoc k : key_comps k = [take 2 k; take 2 (drop 2 k)] ++ [drop 4 k].
Proof. done. Qed.

Lemma key_comps_long k B p : length p < 3 → B ++ key_comps k ≠ B ++ p.
Proof. intros Hp H%(inj (app B)). subst p. simpl in Hp. lia. Qed.

Section effects.
Context `{FS : FileSystem} {L : FsLaws}.
Implicit Types (σ : fs) (p q B : list bytes).

Lemma ensure_directories_ok σ p :
  good p →
  (∀ q, good q → q `prefix_of` p → view σ q = None ∨ view σ q = Some NDir) →
  ∃ σ', ensure_directories (path_of p) σ = (Ret true, σ') ∧
    view σ' p = Some NDir ∧
    ∀ q, good q → view σ' q = view σ q ∨ (q `prefix_of` p ∧ view σ' q = Some NDir).
Proof.
  intros Hp Hq. unfold ensure_directories. rewrite bind_gets.
  destruct (Hq p Hp (reflexivity p)) as [Hn|Hd].
  - rewrite exists_none by done.
    destruct (create_directories_ok σ p Hp Hq) as (σ' & Hrun & Hv). exists σ'.
    rewrite Hrun, bool_decide_true by done. split_and!; [done| |].
    + rewrite Hv by done. by rewrite decide_True.
    + intros q Hgq. rewrite Hv by done. case_decide; auto.
  - rewrite (exists_node σ p NDir) by done. exists σ. split_and!; [done|done|auto].
Qed.

Lemma make_directory_ok σ d n :
  good (d ++ [n]) → view σ d = Some NDir →
  view σ (d ++ [n]) = None ∨ view σ (d ++ [n]) = Some NDir →
  ∃ σ', make_directory (path_of (d ++ [n])) σ = (Ret true, σ') ∧
    ∀ q, good q → view σ' q = if decide (q = d ++ [n]) then Some NDir else view σ q.
Proof.
  intros Hg Hd Hn. unfold make_directory. rewrite bind_gets. destruct Hn as [Hn|Hn].
  - rewrite exists_none by done. by apply create_directory_ok.
  - rewrite (exists_node _ _ NDir) by done. exists σ. split; [done|]. intros q Hq.
    case_decide; [by subst|done].
Qed.

Lemma write_file_ok σ d n content :
  good (d ++ [n]) → view σ d = Some NDir →
  (∀ m, view σ (d ++ [n]) = Some m → ∃ c, m = NFile c) →
  ∃ σ', write_file (path_of (d ++ [n])) content σ = (Ret true, σ') ∧
    ∀ q, good q → view σ' q = if decide (q = d ++ [n]) then Some (NFile content) else view σ q.
Proof.
  intros Hg Hd Hm. destruct (open_ok σ d n Hg Hd Hm) as (σ1 & Ho & Hv1).
  unfold write_file. rewrite Ho. eexists. split; [done|].
  assert (H1 : view σ1 (d ++ [n]) = Some (NFile [])) by (by rewrite Hv1, decide_True).
  intros q Hq. rewrite (write_ok σ1 _ [] content Hg H1 q Hq). case_decide; [done|].
  rewrite Hv1 by done. by rewrite decide_False.
Qed.

(** A path at most two levels below [B], with everything above it. *)
Lemma interior_prefix σ B p :
  base_dir σ B → good (B ++ p) → length p < 3 →
  ∀ q, good q → q `prefix_of` (B ++ p) → view σ q = None ∨ view σ q = Some NDir.
Proof.
  intros HB Hp Hlen q Hq Hpre. apply prefix_app_cases in Hpre as [Hpre|(r & -> & Hr)].
  - right. by apply (base_chain σ B).
  - apply (base_interior σ B); [done..|]. apply prefix_length in Hr. lia.
Qed.

(** Making the directories down to [B ++ p] touches nothing else. *)
Lemma dirs_base σ σ' B p :
  base_dir σ B →
  (∀ q, good q → view σ' q = view σ q ∨ (q `prefix_of` (B ++ p) ∧ view σ' q = Some NDir)) →
  base_dir σ' B ∧ frame B σ σ'.
Proof.
  intros HB Hv. split; [split|].
  - by destruct HB.
  - intros q Hq Hpre. destruct (Hv q Hq) as [->|[_ ?]]; [|done]. by apply (base_chain σ B).
  - intros q Hq Hl. destruct (Hv _ Hq) as [->|[_ ?]]; [|by right]. by apply (base_interior σ B).
  - intros q Hq Hn. destruct (Hv q Hq) as [?|[Hpre ->]]; [done|].
    apply prefix_app_cases in Hpre as [Hpre|(r & -> & _)].
    + symmetry. by apply (base_chain σ B).
    + destruct Hn. by apply prefix_app_r.
Qed.

(** A change three levels or more below [B]. *)
Lemma leaf_base σ σ' B p :
  base_dir σ B → 3 ≤ length p →
  (∀ q, good q → ¬ ((B ++ p) `prefix_of` q) → view σ' q = view σ q) →
  base_dir σ' B ∧ frame B σ σ'.
Proof.
  intros HB Hp Hv. split; [split|].
  - by destruct HB.
  - intros q Hq Hpre. rewrite Hv; [by apply (base_chain σ B)|done|].
    intros Hl%prefix_length. apply prefix_length in Hpre. rewrite length_app in Hl. lia.
  - intros q Hq Hl. rewrite Hv; [by apply (base_interior σ B)|done|].
    intros Hl'%prefix_length. rewrite !length_app in Hl'. lia.
  - intros q Hq Hn. apply Hv; [done|]. intros Hpre. destruct Hn.
    etrans; [|exact Hpre]. by apply prefix_app_r.
Qed.

Lemma frame_refl B σ : frame B σ σ.
Proof. by intros q. Qed.

Lemma frame_trans B σ1 σ2 σ3 : frame B σ1 σ2 → frame B σ2 σ3 → frame B σ1 σ3.
Proof. intros H1 H2 q Hq Hn. by rewrite H2, H1. Qed.

Lemma frame_base C B σ σ' : frame C σ σ' → apart C B → base_dir σ B → base_dir σ' B.
Proof.
  intros Hf Hap HB. split.
  - by destruct HB.
  - intros q Hq Hpre. rewrite Hf; [by apply (base_chain σ B)|done|].
    intros Hc. destruct Hap as [Hap _], Hap. by etrans.
  - intros q Hq Hl. rewrite Hf; [by apply (base_interior σ B)|done|]. by apply apart_below.
Qed.

Lemma frame_blob C B σ σ' m : frame C σ σ' → apart C B → blob_dir σ B m → blob_dir σ' B m.
Proof.
  intros Hf Hap [HB Hat]. split; [by eapply frame_base|]. intros k Hk.
  rewrite Hf; [by apply Hat|apply good_app_key, Hk; apply HB|by apply apart_below].
Qed.

Lemma frame_multi ent C B σ σ' E :
  frame C σ σ' → apart C B → multi_dir ent σ B E → multi_dir ent σ' B E.
Proof.
  intros Hf Hap [HB Hat Hen]. assert (HgB : good B) by apply HB.
  split; [by eapply frame_base| |].
  - intros k Hk. rewrite Hf; [by apply Hat|by apply good_app_key|by apply apart_below].
  - intros k n Hk Hn. rewrite Hf; [by apply Hen| |by apply apart_below].
    rewrite app_assoc. apply good_snoc; [by apply good_app_key|done].
Qed.
End effects.

(** ** Steps of the stores *)
Section steps.
Context `{FS : FileSystem} {L : FsLaws}.
Implicit Types (σ : fs) (B : list bytes) (k content : bytes).

Lemma good_app_key_dir B k : good B → good_key k → good (B ++ [take 2 k; take 2 (drop 2 k)]).
Proof.
  intros HB Hk. apply (good_app_l _ [drop 4 k]).
  - rewrite <-app_assoc. by apply good_app_key.
  - by destruct B, HB.
Qed.

(** Creating the directories above a key's file. *)
Lemma blob_mkdir σ B m k :
  blob_dir σ B m → good_key k →
  ∃ σ', ensure_directories (remove_filename (path_of (B ++ key_comps k))) σ = (Ret true, σ') ∧
    view σ' (B ++ [take 2 k; take 2 (drop 2 k)]) = Some NDir ∧
    blob_dir σ' B m ∧ frame B σ σ'.
Proof.
  intros [HB Hat] Hk. assert (HgB : good B) by apply HB.
  pose proof (good_app_key B k HgB Hk) as Hg.
  pose proof (good_app_key_dir B k HgB Hk) as Hgd.
  rewrite key_comps_snoc, app_assoc in Hg |- *. rewrite remove_filename_ok by (done || by destruct B).
  destruct (ensure_directories_ok σ (B ++ [take 2 k; take 2 (drop 2 k)])) as (σ' & Hrun & Hd & Hv).
  { done. }
  { apply interior_prefix; [done..|simpl; lia]. }
  exists σ'. destruct (dirs_base _ _ _ _ HB Hv) as [HB' Hf].
  split_and!; [done|done|split;[done|]|done].
  intros k' Hk'. pose proof (good_app_key B k' HgB Hk') as Hg'.
  destruct (Hv _ Hg') as [->|[Hpre _]]; [by apply Hat|].
  apply prefix_length in Hpre. rewrite !length_app in Hpre. simpl in Hpre. lia.
Qed.

(** A change of a key's file. *)
Lemma blob_update σ σ' B m k content :
  blob_dir σ B m → good_key k →
  (∀ q, good q → view σ' q = if decide (q = B ++ key_comps k) then Some (NFile content) else view σ q) →
  blob_dir σ' B (<[k := content]> m) ∧ frame B σ σ'.
Proof.
  intros [HB Hat] Hk Hv. assert (HgB : good B) by apply HB.
  destruct (leaf_base σ σ' B (key_comps k) HB) as [HB' Hf].
  { done. }
  { intros q Hq Hn. rewrite Hv, decide_False by (done || by intros ->). done. }
  split; [split; [done|]|done].
  intros k' Hk'. rewrite Hv by by apply good_app_key. case_decide as He.
  - apply (inj (app B)), key_comps_inj in He as ->. by rewrite lookup_insert_eq.
  - rewrite lookup_insert_ne by congruence. by apply Hat.
Qed.

(** Writing it. *)
Lemma blob_write σ B m k content :
  blob_dir σ B m → good_key k → view σ (B ++ [take 2 k; take 2 (drop 2 k)]) = Some NDir →
  ∃ σ', write_file (path_of (B ++ key_comps k)) content σ = (Ret true, σ') ∧
    blob_dir σ' B (<[k := content]> m) ∧ frame B σ σ'.
Proof.
  intros HB Hk Hd.
  destruct (write_file_ok σ (B ++ [take 2 k; take 2 (drop 2 k)]) (drop 4 k) content)
    as (σ' & Hrun & Hv).
  - rewrite <-app_assoc. apply good_app_key; [apply HB|done].
  - done.
  - rewrite <-app_assoc. change (_ ++ [drop 4 k]) with (key_comps k). rewrite (blob_at _ _ _ HB) by done.
    destruct (m !! k); simpl; naive_solver.
  - rewrite <-app_assoc in Hrun, Hv. change (_ ++ [drop 4 k]) with (key_comps k) in Hrun, Hv.
    exists σ'. split; [done|]. by apply (blob_update σ σ' B m k content).
Qed.

(** Opening a key's file empties it; what is written is appended. *)
Lemma blob_open σ B m k :
  blob_dir σ B m → good_key k → view σ (B ++ [take 2 k; take 2 (drop 2 k)]) = Some NDir →
  ∃ σ', ofs_open (path_of (B ++ key_comps k)) σ = Some σ' ∧
    blob_dir σ' B (<[k := []]> m) ∧ frame B σ σ'.
Proof.
  intros HB Hk Hd.
  destruct (open_ok σ (B ++ [take 2 k; take 2 (drop 2 k)]) (drop 4 k)) as (σ' & Hrun & Hv).
  - rewrite <-app_assoc. apply good_app_key; [apply HB|done].
  - done.
  - rewrite <-app_assoc. change (_ ++ [drop 4 k]) with (key_comps k). rewrite (blob_at _ _ _ HB) by done.
    destruct (m !! k); simpl; naive_solver.
  - rewrite <-app_assoc in Hrun, Hv. change (_ ++ [drop 4 k]) with (key_comps k) in Hrun, Hv.
    exists σ'. split; [done|]. by apply (blob_update σ σ' B m k []).
Qed.

Lemma blob_append σ B m k c data :
  blob_dir σ B m → good_key k → m !! k = Some c →
  blob_dir (ofs_write (path_of (B ++ key_comps k)) data σ) B (<[k := c ++ data]> m) ∧
  frame B σ (ofs_write (path_of (B ++ key_comps k)) data σ).
Proof.
  intros HB Hk Hc. apply (blob_update σ _ B m k (c ++ data)); [done|done|].
  intros q Hq. apply write_ok; [apply good_app_key; [apply HB|done]| |done].
  by rewrite (blob_at _ _ _ HB), Hc by done.
Qed.

(** Creating a key's directory of entries. *)
Lemma multi_mkdir ent σ B E k :
  multi_dir ent σ B E → good_key k →
  ∃ σ', ensure_directories (path_of (B ++ key_comps k)) σ = (Ret true, σ') ∧
    multi_dir ent σ' B (<[k := default ∅ (E !! k)]> E) ∧ frame B σ σ'.
Proof.
  intros [HB Hat Hen] Hk. assert (HgB : good B) by apply HB.
  destruct (ensure_directories_ok σ (B ++ key_comps k)) as (σ' & Hrun & Hd & Hv).
  { by apply good_app_key. }
  { intros q Hq Hpre. apply prefix_app_cases in Hpre as [Hpre|(r & -> & Hr)].
    - right. by apply (base_chain σ B).
    - destruct (decide (length r < 3)); [by apply (base_interior σ B)|].
      apply prefix_length_eq in Hr as ->; [|simpl; lia]. rewrite Hat by done.
      destruct (E !! k); auto. }
  destruct (dirs_base _ _ _ _ HB Hv) as [HB' Hf].
  exists σ'. split_and!; [done|split; [done|..]|done].
  - intros k' Hk'. destruct (decide (k = k')) as [<-|Hne].
    { by rewrite lookup_insert_eq. }
    rewrite lookup_insert_ne by done. destruct (Hv (B ++ key_comps k')) as [->|[Hpre _]];
      [by apply good_app_key|by apply Hat|].
    apply prefix_app_inv, prefix_length_eq, key_comps_inj in Hpre; [congruence|done].
  - intros k' n Hk' Hn. destruct (Hv (B ++ key_comps k' ++ [n])) as [->|[Hpre _]].
    + rewrite app_assoc. apply good_snoc; [by apply good_app_key|done].
    + rewrite Hen by done. destruct (decide (k = k')) as [<-|Hne].
      * by rewrite lookup_insert_eq.
      * by rewrite lookup_insert_ne.
    + apply prefix_length in Hpre. rewrite !length_app in Hpre. simpl in Hpre. lia.
Qed.

(** Adding an entry to it. *)
Lemma multi_add ent σ σ' B E k n es :
  multi_dir ent σ B E → good_key k → good_comp n → E !! k = Some es →
  (∀ q, good q → view σ' q = if decide (q = B ++ key_comps k ++ [n]) then Some (ent n) else view σ q) →
  multi_dir ent σ' B (<[k := {[n]} ∪ es]> E) ∧ frame B σ σ'.
Proof.
  intros [HB Hat Hen] Hk Hn Hes Hv. assert (HgB : good B) by apply HB.
  destruct (leaf_base σ σ' B (key_comps k ++ [n]) HB) as [HB' Hf].
  { simpl. lia. }
  { intros q Hq Hne. rewrite Hv, decide_False by (done || by intros ->). done. }
  split; [split; [done|..]|done].
  - intros k' Hk'. rewrite Hv, decide_False; [|by intros ?%(inj (app B))|by apply good_app_key].
    rewrite Hat by done. destruct (decide (k = k')) as [<-|].
    + by rewrite lookup_insert_eq, Hes.
    + by rewrite lookup_insert_ne.
  - intros k' n' Hk' Hn'.
    rewrite Hv by (rewrite app_assoc; apply good_snoc; [by apply good_app_key|done]).
    destruct (decide (k = k')) as [<-|].
    + rewrite lookup_insert_eq. cbn [from_option id]. case_decide as He.
      * apply (inj (app B)), (inj (app (key_comps k))) in He as [= ->].
        rewrite decide_True; [done|set_solver].
      * rewrite Hen by done. rewrite Hes. cbn [from_option id].
        assert (n ≠ n') by congruence. repeat case_decide; rewrite ?elem_of_union, ?elem_of_singleton in *;
          tauto || naive_solver.
    + rewrite lookup_insert_ne by done. rewrite decide_False; [by apply Hen|].
      intros [He%key_comps_inj _]%(inj (app B))%app_inj_tail. congruence.
Qed.

(** Removing it. *)
Lemma multi_clear ent σ σ' B E k :
  multi_dir ent σ B E → good_key k →
  (∀ q, good q → view σ' q = if decide ((B ++ key_comps k) `prefix_of` q) then None else view σ q) →
  multi_dir ent σ' B (delete k E) ∧ frame B σ σ'.
Proof.
  intros [HB Hat Hen] Hk Hv. assert (HgB : good B) by apply HB.
  destruct (leaf_base σ σ' B (key_comps k) HB) as [HB' Hf].
  { done. }
  { intros q Hq Hne. by rewrite Hv, decide_False. }
  assert (Hpre : ∀ k' r, (B ++ key_comps k) `prefix_of` (B ++ key_comps k' ++ r) ↔ k = k').
  { intros k' r. split.
    - intros Hp%prefix_app_inv. apply key_comps_inj. destruct Hp as [x Hx].
      unfold key_comps. injection Hx. intros. congruence.
    - intros ->. by apply prefix_app, prefix_app_r. }
  split; [split; [done|..]|done].
  - intros k' Hk'. rewrite Hv by by apply good_app_key. specialize (Hpre k' []).
    rewrite app_nil_r in Hpre. case_decide as Hd.
    + apply Hpre in Hd as <-. by rewrite lookup_delete_eq.
    + rewrite lookup_delete_ne by tauto. by apply Hat.
  - intros k' n Hk' Hn.
    rewrite Hv by (rewrite app_assoc; apply good_snoc; [by apply good_app_key|done]).
    case_decide as Hd.
    + apply Hpre in Hd as <-. by rewrite lookup_delete_eq.
    + rewrite lookup_delete_ne by (intros ->; apply Hd; by apply Hpre). by apply Hen.
Qed.
End steps.

(** ** Making the directories of a store *)
Section made.
Context `{FS : FileSystem} {L : FsLaws}.
Implicit Types (σ : fs) (d B : list bytes) (l : list (list bytes)).

(** The directories [l] were made. *)
Definition made l σ σ' : Prop :=
  ∀ q, good q → view σ' q = if decide (q ∈ l) then Some NDir else view σ q.

Lemma make_directory_made σ0 σ l d n :
  made l σ0 σ → good (d ++ [n]) → good d → d ∈ l ∨ view σ0 d = Some NDir →
  d ++ [n] ∉ l → view σ0 (d ++ [n]) = None →
  ∃ σ', make_directory (path_of (d ++ [n])) σ = (Ret true, σ') ∧ made ((d ++ [n]) :: l) σ0 σ'.
Proof.
  intros Hm Hg Hgd Hd Hn Hnone.
  destruct (make_directory_ok σ d n Hg) as (σ' & Hrun & Hv).
  - rewrite Hm by done. case_decide; [done|]. by destruct Hd.
  - left. rewrite Hm by done. by rewrite decide_False.
  - exists σ'. split; [done|]. intros q Hq. rewrite Hv, Hm by done.
    repeat case_decide; set_solver.
Qed.

Lemma made_frame l σ σ' B : made l σ σ' → (∀ q, q ∈ l → B `prefix_of` q) → frame B σ σ'.
Proof. intros Hm Hl q Hq Hn. rewrite Hm by done. rewrite decide_False; [done|]. naive_solver. Qed.

(** A directory among them, with none of them below it, is an empty store. *)
Lemma made_blob l σ σ' B :
  made l σ σ' → good B → (∀ q, good q → q `prefix_of` B → q ∈ l ∨ view σ q = Some NDir) →
  (∀ r, r ≠ [] → good (B ++ r) → (B ++ r ∉ l) ∧ view σ (B ++ r) = None) →
  blob_dir σ' B ∅.
Proof.
  intros Hm HB Hchain Hbelow.
  assert (Hc : ∀ q, good q → q `prefix_of` B → view σ' q = Some NDir).
  { intros q Hq Hpre. rewrite Hm by done. case_decide; [done|]. by destruct (Hchain q Hq Hpre). }
  assert (Hb : ∀ r, r ≠ [] → good (B ++ r) → view σ' (B ++ r) = None).
  { intros r Hr Hg. destruct (Hbelow r Hr Hg). rewrite Hm by done. by rewrite decide_False. }
  split; [split|].
  - done.
  - done.
  - intros q Hq _. destruct q as [|x q]; [right|left; by apply Hb].
    rewrite app_nil_r in *. by apply Hc.
  - intros k Hk. rewrite lookup_empty. apply Hb; [done|by apply good_app_key].
Qed.
End made.

(** ** Fresh directories of the in-memory file system *)
Section mem.

Definition mem_of (l : list (list bytes * node)) : MemFs.state := MemFs.State (list_to_map l).

(** The directory [B] is there, and empty. *)
Definition mem_fresh (l : list (list bytes * node)) (B : list bytes) : bool :=
  forallb (λ q, bool_decide ((list_to_map l : gmap _ _) !! q = Some NDir)) (MemFs.prefixes B) &&
  forallb (λ x, bool_decide (B `prefix_of` x.1 → x.1 = B)) l.

Lemma mem_at l q : good q →
  node_at (FileSystem := MemFs.mem_fs) (mem_of l) (path_of q) = (list_to_map l : gmap _ _) !! q.
Proof. intros Hq. cbn [node_at MemFs.mem_fs]. by rewrite MemFs.lnode_good by done. Qed.

Lemma mem_fresh_below (l : list (list bytes * node)) (B r : list bytes) :
  forallb (λ x, bool_decide (B `prefix_of` x.1 → x.1 = B)) l = true →
  r ≠ [] → (list_to_map l : gmap (list bytes) node) !! (B ++ r) = None.
Proof.
  rewrite forallb_forall. intros Hnone Hr. apply not_elem_of_list_to_map_1.
  intros ([q n] & He & Hin)%list_elem_of_fmap.
  simpl in He. subst q. apply list_elem_of_In, Hnone, bool_decide_eq_true in Hin. simpl in Hin.
  apply Hr, (inj (app B)). rewrite app_nil_r. apply Hin. by apply prefix_app_r.
Qed.

Lemma mem_blob_dir l B : good B → mem_fresh l B = true →
  blob_dir (H := MemFs.mem_fs) (mem_of l) B ∅.
Proof.
  intros HB Hfresh. pose proof Hfresh as [Hdirs _]%andb_prop. rewrite forallb_forall in Hdirs.
  assert (Hchain : ∀ q, good q → q `prefix_of` B → (list_to_map l : gmap _ _) !! q = Some NDir).
  { intros q [Hq _] Hpre. eapply bool_decide_eq_true, Hdirs, list_elem_of_In.
    by apply MemFs.elem_of_prefixes. }
  pose proof (λ r, mem_fresh_below l B r (proj2 (andb_prop _ _ Hfresh))) as Hempty.
  split; [split|].
  - done.
  - intros q Hq Hpre. rewrite mem_at by done. by apply Hchain.
  - intros q Hq _. rewrite mem_at by done. destruct q as [|x q]; [|left; by apply Hempty].
    right. rewrite app_nil_r in *. by apply Hchain.
  - intros k Hk. rewrite mem_at by by apply good_app_key. by rewrite Hempty, lookup_empty.
Qed.
End mem.
