(* ===== verification/Db.v ===== *)
(** * db.h, db.cc: the data of the object database

    An object is a text with its history: the patches ([Diff]s) that lead from
    the empty text to its present text ([head]).  This file has the records
    and the operations that touch nothing else; DbManager.v has those that
    reach the stores.

    The patches are those of DmpPatch.v; the time its diffs may take is
    [Clock].  boost.serialization is the parameter [Archive]; what the code
    relies on is [ArchiveLaw]. *)

From stdpp Require Import pretty.
From S2P Require Import Prelude Crypto DmpDiff DmpPatch DmpText DmpMake DmpLines DmpMain DmpRoundtrip.
Local Open Scope prog_scope.

Abbreviation ObjID := bytes.

(** [boost::posix_time::ptime] *)
Abbreviation ptime := Z.

(** class Diff, with the members of its base [needs_ObjID] *)
Record Diff := MkDiff {
  d_id : ObjID;
  d_db_id : Z;
  d_db_type : bytes;
  d_content : bytes;
  d_time : ptime;
  d_snapshot : ObjID;
  d_prev : ObjID;
}.

Record Snapshot := MkSnapshot {
  s_id : ObjID;
  s_db_id : Z;
  s_db_type : bytes;
  s_content : bytes;
  s_time : ptime;
  s_diffs : list Diff;
  s_based : ObjID;
}.

Record Object := MkObject {
  o_id : ObjID;
  o_master : ObjID;
  o_db_id : Z;
  o_db_type : bytes;
  o_snapshots : list Snapshot;
  o_diffs : list Diff;
  o_head : bytes;
}.

(** [new db::Object()] *)
Definition Object_new : Object := MkObject [] [] 0 [] [] [] [].

Definition set_id (i : ObjID) (o : Object) : Object :=
  MkObject i (o_master o) (o_db_id o) (o_db_type o) (o_snapshots o) (o_diffs o) (o_head o).
Definition set_master (i : ObjID) (o : Object) : Object :=
  MkObject (o_id o) i (o_db_id o) (o_db_type o) (o_snapshots o) (o_diffs o) (o_head o).
Definition set_diffs (l : list Diff) (o : Object) : Object :=
  MkObject (o_id o) (o_master o) (o_db_id o) (o_db_type o) (o_snapshots o) l (o_head o).
Definition set_head (h : bytes) (o : Object) : Object :=
  MkObject (o_id o) (o_master o) (o_db_id o) (o_db_type o) (o_snapshots o) (o_diffs o) h.

(** ** Identifiers *)
Section ids.
Context `{Digest}.

Definition create_content_id (content : bytes) : ObjID := Crypto.hex_hash content.

(** [stime << content << random()]: [rnd] is what [random()] returned. *)
Definition create_random_id (stime content : bytes) (rnd : Z) : ObjID :=
  Crypto.hex_hash (stime ++ content ++ pretty rnd).

(** [Diff(const String& c, const ObjID& p)]: [now] is the local time. *)
Definition Diff_new (now : ptime) (c : bytes) (p : ObjID) : Diff :=
  MkDiff (create_content_id c) 0 [] c now [] p.

(** [Snapshot(const ObjID& b, const String& c)] *)
Definition Snapshot_new (now : ptime) (b : ObjID) (c : bytes) : Snapshot :=
  MkSnapshot (create_content_id c) 0 [] c now [] b.

(** The id [Object::create(inp)] gives an object. *)
Definition object_id (inp : bytes) : ObjID :=
  Crypto.hex_hash ("OBJECT"%string ++ Crypto.Hash inp).
End ids.

(** ** Patches *)

(** What the clock answers, while a patch is made of two texts and while one
    is applied, to the question whether the diff is late. *)
Class Clock := {
  clock_make : bytes → bytes → list bool;
  clock_apply : bytes → bytes → list bool;
}.

Section patches.
Context `{Clock}.

(** [dmp.patch_toText(dmp.patch_make(a, b))] *)
Definition patch_text (a b : bytes) : outcome bytes := fst (DmpRoundtrip.DmpRoundtrip.make_text a b (clock_make a b)).

(** [dmp.patch_apply(dmp.patch_fromText(p), a).first] *)
Definition patch_apply (p a : bytes) : outcome bytes := fst (DmpRoundtrip.DmpRoundtrip.apply_text p a (clock_apply p a)).

(** The patch from [a] to [b], when one can be made. *)
Definition patch_of (a b : bytes) : bytes := match patch_text a b with Ret p => p | _ => [] end.
Definition makes_patch (a b : bytes) : Prop := patch_text a b = Ret (patch_of a b).

(** A patch that turns [a] into [b], which not every one made from them does. *)
Definition replays (a b : bytes) : Prop := makes_patch a b ∧ patch_apply (patch_of a b) a = Ret b.

(** Texts of which a patch is always made: one of at most 100 characters, or at
    most 125 line ends in both, their lengths together an [int]; or the first
    text of an object. *)
Definition patchable (a b : bytes) : Prop :=
  a = [] ∨ DmpMain.DmpMain.int_lengths a b ∧
    (length a ≤ 100 ∨ length b ≤ 100 ∨ DmpLines.DmpLines.newlines a + DmpLines.DmpLines.newlines b ≤ 125).

#[export] Instance patchable_decision a b : Decision (patchable a b).
Proof. unfold patchable, DmpMain.DmpMain.int_lengths. apply _. Defined.

Lemma makes_patch_new b : makes_patch [] b.
Proof.
  unfold makes_patch, patch_of, patch_text, DmpRoundtrip.DmpRoundtrip.make_text.
  by rewrite (bind_run _ _ _ _ _ (DmpRoundtrip.DmpRoundtrip.patch_make_initial b _)).
Qed.

Lemma patchable_makes a b : patchable a b → makes_patch a b.
Proof.
  intros [-> |[Hi Hab]]; [apply makes_patch_new|]. unfold makes_patch, patch_of, patch_text.
  destruct (DmpRoundtrip.DmpRoundtrip.make_text_ends a b (clock_make a b)) as (p & c & ->); [|done].
  split; [done|]. destruct Hab as [Ha|[Hb|Hn]]; [left; right; by left|left; right; by right|by right].
Qed.

Lemma patchable_new b : patchable [] b.
Proof. by left. Qed.

(** The first patch of an object leads to its text without the characters of
    128 and more. *)
Lemma patch_apply_new b : (zlen b < 2 ^ 31)%Z → patch_apply (patch_of [] b) [] = Ret (DmpText.DmpText.ascii_part b).
Proof.
  intros Hb. destruct (DmpRoundtrip.DmpRoundtrip.initial_replays b (clock_make [] b) (clock_apply (patch_of [] b) []) Hb) as (p & Hp & Ha).
  assert (patch_of [] b = p) as He by (unfold patch_of, patch_text; by rewrite Hp).
  unfold patch_apply. rewrite He in *. by rewrite Ha.
Qed.

Lemma replays_new b : (zlen b < 2 ^ 31)%Z → DmpRoundtrip.DmpRoundtrip.all_ascii b → replays [] b.
Proof.
  intros Hb Ha. split; [apply makes_patch_new|]. by rewrite patch_apply_new, DmpText.DmpText.ascii_part_id.
Qed.

(** Texts whose patch leads from the one to the other: both of ASCII, one of at
    most 100 characters, their lengths together an [int], and the diff of the
    two such that its cleanup takes out no overlap that is none and none of its
    equalities is dropped. *)
Definition faithful_diffs (a b : bytes) : bool :=
  match fst (DmpDiff.DmpDiff.diff_main a b true (clock_make a b)), fst (DmpPatch.DmpPatch.patch_diffs a b (clock_make a b)) with
  | Ret l0, Ret l => DmpRoundtrip.DmpRoundtrip.true_cleanup l0 && DmpMake.DmpMake.keeps_equalities l
  | _, _ => false
  end.
Definition clean (a b : bytes) : Prop :=
  (length a ≤ 100 ∨ length b ≤ 100) ∧ DmpRoundtrip.DmpRoundtrip.all_ascii a ∧ DmpRoundtrip.DmpRoundtrip.all_ascii b ∧
  DmpMain.DmpMain.int_lengths a b ∧ faithful_diffs a b = true.

Lemma clean_patchable a b : clean a b → patchable a b.
Proof. intros (Hab & _ & _ & Hi & _). right. split; [done|]. tauto. Qed.

Lemma clean_replays a b : clean a b → replays a b.
Proof.
  intros (Hab & Ha & Hb & Hi & Hf). unfold faithful_diffs in Hf. set (c := clock_make a b) in *.
  destruct (DmpRoundtrip.DmpRoundtrip.patch_diffs_answers a b c) as (l0 & l & c1 & Hl0 & Hl & _ & Hr).
  { split; [done|]. left. by right. }
  rewrite Hl0, Hl in Hf. cbn [fst] in Hf. apply andb_prop in Hf as [Ht Hk].
  destruct (Hr (or_intror Hab) Ht) as [H1 H2].
  destruct (DmpRoundtrip.DmpRoundtrip.update_replays a b l c c1) as (p & Hp & Happ); try done.
  assert (patch_of a b = p) as He by (unfold patch_of, patch_text; fold c; by rewrite Hp).
  split; [unfold makes_patch, patch_text; fold c; by rewrite Hp, He|]. unfold patch_apply. by rewrite He, Happ.
Qed.
End patches.

(** ** Reading an object *)

(** [Object::get()] *)
Definition get (o : Object) : bytes := o_head o.

Section revisions.
Context `{Clock}.

(** The loop of [Object::get(revision)]: it breaks after the diff asked for,
    and falls out with the last text when there is none. *)
Fixpoint get_loop (revision : ObjID) (l : list Diff) (res : bytes) : outcome bytes :=
  match l with
  | [] => Ret res
  | d :: l =>
      match patch_apply (d_content d) res with
      | Ret res => if decide (d_id d = revision) then Ret res else get_loop revision l res
      | e => e
      end
  end.

Definition get_revision (revision : ObjID) (o : Object) : outcome bytes :=
  get_loop revision (o_diffs o) [].

Fixpoint has_diff_loop (id : ObjID) (l : list Diff) : bool :=
  match l with
  | [] => false
  | d :: l => if decide (d_id d = id) then true else has_diff_loop id l
  end.

Definition has_diff (id : ObjID) (o : Object) : bool := has_diff_loop id (o_diffs o).

Definition create_from_diffs : bool := false.
End revisions.

(** ** Serialization *)

(** What [serialize] of Diff and Object lists, in order. *)
Record diff_image := DiffImage {
  di_id : ObjID;
  di_snapshot : ObjID;
  di_content : bytes;
  di_time : ptime;
  di_prev : ObjID;
}.

Record object_image := ObjectImage {
  oi_id : ObjID;
  oi_master : ObjID;
  oi_diffs : list diff_image;
  oi_head : bytes;
}.

Definition serialize_diff (d : Diff) : diff_image :=
  DiffImage (d_id d) (d_snapshot d) (d_content d) (d_time d) (d_prev d).

(** Loading creates a [Diff()] and overwrites the serialized members. *)
Definition deserialize_diff (i : diff_image) : Diff :=
  MkDiff (di_id i) 0 [] (di_content i) (di_time i) (di_snapshot i) (di_prev i).

Definition serialize (o : Object) : object_image :=
  ObjectImage (o_id o) (o_master o) (map serialize_diff (o_diffs o)) (o_head o).

Definition deserialize (i : object_image) (o : Object) : Object :=
  MkObject (oi_id i) (oi_master i) (o_db_id o) (o_db_type o) (o_snapshots o)
    (map deserialize_diff (oi_diffs i)) (oi_head i).

Class Archive := {
  (** [text_oarchive oa(os); oa << *obj; os.str()] *)
  text_oarchive : object_image → bytes;
  (** [text_iarchive ia(is); ia >> *obj] over the members given: [None] when it
      throws [archive_exception], with the members as far as it had read *)
  text_iarchive : bytes → object_image → bool * object_image;
}.

Class ArchiveLaw `{Archive} :=
  text_iarchive_oarchive i j : text_iarchive (text_oarchive i) j = (true, i).

(** ** Lemmas *)

Lemma serialize_deserialize i o : serialize (deserialize i o) = i.
Proof.
  destruct i as [i1 i2 ds h]. unfold serialize, deserialize. simpl. f_equal.
  rewrite map_map. rewrite <-map_id. apply map_ext. by intros [].
Qed.

(** Diffs as [Diff_new] and loading make them. *)
Definition plain_diff (d : Diff) : Prop := d_db_id d = 0%Z ∧ d_db_type d = [].

Lemma deserialize_serialize o o' :
  Forall plain_diff (o_diffs o) →
  deserialize (serialize o) o' =
    MkObject (o_id o) (o_master o) (o_db_id o') (o_db_type o') (o_snapshots o') (o_diffs o) (o_head o).
Proof.
  intros Hd. unfold deserialize, serialize. simpl. f_equal. rewrite map_map.
  induction Hd as [|d l [H1 H2] _ IH]; [done|]. simpl. rewrite IH. f_equal.
  destruct d; simpl in *; subst. done.
Qed.

Lemma has_diff_loop_spec i l : has_diff_loop i l = true ↔ i ∈ map d_id l.
Proof.
  induction l as [|d l IH]; simpl; [set_solver|]. rewrite elem_of_cons.
  case_decide; naive_solver.
Qed.

(** ** Instances to compute with *)

(** A clock by which no diff is late. *)
Definition example_clock : Clock := {| clock_make _ _ := []; clock_apply _ _ := [] |}.

(** Archives that are the bits of a number. *)
Module ExampleArchive.
Definition diff_tuple (d : diff_image) := (di_id d, di_snapshot d, di_content d, di_time d, di_prev d).
Definition of_diff_tuple (t : ObjID * ObjID * bytes * ptime * ObjID) : diff_image :=
  let '(i, s, c, t, p) := t in DiffImage i s c t p.
#[export] Instance diff_image_eq_dec : EqDecision diff_image.
Proof. solve_decision. Defined.
#[export] Instance diff_image_countable : Countable diff_image.
Proof. apply (inj_countable' diff_tuple of_diff_tuple). by intros []. Defined.

Definition image_tuple (i : object_image) := (oi_id i, oi_master i, oi_diffs i, oi_head i).
Definition of_image_tuple (t : ObjID * ObjID * list diff_image * bytes) : object_image :=
  let '(i, m, d, h) := t in ObjectImage i m d h.
#[export] Instance image_eq_dec : EqDecision object_image.
Proof. solve_decision. Defined.
#[export] Instance image_countable : Countable object_image.
Proof. apply (inj_countable' image_tuple of_image_tuple). by intros []. Defined.

Fixpoint bits (p : positive) : bytes :=
  match p with xH => [] | xO p => "0"%char :: bits p | xI p => "1"%char :: bits p end.
Fixpoint of_bits (l : bytes) : positive :=
  match l with [] => xH | c :: l => if decide (c = "0"%char) then xO (of_bits l) else xI (of_bits l) end.
Lemma of_bits_bits p : of_bits (bits p) = p.
Proof. induction p; simpl; by rewrite ?IHp. Qed.

Definition archive : Archive := {|
  text_oarchive i := bits (encode i);
  text_iarchive b j := match decode (of_bits b) with Some i => (true, i) | None => (false, j) end;
|}.

Lemma archive_law : ArchiveLaw (H := archive).
Proof. intros i j. simpl. by rewrite of_bits_bits, decode_encode. Qed.
End ExampleArchive.
