(* ===== verification/ModuleManager.v ===== *)
(** * module_manager.h, module_manager.cc, plugins/localstorage.h

    The module manager owns the plugins and the signals they connect to.  A
    plugin object is a handle; what its virtual functions do is the record
    [LocalStorage], whose defaults are those of the base class.  The slots of a
    signal are a list of handles in the order of connection. *)

From S2P Require Import Prelude Crypto KvStore Db.
Local Open Scope prog_scope.

(** ** plugins/localstorage.h *)
Module LocalStorage.
Inductive StorageType := PLAIN | BINARY.

#[export] Instance StorageType_eq_dec : EqDecision StorageType.
Proof. solve_decision. Defined.

Section base.
Context {W : Type}.

(** class LocalStorage. A [std::string&] or [KV_ResPtr&] parameter is
    threaded; a [DiffPtr], [SnapshotPtr] or [ObjPtr] to fill is [None] when
    null. *)
Record LocalStorage := Plugin {
  getName : bytes;
  getType : StorageType;
  initialise : M W bool;
  db_store_snapshot : Snapshot → M W bool;
  db_store_diff : Diff → M W bool;
  db_store_obj : Object → M W bool;
  db_remove : ObjID → M W bool;
  db_get_snapshot : ObjID → option Snapshot → M W (bool * option Snapshot);
  db_get_diff : ObjID → option Diff → M W (bool * option Diff);
  db_get_obj : ObjID → option Object → M W (bool * option Object);
  plg_kv_put : bytes → bytes → M W bool;
  plg_kv_get : bytes → KV_ResPtr → M W (bool * KV_ResPtr);
  plg_kv_remove : bytes → M W bool;
  plg_store_file : bytes → bytes → M W (bool * bytes);
  plg_get_file : bytes → bytes → M W (bool * bytes);
  plg_remove_file : bytes → M W bool;
  plg_get_block : bytes → option bytes → M W (bool * option bytes);
}.

(** The base class: every operation a plugin does not override. *)
Definition base (name : bytes) (type : StorageType) (init : M W bool) : LocalStorage := {|
  getName := name;
  getType := type;
  initialise := init;
  db_store_snapshot _ := ret false;
  db_store_diff _ := ret false;
  db_store_obj _ := ret false;
  db_remove _ := ret false;
  db_get_snapshot _ res := ret (false, res);
  db_get_diff _ res := ret (false, res);
  db_get_obj _ res := ret (false, res);
  plg_kv_put _ _ := ret false;
  plg_kv_get _ res := ret (false, res);
  plg_kv_remove _ := ret false;
  plg_store_file _ res := ret (false, res);
  plg_get_file _ res := ret (false, res);
  plg_remove_file _ := ret false;
  plg_get_block _ res := ret (false, res);
|}.

(** [kv_get_unique]: the null [_res] is passed to the plugin's [kv_get];
    [operator[]] of the map gives an empty string for a missing key. *)
Definition kv_get_unique (this : LocalStorage) (key res : bytes) : M W (bool * bytes) :=
  let! r := plg_kv_get this key None in
  match r with
  | (false, _) => ret (false, res)
  | (true, Some m) => ret (true, default [] (m !! key))
  | (true, None) => undef
  end.
End base.
Arguments LocalStorage : clear implicits.
End LocalStorage.

(** ** module_manager.h *)
Module ModuleManager.
Import LocalStorage.

Section combiner.
Context {W : Type}.

(** [res_check]: every slot is called, the result says whether one was
    true. *)
Fixpoint res_check (slots : list (M W bool)) (state : bool) : M W bool :=
  match slots with
  | [] => ret state
  | slot :: slots => let! b := slot in res_check slots (if b then true else state)
  end.

(** The same with a reference parameter, which the slots share. *)
Fixpoint res_check_out {R} (slots : list (R → M W (bool * R))) (state : bool) (res : R)
    : M W (bool * R) :=
  match slots with
  | [] => ret (state, res)
  | slot :: slots =>
      let! r := slot res in res_check_out slots (if fst r then true else state) (snd r)
  end.

(** [for(it = begin; it != end; it++) if(it->...) return true;
    return false;] *)
Fixpoint first_true (l : list (M W bool)) : M W bool :=
  match l with
  | [] => ret false
  | m :: l => if! m then ret true else first_true l
  end.

Fixpoint first_true_out {R} (l : list (R → M W (bool * R))) (res : R) : M W (bool * R) :=
  match l with
  | [] => ret (false, res)
  | m :: l => let! r := m res in
              if fst r then ret (true, snd r) else first_true_out l (snd r)
  end.
End combiner.

(** The members: the slots of each signal and the plugins created. *)
Record modules (P G : Type) := Modules {
  sig_kv_put : list P;
  sig_kv_get : list P;
  sig_kv_remove : list P;
  sig_get_block : list P;
  sig_store_file : list P;
  sig_get_file : list P;
  sig_remove_file : list P;
  _localstorages : list P;
  _utils : list G;
}.
Arguments Modules {P G}.
Arguments sig_kv_put {P G}. Arguments sig_kv_get {P G}. Arguments sig_kv_remove {P G}.
Arguments sig_get_block {P G}. Arguments sig_store_file {P G}. Arguments sig_get_file {P G}.
Arguments sig_remove_file {P G}. Arguments _localstorages {P G}. Arguments _utils {P G}.

(** [ModuleManager()]: no slots, no plugins. *)
Definition empty {P G} : modules P G := Modules [] [] [] [] [] [] [] [] [].

(** The slots FFStore::initialise and Blockstore::initialise connect. *)
Definition connect_kv {P G} (p : P) (m : modules P G) : modules P G :=
  Modules (sig_kv_put m ++ [p]) (sig_kv_get m ++ [p]) (sig_kv_remove m ++ [p])
    (sig_get_block m) (sig_store_file m) (sig_get_file m) (sig_remove_file m)
    (_localstorages m) (_utils m).
Definition connect_files {P G} (p : P) (m : modules P G) : modules P G :=
  Modules (sig_kv_put m) (sig_kv_get m) (sig_kv_remove m)
    (sig_get_block m ++ [p]) (sig_store_file m ++ [p]) (sig_get_file m ++ [p])
    (sig_remove_file m ++ [p]) (_localstorages m) (_utils m).

Definition push_localstorage {P G} (p : P) (m : modules P G) : modules P G :=
  Modules (sig_kv_put m) (sig_kv_get m) (sig_kv_remove m)
    (sig_get_block m) (sig_store_file m) (sig_get_file m) (sig_remove_file m)
    (_localstorages m ++ [p]) (_utils m).
Definition push_util {P G} (g : G) (m : modules P G) : modules P G :=
  Modules (sig_kv_put m) (sig_kv_get m) (sig_kv_remove m)
    (sig_get_block m) (sig_store_file m) (sig_get_file m) (sig_remove_file m)
    (_localstorages m) (_utils m ++ [g]).
End ModuleManager.

(** A program state [W] with a module manager in it, the plugins being [P]
    (local storages) and [G] (utilities). *)
Class HasModules (W P G : Type) := {
  mods : W → ModuleManager.modules P G;
  set_mods : ModuleManager.modules P G → W → W;
  plg : P → LocalStorage.LocalStorage W;
  util_initialise : G → M W bool;
}.

Module Manager.
Import LocalStorage ModuleManager.
Section ops.
Context {W P G : Type} `{HM : HasModules W P G}.
Implicit Types (w : W).

(** ** The signals *)
Definition kv_put (key value : bytes) : M W bool := λ w,
  res_check (map (λ p, plg_kv_put (plg p) key value) (sig_kv_put (mods w))) false w.
Definition kv_get (key : bytes) (value : KV_ResPtr) : M W (bool * KV_ResPtr) := λ w,
  res_check_out (map (λ p, plg_kv_get (plg p) key) (sig_kv_get (mods w))) false value w.
Definition kv_remove (key : bytes) : M W bool := λ w,
  res_check (map (λ p, plg_kv_remove (plg p) key) (sig_kv_remove (mods w))) false w.
Definition get_block (i : bytes) (res : option bytes) : M W (bool * option bytes) := λ w,
  res_check_out (map (λ p, plg_get_block (plg p) i) (sig_get_block (mods w))) false res w.
Definition store_file (path res : bytes) : M W (bool * bytes) := λ w,
  res_check_out (map (λ p, plg_store_file (plg p) path) (sig_store_file (mods w))) false res w.
Definition get_file (i res : bytes) : M W (bool * bytes) := λ w,
  res_check_out (map (λ p, plg_get_file (plg p) i) (sig_get_file (mods w))) false res w.
Definition remove_file (i : bytes) : M W bool := λ w,
  res_check (map (λ p, plg_remove_file (plg p) i) (sig_remove_file (mods w))) false w.

(** ** The iterations over [_localstorages] *)
Definition plain (f : LocalStorage W → M W bool) : M W bool := λ w,
  first_true (map (λ p, if decide (getType (plg p) = PLAIN) then f (plg p) else ret false)
                  (_localstorages (mods w))) w.
Definition plain_out {R} (f : LocalStorage W → R → M W (bool * R)) (res : R) : M W (bool * R) := λ w,
  first_true_out (map (λ p res, if decide (getType (plg p) = PLAIN) then f (plg p) res
                                else ret (false, res))
                      (_localstorages (mods w))) res w.

Definition db_store_snapshot (ss : Snapshot) := plain (λ it, db_store_snapshot it ss).
Definition db_store_diff (diff : Diff) := plain (λ it, db_store_diff it diff).
Definition db_store_obj (obj : Object) := plain (λ it, db_store_obj it obj).
Definition db_remove (i : ObjID) := plain (λ it, db_remove it i).
Definition db_get_snapshot (i : ObjID) := plain_out (λ it, db_get_snapshot it i).
Definition db_get_diff (i : ObjID) := plain_out (λ it, db_get_diff it i).
Definition db_get_obj (i : ObjID) := plain_out (λ it, db_get_obj it i).

Definition kv_get_unique (key res : bytes) : M W (bool * bytes) := λ w,
  first_true_out (map (λ p, kv_get_unique (plg p) key) (_localstorages (mods w))) res w.

(** The statistics calls are stubs. *)
Definition kv_get_stats {R} (key : bytes) (res : R) : M W (bool * R) := ret (false, res).
Definition kv_get_unsuccessful {R} (n : Z) (res : R) : M W (bool * R) := ret (false, res).
Definition kv_get_unchecked_since {R} (t : Z) (res : R) : M W (bool * R) := ret (false, res).

Fixpoint get_ls_plugin_loop (name : bytes) (l : list P) : option P :=
  match l with
  | [] => None
  | x :: l => if decide (getName (plg x) = name) then Some x else get_ls_plugin_loop name l
  end.
Definition get_ls_plugin (name : bytes) : M W (option P) :=
  gets (λ w, get_ls_plugin_loop name (_localstorages (mods w))).

(** ** Initialisation *)

(** [loadPlugin] is what the pugg kernel answers for a path;
    [PluginManager::loadPlugin] passes it on. *)
Definition loadPlugin (kernel_loadPlugin : bytes → M W bool) (name path wd : bytes) : M W bool :=
  if! kernel_loadPlugin path then ret true else ret false.

Fixpoint load_modules (kernel_loadPlugin : bytes → M W bool) (names : list bytes) : M W bool :=
  match names with
  | [] => ret true
  | n :: names =>
      if! loadPlugin kernel_loadPlugin n ("./"%string ++ n ++ ".so"%string) n
      then load_modules kernel_loadPlugin names else ret false
  end.

Fixpoint create_localstorages (drivers : list P) : M W bool :=
  match drivers with
  | [] => ret true
  | p :: drivers =>
      if! initialise (plg p) then
        modify (λ w, set_mods (push_localstorage p (mods w)) w) ;;; create_localstorages drivers
      else ret false
  end.

Fixpoint create_utils (drivers : list G) : M W bool :=
  match drivers with
  | [] => ret true
  | g :: drivers =>
      if! util_initialise g then
        modify (λ w, set_mods (push_util g (mods w)) w) ;;; create_utils drivers
      else ret false
  end.

(** [names] is [ConfigManager::modules()], [ls_drivers] and [u_drivers]
    what the kernel's servers list once the libraries are loaded. *)
Definition init (kernel_loadPlugin : bytes → M W bool) (names : list bytes)
    (ls_drivers : W → list P) (u_drivers : W → list G) : M W bool :=
  if! load_modules kernel_loadPlugin names then
    let! ls := gets ls_drivers in
    if! create_localstorages ls then
      let! us := gets u_drivers in create_utils us
    else ret false
  else ret false.

#[export] Instance mm_kv : KvStore W := {|
  KvStore.kv_put := kv_put;
  KvStore.kv_get := kv_get;
  KvStore.kv_remove := kv_remove;
|}.
End ops.
End Manager.

(** ** The combiner *)
Section combiner_laws.
Context {W : Type}.
Implicit Types (slots : list (M W bool)) (w : W).
Import ModuleManager.

(** Reference: call every slot, then look at the answers. *)
Fixpoint call_all slots : M W (list bool) :=
  match slots with
  | [] => ret []
  | s :: slots => let! b := s in let! bs := call_all slots in ret (b :: bs)
  end.

(** [res_check] calls every slot, whatever the others answered, and
    answers with the disjunction; a throwing slot ends the call. *)
Theorem res_check_all slots state w :
  res_check slots state w = (let! bs := call_all slots in ret (state || existsb (λ b, b) bs)) w.
Proof.
  revert state w. induction slots as [|s slots IH]; intros state w; simpl.
  { rewrite bind_ret. simpl. by rewrite orb_false_r. }
  rewrite bind_assoc. unfold bind at 1 2. destruct (s w) as [[b|e|] w1]; [|done..].
  rewrite IH, bind_assoc. unfold bind. destruct (call_all slots w1) as [[bs|e|] w2]; [|done..].
  unfold ret. do 2 f_equal. simpl. by destruct b, state.
Qed.

Lemma res_check_snoc slots s st w b w1 c w2 :
  res_check slots st w = (Ret b, w1) → s w1 = (Ret c, w2) →
  res_check (slots ++ [s]) st w = (Ret (b || c), w2).
Proof.
  revert st w. induction slots as [|m slots IH]; intros st w Hs Hm; simpl in *.
  - unfold ret in Hs. simplify_eq. rewrite (bind_run _ _ _ _ _ Hm). unfold ret. by destruct b, c.
  - apply bind_inv in Hs as (d & w0 & Hd & Hs). rewrite (bind_run _ _ _ _ _ Hd). by apply IH.
Qed.

Lemma res_check_out_snoc {R} (slots : list (R → M W (bool * R))) s st r w b r1 w1 c r2 w2 :
  res_check_out slots st r w = (Ret (b, r1), w1) → s r1 w1 = (Ret (c, r2), w2) →
  res_check_out (slots ++ [s]) st r w = (Ret (b || c, r2), w2).
Proof.
  revert st r w. induction slots as [|m slots IH]; intros st r w Hs Hm; simpl in *.
  - unfold ret in Hs. simplify_eq. rewrite (bind_run _ _ _ _ _ Hm). simpl. unfold ret. by destruct b, c.
  - apply bind_inv in Hs as (d & w0 & Hd & Hs). rewrite (bind_run _ _ _ _ _ Hd). by apply IH.
Qed.

(** the iterations over the plugins stop at the first that answers true:
    the plugins before it are called in order, those after it never. *)
Theorem first_true_stops pre m post w w1 w2 :
  first_true pre w = (Ret false, w1) → m w1 = (Ret true, w2) →
  first_true (pre ++ m :: post) w = (Ret true, w2).
Proof.
  revert w. induction pre as [|x pre IH]; intros w Hpre Hm; simpl in *.
  - unfold ret in Hpre. simplify_eq. by rewrite (bind_run _ _ _ _ _ Hm).
  - apply bind_inv in Hpre as (b & w0 & Hx & Hpre). rewrite (bind_run _ _ _ _ _ Hx).
    destruct b; [by unfold ret in Hpre|]. by apply IH.
Qed.
End combiner_laws.

Lemma first_true_stops_witness :
  ModuleManager.first_true
    [λ n, (Ret false, S n); λ n, (Ret true, S n); λ n : nat, (Throw out_of_range, S n)] 0 = (Ret true, 2).
Proof.
  apply (first_true_stops [λ n, (Ret false, S n)] (λ n, (Ret true, S n))
    [λ n, (Throw out_of_range, S n)] 0 1 2); reflexivity.
Defined.

Section manager_laws.
Context {W P G : Type} `{HM : HasModules W P G}.
Import LocalStorage ModuleManager.

(** With a second storage connected, [kv_get]'s answer is true when either
    slot's was, but the result is always the last slot's. *)
Lemma kv_get_two w p q key value b r1 w1 c r2 w2 :
  sig_kv_get (mods w) = [p; q] →
  plg_kv_get (plg p) key value w = (Ret (b, r1), w1) →
  plg_kv_get (plg q) key r1 w1 = (Ret (c, r2), w2) →
  Manager.kv_get key value w = (Ret (b || c, r2), w2).
Proof.
  intros Hs Hp Hq. unfold Manager.kv_get. rewrite Hs. apply (res_check_out_snoc [_] _ _ _ _ _ r1 w1); [|done].
  simpl. rewrite (bind_run _ _ _ _ _ Hp). simpl. unfold ret. by destruct b.
Qed.

(** A plugin that overrides nothing answers false and changes nothing, so
    the [db_] calls of a manager with only such plugins do nothing. *)
Lemma plain_base f w :
  (∀ p, p ∈ _localstorages (mods w) → ∀ w, f (plg p) w = (Ret false, w)) →
  Manager.plain f w = (Ret false, w).
Proof.
  unfold Manager.plain. generalize w at 3 4 as w'. intros w' Hf.
  induction (_localstorages (mods w)) as [|p l IH]; [done|]. simpl.
  assert (Hp : (if decide (getType (plg p) = PLAIN) then f (plg p) else ret false) w' = (Ret false, w')).
  { case_decide; [|done]. apply Hf. by left. }
  rewrite (bind_run _ _ _ _ _ Hp). apply IH. intros q Hq. apply Hf. by right.
Qed.
End manager_laws.

(** ** One storage connected

    When a single plugin is connected to the key-value signals, as in the
    builds of this repository, where only the flat file store connects to
    them, the signals keep the contract of its store.  The store's state is a
    part of the program state, read with [get] and replaced with [set]. *)
Section single.
Context {W P G S : Type} `{HM : HasModules W P G} `{HD : Digest} `{HS : KvStore S} {L : KvLaws S}.
Context (get : W → S) (set : S → W → W) (p : P).
Context (get_set : ∀ s w, get (set s w) = s) (set_get : ∀ w, set (get w) w = w)
  (mods_set : ∀ s w, mods (set s w) = mods w).
Import LocalStorage ModuleManager.

(** The plugin's operations are the store's. *)
Context (Hput : ∀ k v, plg_kv_put (plg p) k v = zoom get set (KvStore.kv_put k v))
  (Hget : ∀ k r, plg_kv_get (plg p) k r = zoom get set (KvStore.kv_get k r))
  (Hremove : ∀ k, plg_kv_remove (plg p) k = zoom get set (KvStore.kv_remove k)).

Definition single (w : W) : Prop :=
  sig_kv_put (mods w) = [p] ∧ sig_kv_get (mods w) = [p] ∧ sig_kv_remove (mods w) = [p].

Lemma single_put w k v : single w →
  Manager.kv_put k v w = zoom get set (KvStore.kv_put k v) w.
Proof.
  intros (H1 & _ & _). unfold Manager.kv_put. rewrite H1. simpl. rewrite Hput.
  unfold bind. destruct (zoom _ _ _ w) as [[[]|e|] w']; done.
Qed.

Lemma single_get w k r : single w →
  Manager.kv_get k r w = zoom get set (KvStore.kv_get k r) w.
Proof.
  intros (_ & H1 & _). unfold Manager.kv_get. rewrite H1. simpl. rewrite Hget.
  unfold bind. destruct (zoom _ _ _ w) as [[[[] ?]|e|] w']; done.
Qed.

Lemma single_remove w k : single w →
  Manager.kv_remove k w = zoom get set (KvStore.kv_remove k) w.
Proof.
  intros (_ & _ & H1). unfold Manager.kv_remove. rewrite H1. simpl. rewrite Hremove.
  unfold bind. destruct (zoom _ _ _ w) as [[[]|e|] w']; done.
Qed.

Lemma single_set s w : single w → single (set s w).
Proof. unfold single. by rewrite mods_set. Qed.

#[export] Instance single_laws : @KvLaws W HD Manager.mm_kv.
Proof.
  refine {| kv_ok := kv_ok; kv_refines w m := single w ∧ kv_refines (get w) m;
            kv_ok_short := kv_ok_short |}.
  - intros w m k v [Hw HR] Hk Hv. destruct (kv_put_ok (get w) m k v HR Hk Hv) as (s & Hs & HR').
    exists (set s w). simpl. rewrite single_put by done. unfold zoom. rewrite Hs, get_set.
    auto using single_set.
  - intros w m k [Hw HR] Hk Hm. destruct (kv_remove_present (get w) m k HR Hk Hm) as (s & Hs & HR').
    exists (set s w). simpl. rewrite single_remove by done. unfold zoom. rewrite Hs, get_set.
    auto using single_set.
  - intros w m k [Hw HR] Hk Hm. simpl. rewrite single_remove by done. unfold zoom.
    by rewrite (kv_remove_absent (get w) m), set_get.
  - intros w m k r [Hw HR] Hk Hm. simpl. rewrite single_get by done. unfold zoom.
    by rewrite (kv_get_absent (get w) m), set_get.
  - intros w m k r [Hw HR] Hk Hm. destruct (kv_get_present (get w) m k r HR Hk Hm) as (h & v & Hh & Hv & Hg).
    exists h, v. simpl. rewrite single_get by done. unfold zoom. by rewrite Hg, set_get.
Defined.
End single.
