(* ===== verification/FFStore.v ===== *)
(** * ffstore.cc: the flat file store

    The plugin that serves the key-value signals.  A value is a file named by
    its digest under [_data_dir]; a key is a directory under [_link_dir] with
    one symbolic link per value put under it. *)

From S2P Require Import Prelude Crypto FileSystem KvStore StorePaths ModuleManager.
Local Open Scope prog_scope.

Module FFStore.

(** The members of class FFStore. *)
Record ffstore := FF {
  _path : bytes;
  _link_dir : bytes;
  _data_dir : bytes;
}.

Section ops.
Context `{Digest} `{FileSystem} (this : ffstore).

Definition store_block (content : bytes) : M fs bool :=
  let hash := Crypto.hex_hash content in
  let! hp := lift_outcome (hash_to_path hash) in
  if! ensure_directories (remove_filename (_data_dir this ++ hp)) then
    write_file (_data_dir this ++ hp) content
  else ret false.

Definition kv_put (_key value : bytes) : M fs bool :=
  let key := validate_key _key in
  let hash := Crypto.hex_hash value in
  if! store_block value then
    let! hp := lift_outcome (hash_to_path key) in
    if! ensure_directories (remove_filename (_link_dir this ++ hp ++ "/x"%string)) then
      let symlink := _link_dir this ++ hp ++ "/"%string ++ hash in
      let! e := gets (fs_exists symlink) in
      if e then ret true else
        let! dp := lift_outcome (hash_to_path hash) in
        fs_create_symlink (_data_dir this ++ dp) symlink ;;; ret true
    else ret false
  else ret false.

(** The loop body returns at the first directory entry; with no entry the
    function ends without [return], which is undefined for a function that
    returns [bool]. *)
Definition kv_get_entries (dir : list bytes) (res : KV_ResMap) : M fs (bool * KV_ResPtr) :=
  match dir with
  | [] => undef
  | p :: _ =>
      let! file := gets (ifs_open p) in
      match file with
      | None => ret (false, Some res)
      | Some contents =>
          let! size := fs_file_size p in
          let cont := take (Z.to_nat (uint32 size)) contents in
          ret (true, Some (<[filename p := cont]> res))
      end
  end.

Definition kv_get (_key : bytes) (res : KV_ResPtr) : M fs (bool * KV_ResPtr) :=
  let key := validate_key _key in
  let res := ∅ in
  try_catch
    (let! hp := lift_outcome (hash_to_path key) in
     let mid_d := _link_dir this ++ hp in
     let! d := gets (fs_is_directory mid_d) in
     if d then
       let! dir := fs_directory mid_d in
       kv_get_entries dir res
     else ret (false, Some res))
    (λ e, match e with filesystem_error => Some (ret (false, Some res)) | _ => None end).

Fixpoint remove_each (dir : list bytes) : M fs bool :=
  match dir with
  | [] => ret true
  | p :: dir => if! fs_remove p then remove_each dir else ret false
  end.

Definition kv_remove (_key : bytes) : M fs bool :=
  let key := validate_key _key in
  let! hp := lift_outcome (hash_to_path key) in
  let! n := fs_remove_all (_link_dir this ++ hp) in
  if (n =? 0)%Z then
    let! dir := fs_directory (_link_dir this ++ hp) in
    if! remove_each dir then
      if! fs_remove (_link_dir this ++ hp) then ret true else ret false
    else ret false
  else ret true.
End ops.

(** ** Initialisation *)
Section initialise.
Context `{FileSystem} {P G : Type}.

(** What [initialise] works on: the signals of the module manager, the
    files and the object's members. *)
Record init_state := Init {
  st_mods : ModuleManager.modules P G;
  st_fs : fs;
  st_this : ffstore;
}.

Definition on_fs {A} (m : M fs A) : M init_state A :=
  zoom st_fs (λ σ s, Init (st_mods s) σ (st_this s)) m.
Definition set_members (f : ffstore → ffstore) : M init_state () :=
  modify (λ s, Init (st_mods s) (st_fs s) (f (st_this s))).

(** [me] is the plugin, [config] its part of the configuration:
    [_config.get(key, default)] is [default] when the key is not there.
    When [get_config] fails the call only logs, and [config] is empty. *)
Definition initialise (me : P) (datadir : bytes) (config : bytes → option bytes) : M init_state bool :=
  modify (λ s, Init (ModuleManager.connect_kv me (st_mods s)) (st_fs s) (st_this s)) ;;;
  let path := datadir ++ "/ffstore"%string in
  set_members (λ t, FF path (_link_dir t) (_data_dir t)) ;;;
  if! on_fs (make_directory path) then
    let path := path ++ "/"%string in
    let link := default (path ++ "link"%string) (config "linkdir"%string) in
    set_members (λ t, FF path link (_data_dir t)) ;;;
    if! on_fs (make_directory link) then
      let data := default (path ++ "raw"%string) (config "datadir"%string) in
      set_members (λ t, FF path (link ++ "/"%string) data) ;;;
      if! on_fs (make_directory data) then
        set_members (λ t, FF path (link ++ "/"%string) (data ++ "/"%string)) ;;;
        ret true
      else ret false
    else ret false
  else ret false.
End initialise.

#[export] Instance ff_kv `{Digest} `{FileSystem} (this : ffstore) : KvStore fs := {|
  KvStore.kv_put := kv_put this;
  KvStore.kv_get := kv_get this;
  KvStore.kv_remove := kv_remove this;
|}.

(** ** Refinement *)

(** The directories [initialise] sets up. *)
Definition layout (this : ffstore) (L D : list bytes) : Prop :=
  _link_dir this = path_of L ++ "/"%string ∧ _data_dir this = path_of D ++ "/"%string ∧
  good L ∧ good D ∧ apart L D.

(** What the entry of a value's name under a key is. *)
Definition link_to (D : list bytes) (n : bytes) : node := NLink (path_of (D ++ key_comps n)).

Section refinement.
Context `{Digest} `{FileSystem}.

Record holds (L D : list bytes) (σ : fs) (m : KvSpec.spec) : Prop := {
  holds_blobs : blob_dir σ D (KvSpec.blobs m);
  holds_links : multi_dir (link_to D) σ L (KvSpec.links m);
  holds_names k hs : KvSpec.links m !! k = Some hs →
    hs ≠ ∅ ∧ ∀ h, h ∈ hs → good_key h ∧ good_comp h ∧ is_Some (KvSpec.blobs m !! h);
  holds_small h v : KvSpec.blobs m !! h = Some v → (zlen v < 2 ^ 32)%Z;
}.

Definition key_ok (key : bytes) : Prop := good_key (validate_key key).

Lemma key_ok_short key : (zlen key < 128)%Z → key_ok key.
Proof.
  intros Hk. unfold key_ok, validate_key. destruct (Z.ltb_spec (zlen key) 128); [|lia].
  apply good_key_hash.
Qed.
End refinement.

Section proofs.
Context `{HD : Digest} `{FS : FileSystem} {FL : FsLaws}.
Context (this : ffstore) (L D : list bytes) (Hlay : layout this L D).
Implicit Types (σ : fs) (m : KvSpec.spec).

Lemma store_block_ok σ blobs content :
  blob_dir σ D blobs →
  ∃ σ', store_block this content σ = (Ret true, σ') ∧
    blob_dir σ' D (<[Crypto.hex_hash content := content]> blobs) ∧ frame D σ σ'.
Proof.
  intros HB. destruct Hlay as (_ & HDd & _). unfold store_block.
  pose proof (good_key_hash content) as Hg.
  destruct (hash_to_path_good _ Hg) as (hp & -> & Hhp). rewrite bind_lift_ret, HDd, Hhp.
  destruct (blob_mkdir σ D blobs _ HB Hg) as (σ1 & Hm & Hd & HB1 & Hf1).
  destruct (blob_write σ1 D blobs _ content HB1 Hg Hd) as (σ2 & Hw & HB2 & Hf2).
  rewrite (bind_run _ _ _ _ _ Hm).
  exists σ2. split_and!; [done|done|]. by eapply frame_trans.
Qed.

Lemma link_path B hp k n :
  (path_of B ++ "/"%string) ++ hp = path_of (B ++ key_comps k) →
  (path_of B ++ "/"%string) ++ hp ++ "/"%string ++ n = path_of (B ++ key_comps k ++ [n]).
Proof. intros Hhp. by rewrite app_assoc, Hhp, (app_assoc B), path_of_snoc. Qed.

(** The end of [kv_put]: adding the link, unless it is there. *)
Lemma put_link σ blobs links k h :
  good_key k → good_key h → good_comp h →
  blob_dir σ D blobs → is_Some (blobs !! h) →
  multi_dir (link_to D) σ L (<[k := default ∅ (links !! k)]> links) →
  ∃ σ', (let! e := gets (fs_exists (path_of (L ++ key_comps k ++ [h]))) in
         if e then ret true else
           let! dp := lift_outcome (hash_to_path h) in
           fs_create_symlink (_data_dir this ++ dp) (path_of (L ++ key_comps k ++ [h])) ;;; ret true) σ
        = (Ret true, σ') ∧
    blob_dir σ' D blobs ∧
    multi_dir (link_to D) σ' L (<[k := {[h]} ∪ default ∅ (links !! k)]> links).
Proof.
  intros Hk Hgh Hch HB [v Hv] HL. destruct Hlay as (_ & HDd & HgL & HgD & Hap).
  pose proof (good_app_key L k HgL Hk) as HgLk.
  pose proof (good_snoc _ _ HgLk Hch) as Hg. rewrite <-app_assoc in Hg.
  pose proof (multi_entry _ _ _ _ HL k h Hk Hch) as Hlink.
  pose proof (multi_at _ _ _ _ HL k Hk) as Hdir.
  rewrite lookup_insert_eq in Hlink, Hdir. cbn [from_option id] in Hlink.
  rewrite bind_gets. case_decide as Hin.
  - rewrite (exists_link _ _ (D ++ key_comps h) v); [|done|by apply good_app_key|done|].
    + exists σ. split_and!; [done|done|].
      rewrite subseteq_union_1_L; [done|by apply singleton_subseteq_l].
    + by rewrite (blob_at _ _ _ HB), Hv.
  - rewrite exists_none by done. rewrite app_assoc in Hg, Hlink |- *.
    destruct (hash_to_path_good _ Hgh) as (hp & -> & Hhp). rewrite bind_lift_ret, HDd, Hhp.
    destruct (symlink_ok σ (L ++ key_comps k) h (path_of (D ++ key_comps h)) Hg Hdir Hlink)
      as (σ' & Hrun & Hv').
    rewrite (bind_run _ _ _ _ _ Hrun). exists σ'.
    destruct (multi_add (link_to D) σ σ' L _ k h (default ∅ (links !! k)) HL) as [HL' Hf].
    + done.
    + done.
    + apply lookup_insert_eq.
    + intros q Hq. by rewrite Hv', <-app_assoc by done.
    + rewrite insert_insert_eq in HL'. split_and!; [done| |done]. by eapply frame_blob.
Qed.

Lemma put_ok σ m key value :
  holds L D σ m → key_ok key → (zlen value < 2 ^ 32)%Z →
  ∃ σ', kv_put this key value σ = (Ret true, σ') ∧
        holds L D σ' (KvSpec.put (validate_key key) value m).
Proof.
  intros [HB HL Hn Hsz] Hk Hv. destruct Hlay as (HLd & HDd & HgL & HgD & Hap).
  unfold kv_put. unfold key_ok in Hk. set (k := validate_key key) in *.
  set (h := Crypto.hex_hash value).
  destruct (store_block_ok σ _ value HB) as (σ1 & Hsb & HB1 & Hf1).
  rewrite (bind_run _ _ _ _ _ Hsb). fold h in HB1.
  destruct (hash_to_path_good _ Hk) as (kp & Hkp & Hkp').
  rewrite Hkp, bind_lift_ret.
  change (lit "/x") with (lit "/" ++ lit "x"). rewrite HLd, !(link_path L kp k) by done.
  rewrite (app_assoc L), (remove_filename_ok _ (lit "x"));
    [|apply good_snoc; [by apply good_app_key|by apply (bool_decide_unpack _)]|by destruct L, HgL].
  destruct (multi_mkdir (link_to D) σ1 L (KvSpec.links m) k) as (σ2 & Hmk & HL2 & Hf2);
    [by eapply frame_multi, HL; [|apply apart_sym]|done|]. rewrite (bind_run _ _ _ _ _ Hmk). cbv iota beta.
  assert (HB2 : blob_dir σ2 D (<[h := value]> (KvSpec.blobs m))) by by eapply frame_blob.
  destruct (put_link σ2 _ _ k h Hk (good_key_hash value) (good_comp_hash value) HB2
    ltac:(by rewrite lookup_insert_eq) HL2) as (σ3 & Hrun & HB3 & HL3).
  exists σ3. split; [exact Hrun|]. split; [exact HB3|exact HL3| |].
  2:{ intros h' v'. rewrite blobs_put. intros [[<- <-]|[_ ?]]%lookup_insert_Some; [done|by eapply Hsz]. }
  intros k' hs. rewrite links_put, blobs_put. fold h k. intros Hk'. clear Hkp Hrun.
  assert (Hblob : ∀ x, is_Some (KvSpec.blobs m !! x) → is_Some (<[h:=value]> (KvSpec.blobs m) !! x)).
  { intros x Hx. apply lookup_insert_is_Some'. by right. }
  case_decide.
  - simplify_eq. split; [by apply non_empty_union_L; left; apply non_empty_singleton_L|]. intros x [->%elem_of_singleton|Hx]%elem_of_union.
    + split_and!; [apply good_key_hash|apply good_comp_hash|by rewrite lookup_insert_eq].
    + unfold KvSpec.names in Hx. destruct (KvSpec.links m !! _) as [hs'|] eqn:E; [|by apply not_elem_of_empty in Hx].
      destruct (Hn _ _ E) as [_ Hx']. destruct (Hx' x Hx) as (? & ? & ?). auto.
  - destruct (Hn _ _ Hk') as [? Hx]. split; [done|]. intros x (? & ? & ?)%Hx. auto.
Qed.

(** The path every operation but [kv_put] starts from. *)
Lemma key_dir key :
  key_ok key → ∃ kp, hash_to_path (validate_key key) = Ret kp ∧
    _link_dir this ++ kp = path_of (L ++ key_comps (validate_key key)) ∧
    good (L ++ key_comps (validate_key key)).
Proof.
  intros Hk. destruct Hlay as (HLd & _ & HgL & _). unfold key_ok in Hk.
  destruct (hash_to_path_good _ Hk) as (kp & Hkp & Hkp'). exists kp.
  split_and!; [done|by rewrite HLd|by apply good_app_key].
Qed.

Lemma get_absent σ m key res :
  holds L D σ m → key_ok key → KvSpec.links m !! validate_key key = None →
  kv_get this key res σ = (Ret (false, Some ∅), σ).
Proof.
  intros [HB HL Hn Hsz] Hk Hm. destruct (key_dir key Hk) as (kp & Hkp & Hpath & Hg).
  unfold kv_get. rewrite Hkp. unfold try_catch. rewrite bind_lift_ret, bind_gets, Hpath.
  rewrite is_directory_none; [done|done|]. by rewrite (multi_at _ _ _ _ HL) by done; rewrite Hm.
Qed.

(** An entry of a key's directory is the link of one of its names. *)
Lemma entry_name σ m k e :
  holds L D σ m → good_key k → is_Some (KvSpec.links m !! k) →
  (∃ n, good_comp n ∧ e = path_of ((L ++ key_comps k) ++ [n]) ∧ is_Some (node_at σ e)) →
  ∃ h v, e = path_of ((L ++ key_comps k) ++ [h]) ∧ h ∈ KvSpec.names k m ∧
    good ((L ++ key_comps k) ++ [h]) ∧ good (D ++ key_comps h) ∧
    KvSpec.blobs m !! h = Some v ∧
    node_at σ e = Some (NLink (path_of (D ++ key_comps h))) ∧
    view σ (D ++ key_comps h) = Some (NFile v).
Proof.
  intros [HB HL Hn Hsz] Hk [hs Hhs] (n & Hgn & -> & Hsome).
  destruct Hlay as (_ & _ & HgL & HgD & _).
  pose proof (multi_entry _ _ _ _ HL k n Hk Hgn) as He. rewrite app_assoc in He.
  destruct (Hn _ _ Hhs) as [_ Hnames]. unfold KvSpec.names. rewrite Hhs in He |- *.
  cbn [from_option id] in *. case_decide as Hin; [|by rewrite He in Hsome; destruct Hsome].
  destruct (Hnames n Hin) as (Hgk & _ & [v Hv]). exists n, v.
  split_and!; try done.
  - apply good_snoc; [by apply good_app_key|done].
  - by apply good_app_key.
  - by rewrite (blob_at _ _ _ HB), Hv by done.
Qed.

(** The first entry of the directory is what [kv_get] returns. *)
Lemma get_present σ m key res :
  holds L D σ m → key_ok key → is_Some (KvSpec.links m !! validate_key key) →
  ∃ h v, h ∈ KvSpec.names (validate_key key) m ∧ KvSpec.blobs m !! h = Some v ∧
         kv_get this key res σ = (Ret (true, Some {[h := v]}), σ).
Proof.
  intros HR Hk Hm. destruct (key_dir key Hk) as (kp & Hkp & Hpath & Hg).
  pose proof HR as [HB HL Hn Hsz]. unfold key_ok in Hk. set (k := validate_key key) in *.
  assert (Hd : view σ (L ++ key_comps k) = Some NDir).
  { rewrite (multi_at _ _ _ _ HL) by done. by destruct Hm as [hs ->]. }
  destruct (directory_dir σ _ Hg Hd) as (l & Hl & Hle).
  unfold kv_get. fold k. rewrite Hkp. unfold try_catch.
  rewrite bind_lift_ret, bind_gets, Hpath, is_directory_dir, (bind_run _ _ _ _ _ Hl) by done.
  destruct l as [|e l].
  { exfalso. destruct Hm as [hs Hhs]. destruct (Hn _ _ Hhs) as [Hne Hnames].
    apply set_choose_L in Hne as [h Hh]. destruct (Hnames h Hh) as (_ & Hgh & _).
    apply (not_elem_of_nil (path_of ((L ++ key_comps k) ++ [h]))), Hle.
    exists h. rewrite <-app_assoc, (multi_entry _ _ _ _ HL), Hhs by done. simpl.
    rewrite decide_True by done. eauto. }
  destruct (entry_name σ m k e HR Hk Hm) as (h & v & -> & Hh & Hge & Hgb & Hv & Hlink & Hfile).
  { apply Hle. by left. }
  exists h, v. split_and!; [done|done|]. unfold kv_get_entries.
  rewrite bind_gets, (ifs_open_link _ _ (D ++ key_comps h) v) by done.
  rewrite (bind_run _ _ _ _ _ (file_size_link _ _ (D ++ key_comps h) v Hge Hgb Hlink Hfile)).
  rewrite filename_ok by done. unfold uint32, zlen. rewrite Z.mod_small; [|].
  - by rewrite Nat2Z.id, firstn_all.
  - split; [lia|]. by apply (Hsz h).
Qed.

Lemma remove_present σ m key :
  holds L D σ m → key_ok key → is_Some (KvSpec.links m !! validate_key key) →
  ∃ σ', kv_remove this key σ = (Ret true, σ') ∧
        holds L D σ' (KvSpec.remove (validate_key key) m).
Proof.
  intros [HB HL Hn Hsz] Hk Hm. destruct (key_dir key Hk) as (kp & Hkp & Hpath & Hg).
  unfold key_ok in Hk. set (k := validate_key key) in *. destruct Hlay as (_ & _ & _ & _ & Hap).
  destruct (remove_all_some σ (L ++ key_comps k) NDir Hg) as (n & σ' & Hrun & Hne & Hv).
  { rewrite (multi_at _ _ _ _ HL) by done. by destruct Hm as [hs ->]. }
  exists σ'. unfold kv_remove. fold k. rewrite Hkp, bind_lift_ret, Hpath, (bind_run _ _ _ _ _ Hrun).
  destruct (Z.eqb_spec n 0); [done|]. split; [done|].
  destruct (multi_clear _ _ _ _ _ _ HL Hk Hv) as [HL' Hf].
  split; [by eapply frame_blob|done| |by apply Hsz].
  simpl. intros k' hs [_ Hk']%lookup_delete_Some. by eapply Hn.
Qed.

(** Removing a key that is not there: [remove_all] counts zero, and the
    directory iterator of the second attempt throws. *)
Lemma remove_absent σ m key :
  holds L D σ m → key_ok key → KvSpec.links m !! validate_key key = None →
  kv_remove this key σ = (Throw filesystem_error, σ).
Proof.
  intros [HB HL Hn Hsz] Hk Hm. destruct (key_dir key Hk) as (kp & Hkp & Hpath & Hg).
  assert (Hno : view σ (L ++ key_comps (validate_key key)) = None).
  { by rewrite (multi_at _ _ _ _ HL) by done; rewrite Hm. }
  unfold kv_remove. rewrite Hkp, bind_lift_ret, Hpath.
  rewrite (bind_run _ _ _ _ _ (remove_all_none _ _ Hg Hno)). cbn [Z.eqb].
  exact (bind_throw _ _ _ _ _ (directory_none _ _ Hg Hno)).
Qed.

(** The flat file store implements the contract. *)
#[export] Instance ff_laws : @KvLaws fs HD (ff_kv this).
Proof.
  refine {| kv_ok := key_ok; kv_refines := holds L D; kv_ok_short := key_ok_short |}.
  - intros s m key value HR Hk Hv. exact (put_ok s m key value HR Hk Hv).
  - exact remove_present.
  - exact remove_absent.
  - exact get_absent.
  - exact get_present.
Defined.
End proofs.

(** ** A new store *)
Section new.
Context `{HD : Digest} `{FS : FileSystem} {FL : FsLaws} {P G : Type}.
Implicit Types (s : init_state (P := P) (G := G)) (σ : fs).

Lemma on_fs_run {A} (m : M fs A) s a σ' :
  m (st_fs s) = (Ret a, σ') → on_fs m s = (Ret a, Init (st_mods s) σ' (st_this s)).
Proof. unfold on_fs, zoom. by intros ->. Qed.

(** What three [make_directory]s leave: [ffstore], [link] and [raw]. *)
Definition new_dirs (A : list bytes) σ σ' : Prop :=
  ∀ q, good q → view σ' q =
    if decide (q = A ++ [lit "ffstore"; lit "raw"]) then Some NDir else
    if decide (q = A ++ [lit "ffstore"; lit "link"]) then Some NDir else
    if decide (q = A ++ [lit "ffstore"]) then Some NDir else view σ q.

Lemma new_dir_empty A σ σ' n :
  good A → (∀ q, good q → q `prefix_of` A → view σ q = Some NDir) →
  (∀ q, good q → (A ++ [lit "ffstore"]) `prefix_of` q → view σ q = None) →
  new_dirs A σ σ' → n = lit "link" ∨ n = lit "raw" →
  base_dir σ' (A ++ [lit "ffstore"; n]) ∧
  ∀ r, r ≠ [] → good ((A ++ [lit "ffstore"; n]) ++ r) → view σ' ((A ++ [lit "ffstore"; n]) ++ r) = None.
Proof.
  intros HA Hchain Hnone Hnew Hn.
  assert (Hg : good (A ++ [lit "ffstore"; n])).
  { destruct HA as [Hne HA]. split; [by destruct A|]. apply Forall_app; split; [done|].
    destruct Hn as [->| ->]; apply (bool_decide_unpack _); by vm_compute. }
  assert (Hbelow : ∀ r, r ≠ [] → good ((A ++ [lit "ffstore"; n]) ++ r) →
    view σ' ((A ++ [lit "ffstore"; n]) ++ r) = None).
  { intros r Hr Hgr. rewrite Hnew by done. rewrite <-app_assoc.
    rewrite !decide_False by (intros [=]%(inj (app A)); naive_solver).
    apply Hnone; [by rewrite app_assoc|]. simpl. exists (n :: r). by rewrite <-app_assoc. }
  split; [split|done].
  - done.
  - intros q Hq [Hpre|(r & -> & Hr)]%prefix_app_cases.
    + rewrite Hnew by done. repeat case_decide; [done..|]. by apply Hchain.
    + rewrite Hnew by done. repeat case_decide; try done.
      destruct r as [|x r]; [rewrite app_nil_r in *; by apply Hchain|]. exfalso.
      pose proof (prefix_cons_inv_1 _ _ _ _ Hr) as ->. apply prefix_cons_inv_2 in Hr.
      destruct r as [|y r]; [done|].
      pose proof (prefix_cons_inv_1 _ _ _ _ Hr) as ->. apply prefix_cons_inv_2 in Hr.
      apply prefix_nil_inv in Hr as ->. by destruct Hn as [->| ->].
  - intros q Hq _. destruct q as [|c q].
    + right. rewrite app_nil_r, Hnew by done. destruct Hn as [->| ->];
        repeat case_decide; done.
    + left. by apply Hbelow.
Qed.

Lemma initialise_dirs A σ :
  good A → view σ A = Some NDir →
  (∀ q, good q → (A ++ [lit "ffstore"]) `prefix_of` q → view σ q = None) →
  ∃ σ1 σ2 σ3, make_directory (path_of (A ++ [lit "ffstore"])) σ = (Ret true, σ1) ∧
    make_directory (path_of (A ++ [lit "ffstore"; lit "link"])) σ1 = (Ret true, σ2) ∧
    make_directory (path_of (A ++ [lit "ffstore"; lit "raw"])) σ2 = (Ret true, σ3) ∧
    new_dirs A σ σ3.
Proof.
  intros HA HdA Hnone.
  assert (Hg0 : good (A ++ [lit "ffstore"])).
  { apply good_snoc; [done|apply (bool_decide_unpack _); by vm_compute]. }
  assert (Hg : ∀ n, n = lit "link" ∨ n = lit "raw" → good ((A ++ [lit "ffstore"]) ++ [n])).
  { intros n Hn. apply good_snoc; [done|].
    destruct Hn as [->| ->]; apply (bool_decide_unpack _); by vm_compute. }
  destruct (make_directory_ok σ A (lit "ffstore") Hg0 HdA) as (σ1 & H1 & Hv1).
  { left. by apply Hnone. }
  assert (Hpre : ∀ n, (A ++ [lit "ffstore"]) `prefix_of` ((A ++ [lit "ffstore"]) ++ [n])).
  { intros n. by apply prefix_app_r. }
  destruct (make_directory_ok σ1 (A ++ [lit "ffstore"]) (lit "link")) as (σ2 & H2 & Hv2).
  { auto. } { by rewrite Hv1, decide_True by done. }
  { left. rewrite Hv1, decide_False by (auto || apply snoc_ne). apply Hnone; auto. }
  destruct (make_directory_ok σ2 (A ++ [lit "ffstore"]) (lit "raw")) as (σ3 & H3 & Hv3).
  { auto. }
  { rewrite Hv2, decide_False by (done || by intros ?%eq_sym%snoc_ne).
    by rewrite Hv1, decide_True. }
  { left. rewrite Hv2, decide_False by (auto || by intros [_ [=]]%app_inj_tail).
    rewrite Hv1, decide_False by (auto || apply snoc_ne). apply Hnone; auto. }
  exists σ1, σ2, σ3. rewrite <-!app_assoc in H2, H3. split_and!; [done..|].
  intros q Hq. rewrite Hv3, Hv2, Hv1, <-!app_assoc by done. done.
Qed.

Lemma new_holds A σ σ' :
  good A → (∀ q, good q → q `prefix_of` A → view σ q = Some NDir) →
  (∀ q, good q → (A ++ [lit "ffstore"]) `prefix_of` q → view σ q = None) →
  new_dirs A σ σ' →
  holds (A ++ [lit "ffstore"; lit "link"]) (A ++ [lit "ffstore"; lit "raw"]) σ' KvSpec.empty.
Proof.
  intros HA Hchain Hnone Hnew.
  destruct (new_dir_empty A σ σ' (lit "link")) as [HL HLe]; [by auto..|].
  destruct (new_dir_empty A σ σ' (lit "raw")) as [HD' HDe]; [by auto..|].
  split; [split; [done|]|split; [done|..]|..].
  - intros k Hk. cbn [KvSpec.blobs KvSpec.empty]. rewrite lookup_empty. apply HDe; [done|by apply good_app_key; [apply HD'|]].
  - intros k Hk. cbn [KvSpec.links KvSpec.empty]. rewrite lookup_empty. apply HLe; [done|by apply good_app_key; [apply HL|]].
  - intros k n Hk Hn. cbn [KvSpec.links KvSpec.empty]. rewrite lookup_empty. cbn [from_option id].
    rewrite decide_False by apply not_elem_of_empty. apply HLe; [done|].
    rewrite app_assoc. apply good_snoc; [apply good_app_key; [apply HL|done]|done].
  - intros k hs. simpl. by rewrite lookup_empty.
  - intros h v. simpl. by rewrite lookup_empty.
Qed.

Lemma new_dirs_frame A σ σ' : new_dirs A σ σ' → frame (A ++ [lit "ffstore"]) σ σ'.
Proof.
  intros Hnew q Hq Hn. rewrite Hnew by done.
  assert (Hne : ∀ r, q ≠ A ++ [lit "ffstore"] ++ r).
  { intros r ->. apply Hn. rewrite app_assoc. by apply prefix_app_r. }
  pose proof (Hne [lit "raw"]). pose proof (Hne [lit "link"]). pose proof (Hne []).
  by rewrite !decide_False.
Qed.

Lemma new_apart A : apart (A ++ [lit "ffstore"; lit "link"]) (A ++ [lit "ffstore"; lit "raw"]).
Proof.
  split; intros Hp%prefix_app_inv; apply prefix_cons_inv_2 in Hp;
    by apply prefix_cons_inv_1 in Hp.
Qed.

(** [initialise] under the defaults, in a data directory that has no
    store yet: it connects the three signals, succeeds, and leaves an empty
    store whose directories are apart, having touched nothing outside its
    directory. *)
Lemma initialise_ok A me s :
  good A → (∀ q, good q → q `prefix_of` A → view (st_fs s) q = Some NDir) →
  (∀ q, good q → (A ++ [lit "ffstore"]) `prefix_of` q → view (st_fs s) q = None) →
  ∃ s', initialise me (path_of A) (λ _, None) s = (Ret true, s') ∧
    st_mods s' = ModuleManager.connect_kv me (st_mods s) ∧
    layout (st_this s') (A ++ [lit "ffstore"; lit "link"]) (A ++ [lit "ffstore"; lit "raw"]) ∧
    holds (A ++ [lit "ffstore"; lit "link"]) (A ++ [lit "ffstore"; lit "raw"]) (st_fs s') KvSpec.empty ∧
    frame (A ++ [lit "ffstore"]) (st_fs s) (st_fs s').
Proof.
  intros HA Hchain Hnone.
  destruct (initialise_dirs A (st_fs s) HA) as (σ1 & σ2 & σ3 & H1 & H2 & H3 & Hnew); [auto..|].
  assert (Hp : path_of A ++ "/ffstore"%string = path_of (A ++ [lit "ffstore"])) by by rewrite path_of_snoc.
  assert (Hn : ∀ n, (path_of (A ++ [lit "ffstore"]) ++ "/"%string) ++ n = path_of (A ++ [lit "ffstore"; n])).
  { intros n. change [lit "ffstore"; n] with ([lit "ffstore"] ++ [n]).
    by rewrite (app_assoc A), (path_of_snoc (A ++ _)), <-app_assoc. }
  eexists. unfold initialise. rewrite Hp. unfold set_members, default, from_option. rewrite !Hn. run.
  rewrite (bind_run _ _ _ _ _ (on_fs_run _ (Init _ _ _) _ _ H1)). run.
  rewrite (bind_run _ _ _ _ _ (on_fs_run _ (Init _ _ _) _ _ H2)). run.
  rewrite (bind_run _ _ _ _ _ (on_fs_run _ (Init _ _ _) _ _ H3)). run.
  split; [done|]. simpl. split_and!; [done| |by eapply new_holds|by apply new_dirs_frame].
  assert (Hg : holds (A ++ [lit "ffstore"; lit "link"]) (A ++ [lit "ffstore"; lit "raw"]) σ3 KvSpec.empty)
    by by eapply new_holds.
  split_and!; [done|done|apply Hg|apply Hg|apply new_apart].
Qed.
End new.

(** ** Properties *)
Section properties.
Context `{HD : Digest} `{FS : FileSystem} {FL : FsLaws}.
Context (this : ffstore) (L D : list bytes).
Import KvRun.

(** C2 The flat file store refines the abstract key-value store: from a
    state that holds [m], every sequence of puts, gets and removes answers
    as the abstract store may, and ends in a state that holds what the
    abstract store ends with. Keys are short, or spell ordinary path
    components; values are below 4 GiB. *)
Theorem ffstore_refines σ m os :
  layout this L D → holds L D σ m →
  Forall (λ o, key_ok (op_key o) ∧ (op_size o < 2 ^ 32)%Z) os →
  ∃ m', steps m os (calls (H := ff_kv this) os σ).1 m' ∧
        holds L D (calls (H := ff_kv this) os σ).2 m'.
Proof.
  intros Hlay Hh Hos.
  exact (calls_simulate (HS := ff_kv this) (L := ff_laws this L D Hlay) σ m os Hh Hos).
Qed.

(** What is put under a new key is what comes back, under the name of
    its digest. *)
Theorem put_get_new σ m key value res :
  layout this L D → holds L D σ m → key_ok key → (zlen value < 2 ^ 32)%Z →
  KvSpec.links m !! validate_key key = None →
  ∃ σ', kv_put this key value σ = (Ret true, σ') ∧
    kv_get this key res σ' = (Ret (true, Some {[Crypto.hex_hash value := value]}), σ').
Proof.
  intros Hlay Hh Hk Hv Hnone. destruct (put_ok this L D Hlay σ m key value Hh Hk Hv) as (σ' & Hput & Hh').
  exists σ'. split; [done|].
  destruct (get_present this L D Hlay σ' _ key res Hh' Hk) as (h & v & Hin & Hbl & ->).
  { rewrite links_put, decide_True by done. eauto. }
  rewrite names_put in Hin. unfold KvSpec.names in Hin. rewrite Hnone in Hin.
  apply elem_of_union in Hin as [->%elem_of_singleton|Hin]; [|by apply not_elem_of_empty in Hin].
  rewrite blobs_put, lookup_insert_eq in Hbl. by simplify_eq.
Qed.

(** Removing is not idempotent: once a key is gone, [kv_get] answers
    false, but a second [kv_remove] throws instead of answering. *)
Theorem remove_twice σ m key res :
  layout this L D → holds L D σ m → key_ok key → is_Some (KvSpec.links m !! validate_key key) →
  ∃ σ', kv_remove this key σ = (Ret true, σ') ∧
    kv_get this key res σ' = (Ret (false, Some ∅), σ') ∧
    kv_remove this key σ' = (Throw filesystem_error, σ').
Proof.
  intros Hlay Hh Hk Hm. destruct (remove_present this L D Hlay σ m key Hh Hk Hm) as (σ' & Hr & Hh').
  assert (Hno : KvSpec.links (KvSpec.remove (validate_key key) m) !! validate_key key = None)
    by apply lookup_delete_eq.
  exists σ'. split_and!; [done| |].
  - by eapply get_absent.
  - by eapply remove_absent.
Qed.

(** C36 A key of 128 characters or more is used as it is: one that starts
    with four dots and goes on with [rest] names the path [rest] two
    directories above [_link_dir]; [kv_remove] removes whatever is there. *)
Theorem long_key_escapes rest σ :
  (124 ≤ zlen rest)%Z →
  hash_to_path (validate_key (lit "...." ++ rest)) = Ret ("../../"%string ++ rest) ∧
  ∀ n σ', fs_remove_all (_link_dir this ++ "../../"%string ++ rest) σ = (Ret n, σ') → n ≠ 0%Z →
    kv_remove this (lit "...." ++ rest) σ = (Ret true, σ').
Proof.
  intros Hlen. set (key := lit "...." ++ rest).
  assert (Hval : validate_key key = key).
  { unfold validate_key. destruct (Z.ltb_spec (zlen key) 128); [|done].
    unfold zlen, key in *. rewrite length_app in *. simpl in *. lia. }
  assert (Hp : hash_to_path key = Ret ("../../"%string ++ rest)).
  { rewrite hash_to_path_long; [done|]. unfold key. rewrite length_app. simpl. lia. }
  rewrite Hval. split; [done|]. intros n σ' Hrun Hn. unfold kv_remove.
  rewrite Hval, Hp, bind_lift_ret, (bind_run _ _ _ _ _ Hrun).
  by destruct (Z.eqb_spec n 0).
Qed.
End properties.

(** ** An instance: the store of a new data directory [/d] in memory *)
Module Example.
#[local] Existing Instances example_digest MemFs.mem_fs MemFs.mem_fs_laws.

Definition A : list bytes := [lit "d"].
Definition L : list bytes := A ++ [lit "ffstore"; lit "link"].
Definition D : list bytes := A ++ [lit "ffstore"; lit "raw"].
Definition this : ffstore :=
  FF (path_of (A ++ [lit "ffstore"]) ++ "/"%string) (path_of L ++ "/"%string) (path_of D ++ "/"%string).
Definition bare : MemFs.state := MemFs.set_node A NDir MemFs.empty.
Definition start : MemFs.state :=
  MemFs.set_node D NDir (MemFs.set_node L NDir (MemFs.set_node (A ++ [lit "ffstore"]) NDir bare)).

Lemma A_good : good A.
Proof. apply (bool_decide_unpack _). by vm_compute. Qed.

Lemma bare_at q : good q → node_at (FileSystem := MemFs.mem_fs) bare (path_of q) =
  if decide (q = A) then Some NDir else None.
Proof.
  intros Hq. cbn [node_at MemFs.mem_fs]. rewrite MemFs.lnode_good by done. unfold bare.
  rewrite MemFs.set_node_lookup. by case_decide.
Qed.

Lemma bare_chain q : good q → q `prefix_of` A →
  node_at (FileSystem := MemFs.mem_fs) bare (path_of q) = Some NDir.
Proof.
  intros Hq Hp. rewrite bare_at, decide_True; [done| |done].
  destruct q as [|c q]; [by destruct Hq|]. pose proof (prefix_cons_inv_1 _ _ _ _ Hp) as ->.
  apply prefix_cons_inv_2, prefix_nil_inv in Hp. by subst.
Qed.

Lemma bare_below q : good q → (A ++ [lit "ffstore"]) `prefix_of` q →
  node_at (FileSystem := MemFs.mem_fs) bare (path_of q) = None.
Proof.
  intros Hq Hp. rewrite bare_at, decide_False; [done| |done].
  intros ->. apply prefix_length in Hp. simpl in Hp. lia.
Qed.

Lemma start_holds : holds (H0 := MemFs.mem_fs) L D start KvSpec.empty.
Proof.
  apply (new_holds (FS := MemFs.mem_fs) A bare); [apply A_good|apply bare_chain|apply bare_below|].
  intros q Hq. cbn [node_at MemFs.mem_fs]. rewrite !MemFs.lnode_good by done.
  unfold start. by rewrite !MemFs.set_node_lookup.
Qed.

Lemma this_layout : layout this L D.
Proof.
  split_and!; [done|done|apply (bool_decide_unpack _); by vm_compute..|apply new_apart].
Qed.

Definition ops : list KvRun.op :=
  [KvRun.Put (lit "key") (lit "one"); KvRun.Get (lit "key"); KvRun.Put (lit "key") (lit "two");
   KvRun.Remove (lit "key"); KvRun.Get (lit "key"); KvRun.Remove (lit "key")].

Lemma ops_ok : Forall (λ o, key_ok (KvRun.op_key o) ∧ (KvRun.op_size o < 2 ^ 32)%Z) ops.
Proof. repeat apply Forall_cons_2; try apply Forall_nil_2; (split; [by apply key_ok_short|done]). Qed.

(** What the calls answer, the maps as lists. *)
Definition shown (r : KvRun.reply) : outcome (bool * list (bytes * bytes)) :=
  match r with
  | Ret (b, res) => Ret (b, map_to_list (default ∅ res))
  | Throw e => Throw e
  | Undef => Undef
  end.

Example ops_replies :
  map shown (KvRun.calls (H := ff_kv (H0 := MemFs.mem_fs) this) ops start).1 =
    [Ret (true, []); Ret (true, [(Crypto.hex_hash (lit "one"), lit "one")]);
     Ret (true, []); Ret (true, []); Ret (false, []); Throw filesystem_error].
Proof. vm_compute. reflexivity. Qed.

Lemma ffstore_refines_witness :
  ∃ m', KvRun.steps KvSpec.empty ops (KvRun.calls (H := ff_kv (H0 := MemFs.mem_fs) this) ops start).1 m' ∧
        holds L D (KvRun.calls (H := ff_kv (H0 := MemFs.mem_fs) this) ops start).2 m'.
Proof. exact (ffstore_refines (FS := MemFs.mem_fs) this L D start KvSpec.empty ops this_layout start_holds ops_ok). Defined.

Lemma ok_key : key_ok (lit "key").
Proof. by apply key_ok_short. Qed.

Lemma ok_value : (zlen (lit "value") < 2 ^ 32)%Z.
Proof. done. Qed.

Lemma put_get_new_witness :
  ∃ σ', kv_put (H0 := MemFs.mem_fs) this (lit "key") (lit "value") start = (Ret true, σ') ∧
    kv_get this (lit "key") None σ' =
      (Ret (true, Some {[Crypto.hex_hash (lit "value") := lit "value"]}), σ').
Proof.
  exact (put_get_new (FS := MemFs.mem_fs) this L D start KvSpec.empty (lit "key") (lit "value") None
    this_layout start_holds ok_key ok_value (lookup_empty _)).
Defined.

Lemma remove_twice_witness :
  ∃ σ σ', kv_put (H0 := MemFs.mem_fs) this (lit "key") (lit "value") start = (Ret true, σ) ∧
    kv_remove this (lit "key") σ = (Ret true, σ') ∧
    kv_get this (lit "key") None σ' = (Ret (false, Some ∅), σ') ∧
    kv_remove this (lit "key") σ' = (Throw filesystem_error, σ').
Proof.
  destruct (put_ok (FS := MemFs.mem_fs) this L D this_layout start KvSpec.empty (lit "key") (lit "value")
    start_holds ok_key ok_value) as (σ & Hput & Hh).
  destruct (remove_twice (FS := MemFs.mem_fs) this L D σ _ (lit "key") None this_layout Hh ok_key) as (σ' & Hrest).
  - rewrite links_put, decide_True by done. eauto.
  - exists σ, σ'. exact (conj Hput Hrest).
Defined.

(** A directory beside the store. *)
Definition victim : list bytes := A ++ [lit "victim"].
Definition with_victim : MemFs.state := MemFs.set_node victim NDir start.
Definition rest : bytes := lit "victim" ++ replicate 118 SLASH.

Lemma long_key_escapes_witness :
  ∃ σ', kv_remove (H0 := MemFs.mem_fs) this (lit "...." ++ rest) with_victim = (Ret true, σ') ∧
    node_at (FileSystem := MemFs.mem_fs) with_victim (path_of victim) = Some NDir ∧ node_at (FileSystem := MemFs.mem_fs) σ' (path_of victim) = None.
Proof.
  exists (MemFs.remove_all (_link_dir this ++ "../../"%string ++ rest) with_victim).2.
  split; [|split; vm_compute; reflexivity].
  apply (proj2 (long_key_escapes (FS := MemFs.mem_fs) this rest with_victim ltac:(vm_compute; discriminate)) 1%Z);
    [apply pair_eq_split; [vm_compute; reflexivity|reflexivity]|done].
Defined.

Lemma initialised :
  ∃ s', initialise (P := nat) (G := nat) 7 (path_of A) (λ _, None)
          (Init (H := MemFs.mem_fs) ModuleManager.empty bare (FF [] [] [])) = (Ret true, s') ∧
    st_mods s' = ModuleManager.connect_kv 7 ModuleManager.empty ∧
    layout (st_this s') L D ∧ holds L D (st_fs s') KvSpec.empty ∧
    frame (H := MemFs.mem_fs) (A ++ [lit "ffstore"]) bare (st_fs s').
Proof.
  exact (initialise_ok (FS := MemFs.mem_fs) A 7 (Init ModuleManager.empty bare (FF [] [] []))
    A_good bare_chain bare_below).
Defined.
End Example.
End FFStore.
