(* ===== verification/DbManager.v ===== *)
(** * db_manager.cc and the methods of Object that reach the stores

    The operations run over the stores' state paired with the object they
    mutate.  They are verified against the interface [KvLaws]: the database is
    a map from keys to objects, each a text with a history that replays to it. *)

From S2P Require Import Prelude Crypto FileSystem KvStore Db FFStore.
Local Open Scope prog_scope.

Module DBManager.
Section ops.
Context `{Digest} `{Clock} `{Archive} {S : Type} `{KvStore S}.
(** [ModuleManager::db_get_obj] *)
Context (db_get_obj : ObjID → option Object → M S (bool * option Object)).

Definition on_store {A} (m : M S A) : M (S * Object) A := zoom fst (λ s w, (s, snd w)) m.
Definition obj : M (S * Object) Object := gets snd.
Definition set_obj (f : Object → Object) : M (S * Object) () := modify (λ w, (fst w, f (snd w))).

Definition create_object : M (S * Object) bool :=
  let! o := obj in
  if! on_store (kv_put (o_id o) (text_oarchive (serialize o))) then ret true else ret false.

Definition delete_object (id : ObjID) : M S bool :=
  if! kv_remove id then ret true else ret false.

(** Object::save: there is no update of a key, it is removed and put again. *)
Definition save : M (S * Object) bool :=
  let! o := obj in
  if! on_store (delete_object (o_id o)) then
    if! create_object then ret true else ret false
  else ret false.

(** Object::create(inp, custom_id); [now] is the local time. *)
Definition create_custom (now : ptime) (inp : bytes) (custom_id : ObjID) : M (S * Object) bool :=
  let! initialDiff := lift_outcome (patch_text [] inp) in
  let diff := Diff_new now initialDiff [] in
  set_obj (λ o, set_diffs (o_diffs o ++ [diff]) o) ;;;
  set_obj (set_master (d_id diff)) ;;;
  set_obj (set_id custom_id) ;;;
  set_obj (set_head inp) ;;;
  create_object.

(** Object::create(inp) *)
Definition create (now : ptime) (inp : bytes) : M (S * Object) bool :=
  set_obj (set_id (object_id inp)) ;;;
  create_custom now inp (object_id inp).

(** update_object(obj, diff): [diff] is the new text. *)
Definition update_object (now : ptime) (diff : bytes) : M (S * Object) bool :=
  let! o := obj in
  let! patch := lift_outcome (patch_text (get o) diff) in
  let ddiff := Diff_new now patch (o_master o) in
  set_obj (λ o, set_diffs (o_diffs o ++ [ddiff]) o) ;;;
  set_obj (set_master (d_id ddiff)) ;;;
  set_obj (set_head diff) ;;;
  if! save then ret true else ret false.

(** update_object(id, diff): the pointer passed to [db_get_obj] is null. *)
Definition update_object_id (now : ptime) (id : ObjID) (diff : bytes) : M S bool :=
  let! r := db_get_obj id None in
  match r with
  | (false, _) => ret false
  | (true, None) => undef
  | (true, Some o) => λ s,
      let '(r, (s', _)) := update_object now diff (s, o) in (r, s')
  end.

(** The loop over the entries found: the first that is an archive is
    loaded into the object; a failed load leaves what it had read. *)
Fixpoint load_entries (l : list (bytes * bytes)) : M (S * Object) bool :=
  match l with
  | [] => ret false
  | (_, value) :: l =>
      let! o := obj in
      let '(ok, image) := text_iarchive value (serialize o) in
      set_obj (deserialize image) ;;;
      if ok : bool then ret true else load_entries l
  end.

Definition get_object_head (id : ObjID) : M (S * Object) bool :=
  set_obj (set_id id) ;;;
  let! r := on_store (kv_get id None) in
  match r with
  | (false, _) => ret false
  | (true, None) => undef
  | (true, Some objres) => load_entries (entries objres)
  end.

(** Object::load, Object::remove *)
Definition load (id : ObjID) : M (S * Object) bool := get_object_head id.
Definition remove : M (S * Object) bool := let! o := obj in on_store (delete_object (o_id o)).

Definition get_object_rev (rev res : bytes) : M (S * Object) (bool * bytes) :=
  let! o := obj in
  if has_diff rev o then
    let! res := lift_outcome (get_revision rev o) in ret (true, res)
  else ret (false, res).

Definition rollback_object (rev : ObjID) : M (S * Object) bool :=
  let! r := get_object_rev rev [] in
  match r with
  | (false, _) => ret false
  | (true, res) =>
      set_obj (set_head res) ;;;
      set_obj (set_master rev) ;;;
      if! save then ret true else ret false
  end.

Definition init (db_path : bytes) : M S bool := ret true.
End ops.

(** ** Histories *)

(** The diffs lead from the text [text] of the revision [prev] to [head],
    the text of the revision [master]: each names the one before it, bears
    the digest of its patch and takes the text on, by [leads]. *)
Fixpoint history_by `{Digest} (leads : bytes → bytes → bytes → Prop) (prev : ObjID) (text : bytes) (l : list Diff)
    (master : ObjID) (head : bytes) : Prop :=
  match l with
  | [] => prev = master ∧ text = head
  | d :: l => d_prev d = prev ∧ d_id d = create_content_id (d_content d) ∧ plain_diff d ∧
              ∃ t, leads (d_content d) text t ∧ history_by leads (d_id d) t l master head
  end.

(** The patches applied one after another. *)
Abbreviation history := (history_by (λ p a b, patch_apply p a = Ret b)).

Section history.
Context `{Digest} `{Clock}.

(** A well-formed object: its head is what its history replays to. *)
Definition wf (o : Object) : Prop :=
  o_diffs o ≠ [] ∧ history [] [] (o_diffs o) (o_master o) (o_head o).

(** An object with the patches made for the texts it has had, from the empty
    text to its head; any two of them, one after the other, are [P]. *)
Definition made (P : bytes → bytes → Prop) (o : Object) : Prop :=
  o_diffs o ≠ [] ∧ history_by (λ p a b, P a b ∧ p = patch_of a b) [] [] (o_diffs o) (o_master o) (o_head o).

(** The object [create_custom] makes of a new one. *)
Definition created (now : ptime) (inp : bytes) (i : ObjID) (o : Object) : Object :=
  let d := Diff_new now (patch_of [] inp) [] in
  set_head inp (set_id i (set_master (d_id d) (set_diffs (o_diffs o ++ [d]) o))).

Definition updated (now : ptime) (text : bytes) (o : Object) : Object :=
  let d := Diff_new now (patch_of (get o) text) (o_master o) in
  set_head text (set_master (d_id d) (set_diffs (o_diffs o ++ [d]) o)).

Lemma history_app R p t l1 l2 m h :
  history_by R p t (l1 ++ l2) m h ↔ ∃ p' t', history_by R p t l1 p' t' ∧ history_by R p' t' l2 m h.
Proof.
  revert p t. induction l1 as [|d l1 IH]; intros p t; simpl.
  - split; [eauto|]. by intros (? & ? & [-> ->] & ?).
  - split.
    + intros (? & ? & ? & t1 & ? & (p' & t' & ? & ?)%IH). eauto 10.
    + intros (p' & t' & (? & ? & ? & t1 & ? & ?) & ?). split_and!; try done.
      exists t1. split; [done|]. apply IH. eauto.
Qed.

Lemma history_plain R p t l m h : history_by R p t l m h → Forall plain_diff l.
Proof.
  revert p t. induction l as [|d l IH]; intros p t; simpl; [constructor|].
  intros (_ & _ & ? & t' & _ & ?). constructor; eauto.
Qed.

Lemma history_mono (R R' : bytes → bytes → bytes → Prop) p t l m h :
  (∀ c a b, R c a b → R' c a b) → history_by R p t l m h → history_by R' p t l m h.
Proof.
  intros HR. revert p t. induction l as [|d l IH]; intros p t; simpl; [done|].
  intros (? & ? & ? & t' & ? & ?). split_and!; eauto.
Qed.

Lemma made_wf (P : bytes → bytes → Prop) o : (∀ a b, P a b → replays a b) → made P o → wf o.
Proof. intros HP [Hne Hh]. split; [done|]. eapply history_mono; [|exact Hh]. by intros c a b [[_ ?]%HP ->]. Qed.

Lemma made_created (P : bytes → bytes → Prop) now inp i : P [] inp → made P (created now inp i Object_new).
Proof. intros HP. split; [done|]. simpl. split_and!; try done. by exists inp. Qed.

(** One more diff, of the texts that the object has and gets. *)
Lemma history_updated (R : bytes → bytes → bytes → Prop) now text o :
  R (patch_of (o_head o) text) (o_head o) text → history_by R [] [] (o_diffs o) (o_master o) (o_head o) →
  history_by R [] [] (o_diffs (updated now text o)) (o_master (updated now text o)) text.
Proof.
  intros HR Hh. simpl. apply history_app. exists (o_master o), (o_head o). split; [done|]. simpl. split_and!; try done.
  exists text. unfold get. by split.
Qed.

Lemma made_updated (P : bytes → bytes → Prop) now text o : P (o_head o) text → made P o → made P (updated now text o).
Proof.
  intros HP [_ Hh]. split; [unfold updated; simpl; by destruct (o_diffs o)|]. by apply history_updated.
Qed.

Lemma wf_created now inp i : replays [] inp → wf (created now inp i Object_new).
Proof. intros [_ Hr]. split; [done|]. simpl. split_and!; try done. exists inp. by rewrite Hr. Qed.

Lemma wf_updated now text o : replays (o_head o) text → wf o → wf (updated now text o).
Proof.
  intros [_ Hr] [_ Hh]. split; [unfold updated; simpl; by destruct (o_diffs o)|]. by apply history_updated.
Qed.

(** Replaying up to a diff. *)
Lemma get_loop_history p t l1 d l2 m h :
  history p t (l1 ++ d :: l2) m h → d_id d ∉ map d_id l1 →
  ∃ t', get_loop (d_id d) (l1 ++ d :: l2) t = Ret t' ∧ history p t (l1 ++ [d]) (d_id d) t'.
Proof.
  revert p t. induction l1 as [|x l1 IH]; intros p t Hh Hni; simpl in *.
  - destruct Hh as (? & ? & ? & t' & -> & ?). rewrite decide_True by done. eauto 10.
  - destruct Hh as (? & ? & ? & t1 & -> & Hh). apply not_elem_of_cons in Hni as [Hne Hni].
    rewrite decide_False by congruence. destruct (IH _ _ Hh Hni) as (t' & Ht & ?). eauto 10.
Qed.
End history.

(** ** The database as a map of objects *)
Section database.
Context `{HD : Digest} `{HC : Clock} `{HA : Archive} {AL : ArchiveLaw}.
Context {S : Type} `{HS : KvStore S} {KL : KvLaws S}.
Implicit Types (s : S) (o : Object) (m : KvSpec.spec) (objs : gmap bytes object_image).

Definition name (im : object_image) : bytes := Crypto.hex_hash (text_oarchive im).

(** The archive of [im] shares its digest with no other object's. *)
Definition no_clash (im : object_image) objs : Prop :=
  ∀ k im', objs !! k = Some im' → name im' = name im → text_oarchive im' = text_oarchive im.

Definition admissible o objs : Prop :=
  kv_ok (o_id o) ∧ (zlen (text_oarchive (serialize o)) < 2 ^ 32)%Z ∧ no_clash (serialize o) objs.

(** The objects by the key the stores use; nothing else is stored. *)
Definition stored m objs : Prop :=
  (∀ k im, objs !! k = Some im →
     KvSpec.links m !! k = Some {[name im]} ∧ KvSpec.blobs m !! name im = Some (text_oarchive im) ∧
     validate_key (oi_id im) = k ∧ kv_ok (oi_id im)) ∧
  (∀ k, objs !! k = None → KvSpec.links m !! k = None).

Definition database s objs : Prop := ∃ m, kv_refines s m ∧ stored m objs.

Lemma no_clash_empty im : no_clash im ∅.
Proof. intros k im' Hk. by rewrite lookup_empty in Hk. Qed.

Lemma stored_put m objs im :
  stored m objs → kv_ok (oi_id im) → no_clash im objs →
  objs !! validate_key (oi_id im) = None ∨ objs !! validate_key (oi_id im) = Some im →
  stored (KvSpec.put (validate_key (oi_id im)) (text_oarchive im) m)
         (<[validate_key (oi_id im) := im]> objs).
Proof.
  intros [Hs Hn] Hok Hc Hk. set (k := validate_key (oi_id im)) in *. split.
  - intros k' im'. rewrite links_put, blobs_put. fold (name im).
    intros [[<- <-]|[Hne Hk']]%lookup_insert_Some.
    + rewrite decide_True, lookup_insert_eq by done. split_and!; try done.
      unfold KvSpec.names. destruct Hk as [Hk|Hk].
      * rewrite (Hn _ Hk). simpl. by rewrite union_empty_r_L.
      * destruct (Hs _ _ Hk) as (-> & _). simpl. by rewrite union_idemp_L.
    + rewrite decide_False by done. destruct (Hs _ _ Hk') as (-> & Hb & ? & ?).
      split_and!; try done. destruct (decide (name im' = name im)) as [He|].
      * by rewrite He, lookup_insert_eq, (Hc _ _ Hk' He).
      * by rewrite lookup_insert_ne.
  - intros k' [Hk' Hne]%lookup_insert_None. rewrite links_put, decide_False by done. by apply Hn.
Qed.

Lemma stored_remove m objs k : stored m objs → stored (KvSpec.remove k m) (delete k objs).
Proof.
  intros [Hs Hn]. split; simpl.
  - intros k' im [Hne Hk]%lookup_delete_Some. rewrite lookup_delete_ne by done. by apply Hs.
  - intros k' [<-|Hk]%lookup_delete_None; [by apply lookup_delete_eq|].
    apply lookup_delete_None. auto.
Qed.

Lemma on_store_run {A} (m : M S A) s o a s' : m s = (Ret a, s') → on_store m (s, o) = (Ret a, (s', o)).
Proof. unfold on_store, zoom. simpl. by intros ->. Qed.

Lemma create_object_ok s o objs :
  database s objs → admissible o objs →
  objs !! validate_key (o_id o) = None ∨ objs !! validate_key (o_id o) = Some (serialize o) →
  ∃ s', create_object (s, o) = (Ret true, (s', o)) ∧
        database s' (<[validate_key (o_id o) := serialize o]> objs).
Proof.
  intros (m & HR & Hst) (Hok & Hsz & Hc) Hk.
  destruct (kv_put_ok s m (o_id o) _ HR Hok Hsz) as (s' & Hp & HR'). exists s'. split.
  - unfold create_object, obj. run. by rewrite (bind_run _ _ _ _ _ (on_store_run _ _ _ _ _ Hp)).
  - eexists. split; [done|]. by apply (stored_put m objs (serialize o)).
Qed.

Lemma delete_object_ok s id objs im :
  database s objs → kv_ok id → objs !! validate_key id = Some im →
  ∃ s', delete_object id s = (Ret true, s') ∧ database s' (delete (validate_key id) objs).
Proof.
  intros (m & HR & Hst) Hok Hk.
  destruct (kv_remove_present s m id HR Hok) as (s' & Hp & HR').
  { destruct (proj1 Hst _ _ Hk) as (-> & _). eauto. }
  exists s'. unfold delete_object. rewrite (bind_run _ _ _ _ _ Hp). split; [done|].
  eexists. split; [done|]. by apply stored_remove.
Qed.

Lemma delete_object_absent s id objs :
  database s objs → kv_ok id → objs !! validate_key id = None →
  delete_object id s = (Throw filesystem_error, s).
Proof.
  intros (m & HR & Hst) Hok Hk. unfold delete_object.
  exact (bind_throw _ _ _ _ _ (kv_remove_absent s m id HR Hok (proj2 Hst _ Hk))).
Qed.

Lemma save_ok s o objs im :
  database s objs → objs !! validate_key (o_id o) = Some im →
  admissible o (delete (validate_key (o_id o)) objs) →
  ∃ s', save (s, o) = (Ret true, (s', o)) ∧
        database s' (<[validate_key (o_id o) := serialize o]> objs).
Proof.
  intros Hdb Hk Hadm.
  destruct (delete_object_ok s (o_id o) objs im Hdb (proj1 Hadm) Hk) as (s1 & Hd & Hdb1).
  destruct (create_object_ok s1 o _ Hdb1 Hadm) as (s2 & Hc & Hdb2).
  { left. apply lookup_delete_eq. }
  exists s2. unfold save, obj. run. rewrite (bind_run _ _ _ _ _ (on_store_run _ _ _ _ _ Hd)).
  rewrite (bind_run _ _ _ _ _ Hc). split; [done|]. by rewrite insert_delete_eq in Hdb2.
Qed.

Lemma get_object_head_ok s o id objs im :
  database s objs → kv_ok id → objs !! validate_key id = Some im →
  get_object_head id (s, o) = (Ret true, (s, deserialize im o)).
Proof.
  intros (m & HR & Hst) Hok Hk. destruct (proj1 Hst _ _ Hk) as (Hl & Hb & _).
  destruct (kv_get_present s m id None HR Hok) as (h & v & Hh & Hv & Hg).
  { rewrite Hl. eauto. }
  unfold KvSpec.names in Hh. rewrite Hl in Hh. simpl in Hh. apply elem_of_singleton in Hh as ->.
  rewrite Hb in Hv. injection Hv as <-.
  unfold get_object_head, set_obj. run.
  rewrite (bind_run _ _ _ _ _ (on_store_run _ _ _ _ _ Hg)), entries_singleton.
  cbn [load_entries]. unfold obj. run. rewrite text_iarchive_oarchive. unfold set_obj. by run.
Qed.

Lemma get_object_head_absent s o id objs :
  database s objs → kv_ok id → objs !! validate_key id = None →
  get_object_head id (s, o) = (Ret false, (s, set_id id o)).
Proof.
  intros (m & HR & Hst) Hok Hk.
  pose proof (kv_get_absent s m id None HR Hok (proj2 Hst _ Hk)) as Hg.
  unfold get_object_head, set_obj. run. by rewrite (bind_run _ _ _ _ _ (on_store_run _ _ _ _ _ Hg)).
Qed.

Lemma create_custom_run now inp i s o :
  create_custom now inp i (s, o) = create_object (s, created now inp i o).
Proof. unfold create_custom. rewrite makes_patch_new. by run. Qed.

Lemma create_run now inp s o :
  create now inp (s, o) = create_object (s, created now inp (object_id inp) o).
Proof. unfold create, set_obj. run. by rewrite create_custom_run. Qed.

Lemma update_object_run now text s o :
  makes_patch (o_head o) text →
  update_object now text (s, o) = (if! save then ret true else ret false) (s, updated now text o).
Proof. intros Hp. unfold update_object, obj. run. unfold get. cbn [snd]. rewrite Hp. by run. Qed.

Lemma update_object_ok now text s o objs im :
  database s objs → objs !! validate_key (o_id o) = Some im → patchable (o_head o) text →
  admissible (updated now text o) (delete (validate_key (o_id o)) objs) →
  ∃ s', update_object now text (s, o) = (Ret true, (s', updated now text o)) ∧
        database s' (<[validate_key (o_id o) := serialize (updated now text o)]> objs).
Proof.
  intros Hdb Hk Hp Hadm. destruct (save_ok s (updated now text o) objs im Hdb Hk Hadm) as (s' & Hs & ?).
  exists s'. rewrite update_object_run by (by apply patchable_makes). by rewrite (bind_run _ _ _ _ _ Hs).
Qed.
End database.

(** ** Clients *)
Inductive op :=
  | Create (now : ptime) (inp : bytes) (id : ObjID)
  | Update (now : ptime) (id : ObjID) (text : bytes)
  | Load (id : ObjID)
  | Delete (id : ObjID)
  | Rollback (id rev : ObjID).

Section clients.
Context `{HD : Digest} `{HC : Clock} `{HA : Archive} {S : Type} `{HS : KvStore S}.

(** A client works on an object of its own, as the RPC handlers do with
    [new db::Object()]; it sees the outcome and the object. *)
Definition call (c : op) : S → outcome bool * Object * S := λ s,
  let '(r, (s', o)) := match c with
    | Create now inp id => create_custom now inp id (s, Object_new)
    | Update now id text =>
        (if! get_object_head id then update_object now text else ret false) (s, Object_new)
    | Load id => get_object_head id (s, Object_new)
    | Delete id => on_store (delete_object id) (s, Object_new)
    | Rollback id rev =>
        (if! get_object_head id then rollback_object rev else ret false) (s, Object_new)
    end in
  (r, o, s').

Fixpoint calls (cs : list op) (s : S) : list (outcome bool * Object) * S :=
  match cs with
  | [] => ([], s)
  | c :: cs => let '(r, s1) := call c s in let '(rs, s2) := calls cs s1 in (r :: rs, s2)
  end.
End clients.

(** The abstract database: what a call answers and leaves. *)
Section abstract.
Context `{HD : Digest} `{HC : Clock} `{HA : Archive} {S : Type} `{HS : KvStore S} {KL : KvLaws S}.
Implicit Types (objs : gmap bytes object_image).
(** The pairs of texts for which patches are made. *)
Implicit Types (patched : bytes → bytes → Prop).

Definition loaded (im : object_image) : Object := deserialize im Object_new.

Definition store (o : Object) objs : gmap bytes object_image := <[validate_key (o_id o) := serialize o]> objs.

Inductive step patched objs : op → outcome bool * Object → gmap bytes object_image → Prop :=
  | step_create now inp id (o : Object) :
      o = created now inp id Object_new → patched [] inp → objs !! validate_key id = None →
      admissible (S := S) o objs → step patched objs (Create now inp id) (Ret true, o) (store o objs)
  | step_update now id text im (o : Object) :
      objs !! validate_key id = Some im → kv_ok (S := S) id → o = updated now text (loaded im) →
      patched (oi_head im) text → admissible (S := S) o (delete (validate_key id) objs) →
      step patched objs (Update now id text) (Ret true, o) (store o objs)
  | step_update_absent now id text :
      objs !! validate_key id = None → kv_ok (S := S) id →
      step patched objs (Update now id text) (Ret false, set_id id Object_new) objs
  | step_load id im :
      objs !! validate_key id = Some im → kv_ok (S := S) id →
      step patched objs (Load id) (Ret true, loaded im) objs
  | step_load_absent id :
      objs !! validate_key id = None → kv_ok (S := S) id →
      step patched objs (Load id) (Ret false, set_id id Object_new) objs
  | step_delete id im :
      objs !! validate_key id = Some im → kv_ok (S := S) id →
      step patched objs (Delete id) (Ret true, Object_new) (delete (validate_key id) objs)
  | step_delete_absent id :
      objs !! validate_key id = None → kv_ok (S := S) id →
      step patched objs (Delete id) (Throw filesystem_error, Object_new) objs
  | step_rollback id rev im t (o : Object) :
      objs !! validate_key id = Some im → kv_ok (S := S) id →
      has_diff rev (loaded im) = true → get_revision rev (loaded im) = Ret t →
      o = set_master rev (set_head t (loaded im)) →
      admissible (S := S) o (delete (validate_key id) objs) →
      step patched objs (Rollback id rev) (Ret true, o) (store o objs)
  | step_rollback_none id rev im :
      objs !! validate_key id = Some im → kv_ok (S := S) id →
      has_diff rev (loaded im) = false →
      step patched objs (Rollback id rev) (Ret false, loaded im) objs.

Inductive steps patched : gmap bytes object_image → list op → list (outcome bool * Object) →
    gmap bytes object_image → Prop :=
  | steps_nil objs : steps patched objs [] [] objs
  | steps_cons objs c r objs1 cs rs objs2 :
      step patched objs c r objs1 → steps patched objs1 cs rs objs2 → steps patched objs (c :: cs) (r :: rs) objs2.

Context {AL : ArchiveLaw}.

Lemma call_step s objs c r objs' :
  database s objs → step patchable objs c r objs' →
  ∃ s', call c s = (r, s') ∧ database s' objs'.
Proof.
  intros Hdb Hstep. unfold call.
  assert (Hkey : ∀ k im, objs !! k = Some im → validate_key (oi_id im) = k).
  { intros k im Hk. destruct Hdb as (m & _ & Hst). by destruct (proj1 Hst _ _ Hk) as (_ & _ & ? & _). }
  destruct Hstep as [now inp id o -> _ Hk Ha|now id text im o Hk Hok -> Hp Ha|now id text Hk Hok|
    id im Hk Hok|id Hk Hok|id im Hk Hok|id Hk Hok|id rev im t o Hk Hok Hd Ht -> Ha|id rev im Hk Hok Hd].
  - destruct (create_object_ok s _ objs Hdb Ha) as (s' & Hc & Hdb'); [by left|].
    rewrite create_custom_run, Hc. eauto.
  - rewrite (bind_run _ _ _ _ _ (get_object_head_ok s Object_new id objs im Hdb Hok Hk)).
    pose proof (Hkey _ _ Hk) as Hk'. fold (loaded im). rewrite <-Hk' in Hk, Ha.
    destruct (update_object_ok now text s (loaded im) objs im Hdb Hk Hp Ha) as (s' & -> & Hdb'). eauto.
  - rewrite (bind_run _ _ _ _ _ (get_object_head_absent s Object_new id objs Hdb Hok Hk)). eauto.
  - rewrite (get_object_head_ok s Object_new id objs im) by done. eauto.
  - rewrite (get_object_head_absent s Object_new id objs) by done. eauto.
  - destruct (delete_object_ok s id objs im Hdb Hok Hk) as (s' & Hd & Hdb').
    rewrite (on_store_run _ _ _ _ _ Hd). eauto.
  - unfold on_store, zoom. simpl. rewrite (delete_object_absent s id objs) by done. eauto.
  - rewrite (bind_run _ _ _ _ _ (get_object_head_ok s Object_new id objs im Hdb Hok Hk)).
    pose proof (Hkey _ _ Hk) as Hk'. fold (loaded im). rewrite <-Hk' in Hk, Ha.
    destruct (save_ok s (set_master rev (set_head t (loaded im))) objs im Hdb Hk Ha) as (s' & Hs & Hdb').
    unfold rollback_object, get_object_rev, obj, set_obj. run. cbn [snd]. rewrite Hd, Ht. run.
    eauto.
  - rewrite (bind_run _ _ _ _ _ (get_object_head_ok s Object_new id objs im Hdb Hok Hk)).
    fold (loaded im). unfold rollback_object, get_object_rev, obj. run. cbn [snd]. rewrite Hd. run. eauto.
Qed.

Lemma calls_steps s objs cs rs objs' :
  database s objs → steps patchable objs cs rs objs' →
  ∃ s', calls cs s = (rs, s') ∧ database s' objs'.
Proof.
  intros Hdb Hs. revert s Hdb. induction Hs as [objs|objs c r objs1 cs rs objs2 Hc _ IH]; intros s Hdb.
  { by exists s. }
  destruct (call_step s objs c r objs1 Hdb Hc) as (s1 & Hc1 & Hdb1).
  destruct (IH s1 Hdb1) as (s2 & Hcs & Hdb2). exists s2. simpl. by rewrite Hc1, Hcs.
Qed.

(** C1 The database is a map of objects: a sequence of creates, updates,
    loads, deletes and rollbacks that the map allows answers exactly as the
    map does, over any stores that keep the key-value contract. Each call
    changes no object but its own. The map allows creates of absent ids,
    updates of texts of which a patch is always made ([patchable]: one of at
    most 100 characters, or at most 125 line ends), and ids and archives that
    the stores take ([admissible]). *)
Theorem database_simulates s objs cs rs objs' :
  database s objs → steps patchable objs cs rs objs' →
  ∃ s', calls cs s = (rs, s') ∧ database s' objs'.
Proof. apply calls_steps. Qed.
End abstract.

(** ** Histories of the objects *)
Section properties.
Context `{HD : Digest} `{HC : Clock}.
Implicit Types (o : Object).



(** C22 Every revision can be read back: [get(rev)] on a well-formed object
    gives the text its history had reached at the first diff of that id. *)
Theorem get_revision_history o l1 d l2 :
  wf o → o_diffs o = l1 ++ d :: l2 → d_id d ∉ map d_id l1 →
  has_diff (d_id d) o = true ∧
  ∃ t, get_revision (d_id d) o = Ret t ∧ history [] [] (l1 ++ [d]) (d_id d) t.
Proof.
  intros [_ Hh] Hd Hni. unfold has_diff, get_revision. rewrite Hd in Hh |- *. split.
  - apply has_diff_loop_spec. rewrite map_app. apply elem_of_app. right. by left.
  - by eapply get_loop_history.
Qed.

End properties.

Section invariant.
Context `{HD : Digest} `{HC : Clock} `{HA : Archive} {AL : ArchiveLaw}.
Context {S : Type} `{HS : KvStore S} {KL : KvLaws S}.
Implicit Types (objs : gmap bytes object_image).

Definition no_rollback (c : op) : Prop := match c with Rollback _ _ => False | _ => True end.

Definition all_made (P : bytes → bytes → Prop) objs : Prop := ∀ k im, objs !! k = Some im → made P (loaded im).

Lemma made_loaded P o : made P o → made P (loaded (serialize o)).
Proof.
  intros [Hne Hh]. unfold loaded. rewrite deserialize_serialize by by eapply history_plain.
  by split.
Qed.

Lemma step_made P objs c r objs' :
  step (S := S) P objs c r objs' → no_rollback c → all_made P objs → all_made P objs'.
Proof.
  intros Hs Hc Hm. destruct Hs; try done; unfold store; subst.
  - intros k im' [[<- <-]|[_ ?]]%lookup_insert_Some; [|eauto].
    by apply made_loaded, made_created.
  - intros k im' [[<- <-]|[_ ?]]%lookup_insert_Some; [|eauto].
    apply made_loaded, made_updated; eauto.
  - intros k im' [_ ?]%lookup_delete_Some. eauto.
Qed.

Lemma steps_made P objs cs rs objs' :
  steps (S := S) P objs cs rs objs' → Forall no_rollback cs → all_made P objs → all_made P objs'.
Proof.
  intros Hs Hc. induction Hs as [|objs c r objs1 cs rs objs2 Hs _ IH]; [done|]. intros Hm.
  apply Forall_cons in Hc as [Hc Hcs]. apply IH; [done|]. by eapply step_made.
Qed.

Lemma step_mono (P Q : bytes → bytes → Prop) objs c r objs' :
  (∀ a b, P a b → Q a b) → step (S := S) P objs c r objs' → step (S := S) Q objs c r objs'.
Proof. intros HPQ Hs. destruct Hs; econstructor; eauto. Qed.

Lemma steps_mono (P Q : bytes → bytes → Prop) objs cs rs objs' :
  (∀ a b, P a b → Q a b) → steps (S := S) P objs cs rs objs' → steps (S := S) Q objs cs rs objs'.
Proof. intros HPQ Hs. induction Hs; econstructor; eauto using step_mono. Qed.

(** C10 Creates, updates, loads and deletes, run on the stores, leave objects
    that are what their history says: the diffs an object is loaded with are
    the patches between the texts it has had, from the empty text to its head,
    each names the one before it, bears the digest of its patch, and the master
    is the last of them. For any condition [P] on the texts of creates and
    updates under which patches are made. Where [P] is [clean], the patches
    applied one after another lead to the head. *)
Theorem histories_stay_valid (P : bytes → bytes → Prop) (s : S) objs cs rs objs' :
  (∀ a b, P a b → patchable a b) → database s objs → all_made P objs →
  steps (S := S) P objs cs rs objs' → Forall no_rollback cs →
  ∃ s', calls cs s = (rs, s') ∧ ∀ id im, objs' !! validate_key id = Some im → kv_ok (S := S) id →
    ∃ o, get_object_head id (s', Object_new) = (Ret true, (s', o)) ∧ made P o ∧ ((∀ a b, P a b → clean a b) → wf o).
Proof.
  intros HP Hdb Hm Hs Hc. destruct (calls_steps s objs cs rs objs' Hdb) as (s' & Hcs & Hdb'); [by eapply steps_mono|].
  exists s'. split; [done|]. intros id im Him Hok. exists (loaded im).
  pose proof (steps_made _ _ _ _ _ Hs Hc Hm _ _ Him) as Hmade. split_and!; [by eapply get_object_head_ok|done|].
  intros Hclean. apply (made_wf P); [|done]. intros a b Hab. by apply clean_replays, Hclean.
Qed.

(** Calls that do not change the object. *)
Definition keeps_object {A} (m : M (S * Object) A) : Prop := ∀ s o r s' o', m (s, o) = (r, (s', o')) → o' = o.

Lemma ret_keeps {A} (x : A) : keeps_object (ret x).
Proof. intros s o r s' o' [= _ _ ->]. done. Qed.
Lemma obj_keeps : keeps_object obj.
Proof. intros s o r s' o' [= _ _ ->]. done. Qed.
Lemma on_store_keeps {A} (m : M S A) : keeps_object (on_store m).
Proof. intros s o r s' o'. unfold on_store, zoom. cbn. destruct (m s). congruence. Qed.
Lemma bind_keeps {A B} (m : M (S * Object) A) (k : A → M (S * Object) B) :
  keeps_object m → (∀ a, keeps_object (k a)) → keeps_object (bind m k).
Proof.
  intros Hm Hk s o r s' o'. unfold bind. destruct (m (s, o)) as [[a|e|] [s1 o1]] eqn:Hr; apply Hm in Hr as ->; [|congruence..].
  apply Hk.
Qed.

Ltac keeps := repeat first [apply ret_keeps | apply obj_keeps | apply on_store_keeps | apply bind_keeps; [|intros ?] | case_match].

Lemma create_object_keeps : keeps_object create_object.
Proof. unfold create_object. keeps. Qed.





(** C12 The first revision of a new object, stored or not, reads back as its
    text without the characters of 128 and more: the head has them all, the
    patch loses them. *)
Theorem created_revision now inp i (s s' : S) r o :
  (zlen inp < 2 ^ 31)%Z → create_custom now inp i (s, Object_new) = (r, (s', o)) →
  o_head o = inp ∧ get_revision (o_master o) o = Ret (DmpText.DmpText.ascii_part inp).
Proof.
  intros Hlen. rewrite create_custom_run. intros ->%create_object_keeps. split; [done|].
  unfold get_revision. cbn [created o_diffs o_master set_head set_id set_master set_diffs Object_new app get_loop d_content Diff_new].
  rewrite patch_apply_new by done. by rewrite decide_True.
Qed.
End invariant.

(** ** Instances: over the flat file store in memory *)
Module Example.
#[local] Existing Instances example_digest example_clock
  ExampleArchive.archive ExampleArchive.archive_law MemFs.mem_fs MemFs.mem_fs_laws.
Import FFStore.FFStore.Example.

#[local] Instance store_kv : KvStore MemFs.state := FFStore.ff_kv this.
#[local] Instance store_laws : KvLaws MemFs.state := FFStore.ff_laws this L D this_layout.

Definition o1 : Object := created 0 (lit "a") (lit "id") Object_new.
Definition o2 : Object := updated 0 (lit "ab") o1.
Definition d1 : Diff := Diff_new 0 (patch_of [] (lit "a")) [].
Definition d2 : Diff := Diff_new 0 (patch_of (lit "a") (lit "ab")) (d_id d1).

Lemma a_replays : replays [] (lit "a").
Proof. apply replays_new; [by vm_compute|by repeat constructor]. Qed.
Lemma a_clean : clean [] (lit "a").
Proof. split_and!; [left; cbn; lia|by repeat constructor..|by vm_compute|by vm_compute]. Qed.
Lemma ab_clean : clean (lit "a") (lit "ab").
Proof. split_and!; [left; cbn; lia|by repeat constructor..|by vm_compute|by vm_compute]. Qed.
Lemma ab_patchable : patchable (lit "a") (lit "ab").
Proof. apply clean_patchable, ab_clean. Qed.
Lemma ab_replays : replays (lit "a") (lit "ab").
Proof. apply clean_replays, ab_clean. Qed.

Lemma o1_wf : wf o1.
Proof. apply wf_created, a_replays. Qed.
Lemma o2_wf : wf o2.
Proof. apply wf_updated; [exact ab_replays|exact o1_wf]. Qed.

Lemma get_revision_history_witness :
  has_diff (d_id d2) o2 = true ∧
  ∃ t, get_revision (d_id d2) o2 = Ret t ∧ history [] [] [d1; d2] (d_id d2) t.
Proof.
  apply (get_revision_history o2 [d1] d2 [] o2_wf eq_refl).
  apply (bool_decide_unpack _). by vm_compute.
Defined.

(** "a" and a byte of 233, which is lost. *)
Lemma created_revision_witness :
  let inp := lit "a" ++ [char_of_Z 233] in
  ∃ o, o_head o = inp ∧ get_revision (o_master o) o = Ret (lit "a").
Proof.
  intros inp. exists (snd (snd (create_custom 0 inp (lit "id") (start, Object_new)))).
  apply (created_revision 0 inp (lit "id") start
    (fst (snd (create_custom 0 inp (lit "id") (start, Object_new)))) (fst (create_custom 0 inp (lit "id") (start, Object_new)))).
  - reflexivity.
  - destruct (create_custom _ _ _ _) as [? []]. reflexivity.
Defined.


Definition objs1 : gmap bytes object_image := store o1 ∅.
Definition objs2 : gmap bytes object_image := store o2 objs1.
Definition cs : list op :=
  [Create 0 (lit "a") (lit "id"); Update 0 (lit "id") (lit "ab"); Load (lit "id");
   Delete (lit "id"); Load (lit "id"); Delete (lit "id")].
Definition rs : list (outcome bool * Object) :=
  [(Ret true, o1); (Ret true, o2); (Ret true, o2); (Ret true, Object_new);
   (Ret false, set_id (lit "id") Object_new); (Throw filesystem_error, Object_new)].

Lemma id_ok : kv_ok (S := MemFs.state) (lit "id").
Proof. by apply kv_ok_short. Qed.

Lemma start_database : database (S := MemFs.state) start ∅.
Proof. exists KvSpec.empty. split; [exact start_holds|]. by split. Qed.

Lemma objs1_id : objs1 !! validate_key (lit "id") = Some (serialize o1).
Proof. apply lookup_insert_eq. Qed.

Lemma objs2_id : objs2 !! validate_key (lit "id") = Some (serialize o2).
Proof. apply lookup_insert_eq. Qed.

Lemma objs1_gone : delete (validate_key (lit "id")) objs1 = ∅.
Proof. unfold objs1, store. by rewrite delete_insert_eq. Qed.

Lemma objs2_gone : delete (validate_key (lit "id")) objs2 = ∅.
Proof. unfold objs2, objs1, store. by rewrite delete_insert_eq, delete_insert_eq. Qed.

Lemma cs_steps : steps (S := MemFs.state) patchable ∅ cs rs ∅.
Proof.
  eapply steps_cons; [apply (step_create _ _ 0 (lit "a") (lit "id") o1); [done|apply patchable_new|done|]|].
  { split; [apply id_ok|split; [by vm_compute|apply no_clash_empty]]. }
  eapply steps_cons; [apply (step_update _ _ 0 (lit "id") (lit "ab") _ o2 objs1_id id_ok eq_refl ab_patchable)|].
  { rewrite objs1_gone. split; [apply id_ok|split; [by vm_compute|apply no_clash_empty]]. }
  eapply steps_cons; [apply (step_load _ objs2 (lit "id") _ objs2_id id_ok)|].
  eapply steps_cons; [apply (step_delete _ objs2 (lit "id") _ objs2_id id_ok)|].
  rewrite objs2_gone.
  eapply steps_cons; [by apply step_load_absent; [|apply id_ok]|].
  eapply steps_cons; [by apply step_delete_absent; [|apply id_ok]|]. apply steps_nil.
Qed.

Lemma database_simulates_witness :
  ∃ s', calls cs start = (rs, s') ∧ database s' ∅.
Proof. exact (database_simulates start ∅ cs rs ∅ start_database cs_steps). Defined.


(** An object created and updated by clean texts, and read again. *)
Lemma cs_clean : steps (S := MemFs.state) clean ∅ (take 3 cs) (take 3 rs) objs2.
Proof.
  eapply steps_cons; [apply (step_create _ _ 0 (lit "a") (lit "id") o1); [done|exact a_clean|done|]|].
  { split; [apply id_ok|split; [by vm_compute|apply no_clash_empty]]. }
  eapply steps_cons; [apply (step_update _ _ 0 (lit "id") (lit "ab") _ o2 objs1_id id_ok eq_refl ab_clean)|].
  { rewrite objs1_gone. split; [apply id_ok|split; [by vm_compute|apply no_clash_empty]]. }
  eapply steps_cons; [apply (step_load _ objs2 (lit "id") _ objs2_id id_ok)|]. apply steps_nil.
Qed.

Lemma histories_stay_valid_witness :
  ∃ s' o, calls (take 3 cs) start = (take 3 rs, s') ∧
    get_object_head (lit "id") (s', Object_new) = (Ret true, (s', o)) ∧ made clean o ∧ wf o.
Proof.
  destruct (histories_stay_valid clean start ∅ (take 3 cs) (take 3 rs) objs2 clean_patchable start_database) as (s' & Hcs & Hload).
  - by intros k im.
  - exact cs_clean.
  - by repeat constructor.
  - destruct (Hload (lit "id") _ objs2_id id_ok) as (o & Ho & Hm & Hwf). exists s', o.
    split; [exact Hcs|]. split; [exact Ho|]. split; [exact Hm|]. by apply Hwf.
Defined.
End Example.
End DBManager.
