(* ===== verification/Concurrent.v ===== *)
(** * Handlers on several threads

    The pool of rpc_server.cc has four threads by default, and handlers of
    different connections run at the same time on the same stores; neither
    DBManager nor ModuleManager takes a lock.  Here the handler that replaces
    the text of an object is the sequence of its calls of the store: a thread
    stops at each of them, the scheduler picks the thread that makes its next
    call, and a call itself is one step. *)

From S2P Require Import Prelude Crypto FileSystem KvStore Db FFStore DbManager.
Local Open Scope prog_scope.

Module Concurrent.
Import DBManager.

(** What a handler still has to do: the next call of the store, and how it goes
    on with the result. *)
Inductive calls (A : Type) :=
  | Done (r : outcome A)
  | KvGet (key : bytes) (k : bool * KV_ResPtr → calls A)
  | KvPut (key value : bytes) (k : bool → calls A)
  | KvRemove (key : bytes) (k : bool → calls A).
Arguments Done {_} _.
Arguments KvGet {_} _ _.
Arguments KvPut {_} _ _ _.
Arguments KvRemove {_} _ _.

Section store.
Context {S : Type} `{KvStore S} {A : Type}.

(** After a call: an exception ends the handler. *)
Definition continue {B} (r : outcome B) (k : B → calls A) : calls A :=
  match r with Ret b => k b | Throw e => Done (Throw e) | Undef => Done Undef end.

(** One call. *)
Definition call (c : calls A) : S → calls A * S := λ s,
  match c with
  | Done r => (Done r, s)
  | KvGet key k => let '(r, s) := kv_get key None s in (continue r k, s)
  | KvPut key value k => let '(r, s) := kv_put key value s in (continue r k, s)
  | KvRemove key k => let '(r, s) := kv_remove key s in (continue r k, s)
  end.

(** All of them, undisturbed. *)
Fixpoint alone (c : calls A) : M S A :=
  match c with
  | Done r => lift_outcome r
  | KvGet key k => let! r := kv_get key None in alone (k r)
  | KvPut key value k => let! b := kv_put key value in alone (k b)
  | KvRemove key k => let! b := kv_remove key in alone (k b)
  end.

(** The pool: a thread makes its next call. *)
Definition turn (i : nat) (p : list (calls A) * S) : list (calls A) * S :=
  match fst p !! i with
  | Some c => let '(c, s) := call c (snd p) in (<[i := c]> (fst p), s)
  | None => p
  end.
Definition run_schedule (sched : list nat) (p : list (calls A) * S) : list (calls A) * S :=
  foldl (λ p i, turn i p) p sched.
End store.

Section handlers.
Context `{HD : Digest} `{HC : Clock} `{HA : Archive}.

(** [DBManager::create_object], [Object::save], [DBManager::update_object]
    and [DBManager::get_object_head], each followed by [k] with what it
    answered and the object it left. *)
Definition create_object_calls (o : Object) (k : bool * Object → calls (bool * Object)) : calls (bool * Object) :=
  KvPut (o_id o) (text_oarchive (serialize o)) (λ b, k (b, o)).

Definition save_calls (o : Object) (k : bool * Object → calls (bool * Object)) : calls (bool * Object) :=
  KvRemove (o_id o) (λ b, if b then create_object_calls o k else k (false, o)).

Definition update_object_calls (now : ptime) (diff : bytes) (o : Object) (k : bool * Object → calls (bool * Object)) :
    calls (bool * Object) :=
  match patch_text (get o) diff with
  | Ret _ => save_calls (updated now diff o) k
  | Throw e => Done (Throw e)
  | Undef => Done Undef
  end.

Fixpoint loaded (l : list (bytes * bytes)) (o : Object) : bool * Object :=
  match l with
  | [] => (false, o)
  | (_, value) :: l =>
      let '(ok, image) := text_iarchive value (serialize o) in
      if ok : bool then (true, deserialize image o) else loaded l (deserialize image o)
  end.

Definition get_object_head_calls (id : ObjID) (o : Object) (k : bool * Object → calls (bool * Object)) :
    calls (bool * Object) :=
  KvGet id (λ r, match r with
                 | (false, _) => k (false, set_id id o)
                 | (true, None) => Done Undef
                 | (true, Some objres) => k (loaded (entries objres) (set_id id o))
                 end).

(** object.create with an id and a text, as far as the stores see it. *)
Definition replace_text (now : ptime) (id : ObjID) (content : bytes) : calls (bool * Object) :=
  get_object_head_calls id Object_new (λ r,
    if fst r then update_object_calls now content (snd r) (λ r, Done (Ret r))
    else Done (Ret r)).

(** object.get, as far as the stores see it. *)
Definition get_text (id : ObjID) : calls (bool * Object) :=
  get_object_head_calls id Object_new (λ r, Done (Ret r)).

Section alone.
Context {S : Type} `{HS : KvStore S}.
Implicit Types (s : S) (o : Object).

(** What a computation of DBManager answers, and its object. *)
Definition with_object {A} (m : M (S * Object) A) (o : Object) : M S (A * Object) := λ s,
  let '(r, (s', o')) := m (s, o) in
  (match r with Ret a => Ret (a, o') | Throw e => Throw e | Undef => Undef end, s').

Lemma load_entries_loaded l s o :
  load_entries l (s, o) = (Ret (fst (loaded l o)), (s, snd (loaded l o))).
Proof.
  revert o. induction l as [|[k v] l IH]; intros o; [done|]. cbn [load_entries loaded]. unfold obj. run.
  cbn [snd]. destruct (text_iarchive v (serialize o)) as [ok image]. unfold set_obj. run. cbn [fst snd].
  destruct ok; [done|]. apply IH.
Qed.

(** Undisturbed, the calls are the functions of db_manager.cc. *)
Lemma get_object_head_alone id o k s :
  alone (get_object_head_calls id o k) s = (let! r := with_object (get_object_head id) o in alone (k r)) s.
Proof.
  cbn [get_object_head_calls alone]. unfold with_object, get_object_head, set_obj, bind. cbn.
  unfold on_store, zoom, bind. cbn. destruct (kv_get id None s) as [[[[] [objres|]]| |] s']; try done.
  by rewrite load_entries_loaded; destruct (loaded (entries objres) (set_id id o)).
Qed.

Lemma save_alone o k s :
  alone (save_calls o k) s = (let! r := with_object save o in alone (k r)) s.
Proof.
  cbn [save_calls alone create_object_calls]. unfold with_object, save, create_object, delete_object, obj, bind, gets. cbn.
  unfold on_store, zoom, bind. cbn. destruct (kv_remove (o_id o) s) as [[[]| |] s1]; try done. cbn.
  destruct (kv_put (o_id o) (text_oarchive (serialize o)) s1) as [[[]| |] s2] eqn:Hp;
    cbn; unfold bind; by rewrite Hp.
Qed.

Lemma update_object_alone now text o k s :
  alone (update_object_calls now text o k) s = (let! r := with_object (update_object now text) o in alone (k r)) s.
Proof.
  unfold update_object_calls. destruct (patch_text (get o) text) as [p|e|] eqn:Hp.
  - rewrite save_alone. unfold with_object, bind at 1 2.
    rewrite update_object_run by (unfold makes_patch, patch_of; fold (get o); by rewrite Hp).
    unfold bind. by destruct (save (s, updated now text o)) as [[[]| |] [s' o']].
  - cbn [alone]. unfold with_object, update_object, bind at 1 2, obj, gets. cbn. by rewrite Hp.
  - cbn [alone]. unfold with_object, update_object, bind at 1 2, obj, gets. cbn. by rewrite Hp.
Qed.

(** A call, by what the function of db_manager.cc makes of it. *)
Lemma call_get id o k s :
  call (get_object_head_calls id o k) s =
    (let '(r, s') := with_object (get_object_head id) o s in (continue r k, s')).
Proof.
  cbn [get_object_head_calls call]. unfold with_object, get_object_head, set_obj, bind. cbn.
  unfold on_store, zoom, bind. cbn. destruct (kv_get id None s) as [[[[] [objres|]]| |] s']; try done.
  rewrite load_entries_loaded. cbn. by destruct (loaded (entries objres) (set_id id o)).
Qed.

Lemma call_remove {A} key (k : bool → calls A) s r s' :
  delete_object key s = (r, s') → call (KvRemove key k) s = (continue r k, s').
Proof.
  cbn [call]. unfold delete_object, bind. destruct (kv_remove key s) as [[[]| |] s1]; unfold ret; cbn; intros Hr; simplify_eq; done.
Qed.

Lemma call_put o k s b s' :
  create_object (s, o) = (Ret b, (s', o)) → call (create_object_calls o k) s = (k (b, o), s').
Proof.
  cbn [create_object_calls call]. unfold create_object, obj, bind, gets, on_store, zoom. cbn.
  destruct (kv_put _ _ s) as [[[]| |] s1]; unfold ret; cbn; intros Hr; simplify_eq; done.
Qed.

(** A handler that no other disturbs does what the functions of db_manager.cc
    do: its calls of the store, one after another, are the load of the object
    and its update. *)
Theorem alone_is_handler now id content s :
  alone (replace_text now id content) s =
    (let! r := with_object (get_object_head id) Object_new in
     if fst r then with_object (update_object now content) (snd r) else ret r) s.
Proof.
  unfold replace_text. rewrite get_object_head_alone. unfold bind.
  destruct (with_object _ _ s) as [[[[] o]| |] s1]; try done. cbn [fst snd].
  rewrite update_object_alone. unfold bind. by destruct (with_object _ o s1) as [[]].
Qed.
End alone.

(** ** Handlers of different objects *)
Section pool.
Context {S : Type} `{HS : KvStore S} {AL : ArchiveLaw} {KL : KvLaws S}.
Implicit Types (s : S) (objs : gmap bytes object_image).

(** A request for a new text of the object [r_id], stored as [r_old]. *)
Record request := Request { r_now : ptime; r_id : ObjID; r_text : bytes; r_old : object_image }.
Implicit Types (r : request) (rs : list request).

Definition begin r : calls (bool * Object) := replace_text (r_now r) (r_id r) (r_text r).
Definition key r : bytes := validate_key (r_id r).
Definition new r : Object := updated (r_now r) (r_text r) (deserialize (r_old r) Object_new).

(** After [n] turns: what is left to do, and what is stored. *)
Definition after r (n : nat) : calls (bool * Object) :=
  match n with
  | 0 => begin r
  | 1 => save_calls (new r) (λ x, Done (Ret x))
  | 2 => create_object_calls (new r) (λ x, Done (Ret x))
  | _ => Done (Ret (true, new r))
  end.
Definition image r (n : nat) : option object_image :=
  match n with 0 | 1 => Some (r_old r) | 2 => None | _ => Some (serialize (new r)) end.

Definition request_ok objs r : Prop :=
  objs !! key r = Some (r_old r) ∧ oi_id (r_old r) = r_id r ∧ kv_ok (r_id r) ∧
  patchable (oi_head (r_old r)) (r_text r) ∧
  (zlen (text_oarchive (serialize (new r))) < 2 ^ 32)%Z.

(** The archives that are ever stored have digests of their own. *)
Definition image_of objs rs (im : object_image) : Prop :=
  (∃ k, objs !! k = Some im) ∨ ∃ r, r ∈ rs ∧ im = serialize (new r).
Definition apart objs rs : Prop :=
  ∀ im im', image_of objs rs im → image_of objs rs im' → name im = name im' → text_oarchive im = text_oarchive im'.

(** The stores while the thread of each request has had [turns] turns. *)
Definition between objs rs (turns : nat → nat) s : Prop :=
  ∃ objs', database s objs' ∧ (∀ i r, rs !! i = Some r → objs' !! key r = image r (turns i)) ∧
  ∀ k, k ∉ map key rs → objs' !! k = objs !! k.

(** Once the object is loaded its patch is made, without the stores. *)
Lemma update_calls_new r k :
  patchable (oi_head (r_old r)) (r_text r) →
  update_object_calls (r_now r) (r_text r) (deserialize (r_old r) Object_new) k = save_calls (new r) k.
Proof. intros Hp. unfold update_object_calls. change (get _) with (oi_head (r_old r)). by rewrite (patchable_makes _ _ Hp). Qed.

Lemma o_id_new r : oi_id (r_old r) = r_id r → o_id (new r) = r_id r.
Proof. done. Qed.

Lemma image_of_between objs rs turns objs' k im :
  Forall (request_ok objs) rs →
  (∀ i r, rs !! i = Some r → objs' !! key r = image r (turns i)) →
  (∀ k, k ∉ map key rs → objs' !! k = objs !! k) → objs' !! k = Some im → image_of objs rs im.
Proof.
  intros Hok Hrs Hother Hk. destruct (decide (k ∈ map key rs)) as [Hin|Hni].
  - apply list_elem_of_fmap in Hin as (r & -> & Hr). pose proof (proj1 (Forall_forall _ _) Hok r Hr) as (Hold & _).
    apply list_elem_of_lookup in Hr as [i Hi]. rewrite (Hrs i r Hi) in Hk.
    destruct (turns i) as [|[|[|n]]]; simplify_eq/=; [left; eauto..|right; eauto using list_elem_of_lookup_2].
  - left. exists k. by rewrite <-Hother.
Qed.
Lemma apart_no_clash objs rs (im : object_image) (m : gmap bytes object_image) :
  apart objs rs → image_of objs rs im → (∀ k im', m !! k = Some im' → image_of objs rs im') → no_clash im m.
Proof. intros Ha Him Hm k im' Hk Hn. by apply Ha; [eapply Hm| |]. Qed.

(** A turn of one thread moves it on, and the others do not notice. *)
Lemma call_after objs rs turns i r s :
  NoDup (map key rs) → Forall (request_ok objs) rs → apart objs rs →
  rs !! i = Some r → between objs rs turns s →
  ∃ s', call (after r (turns i)) s = (after r (1 + turns i), s') ∧
        between objs rs (λ j, if decide (j = i) then 1 + turns i else turns j) s'.
Proof.
  intros Hnd Hok Hap Hi (objs' & Hdb & Hrs & Hother).
  pose proof (Forall_lookup_1 _ _ _ _ Hok Hi) as (Hold & Hid & Hkv & Hpt & Hsz).
  assert (Hr : r ∈ rs) by by eapply list_elem_of_lookup_2.
  assert (Hkin : key r ∈ map key rs) by (apply list_elem_of_fmap; eauto).
  assert (Himg : ∀ k im, objs' !! k = Some im → image_of objs rs im) by (intros; by eapply image_of_between).
  assert (Hmove : ∀ s' m, database s' m → m !! key r = image r (1 + turns i) →
    (∀ k, k ≠ key r → m !! k = objs' !! k) → between objs rs (λ j, if decide (j = i) then 1 + turns i else turns j) s').
  { intros s' m Hm Hk Hne. exists m. split; [done|]. split.
    - intros j r' Hj. case_decide as Hd; [subst; by simplify_eq|].
      rewrite Hne; [by apply Hrs|]. intros He. apply Hd. eapply (NoDup_lookup (map key rs)); [done|..];
        rewrite list_lookup_fmap; [by rewrite Hj|by rewrite Hi, He].
    - intros k Hk'. rewrite Hne; [by apply Hother|]. by intros ->. }
  pose proof (Hrs i r Hi) as Hstored. destruct (turns i) as [|[|[|n]]]; cbn [after image Nat.add] in *.
  - exists s. split; [|by apply (Hmove s objs')].
    unfold begin, replace_text. rewrite call_get. unfold with_object.
    rewrite (get_object_head_ok s Object_new (r_id r) objs' (r_old r) Hdb Hkv Hstored).
    cbn [continue fst snd]. by rewrite update_calls_new.
  - destruct (delete_object_ok s (r_id r) objs' (r_old r) Hdb Hkv Hstored) as (s' & Hd & Hdb').
    exists s'. split; [unfold save_calls; rewrite o_id_new by done; by rewrite (call_remove _ _ _ _ _ Hd)|].
    apply (Hmove _ _ Hdb'); [apply lookup_delete_eq|]. intros k Hk. by apply lookup_delete_ne.
  - destruct (create_object_ok s (new r) objs' Hdb) as (s' & Hc & Hdb').
    + split; [by rewrite o_id_new|split; [done|]]. by eapply apart_no_clash; [|right; eauto|].
    + left. by rewrite o_id_new.
    + rewrite o_id_new in Hdb' by done. exists s'. split; [by rewrite (call_put _ _ _ _ _ Hc)|].
      apply (Hmove _ _ Hdb'); [apply lookup_insert_eq|]. intros k Hk. by apply lookup_insert_ne.
  - exists s. split; [done|]. by apply (Hmove s objs').
Qed.

Lemma run_schedule_snoc sched i (p : list (calls (bool * Object)) * S) :
  run_schedule (sched ++ [i]) p = turn i (run_schedule sched p).
Proof. unfold run_schedule. by rewrite foldl_app. Qed.

Definition turns (sched : list nat) (i : nat) : nat := length (filter (λ j, j = i) sched).

Lemma turns_snoc sched i j : turns (sched ++ [i]) j = if decide (j = i) then 1 + turns sched i else turns sched j.
Proof.
  unfold turns. rewrite filter_app, length_app, filter_cons, filter_nil.
  repeat case_decide; subst; simpl; try done; lia.
Qed.

Lemma between_ext objs rs t1 t2 s : (∀ i, is_Some (rs !! i) → t1 i = t2 i) → between objs rs t1 s → between objs rs t2 s.
Proof.
  intros He (m & Hm & Hrs & Ho). exists m. split_and!; [done| |done].
  intros i r Hi. rewrite <-He by eauto. by apply Hrs.
Qed.

Lemma run_schedule_after objs rs s sched :
  database s objs → NoDup (map key rs) → Forall (request_ok objs) rs → apart objs rs →
  ∃ s', run_schedule sched (map begin rs, s) = (imap (λ i r, after r (turns sched i)) rs, s') ∧
        between objs rs (turns sched) s'.
Proof.
  intros Hdb Hnd Hok Hap. induction sched as [|i sched IH] using rev_ind.
  - exists s. split.
    + cbn. f_equal. apply list_eq. intros i. rewrite list_lookup_imap, list_lookup_fmap. by destruct (rs !! i).
    + exists objs. split_and!; [done| |done]. intros i r Hi. by apply (Forall_lookup_1 _ _ _ _ Hok Hi).
  - destruct IH as (s1 & Hrun & Hb). rewrite run_schedule_snoc, Hrun. unfold turn. cbn [fst snd].
    rewrite list_lookup_imap. destruct (rs !! i) as [r|] eqn:Hi; cbn [fmap option_fmap option_map].
    + destruct (call_after objs rs (turns sched) i r s1 Hnd Hok Hap Hi Hb) as (s2 & -> & Hb2).
      exists s2. split.
      * f_equal. apply list_eq. intros j. rewrite list_lookup_imap.
        destruct (decide (j = i)) as [->|Hne].
        -- rewrite list_lookup_insert_eq by (rewrite length_imap; by eapply lookup_lt_Some).
           rewrite Hi. cbn. by rewrite turns_snoc, decide_True.
        -- rewrite list_lookup_insert_ne, list_lookup_imap by done.
           by rewrite turns_snoc, decide_False.
      * eapply between_ext; [|exact Hb2]. intros j _. by rewrite turns_snoc.
    + exists s1. split.
      * f_equal. apply list_eq. intros j. rewrite !list_lookup_imap. destruct (rs !! j) eqn:Hj; [|done].
        cbn. rewrite turns_snoc, decide_False; [done|congruence].
      * eapply between_ext; [|exact Hb]. intros j [r Hj]. rewrite turns_snoc, decide_False; [done|congruence].
Qed.

(** The database with the new text of every request. *)
Definition all_stored objs rs : gmap bytes object_image :=
  foldr (λ r m, <[key r := serialize (new r)]> m) objs rs.

Lemma all_stored_in objs rs r : NoDup (map key rs) → r ∈ rs → all_stored objs rs !! key r = Some (serialize (new r)).
Proof.
  induction rs as [|x rs IH]; [by intros _ ?%elem_of_nil|]. cbn [map all_stored foldr].
  intros [Hx Hnd]%NoDup_cons [-> |Hr]%elem_of_cons; [apply lookup_insert_eq|].
  rewrite lookup_insert_ne; [by apply IH|]. intros He. apply Hx. rewrite He. by apply list_elem_of_fmap_2.
Qed.

Lemma all_stored_out objs rs k : k ∉ map key rs → all_stored objs rs !! k = objs !! k.
Proof.
  induction rs as [|x rs IH]; [done|]. cbn [map all_stored foldr]. intros [Hx Hk]%not_elem_of_cons.
  rewrite lookup_insert_ne by done. by apply IH.
Qed.

(** C25 Handlers that replace the texts of different objects do not disturb each
    other: however the pool interleaves their calls of the stores, once each has
    had its three turns every one has answered true with its new object, none
    has thrown, and the database is as after running them one by one. *)
Theorem different_objects_serialise s objs rs sched :
  database s objs → NoDup (map key rs) → Forall (request_ok objs) rs → apart objs rs →
  (∀ i, i < length rs → 3 ≤ turns sched i) →
  ∃ s', run_schedule sched (map begin rs, s) = (map (λ r, Done (Ret (true, new r))) rs, s') ∧
        database s' (all_stored objs rs).
Proof.
  intros Hdb Hnd Hok Hap Hturns.
  destruct (run_schedule_after objs rs s sched Hdb Hnd Hok Hap) as (s' & -> & objs' & Hdb' & Hrs & Hother).
  assert (Hdone : ∀ i r, rs !! i = Some r → ∃ n, turns sched i = 3 + n).
  { intros i r Hi. pose proof (Hturns i (lookup_lt_Some _ _ _ Hi)). exists (turns sched i - 3). lia. }
  exists s'. split.
  - f_equal. apply list_eq. intros i. rewrite list_lookup_imap, list_lookup_fmap.
    destruct (rs !! i) as [r|] eqn:Hi; [|done]. cbn. by destruct (Hdone i r Hi) as [n ->].
  - assert (all_stored objs rs = objs') as ->; [|done].
    apply map_eq. intros k. destruct (decide (k ∈ map key rs)) as [Hin|Hni].
    + apply list_elem_of_fmap in Hin as (r & -> & Hr). rewrite all_stored_in by done.
      apply list_elem_of_lookup in Hr as [i Hi]. rewrite (Hrs i r Hi). by destruct (Hdone i r Hi) as [n ->].
    + by rewrite all_stored_out, Hother.
Qed.

(** ** Handlers of one object *)

(** The turns of one thread, on any database. *)
Lemma turn_load r s objs :
  database s objs → kv_ok (r_id r) → objs !! key r = Some (r_old r) →
  patchable (oi_head (r_old r)) (r_text r) → call (after r 0) s = (after r 1, s).
Proof.
  intros Hdb Hkv Hr Hp. cbn [after]. unfold begin, replace_text. rewrite call_get. unfold with_object.
  rewrite (get_object_head_ok s Object_new (r_id r) objs (r_old r) Hdb Hkv Hr). cbn [continue fst snd].
  by rewrite update_calls_new.
Qed.

Lemma turn_remove r s objs im :
  database s objs → kv_ok (r_id r) → oi_id (r_old r) = r_id r → objs !! key r = Some im →
  ∃ s', call (after r 1) s = (after r 2, s') ∧ database s' (delete (key r) objs).
Proof.
  intros Hdb Hkv Hid Hr. destruct (delete_object_ok s (r_id r) objs im Hdb Hkv Hr) as (s' & Hd & Hdb').
  exists s'. split; [|done]. cbn [after]. unfold save_calls. rewrite o_id_new by done.
  by rewrite (call_remove _ _ _ _ _ Hd).
Qed.

Lemma turn_remove_absent r s objs :
  database s objs → kv_ok (r_id r) → oi_id (r_old r) = r_id r → objs !! key r = None →
  call (after r 1) s = (Done (Throw filesystem_error), s).
Proof.
  intros Hdb Hkv Hid Hr. cbn [after]. unfold save_calls. rewrite o_id_new by done.
  by rewrite (call_remove _ _ _ _ _ (delete_object_absent s (r_id r) objs Hdb Hkv Hr)).
Qed.

Lemma turn_store r s objs :
  database s objs → kv_ok (r_id r) → oi_id (r_old r) = r_id r →
  (zlen (text_oarchive (serialize (new r))) < 2 ^ 32)%Z → no_clash (serialize (new r)) objs → objs !! key r = None →
  ∃ s', call (after r 2) s = (after r 3, s') ∧ database s' (<[key r := serialize (new r)]> objs).
Proof.
  intros Hdb Hkv Hid Hsz Hc Hr. destruct (create_object_ok s (new r) objs Hdb) as (s' & Hs & Hdb').
  - split; [by rewrite o_id_new|by split].
  - left. by rewrite o_id_new.
  - rewrite o_id_new in Hdb' by done. exists s'. split; [exact (call_put _ _ _ _ _ Hs)|done].
Qed.

Lemma turn_run i (p : list (calls (bool * Object)) * S) c c' s' :
  fst p !! i = Some c → call c (snd p) = (c', s') → turn i p = (<[i := c']> (fst p), s').
Proof. unfold turn. intros -> ->. done. Qed.

(** C26 Two handlers that replace the text of the same object, both having
    loaded it. If both remove it before one stores it, the second removal
    throws, which ends the daemon while the object is not stored: a load finds
    nothing. If they remove and store one after the other, both answer true and
    the text of the first is gone, from the object and from its history. *)
Theorem same_object_races s objs a b :
  database s objs → request_ok objs a → request_ok objs b → key a = key b → apart objs [a; b] →
  (∃ s', run_schedule [0; 1; 0; 1] ([begin a; begin b], s) =
           ([after a 2; Done (Throw filesystem_error)], s') ∧
         alone (get_text (r_id a)) s' = (Ret (false, set_id (r_id a) Object_new), s')) ∧
  (∃ s', run_schedule [0; 1; 0; 0; 1; 1] ([begin a; begin b], s) =
           ([Done (Ret (true, new a)); Done (Ret (true, new b))], s') ∧
         database s' (<[key a := serialize (new b)]> objs)).
Proof.
  intros Hdb (Ha & Hida & Hkva & Hpa & Hsza) (Hb & Hidb & Hkvb & Hpb & Hszb) Hk Hap.
  pose proof (turn_load a s objs Hdb Hkva Ha Hpa) as La. pose proof (turn_load b s objs Hdb Hkvb Hb Hpb) as Lb.
  destruct (turn_remove a s objs _ Hdb Hkva Hida Ha) as (s1 & Ra & Hdb1).
  unfold run_schedule. cbn [foldl]. change [begin a; begin b] with [after a 0; after b 0].
  rewrite (turn_run 0 ([after a 0; after b 0], s) _ _ _ eq_refl La).
  change (<[0:=after a 1]> _) with [after a 1; after b 0].
  rewrite (turn_run 1 ([after a 1; after b 0], s) _ _ _ eq_refl Lb).
  change (<[1:=after b 1]> _) with [after a 1; after b 1].
  rewrite (turn_run 0 ([after a 1; after b 1], s) _ _ _ eq_refl Ra).
  change (<[0:=after a 2]> _) with [after a 2; after b 1].
  split.
  - exists s1. split; [|].
    + rewrite (turn_run 1 ([after a 2; after b 1], s1) _ _ _ eq_refl
        (turn_remove_absent b s1 _ Hdb1 Hkvb Hidb ltac:(rewrite <-Hk; apply lookup_delete_eq))). done.
    + unfold get_text. rewrite get_object_head_alone. unfold bind, with_object.
      by rewrite (get_object_head_absent s1 Object_new (r_id a) _ Hdb1 Hkva (lookup_delete_eq _ _)).
  - destruct (turn_store a s1 _ Hdb1 Hkva Hida Hsza) as (s2 & Sa & Hdb2); [|apply lookup_delete_eq|].
    { eapply apart_no_clash; [exact Hap|right; exists a; by split; [left|]|].
      intros k im [_ Him]%lookup_delete_Some. left. eauto. }
    rewrite insert_delete_eq in Hdb2.
    destruct (turn_remove b s2 _ (serialize (new a)) Hdb2 Hkvb Hidb) as (s3 & Rb & Hdb3); [rewrite <-Hk; apply lookup_insert_eq|].
    rewrite <-Hk, delete_insert_eq in Hdb3.
    destruct (turn_store b s3 _ Hdb3 Hkvb Hidb Hszb) as (s4 & Sb & Hdb4); [|rewrite <-Hk; apply lookup_delete_eq|].
    { eapply apart_no_clash; [exact Hap|right; exists b; split; [right; left|done]|].
      intros k im [_ Him]%lookup_delete_Some. left. eauto. }
    rewrite <-Hk, insert_delete_eq in Hdb4. exists s4. split; [|done].
    rewrite (turn_run 0 ([after a 2; after b 1], s1) _ _ _ eq_refl Sa).
    change (<[0:=after a 3]> _) with [after a 3; after b 1].
    rewrite (turn_run 1 ([after a 3; after b 1], s2) _ _ _ eq_refl Rb).
    change (<[1:=after b 2]> _) with [after a 3; after b 2].
    rewrite (turn_run 1 ([after a 3; after b 2], s3) _ _ _ eq_refl Sb). done.
Qed.
End pool.
End handlers.

(** ** Two objects in memory *)
Module Example.
#[local] Existing Instances example_digest example_clock
  ExampleArchive.archive ExampleArchive.archive_law MemFs.mem_fs MemFs.mem_fs_laws.
Import FFStore.FFStore.Example.
#[local] Existing Instances DBManager.Example.store_kv DBManager.Example.store_laws.

Definition a : Object := created 0 (lit "x") (lit "a") Object_new.
Definition b : Object := created 0 (lit "y") (lit "b") Object_new.
Definition new_a : request := Request 1 (lit "a") (lit "xx") (serialize a).
Definition again_a : request := Request 2 (lit "a") (lit "z") (serialize a).
Definition new_b : request := Request 1 (lit "b") (lit "yy") (serialize b).
Definition objs : gmap bytes object_image :=
  <[validate_key (lit "b") := serialize b]> (<[validate_key (lit "a") := serialize a]> ∅).

Definition all_apart (l : list object_image) : bool :=
  let p := map (λ i, (name i, text_oarchive i)) l in
  forallb (λ x, forallb (λ y, bool_decide (fst x = fst y → snd x = snd y)) p) p.

(** A database of two images. *)
Lemma apart_images ka kb ia ib rs :
  all_apart ([ia; ib] ++ map (λ r, serialize (new r)) rs) = true → apart (<[kb := ib]> (<[ka := ia]> ∅)) rs.
Proof.
  intros Hall.
  assert (Hin : ∀ im, image_of (<[kb := ib]> (<[ka := ia]> ∅)) rs im → im ∈ [ia; ib] ++ map (λ r, serialize (new r)) rs).
  { intros im [[k Hk]|(r & Hr & ->)].
    - apply lookup_insert_Some in Hk as [[_ <-]|[_ [[_ <-]|[_ Hk]]%lookup_insert_Some]];
        [apply elem_of_app; left; right; left|apply elem_of_app; left; left|].
      by rewrite lookup_empty in Hk.
    - apply elem_of_app. right. by apply (list_elem_of_fmap_2 (λ r, serialize (new r))). }
  intros i j Hi%Hin%list_elem_of_In Hj%Hin%list_elem_of_In. unfold all_apart in Hall.
  cbv zeta in Hall. rewrite forallb_forall in Hall.
  specialize (Hall _ (in_map (λ i, (name i, text_oarchive i)) _ _ Hi)). rewrite forallb_forall in Hall.
  specialize (Hall _ (in_map (λ i, (name i, text_oarchive i)) _ _ Hj)). by apply bool_decide_eq_true_1 in Hall.
Qed.

Lemma no_clash_one k ia im :
  bool_decide (name ia = name im → text_oarchive ia = text_oarchive im) = true → no_clash im (<[k := ia]> ∅).
Proof.
  intros Hn%bool_decide_eq_true_1 k' im' [[_ <-]|[_ Hk]]%lookup_insert_Some; [exact Hn|].
  by rewrite lookup_empty in Hk.
Qed.

Lemma stored_both : ∃ s, database (S := MemFs.state) s objs.
Proof.
  destruct (create_object_ok start a ∅ DBManager.Example.start_database) as (s1 & _ & Hdb1).
  - split; [by apply kv_ok_short|split; [by vm_compute|apply no_clash_empty]].
  - left. apply lookup_empty.
  - destruct (create_object_ok s1 b _ Hdb1) as (s2 & _ & Hdb2); [| |by exists s2].
    + split; [by apply kv_ok_short|split; [by vm_compute|]].
      apply no_clash_one. vm_compute. reflexivity.
    + left. apply (bool_decide_unpack _). vm_compute. reflexivity.
Qed.

Lemma ok_a r : r = new_a ∨ r = again_a → request_ok (S := MemFs.state) objs r.
Proof.
  intros Hr. split_and!; [|by destruct Hr as [-> | ->]|by destruct Hr as [-> | ->]; apply kv_ok_short|destruct Hr as [-> | ->]; (apply (bool_decide_unpack _); by vm_compute)|by destruct Hr as [-> | ->]; vm_compute].
  destruct Hr as [-> | ->]; (unfold objs; rewrite lookup_insert_ne; [apply lookup_insert_eq|by vm_compute]).
Qed.

Lemma ok_b : request_ok (S := MemFs.state) objs new_b.
Proof. split_and!; [apply lookup_insert_eq|done|by apply kv_ok_short|apply (bool_decide_unpack _); by vm_compute|by vm_compute]. Qed.

Lemma different_objects_serialise_witness :
  ∃ s s' : MemFs.state,
    run_schedule [0; 1; 1; 0; 1; 0] (map begin [new_a; new_b], s) =
      (map (λ r, Done (Ret (true, new r))) [new_a; new_b], s') ∧
    database s' (all_stored objs [new_a; new_b]).
Proof.
  destruct stored_both as [s Hs]. exists s.
  apply (different_objects_serialise s objs [new_a; new_b] [0; 1; 1; 0; 1; 0] Hs).
  - apply (bool_decide_unpack _). vm_compute. reflexivity.
  - constructor; [by apply ok_a; left|constructor; [apply ok_b|constructor]].
  - apply apart_images. vm_compute. reflexivity.
  - intros [|[|i]] Hi; simpl in Hi; [vm_compute; lia..|lia].
Defined.

Lemma same_object_races_witness :
  ∃ s s' : MemFs.state,
    run_schedule [0; 1; 0; 1] ([begin new_a; begin again_a], s) = ([after new_a 2; Done (Throw filesystem_error)], s') ∧
    alone (get_text (lit "a")) s' = (Ret (false, set_id (lit "a") Object_new), s').
Proof.
  destruct stored_both as [s Hs]. exists s.
  apply (same_object_races s objs new_a again_a Hs); [by apply ok_a; left|by apply ok_a; right|done|].
  apply apart_images. vm_compute. reflexivity.
Defined.
End Example.
End Concurrent.
