(* ===== verification/Json.v ===== *)
(** * boost/json value.hpp: the JSON values of the RPC layer

    The values the handlers read and write.  A [Value&] is a place inside a
    document: [member] runs a computation on the place a mutating [operator[]]
    gives, creating a null member where there is none.  The text reader and
    writer of the library are in JsonReader.v and JsonWriter.v. *)

From S2P Require Import Prelude.
Local Open Scope prog_scope.

(** enum Value_type *)
Inductive Value_type := obj_type | array_type | str_type | bool_type | int_type | real_type | null_type.

#[export] Instance Value_type_eq_dec : EqDecision Value_type.
Proof. solve_decision. Defined.

(** The variant [v_]; objects are vectors of pairs (Config_vector). An
    [int64_t] and a [uint64_t] are integers in their ranges, a [double] is its
    bit pattern. *)
Inductive Value :=
  | VObj (o : list (bytes * Value))
  | VArray (a : list Value)
  | VStr (s : bytes)
  | VBool (b : bool)
  | VInt (z : Z)
  | VReal (bits : Z)
  | VNull
  | VUint (z : Z).

Definition type (v : Value) : Value_type :=
  match v with
  | VObj _ => obj_type
  | VArray _ => array_type
  | VStr _ => str_type
  | VBool _ => bool_type
  | VInt _ => int_type
  | VReal _ => real_type
  | VNull => null_type
  | VUint _ => int_type
  end.

Definition is_null (v : Value) : bool := bool_decide (type v = null_type).

(** [static_cast<int>] and [static_cast<int64_t>] *)
Definition int32 (z : Z) : Z := ((z + 2 ^ 31) mod 2 ^ 32 - 2 ^ 31)%Z.
Definition int64 (z : Z) : Z := ((z + 2 ^ 63) mod 2 ^ 64 - 2 ^ 63)%Z.

(** [check_type] throws [std::runtime_error] *)
Definition get_str (v : Value) : outcome bytes :=
  match v with VStr s => Ret s | _ => Throw runtime_error end.
Definition get_obj (v : Value) : outcome (list (bytes * Value)) :=
  match v with VObj o => Ret o | _ => Throw runtime_error end.
Definition get_array (v : Value) : outcome (list Value) :=
  match v with VArray a => Ret a | _ => Throw runtime_error end.
Definition get_bool (v : Value) : outcome bool :=
  match v with VBool b => Ret b | _ => Throw runtime_error end.
Definition get_int64 (v : Value) : outcome Z :=
  match v with VInt z => Ret z | VUint z => Ret (int64 z) | _ => Throw runtime_error end.
Definition get_int (v : Value) : outcome Z :=
  match get_int64 v with Ret z => Ret (int32 z) | e => e end.

Fixpoint assoc (key : bytes) (o : list (bytes * Value)) : option Value :=
  match o with
  | [] => None
  | (name, value) :: o => if decide (name = key) then Some value else assoc key o
  end.

(** [operator[](const std::string&) const] *)
Definition at_const (key : bytes) (v : Value) : outcome Value :=
  match get_obj v with
  | Ret o => match assoc key o with Some x => Ret x | None => Throw out_of_range end
  | Throw e => Throw e
  | Undef => Undef
  end.

(** [contains] *)
Definition contains (key : bytes) (v : Value) : outcome bool :=
  match get_obj v with
  | Ret o => Ret (bool_decide (is_Some (assoc key o)))
  | Throw e => Throw e
  | Undef => Undef
  end.

(** The first member of that name, updated in place; a new one at the end. *)
Fixpoint assoc_update (key : bytes) (x : Value) (o : list (bytes * Value)) : list (bytes * Value) :=
  match o with
  | [] => [(key, x)]
  | (name, value) :: o => if decide (name = key) then (name, x) :: o
                          else (name, value) :: assoc_update key x o
  end.

(** [operator[](const std::string&)]: [m] runs on the member. *)
Definition member {A} (key : bytes) (m : M Value A) : M Value A := λ v,
  match v with
  | VObj o => let '(r, x) := m (default VNull (assoc key o)) in (r, VObj (assoc_update key x o))
  | _ => (Throw runtime_error, v)
  end.

(** [v[key]] read, and [v[key] = x]. *)
Definition index (key : bytes) : M Value Value := member key get_state.
Definition assign (key : bytes) (x : Value) : M Value () := member key (modify (λ _, x)).

(** [operator[](uint32_t) = x] on an array: it grows to hold the index. *)
Definition assign_at (i : nat) (x : Value) : M Value () := λ v,
  match v with
  | VArray a => (Ret tt, VArray (<[i := x]> (a ++ replicate (S i - length a) VNull)))
  | _ => (Throw runtime_error, v)
  end.

(** [Config::add(v.get_obj(), name, value)] *)
Definition add (name : bytes) (value : Value) : M Value () := λ v,
  match v with
  | VObj o => (Ret tt, VObj (o ++ [(name, value)]))
  | _ => (Throw runtime_error, v)
  end.

(** ** Lemmas *)

Lemma assoc_update_same key x o : assoc key (assoc_update key x o) = Some x.
Proof.
  induction o as [|[n v] o IH]; simpl; [by rewrite decide_True|].
  case_decide; simpl; by rewrite ?decide_True, ?decide_False by done.
Qed.

Lemma assoc_update_other key key' x o : key ≠ key' → assoc key' (assoc_update key x o) = assoc key' o.
Proof.
  intros Hne. induction o as [|[n v] o IH]; simpl; [by rewrite decide_False|].
  repeat case_decide; simplify_eq; simpl; rewrite ?decide_True, ?decide_False by done; done.
Qed.

(** Reading a member that is there changes nothing. *)
Lemma assoc_update_id key x o : assoc key o = Some x → assoc_update key x o = o.
Proof.
  induction o as [|[n v] o IH]; simpl; [done|]. case_decide; intros; simplify_eq; [done|].
  f_equal. auto.
Qed.

Lemma index_present key o x : assoc key o = Some x → index key (VObj o) = (Ret x, VObj o).
Proof.
  intros Hx. unfold index, member, get_state. rewrite Hx. simpl. by rewrite assoc_update_id.
Qed.

Lemma index_absent key o : assoc key o = None → index key (VObj o) = (Ret VNull, VObj (o ++ [(key, VNull)])).
Proof.
  intros Hx. unfold index, member, get_state. rewrite Hx. simpl. do 2 f_equal.
  induction o as [|[n v] o IH]; simpl in *; [done|]. case_decide; [done|]. f_equal. auto.
Qed.

(** The place of a mutating [operator[]] reads back what was assigned. *)
Lemma index_assign key x o v :
  assign key x (VObj o) = (Ret tt, v) → index key v = (Ret x, v).
Proof.
  unfold assign, member, modify. intros; simplify_eq. apply index_present, assoc_update_same.
Qed.

Lemma int32_small z : (- 2 ^ 31 ≤ z < 2 ^ 31)%Z → int32 z = z.
Proof. intros. unfold int32. rewrite Z.mod_small; lia. Qed.
