(* ===== verification/JsonWriter.v ===== *)
(** * boost/json writer_template.hpp: JSON values as text

    [Generator] writes a value to a stream, [write] to a string.  How the
    stream prints a [double] is the parameter [append_double]. *)

From S2P Require Import Prelude Decimal Json.

Module JsonWriter.

(** enum Output_options *)
Definition pretty_print : Z := 0x01.
Definition raw_utf8 : Z := 0x02.
Definition remove_trailing_zeros : Z := 0x04.
Definition option_set (options flag : Z) : bool := negb (Z.land options flag =? 0)%Z.

(** ** Strings *)

Definition to_hex_char (c : Z) : ascii :=
  if (c <? 10)%Z then char_of_Z (48 + c) else char_of_Z (65 - 10 + c).

Definition non_printable_to_string (c : Z) : bytes :=
  lit "\u" ++ [to_hex_char (Z.land (Z.shiftr c 12) 0xF); to_hex_char (Z.land (Z.shiftr c 8) 0xF);
               to_hex_char (Z.land (Z.shiftr c 4) 0xF); to_hex_char (Z.land c 0xF)].

Definition QUOTE : ascii := "034"%char.
Definition BACKSLASH : ascii := "092"%char.

(** The characters with an escape of their own. *)
Definition add_esc_char (c : ascii) : option bytes :=
  if decide (c = QUOTE) then Some [BACKSLASH; QUOTE] else
  if decide (c = BACKSLASH) then Some [BACKSLASH; BACKSLASH] else
  if decide (c = "008"%char) then Some (lit "\b") else
  if decide (c = "012"%char) then Some (lit "\f") else
  if decide (c = "010"%char) then Some (lit "\n") else
  if decide (c = "013"%char) then Some (lit "\r") else
  if decide (c = "009"%char) then Some (lit "\t") else None.

(** [iswprint] in the "C" locale, which the daemon does not change. *)
Definition iswprint (c : Z) : bool := (32 <=? c)%Z && (c <=? 126)%Z.

Definition esc_char (raw : bool) (c : ascii) : bytes :=
  match add_esc_char c with
  | Some e => e
  | None =>
      if raw then [c] else
      if iswprint (uchar c) then [c] else non_printable_to_string (uchar c)
  end.

Fixpoint add_esc_chars (s : bytes) (raw : bool) : bytes :=
  match s with
  | [] => []
  | c :: s => esc_char raw c ++ add_esc_chars s raw
  end.

(** ** Doubles *)

(** [str.find('e')]: the text before it, and the exponent. *)
Definition erase_and_extract_exponent (str : bytes) : bytes * bytes :=
  match list_find (λ c, c = "e"%char) str with
  | Some (i, _) => (take i str, drop i str)
  | None => (str, [])
  end.

(** The loop runs down from [size() - 1]; the text of a number is not empty. *)
Fixpoint non_zero_from (str : bytes) (result : nat) : nat :=
  match result with
  | O => O
  | S n => if decide (str !! result = Some "0"%char) then non_zero_from str n else result
  end.
Definition find_first_non_zero (str : bytes) : nat := non_zero_from str (length str - 1).

Definition remove_trailing (str : bytes) : bytes :=
  let '(str, exp) := erase_and_extract_exponent str in
  let first_non_zero := find_first_non_zero str in
  (if decide (first_non_zero = 0) then str else take (first_non_zero + 1) str) ++ exp.

(** ** Generator *)
Section generator.
(** [os << showpoint << setprecision(precision) << d], for the bits of [d]. *)
Context (append_double : Z → Z → bytes).
Context (options : Z).

Definition indent (level : nat) : bytes :=
  if option_set options pretty_print then concat (replicate level (lit "    ")) else [].
Definition space : bytes := if option_set options pretty_print then lit " " else [].
Definition new_line : bytes := if option_set options pretty_print then [char_of_Z 10] else [].

Definition output_str (s : bytes) : bytes :=
  QUOTE :: add_esc_chars s (option_set options raw_utf8) ++ [QUOTE].

Definition output_real (d : Z) : bytes :=
  if option_set options remove_trailing_zeros then remove_trailing (append_double d 16)
  else append_double d 17.

Definition output_bool (b : bool) : bytes := if b then lit "true" else lit "false".

(** The loop of [output_array_or_obj], over what its elements print. *)
Fixpoint output_elements (level : nat) (l : list bytes) : bytes :=
  match l with
  | [] => []
  | x :: l => indent level ++ x ++ match l with [] => [] | _ => lit "," end ++ new_line ++ output_elements level l
  end.
Definition output_array_or_obj (level : nat) (start_char end_char : ascii) (l : list bytes) : bytes :=
  start_char :: new_line ++ output_elements (S level) l ++ indent level ++ [end_char].

(** [output(member)], given what the value prints. *)
Definition output_member (name value : bytes) : bytes :=
  output_str name ++ space ++ lit ":" ++ space ++ value.

Fixpoint output (level : nat) (value : Value) : bytes :=
  match value with
  | VObj o => output_array_or_obj level "{"%char "}"%char
                (map (λ m, let '(n, v) := m in output_member n (output (S level) v)) o)
  | VArray a => output_array_or_obj level "["%char "]"%char (map (output (S level)) a)
  | VStr s => output_str s
  | VBool b => output_bool b
  | VReal d => output_real d
  | VInt z => print_int z
  | VUint z => print_int z
  | VNull => lit "null"
  end.
End generator.

(** [boost::json::write(value)]: no options. *)
Definition write (append_double : Z → Z → bytes) (value : Value) : bytes := output append_double 0 0 value.

Example write_example :
  write (λ _ _, []) (VObj [(lit "id", VInt (-7)); (lit "a", VArray [VNull; VBool true; VStr [char_of_Z 10; QUOTE; NUL]])])
  = lit "{" ++ QUOTE :: lit "id" ++ QUOTE :: lit ":-7," ++ QUOTE :: lit "a" ++ QUOTE :: lit ":[null,true," ++
    QUOTE :: lit "\n\" ++ QUOTE :: lit "\u0000" ++ QUOTE :: lit "]}".
Proof. reflexivity. Qed.
End JsonWriter.
