(* ===== verification/JsonReader.v ===== *)
(** * boost/json reader_template.hpp: text as JSON values

    The grammar is written with Boost.Spirit (classic), which is outside the
    repository.  Its operators are the combinators below, with their
    documented meaning: an alternative tries its parts in order, a failed part
    does not undo the actions it has performed, [eps_p[throw]] throws.  The
    two lexical parsers whose details the code leaves to Spirit are the class
    [Spirit].  [Semantic_actions] builds the value through pointers into it;
    the model's pointers are paths from the root. *)

From S2P Require Import Prelude Decimal Json JsonWriter.

Module JsonReader.
Import JsonWriter.

(** ** Escapes *)

Definition hex_to_num (c : ascii) : Z :=
  let z := uchar c in
  if (48 <=? z)%Z && (z <=? 57)%Z then (z - 48)%Z else
  if (97 <=? z)%Z && (z <=? 102)%Z then (z - 97 + 10)%Z else
  if (65 <=? z)%Z && (z <=? 70)%Z then (z - 65 + 10)%Z else 0%Z.

(** A [Char_type] keeps the low eight bits. *)
Definition hex_str_to_char (c1 c2 : ascii) : ascii :=
  char_of_Z (Z.shiftl (hex_to_num c1) 4 + hex_to_num c2).
Definition unicode_str_to_char (c1 c2 c3 c4 : ascii) : ascii :=
  char_of_Z (Z.shiftl (hex_to_num c1) 12 + Z.shiftl (hex_to_num c2) 8 +
             Z.shiftl (hex_to_num c3) 4 + hex_to_num c4).

(** The escapes of one character. *)
Definition simple_escape (c2 : ascii) : option ascii :=
  if decide (c2 = "t"%char) then Some "009"%char else
  if decide (c2 = "b"%char) then Some "008"%char else
  if decide (c2 = "f"%char) then Some "012"%char else
  if decide (c2 = "n"%char) then Some "010"%char else
  if decide (c2 = "r"%char) then Some "013"%char else
  if decide (c2 = BACKSLASH) then Some BACKSLASH else
  if decide (c2 = "/"%char) then Some "/"%char else
  if decide (c2 = QUOTE) then Some QUOTE else None.

(** [append_esc_char_and_incr_iter], on the text from the character after the
    backslash: what is appended, and the text after what was read. An escape
    that is too short, or unknown, appends nothing. *)
Definition append_esc_char (s : bytes) : bytes * bytes :=
  match s with
  | [] => ([], [])
  | c2 :: s =>
      match simple_escape c2 with
      | Some c => ([c], s)
      | None =>
          if decide (c2 = "x"%char) then
            match s with c3 :: c4 :: s => ([hex_str_to_char c3 c4], s) | _ => ([], s) end
          else if decide (c2 = "u"%char) then
            match s with
            | c3 :: c4 :: c5 :: c6 :: s => ([unicode_str_to_char c3 c4 c5 c6], s)
            | _ => ([], s)
            end
          else ([], s)
      end
  end.

(** The loop stops before the last character, which is never the start of an
    escape. *)
Fixpoint substitute (fuel : nat) (s : bytes) : bytes :=
  match fuel, s with
  | S fuel, c :: d :: s' =>
      if decide (c = BACKSLASH) then
        let '(e, rest) := append_esc_char (d :: s') in e ++ substitute fuel rest
      else c :: substitute fuel (d :: s')
  | _, _ => s
  end.
Definition substitute_esc_chars (s : bytes) : bytes := substitute (length s) s.

(** [get_str]: without the quotes. *)
Definition get_str_ (s : bytes) : bytes := substitute_esc_chars (removelast (tail s)).

(** ** Semantic_actions *)

(** A [Value_type*] into [value_]: the places of the members that lead there. *)
Definition path : Type := list nat.

Definition child (i : nat) (v : Value) : option Value :=
  match v with
  | VArray a => a !! i
  | VObj o => snd <$> o !! i
  | _ => None
  end.
Definition update_child (i : nat) (f : Value → Value) (v : Value) : Value :=
  match v with
  | VArray a => VArray (alter f i a)
  | VObj o => VObj (alter (λ m, (fst m, f (snd m))) i o)
  | _ => v
  end.
Fixpoint get_at (p : path) (v : Value) : option Value :=
  match p with
  | [] => Some v
  | i :: p => match child i v with Some x => get_at p x | None => None end
  end.
Fixpoint update_at (p : path) (f : Value → Value) (v : Value) : Value :=
  match p with
  | [] => f v
  | i :: p => update_child i (update_at p f) v
  end.

Record actions := Actions {
  value_ : Value;
  current_p_ : option path;
  stack_ : list path;          (* back first *)
  name_ : bytes;
}.

(** The actions; [None] is a failed [assert] or an empty stack. *)
Definition add_first (value : Value) (a : actions) : path * actions :=
  ([], Actions value (Some []) (stack_ a) (name_ a)).

Definition add_to_current (value : Value) (a : actions) : option (path * actions) :=
  match current_p_ a with
  | None => Some (add_first value a)
  | Some p =>
      match get_at p (value_ a) with
      | Some (VArray l) =>
          Some (p ++ [length l],
            Actions (update_at p (λ _, VArray (l ++ [value])) (value_ a)) (current_p_ a) (stack_ a) (name_ a))
      | Some (VObj o) =>
          Some (p ++ [length o],
            Actions (update_at p (λ _, VObj (o ++ [(name_ a, value)])) (value_ a)) (current_p_ a) (stack_ a) (name_ a))
      | _ => None
      end
  end.

Definition begin_compound (empty : Value) (a : actions) : option actions :=
  match current_p_ a with
  | None => Some (snd (add_first empty a))
  | Some p =>
      let a := Actions (value_ a) (current_p_ a) (p :: stack_ a) (name_ a) in
      match add_to_current empty a with
      | Some (q, a) => Some (Actions (value_ a) (Some q) (stack_ a) (name_ a))
      | None => None
      end
  end.

Definition end_compound (a : actions) : option actions :=
  if decide (current_p_ a = Some []) then Some a else
  match stack_ a with
  | p :: stack => Some (Actions (value_ a) (Some p) stack (name_ a))
  | [] => None
  end.

Definition new_value (v : Value) (a : actions) : option actions := snd <$> add_to_current v a.
Definition new_name (s : bytes) (a : actions) : option actions :=
  match current_p_ a with
  | Some p => match get_at p (value_ a) with
              | Some (VObj _) => Some (Actions (value_ a) (current_p_ a) (stack_ a) (get_str_ s))
              | _ => None
              end
  | None => None
  end.
Definition new_str (s : bytes) : actions → option actions := new_value (VStr (get_str_ s)).

(** ** Boost.Spirit *)

(** How many characters [lex_escape_ch_p] matches, and the bits and the length
    of the number [strict_real_p] reads, at the start of a text that the skipper
    has taken white space from. *)
Class Spirit := {
  lex_escape_ch_p : bytes → option nat;
  strict_real_p : bytes → option (Z * nat);
}.

(** The escapes of a JSON text. *)
Definition escapes : bytes := [QUOTE; BACKSLASH; "/"%char; "b"%char; "f"%char; "n"%char; "r"%char; "t"%char; "u"%char].

(** The character that may start a number, and those that make an integer a
    real number. *)
Definition starts_number (c : ascii) : bool := is_digit c || bool_decide (c ∈ lit "+-.").
Definition continues_real (c : ascii) : bool := is_digit c || bool_decide (c ∈ lit ".eE").

Class SpiritLaws `{Spirit} := {
  lex_plain c s : c ≠ BACKSLASH → lex_escape_ch_p (c :: s) = Some 1;
  lex_escaped c s : c ∈ escapes → lex_escape_ch_p (BACKSLASH :: c :: s) = Some 2;
  lex_bound s n : lex_escape_ch_p s = Some n → 1 ≤ n ≤ length s;
  real_bound s z n : strict_real_p s = Some (z, n) → 1 ≤ n ≤ length s;
  real_start c s : starts_number c = false → strict_real_p (c :: s) = None;
  (** a strict real number has a dot or an exponent: digits with neither are
      none, behind a minus sign or not *)
  real_int sign ds s : sign ∈ [[]; lit "-"] → ds ≠ [] → Forall (λ c, is_digit c = true) ds →
    (∀ c s', s = c :: s' → continues_real c = false) → strict_real_p (sign ++ ds ++ s) = None;
}.

(** The result of a parser: [Failed] is a failed assertion of an action. *)
Inductive presult :=
  | Hit (rest : bytes) (a : actions)
  | NoMatch (a : actions)
  | Thrown (reason : bytes)
  | Failed
  | OutOfFuel.
Definition parser : Type := bytes → actions → presult.

Declare Scope spirit_scope.
Delimit Scope spirit_scope with spirit.

Definition sequence (p q : parser) : parser := λ s a,
  match p s a with Hit s a => q s a | r => r end.
Definition alternative (p q : parser) : parser := λ s a,
  match p s a with NoMatch a => q s a | r => r end.
Definition optional (p : parser) : parser := λ s a,
  match p s a with NoMatch a => Hit s a | r => r end.
Fixpoint kleene_star (fuel : nat) (p : parser) (s : bytes) (a : actions) : presult :=
  match fuel with
  | O => OutOfFuel
  | S fuel =>
      match p s a with
      | Hit s a => kleene_star fuel p s a
      | NoMatch a => Hit s a
      | r => r
      end
  end.
Notation "p '>>>' q" := (sequence p q) (at level 50, left associativity) : spirit_scope.
Notation "p '<|>' q" := (alternative p q) (at level 55, right associativity) : spirit_scope.
Notation "'!!' p" := (optional p) (at level 35) : spirit_scope.
Notation "'**' p" := (λ s a, kleene_star (S (length s)) p s a) (at level 35) : spirit_scope.

Definition eps_throw (reason : bytes) : parser := λ s a, Thrown reason.

(** [p[f]] for an action that gets the text matched, white space in front of
    it left out. *)
Definition action (p : parser) (f : bytes → actions → option actions) : parser := λ s a,
  let s := skip_space s in
  match p s a with
  | Hit rest a => match f (take (length s - length rest) s) a with Some a => Hit rest a | None => Failed end
  | r => r
  end.

Definition ch_p (c : ascii) : parser := λ s a,
  match skip_space s with
  | x :: rest => if decide (x = c) then Hit rest a else NoMatch a
  | [] => NoMatch a
  end.
Definition str_p (t : bytes) : parser := λ s a,
  let s := skip_space s in
  if decide (take (length t) s = t) then Hit (drop (length t) s) a else NoMatch a.

Section grammar.
Context `{Spirit}.
Local Open Scope spirit_scope.

(** [*(lex_escape_ch_p - '"') >> '"'], which [confix_p] makes of its parts;
    every round takes at least one character. *)
Fixpoint confix_rest (fuel : nat) (s : bytes) : option bytes :=
  match fuel with
  | O => None
  | S fuel =>
      let close := match s with c :: rest => if decide (c = QUOTE) then Some rest else None | [] => None end in
      match lex_escape_ch_p s with
      | Some n => match close with
                  | Some _ => if (n <=? 1)%nat then close else confix_rest fuel (drop n s)
                  | None => confix_rest fuel (drop n s)
                  end
      | None => close
      end
  end.

Definition string_ : parser := λ s a,
  match skip_space s with
  | c :: s => if decide (c = QUOTE) then
                match confix_rest (S (length s)) s with Some rest => Hit rest a | None => NoMatch a end
              else NoMatch a
  | [] => NoMatch a
  end.

(** The integer parsers do not match a number out of range. *)
Definition in_range (lo hi z : Z) : option Z := if (lo <=? z)%Z && (z <? hi)%Z then Some z else None.
Definition read_digits (neg : bool) (s : bytes) : option Z :=
  match s with
  | c :: _ => if is_digit c then Some (if neg then - number 0 s else number 0 s)%Z else None
  | [] => None
  end.
Definition signed (s : bytes) : bool * bytes :=
  match s with
  | c :: s' => if decide (c = "-"%char) then (true, s')
               else if decide (c = "+"%char) then (false, s') else (false, s)
  | [] => (false, [])
  end.

Definition numeric (z : option Z) (rest : bytes) (f : Z → actions → option actions) : actions → presult := λ a,
  match z with
  | Some z => match f z a with Some a => Hit rest a | None => Failed end
  | None => NoMatch a
  end.

Definition int64_p (f : Z → actions → option actions) : parser := λ s a,
  let '(neg, s) := signed (skip_space s) in
  numeric (z ← read_digits neg s; in_range (- 2 ^ 63) (2 ^ 63) z) (skip_digits s) f a.
Definition uint64_p (f : Z → actions → option actions) : parser := λ s a,
  let s := skip_space s in
  numeric (z ← read_digits false s; in_range 0 (2 ^ 64) z) (skip_digits s) f a.
Definition real_p (f : Z → actions → option actions) : parser := λ s a,
  let s := skip_space s in
  match strict_real_p s with
  | Some (bits, n) => numeric (Some bits) (drop n s) f a
  | None => NoMatch a
  end.

Definition number_ : parser :=
  real_p (λ d, new_value (VReal d)) <|> int64_p (λ i, new_value (VInt i)) <|> uint64_p (λ ui, new_value (VUint ui)).

(** The rules that use [value_]. *)
Definition pair_ (value : parser) : parser :=
  action string_ new_name
  >>> (ch_p ":"%char <|> eps_throw "no colon in pair"%string)
  >>> (value <|> eps_throw "not a value"%string).
Definition members_ (value : parser) : parser :=
  pair_ value >>> ** (ch_p ","%char >>> pair_ value).
Definition object_ (value : parser) : parser :=
  action (ch_p "{"%char) (λ _, begin_compound (VObj []))
  >>> !! (members_ value)
  >>> (action (ch_p "}"%char) (λ _, end_compound) <|> eps_throw "not an object"%string).
Definition elements_ (value : parser) : parser :=
  value >>> ** (ch_p ","%char >>> value).
Definition array_ (value : parser) : parser :=
  action (ch_p "["%char) (λ _, begin_compound (VArray []))
  >>> !! (elements_ value)
  >>> (action (ch_p "]"%char) (λ _, end_compound) <|> eps_throw "not an array"%string).

Fixpoint value_rule (fuel : nat) : parser :=
  match fuel with
  | O => λ _ _, OutOfFuel
  | S fuel => λ s a,
      (action string_ new_str
       <|> number_
       <|> object_ (value_rule fuel)
       <|> array_ (value_rule fuel)
       <|> action (str_p "true"%string) (λ _, new_value (VBool true))
       <|> action (str_p "false"%string) (λ _, new_value (VBool false))
       <|> action (str_p "null"%string) (λ _, new_value VNull)) s a
  end.

Definition json_ (fuel : nat) : parser := value_rule fuel <|> eps_throw "not a value"%string.

(** [read_range_or_throw]: a value is open at most once per character. *)
Definition read_range_or_throw (s : bytes) (value : Value) : presult :=
  json_ (S (length s)) s (Actions value None [] []).

(** [read]: whether it succeeded, with the value; the text after the value is
    not looked at. *)
Definition read (s : bytes) : option Value :=
  match read_range_or_throw s VNull with Hit _ a => Some (value_ a) | _ => None end.
End grammar.
End JsonReader.
