(* ===== verification/JsonText.v ===== *)
(** * JSON text: what the writer writes, the reader reads

    Laws of JsonWriter.v and JsonReader.v: the semantic actions build the value
    they are told, the reader answers on every text, and reading what was
    written gives the value back. *)

From S2P Require Import Prelude Decimal Json JsonWriter JsonReader.

Module JsonText.
Import JsonWriter JsonReader.
Local Open Scope spirit_scope.

(** ** Strings *)

(** The three forms an escaped character has. *)
Inductive esc_form (c : ascii) : bytes → Prop :=
  | esc_plain : c ≠ QUOTE → c ≠ BACKSLASH → esc_form c [c]
  | esc_simple e : e ∈ escapes → simple_escape e = Some c → esc_form c [BACKSLASH; e]
  | esc_unicode h1 h2 h3 h4 : Forall (λ h, h ≠ QUOTE ∧ h ≠ BACKSLASH) [h1; h2; h3; h4] →
      unicode_str_to_char h1 h2 h3 h4 = c → esc_form c [BACKSLASH; "u"%char; h1; h2; h3; h4].

Definition esc_check (c : ascii) : bool :=
  match esc_char false c with
  | [x] => bool_decide (x = c ∧ c ≠ QUOTE ∧ c ≠ BACKSLASH)
  | [x; e] => bool_decide (x = BACKSLASH ∧ e ∈ escapes ∧ simple_escape e = Some c)
  | [x; y; h1; h2; h3; h4] =>
      bool_decide (x = BACKSLASH ∧ y = "u"%char ∧ Forall (λ h, h ≠ QUOTE ∧ h ≠ BACKSLASH) [h1; h2; h3; h4] ∧
                   unicode_str_to_char h1 h2 h3 h4 = c)
  | _ => false
  end.

Lemma esc_char_form c : esc_form c (esc_char false c).
Proof.
  assert (esc_check c = true) as Hc by (revert c; apply forall_chars; vm_compute; reflexivity).
  unfold esc_check in Hc. destruct (esc_char false c) as [|x [|y [|h1 [|h2 [|h3 [|h4 [|]]]]]]]; try done;
    apply bool_decide_eq_true_1 in Hc.
  - destruct Hc as (-> & ? & ?). by constructor.
  - destruct Hc as (-> & ? & ?). by constructor.
  - destruct Hc as (-> & -> & ? & ?). by constructor.
Qed.

Lemma substitute_nil fuel : substitute fuel [] = [].
Proof. by destruct fuel. Qed.

Lemma substitute_plain fuel c s :
  c ≠ BACKSLASH → substitute (S fuel) (c :: s) = c :: substitute fuel s.
Proof.
  intros Hc. destruct s as [|d s]; [by rewrite substitute_nil|].
  cbn [substitute]. by rewrite decide_False.
Qed.

Lemma substitute_esc s fuel :
  length (add_esc_chars s false) ≤ fuel → substitute fuel (add_esc_chars s false) = s.
Proof.
  revert fuel. induction s as [|c s IH]; intros fuel Hf; [apply substitute_nil|].
  cbn [add_esc_chars] in *. rewrite length_app in Hf.
  destruct (esc_char_form c) as [Hq Hb|e He Hs|h1 h2 h3 h4 _ Hu]; cbn [app length] in *;
    (destruct fuel as [|fuel]; [lia|]).
  - rewrite substitute_plain by done. f_equal. apply IH. lia.
  - cbn [substitute]. rewrite decide_True by done. cbn [append_esc_char]. rewrite Hs.
    cbn [app]. f_equal. apply IH. lia.
  - cbn [substitute]. rewrite decide_True by done.
    replace (append_esc_char _) with ([c], add_esc_chars s false) by (rewrite <-Hu; reflexivity).
    cbn [app]. f_equal. apply IH. lia.
Qed.

Lemma get_str_written s : get_str_ (output_str 0 s) = s.
Proof.
  unfold get_str_, output_str. cbn [tail]. rewrite removelast_last. by apply substitute_esc.
Qed.

Section strings.
Context `{HS : Spirit} {SL : SpiritLaws}.

Lemma confix_plain fuel c s :
  c ≠ QUOTE → c ≠ BACKSLASH → confix_rest (S fuel) (c :: s) = confix_rest fuel s.
Proof. intros Hq Hb. cbn [confix_rest]. by rewrite lex_plain, decide_False. Qed.

Lemma confix_plains fuel l s :
  Forall (λ h, h ≠ QUOTE ∧ h ≠ BACKSLASH) l → confix_rest (length l + fuel) (l ++ s) = confix_rest fuel s.
Proof.
  induction 1 as [|c l [Hq Hb] _ IH]; [done|]. cbn [length app Nat.add]. by rewrite confix_plain.
Qed.

Lemma confix_escaped fuel e s :
  e ∈ escapes → confix_rest (S fuel) (BACKSLASH :: e :: s) = confix_rest fuel s.
Proof. intros He. cbn [confix_rest]. by rewrite lex_escaped, decide_False. Qed.

Lemma confix_quote fuel s : confix_rest (S fuel) (QUOTE :: s) = Some s.
Proof. cbn [confix_rest]. by rewrite lex_plain, decide_True. Qed.

Lemma confix_esc s fuel rest :
  length (add_esc_chars s false) < fuel →
  confix_rest fuel (add_esc_chars s false ++ QUOTE :: rest) = Some rest.
Proof.
  revert fuel. induction s as [|c s IH]; intros fuel Hf; cbn [add_esc_chars] in *.
  { destruct fuel; [lia|]. apply confix_quote. }
  rewrite length_app in Hf. rewrite <-app_assoc.
  destruct (esc_char_form c) as [Hq Hb|e He Hs|h1 h2 h3 h4 Hh Hu]; cbn [length] in Hf.
  - destruct fuel as [|fuel]; [lia|]. cbn [app]. rewrite confix_plain by done. apply IH. lia.
  - destruct fuel as [|fuel]; [lia|]. cbn [app]. rewrite confix_escaped by done. apply IH. lia.
  - destruct fuel as [|fuel]; [lia|]. change (confix_rest (S fuel) (BACKSLASH :: "u"%char :: [h1; h2; h3; h4] ++ (add_esc_chars s false ++ QUOTE :: rest)) = Some rest).
    rewrite confix_escaped by (apply (bool_decide_unpack _); reflexivity).
    replace fuel with (length [h1; h2; h3; h4] + (fuel - 4)) by (cbn [length]; lia).
    rewrite confix_plains by done. apply IH. lia.
Qed.

(** [string_] reads a written string whole. *)
Lemma string_written s rest a :
  string_ (output_str 0 s ++ rest) a = Hit rest a.
Proof.
  unfold string_, output_str. rewrite <-app_comm_cons, <-app_assoc. cbn [app].
  change (skip_space (QUOTE :: ?x)) with (QUOTE :: x). cbn iota. rewrite decide_True by done.
  change (option_set 0 raw_utf8) with false.
  rewrite confix_esc; [done|]. rewrite length_app. cbn [length]. lia.
Qed.

Lemma confix_length fuel s rest : confix_rest fuel s = Some rest → length rest < length s.
Proof.
  revert s. induction fuel as [|fuel IH]; intros s; cbn [confix_rest]; [done|].
  assert (Hclose : (match s with c :: rest0 => if decide (c = QUOTE) then Some rest0 else None | [] => None end) = Some rest →
    length rest < length s).
  { destruct s as [|c s]; [done|]. case_decide; [|done]. intros; simplify_eq. simpl. lia. }
  destruct (lex_escape_ch_p s) as [n|] eqn:Hn; [|done].
  pose proof (lex_bound _ _ Hn) as Hb.
  assert (Hrec : confix_rest fuel (drop n s) = Some rest → length rest < length s).
  { intros Hr%IH. rewrite length_drop in Hr. lia. }
  revert Hclose. generalize (match s with c :: rest0 => if decide (c = QUOTE) then Some rest0 else None | [] => None end).
  intros [r|] Hclose; [destruct (n <=? 1)%nat|]; auto.
Qed.
End strings.

(** ** Building the value *)

(** The compounds that are open, from the one being filled outwards: what
    each holds already, and the name of its open member. *)
Inductive frame := FArr (a : list Value) | FObj (o : list (bytes * Value)).
Definition fval (f : frame) : Value := match f with FArr a => VArray a | FObj o => VObj o end.
Definition fadd (f : frame) (n : bytes) (v : Value) : frame :=
  match f with FArr a => FArr (a ++ [v]) | FObj o => FObj (o ++ [(n, v)]) end.
Definition fsize (f : frame) : nat := match f with FArr a => length a | FObj o => length o end.

Definition context : Type := list (frame * bytes).
Implicit Types (ctx : context) (f g : frame) (a : actions).

Fixpoint fill ctx (v : Value) : Value :=
  match ctx with [] => v | (f, n) :: ctx => fill ctx (fval (fadd f n v)) end.
Fixpoint cpath ctx : path :=
  match ctx with [] => [] | (f, _) :: ctx => cpath ctx ++ [fsize f] end.
Fixpoint cstack ctx : list path :=
  match ctx with [] => [] | _ :: ctx => cpath ctx :: cstack ctx end.

(** The actions are filling [f] inside [ctx]. *)
Definition filling ctx f a : Prop :=
  value_ a = fill ctx (fval f) ∧ current_p_ a = Some (cpath ctx) ∧ stack_ a = cstack ctx.

Lemma get_at_app p q v : get_at (p ++ q) v = match get_at p v with Some x => get_at q x | None => None end.
Proof. revert v. induction p as [|i p IH]; intros v; [done|]. cbn [app get_at]. by destruct (child i v). Qed.

Lemma update_child_ext i h h' v : (∀ x, h x = h' x) → update_child i h v = update_child i h' v.
Proof.
  intros Hh. destruct v; simpl; f_equal; apply list_alter_ext; [|done| |done]; intros; by rewrite Hh.
Qed.

Lemma update_at_app p q h v : update_at (p ++ q) h v = update_at p (update_at q h) v.
Proof. revert v. induction p as [|i p IH]; intros v; [done|]. cbn [app update_at]. by apply update_child_ext. Qed.

Lemma child_last f n v : child (fsize f) (fval (fadd f n v)) = Some v.
Proof. destruct f; simpl; by rewrite list_lookup_middle. Qed.

Lemma update_last f n h v : update_child (fsize f) h (fval (fadd f n v)) = fval (fadd f n (h v)).
Proof.
  destruct f as [l|o]; simpl; f_equal.
  - rewrite alter_app_r_alt, Nat.sub_diag by lia. done.
  - rewrite alter_app_r_alt, Nat.sub_diag by lia. done.
Qed.

Lemma get_fill ctx v : get_at (cpath ctx) (fill ctx v) = Some v.
Proof.
  revert v. induction ctx as [|[f n] ctx IH]; intros v; [done|]. cbn [cpath fill].
  rewrite get_at_app, IH. cbn [get_at]. by rewrite child_last.
Qed.

Lemma update_at_ext p h h' v : (∀ x, h x = h' x) → update_at p h v = update_at p h' v.
Proof. intros Hh. revert v. induction p as [|i p IH]; intros v; [apply Hh|]. cbn. by apply update_child_ext. Qed.

Lemma update_fill ctx h v : update_at (cpath ctx) h (fill ctx v) = fill ctx (h v).
Proof.
  revert h v. induction ctx as [|[f n] ctx IH]; intros h v; [done|]. cbn [cpath fill].
  rewrite update_at_app, IH. cbn [update_at]. by rewrite update_last.
Qed.

(** Where a value goes: to the root, or into the compound being filled. *)
Inductive place := Top | Inside (ctx : context) (f : frame).
Implicit Types (pl : place).

Definition at_place pl a : Prop :=
  match pl with Top => current_p_ a = None ∧ stack_ a = [] | Inside ctx f => filling ctx f a end.
Definition sub pl n : context := match pl with Top => [] | Inside ctx f => (f, n) :: ctx end.
Definition added pl n (v : Value) a : Prop :=
  match pl with Top => value_ a = v | Inside ctx f => filling ctx (fadd f n v) a end.

Lemma add_inside ctx f v a :
  value_ a = fill ctx (fval f) → current_p_ a = Some (cpath ctx) →
  add_to_current v a =
    Some (cpath ctx ++ [fsize f],
          Actions (fill ctx (fval (fadd f (name_ a) v))) (Some (cpath ctx)) (stack_ a) (name_ a)).
Proof.
  intros Hv Hp. unfold add_to_current. rewrite Hp, Hv, get_fill.
  destruct f as [l|o]; cbn [fval]; by rewrite update_fill.
Qed.

Lemma new_value_ok pl v a :
  at_place pl a → ∃ a', new_value v a = Some a' ∧ added pl (name_ a) v a'.
Proof.
  destruct pl as [|ctx f]; simpl; unfold new_value.
  - intros [Hp Hs]. unfold add_to_current. rewrite Hp. eexists. split; reflexivity.
  - intros (Hv & Hp & Hs). rewrite (add_inside ctx f v a Hv Hp). eexists. split; [reflexivity|done].
Qed.

Lemma begin_ok pl f a :
  fsize f = 0 → at_place pl a →
  ∃ a', begin_compound (fval f) a = Some a' ∧ filling (sub pl (name_ a)) f a'.
Proof.
  intros Hf. destruct pl as [|ctx g]; simpl; unfold begin_compound.
  - intros [Hp Hs]. rewrite Hp. eexists. split; [reflexivity|]. unfold filling. simpl. by rewrite Hs.
  - intros (Hv & Hp & Hs). rewrite Hp.
    rewrite (add_inside ctx g) by done. eexists. split; [reflexivity|]. unfold filling. simpl. by rewrite Hs.
Qed.

Lemma end_ok pl n f a :
  filling (sub pl n) f a → ∃ a', end_compound a = Some a' ∧ added pl n (fval f) a'.
Proof.
  destruct pl as [|ctx g]; simpl; intros (Hv & Hp & Hs); unfold end_compound; rewrite Hp.
  - rewrite decide_True by done. exists a. done.
  - rewrite decide_False by (intros [=He]; by apply app_nil in He as [_ He]).
    rewrite Hs. simpl. eexists. split; [reflexivity|]. done.
Qed.

Lemma new_name_ok ctx o s a :
  filling ctx (FObj o) a → ∃ a', new_name s a = Some a' ∧ filling ctx (FObj o) a' ∧ name_ a' = get_str_ s.
Proof.
  intros (Hv & Hp & Hs). unfold new_name. rewrite Hp, Hv, get_fill. eexists. split; [reflexivity|].
  done.
Qed.

(** ** The reader answers on every text

    [answers n P R p b]: on a text of at most [n] characters, from a state in
    [P], the parser hits with a shorter text and a state related by [R], or
    throws, or, if [b], does not match and leaves the state. *)
Definition answers (n : nat) (P : actions → Prop) (R : actions → actions → Prop) (b : bool) (p : parser) : Prop :=
  ∀ s a, length s ≤ n → P a →
  match p s a with
  | Hit rest a' => length rest < length s ∧ R a a'
  | NoMatch a' => b = true ∧ a' = a
  | Thrown _ => True
  | Failed | OutOfFuel => False
  end.

Lemma answers_weaken n P P' (R R' : actions → actions → Prop) b p :
  answers n P R b p → (∀ a, P' a → P a) → (∀ a a', P' a → R a a' → R' a a') → answers n P' R' b p.
Proof.
  intros Hp HP HR s a Hs Ha. specialize (Hp s a Hs (HP a Ha)).
  destruct (p s a); naive_solver.
Qed.

(** After the first part has hit, the second must not fail to match. *)
Lemma answers_sequence n P R S b p q :
  answers n P R b p → (∀ a, 0 < n → P a → answers (n - 1) (R a) (λ _, S a) false q) → answers n P S b (sequence p q).
Proof.
  intros Hp Hq s a Hs Ha. specialize (Hp s a Hs Ha). unfold sequence.
  destruct (p s a) as [rest a'| | | |]; try done. destruct Hp as [Hl HR].
  specialize (Hq a ltac:(lia) Ha rest a' ltac:(lia) HR). destruct (q rest a'); try done; naive_solver lia.
Qed.

(** A separator: it leaves the state, so the sequence may fail after it. *)
Lemma answers_separated n P R b p q :
  answers n P (λ a a', a' = a) true p → answers (n - 1) P R b q → answers n P R true (sequence p q).
Proof.
  intros Hp Hq s a Hs Ha. specialize (Hp s a Hs Ha). unfold sequence.
  destruct (p s a) as [rest a'| | | |]; try done. destruct Hp as [Hl ->].
  specialize (Hq rest a ltac:(lia) Ha). destruct (q rest a); try done; naive_solver lia.
Qed.

Lemma answers_alternative n P R b p q :
  answers n P R true p → answers n P R b q → answers n P R b (alternative p q).
Proof.
  intros Hp Hq s a Hs Ha. specialize (Hp s a Hs Ha). unfold alternative.
  destruct (p s a) as [| a'| | |]; try done. destruct Hp as [_ ->]. by apply Hq.
Qed.

Lemma answers_throw n P R p reason :
  answers n P R true p → answers n P R false (alternative p (eps_throw reason)).
Proof. intros Hp. by apply answers_alternative. Qed.

(** What is optional or repeated may leave the text as it is; what follows
    still answers. *)
Lemma answers_optional n P (I : actions → Prop) S p q :
  answers n I (λ _, I) true p → answers n I (λ _ , S) false q →
  (∀ a, P a → I a) → answers n P (λ _, S) false (sequence (optional p) q).
Proof.
  intros Hp Hq HP s a Hs Ha. specialize (Hp s a Hs (HP a Ha)). unfold sequence, optional.
  destruct (p s a) as [rest a'|a'| | |]; try done.
  - destruct Hp as [Hl HI]. specialize (Hq rest a' ltac:(lia) HI). destruct (q rest a'); try done; naive_solver lia.
  - destruct Hp as [_ ->]. apply Hq; auto.
Qed.

Lemma answers_kleene n (I : actions → Prop) p fuel s a :
  answers n I (λ _, I) true p → length s ≤ n → I a → length s < fuel →
  match kleene_star fuel p s a with
  | Hit rest a' => length rest ≤ length s ∧ I a'
  | Thrown _ => True
  | _ => False
  end.
Proof.
  intros Hp. revert s a. induction fuel as [|fuel IH]; intros s a Hs Ha Hf; [lia|].
  cbn [kleene_star]. specialize (Hp s a Hs Ha). destruct (p s a) as [rest a'|a'| | |]; try done.
  - destruct Hp as [Hl HI]. specialize (IH rest a' ltac:(lia) HI ltac:(lia)).
    destruct (kleene_star fuel p rest a'); try done. destruct IH. split; [lia|done].
  - destruct Hp as [_ ->]. done.
Qed.

(** One or more, with separators. *)
Lemma answers_list n (I : actions → Prop) b p q :
  answers n I (λ _, I) b p → answers n I (λ _, I) true q →
  answers n I (λ _, I) b (sequence p (λ s a, kleene_star (S (length s)) q s a)).
Proof.
  intros Hp Hq s a Hs Ha. specialize (Hp s a Hs Ha). unfold sequence.
  destruct (p s a) as [rest a'| | | |]; try done. destruct Hp as [Hl HI].
  pose proof (answers_kleene n I q (S (length rest)) rest a' Hq ltac:(lia) HI ltac:(lia)) as Hk.
  destruct (kleene_star _ q rest a'); try done. destruct Hk. split; [lia|done].
Qed.

(** *** The lexical parsers *)
Section answers.
Context `{HS : Spirit} {SL : SpiritLaws}.

Lemma answers_action n P R S p (f : bytes → actions → option actions) :
  (∀ s a, P a → match p s a with Hit rest a' => length rest < length (skip_space s) ∧ a' = a | NoMatch a' => a' = a | _ => False end) →
  (∀ t a, P a → ∃ a', f t a = Some a' ∧ S a a') →
  R = S → answers n P R true (action p f).
Proof.
  intros Hp Hf -> s a Hs Ha. unfold action. specialize (Hp (skip_space s) a Ha).
  rewrite skip_space_idem in Hp. pose proof (skip_space_length s).
  destruct (p (skip_space s) a) as [rest a'|a'| | |]; try done. destruct Hp as [Hl ->].
  destruct (Hf (take (length (skip_space s) - length rest) (skip_space s)) a Ha) as (a' & -> & HS').
  split; [lia|done].
Qed.

Lemma ch_p_hit c s a :
  match ch_p c s a with Hit rest a' => length rest < length (skip_space s) ∧ a' = a | NoMatch a' => a' = a | _ => False end.
Proof. unfold ch_p. destruct (skip_space s) as [|x l]; [done|]. case_decide; simpl; [split; [lia|done]|done]. Qed.

Lemma answers_ch_p n P c : answers n P (λ a a', a' = a) true (ch_p c).
Proof.
  intros s a Hs Ha. pose proof (ch_p_hit c s a) as Hh. pose proof (skip_space_length s).
  destruct (ch_p c s a); try done. destruct Hh. split; [lia|done].
Qed.

Lemma str_p_hit t s a :
  t ≠ [] →
  match str_p t s a with Hit rest a' => length rest < length (skip_space s) ∧ a' = a | NoMatch a' => a' = a | _ => False end.
Proof.
  intros Ht. unfold str_p. case_decide as Hd; [|done]. split; [|done]. rewrite length_drop.
  destruct t; [done|]. destruct (skip_space s); [done|]. simpl. lia.
Qed.

Lemma string_hit s a :
  match string_ s a with Hit rest a' => length rest < length (skip_space s) ∧ a' = a | NoMatch a' => a' = a | _ => False end.
Proof.
  unfold string_. destruct (skip_space s) as [|c l]; [done|]. case_decide; [|done].
  destruct (confix_rest _ l) as [rest|] eqn:Hc; [|done]. apply confix_length in Hc. simpl. split; [lia|done].
Qed.

(** *** The rules *)

(** A value has gone to its place. *)
Definition gets_value pl a a' : Prop := ∃ v, added pl (name_ a) v a'.

Lemma answers_value n pl p (mk : bytes → Value) :
  (∀ s a, match p s a with Hit rest a' => length rest < length (skip_space s) ∧ a' = a | NoMatch a' => a' = a | _ => False end) →
  answers n (at_place pl) (gets_value pl) true (action p (λ t, new_value (mk t))).
Proof.
  intros Hp. eapply answers_action; [intros; apply Hp|intros t a Ha|reflexivity].
  destruct (new_value_ok pl (mk t) a Ha) as (a' & ? & ?). exists a'. split; [done|by eexists].
Qed.

Lemma numeric_ok pl (mk : Z → Value) z rest a (l : nat) :
  at_place pl a → (is_Some z → length rest < l) →
  match numeric z rest (λ z, new_value (mk z)) a with
  | Hit rest a' => length rest < l ∧ gets_value pl a a'
  | NoMatch a' => true = true ∧ a' = a
  | Thrown _ => True
  | _ => False
  end.
Proof.
  intros Ha Hl. destruct z as [z|]; simpl; [|done].
  destruct (new_value_ok pl (mk z) a Ha) as (a' & -> & ?). split; [auto|by eexists].
Qed.

Lemma read_digits_length neg s : is_Some (read_digits neg s) → length (skip_digits s) < length s.
Proof.
  destruct s as [|c s]; simpl; [by intros []|]. destruct (is_digit c); [|by intros []].
  intros _. pose proof (skip_digits_length s). lia.
Qed.

Lemma signed_length s : length (snd (signed s)) ≤ length s.
Proof. destruct s as [|c s]; simpl; [done|]. repeat case_decide; simpl; lia. Qed.

Lemma answers_number n pl : answers n (at_place pl) (gets_value pl) true number_.
Proof.
  unfold number_. repeat apply answers_alternative; intros s a Hs Ha; pose proof (skip_space_length s).
  - unfold real_p. destruct (strict_real_p (skip_space s)) as [[bits k]|] eqn:Hr; [|done].
    apply real_bound in Hr. apply numeric_ok; [done|]. intros _. rewrite length_drop. lia.
  - unfold int64_p. pose proof (signed_length (skip_space s)) as Hg.
    destruct (signed (skip_space s)) as [neg t]. simpl in Hg.
    apply numeric_ok; [done|]. intros [z Hz]. apply bind_Some in Hz as (z' & Hz & _).
    pose proof (read_digits_length neg t ltac:(by eexists)). lia.
  - unfold uint64_p. apply numeric_ok; [done|]. intros [z Hz]. apply bind_Some in Hz as (z' & Hz & _).
    pose proof (read_digits_length false _ ltac:(by eexists)). lia.
Qed.

(** A parser of values, wherever they go. *)
Definition value_answers (n : nat) (value : parser) : Prop :=
  ∀ pl, answers n (at_place pl) (gets_value pl) true value.

Definition filling_obj ctx a : Prop := ∃ o, filling ctx (FObj o) a.
Definition filling_arr ctx a : Prop := ∃ l, filling ctx (FArr l) a.

Lemma value_answers_le n m value : m ≤ n → value_answers n value → value_answers m value.
Proof. intros Hle Hv pl s a Hs Ha. apply Hv; [lia|done]. Qed.

Lemma answers_le n m P R b p : m ≤ n → answers n P R b p → answers m P R b p.
Proof. intros Hle Hp s a Hs Ha. apply Hp; [lia|done]. Qed.

Lemma answers_pair n ctx value :
  value_answers n value → answers n (filling_obj ctx) (λ _, filling_obj ctx) true (pair_ value).
Proof.
  intros Hv. unfold pair_. eapply answers_sequence.
  - eapply answers_sequence with (R := λ _, filling_obj ctx).
    + eapply answers_action; [intros; apply string_hit| |reflexivity].
      intros t a [o Ho]. destruct (new_name_ok ctx o t a Ho) as (a' & ? & ? & _).
      exists a'. split; [done|by exists o].
    + intros a _ Ha. eapply answers_weaken with (R := λ a a', a' = a); [by apply answers_throw, answers_ch_p|by intros|].
      intros a1 a2 H1 ->. exact H1.
  - intros a _ Ha. apply answers_throw. intros s a' Hs [o Ho].
    pose proof (Hv (Inside ctx (FObj o)) s a' ltac:(lia) Ho) as Hans.
    destruct (value s a'); try done. destruct Hans as (? & v & Hadd). split; [done|by eexists].
Qed.

Lemma answers_element n ctx value :
  value_answers n value → answers n (filling_arr ctx) (λ _, filling_arr ctx) true value.
Proof.
  intros Hv s a Hs [l Hl]. pose proof (Hv (Inside ctx (FArr l)) s a Hs Hl) as Hans.
  destruct (value s a); try done. destruct Hans as (? & v & Hadd). split; [done|by eexists].
Qed.

Lemma answers_ext n P R b p q : (∀ s a, p s a = q s a) → answers n P R b p → answers n P R b q.
Proof. intros He Hp s a Hs Ha. rewrite <-He. by apply Hp. Qed.

Lemma answers_compound n pl (I : context → actions → Prop) f o c list reason :
  fsize f = 0 →
  (∀ ctx a, filling ctx f a → I ctx a) →
  (∀ ctx a, I ctx a → ∃ g, filling ctx g a) →
  (∀ ctx, 0 < n → answers (n - 1) (I ctx) (λ _, I ctx) true list) →
  answers n (at_place pl) (gets_value pl) true
    (action (ch_p o) (λ _, begin_compound (fval f)) >>> !! list >>>
     (action (ch_p c) (λ _, end_compound) <|> eps_throw reason)).
Proof.
  intros Hf Hin Hout Hlist.
  eapply (answers_ext _ _ _ _ (sequence (action (ch_p o) (λ _, begin_compound (fval f)))
    (sequence (optional list) (action (ch_p c) (λ _, end_compound) <|> eps_throw reason)))).
  { intros s a. unfold sequence. by destruct (action _ _ s a). }
  eapply answers_sequence with (R := λ a, I (sub pl (name_ a))).
  - eapply answers_action; [intros; apply ch_p_hit| |reflexivity].
    intros _ a Ha. destruct (begin_ok pl f a Hf Ha) as (a' & ? & ?). eauto.
  - intros a Hn Ha. apply (answers_optional _ _ (I (sub pl (name_ a))) (gets_value pl a)); [auto| |done].
    apply answers_throw. eapply answers_action; [intros; apply ch_p_hit| |reflexivity].
    intros _ a' [g Hg]%Hout. destruct (end_ok _ _ _ _ Hg) as (a'' & ? & ?). exists a''. split; [done|by eexists].
Qed.

Lemma answers_object n pl value :
  (0 < n → value_answers (n - 1) value) → answers n (at_place pl) (gets_value pl) true (object_ value).
Proof.
  intros Hv. apply (answers_compound n pl filling_obj (FObj [])); [done|by eexists|by intros ? ? [? ?]; eexists|].
  intros ctx Hn. unfold members_. apply answers_list; [by apply answers_pair, Hv|].
  apply (answers_separated _ _ _ true); [apply answers_ch_p|]. apply answers_pair, (value_answers_le (n - 1)); [lia|by apply Hv].
Qed.

Lemma answers_array n pl value :
  (0 < n → value_answers (n - 1) value) → answers n (at_place pl) (gets_value pl) true (array_ value).
Proof.
  intros Hv. apply (answers_compound n pl filling_arr (FArr [])); [done|by eexists|by intros ? ? [? ?]; eexists|].
  intros ctx Hn. unfold elements_. apply answers_list; [by apply answers_element, Hv|].
  apply (answers_separated _ _ _ true); [apply answers_ch_p|]. apply answers_element, (value_answers_le (n - 1)); [lia|by apply Hv].
Qed.

Lemma value_rule_answers n fuel : n < fuel → value_answers n (value_rule fuel).
Proof.
  revert n. induction fuel as [|fuel IH]; intros n Hn pl; [lia|]. cbn [value_rule].
  assert (0 < n → value_answers (n - 1) (value_rule fuel)) by (intros; apply IH; lia).
  apply answers_alternative; [apply (answers_value n pl string_ (λ t, VStr (get_str_ t))), string_hit|].
  apply answers_alternative; [apply answers_number|].
  apply answers_alternative; [by apply answers_object|].
  apply answers_alternative; [by apply answers_array|].
  repeat apply answers_alternative;
    [apply (answers_value n pl _ (λ _, VBool true))|apply (answers_value n pl _ (λ _, VBool false))
    |apply (answers_value n pl _ (λ _, VNull))]; intros; by apply str_p_hit.
Qed.

(** C27 The reader answers on every text: it accepts it with a value and at
    least one character read, or throws the reason; it never runs out of
    rounds, and no assertion of the semantic actions fails. *)
Theorem read_answers s value :
  match read_range_or_throw s value with
  | Hit rest a => length rest < length s
  | Thrown _ => True
  | _ => False
  end.
Proof.
  unfold read_range_or_throw, json_.
  pose proof (answers_throw _ _ _ _ "not a value"%string (value_rule_answers (length s) (S (length s)) ltac:(lia) Top))
    as Hans. specialize (Hans s (Actions value None [] []) ltac:(lia) (conj eq_refl eq_refl)).
  destruct (alternative _ _ _ _); try done; naive_solver.
Qed.
End answers.

(** ** The reader gives back what was written *)

(** The text after a number does not continue it. *)
Definition stops (rest : bytes) : Prop := ∀ c s, rest = c :: s → continues_real c = false.

Lemma stops_cons c s : continues_real c = false → stops (c :: s).
Proof. intros Hc ? ? [= <- <-]. done. Qed.

(** The values whose text reads back as they are: no [double], and integers
    of the type the reader gives them. *)
Fixpoint plain (v : Value) : bool :=
  match v with
  | VObj o => forallb (λ m, let '(_, x) := m in plain x) o
  | VArray l => forallb plain l
  | VStr _ | VBool _ | VNull => true
  | VInt z => (- 2 ^ 63 <=? z)%Z && (z <? 2 ^ 63)%Z
  | VUint z => (2 ^ 63 <=? z)%Z && (z <? 2 ^ 64)%Z
  | VReal _ => false
  end.

(** Induction on values, through the lists of their members. *)
Lemma Value_nested_ind (P : Value → Prop) :
  (∀ o, Forall (λ m, P (snd m)) o → P (VObj o)) → (∀ l, Forall P l → P (VArray l)) →
  (∀ s, P (VStr s)) → (∀ b, P (VBool b)) → (∀ z, P (VInt z)) → (∀ d, P (VReal d)) → P VNull →
  (∀ z, P (VUint z)) → ∀ v, P v.
Proof.
  intros Ho Hl Hs Hb Hi Hr Hn Hu. fix IH 1. intros [o|l|s|b|z|d| |z].
  - apply Ho. induction o as [|[n x] o IHo]; constructor; [apply IH|done].
  - apply Hl. induction l as [|x l IHl]; constructor; [apply IH|done].
  - apply Hs.
  - apply Hb.
  - apply Hi.
  - apply Hr.
  - apply Hn.
  - apply Hu.
Qed.

(** *** Hits and misses *)

Lemma sequence_hit (p q : parser) s a s' a' : p s a = Hit s' a' → sequence p q s a = q s' a'.
Proof. unfold sequence. by intros ->. Qed.
Lemma alternative_hit (p q : parser) s a s' a' : p s a = Hit s' a' → alternative p q s a = Hit s' a'.
Proof. unfold alternative. by intros ->. Qed.
Lemma alternative_miss (p q : parser) s a : p s a = NoMatch a → alternative p q s a = q s a.
Proof. unfold alternative. by intros ->. Qed.
Lemma optional_hit (p : parser) s a s' a' : p s a = Hit s' a' → optional p s a = Hit s' a'.
Proof. unfold optional. by intros ->. Qed.
Lemma optional_miss (p : parser) s a : p s a = NoMatch a → optional p s a = Hit s a.
Proof. unfold optional. by intros ->. Qed.

Lemma skip_space_cons c s : isspace c = false → skip_space (c :: s) = c :: s.
Proof. simpl. by intros ->. Qed.

Lemma action_hit (p : parser) h c t rest a a' :
  isspace c = false → p (c :: t ++ rest) a = Hit rest a → h (c :: t) a = Some a' →
  action p h (c :: t ++ rest) a = Hit rest a'.
Proof.
  intros Hc Hp Hf. unfold action. rewrite skip_space_cons, Hp by done.
  replace (length (c :: t ++ rest) - length rest) with (length (c :: t)) by (simpl; rewrite length_app; lia).
  rewrite app_comm_cons, take_app_length. by rewrite Hf.
Qed.

Lemma action_miss (p : parser) h c s a :
  isspace c = false → p (c :: s) a = NoMatch a → action p h (c :: s) a = NoMatch a.
Proof. intros Hc Hp. unfold action. by rewrite skip_space_cons, Hp. Qed.

Lemma ch_p_same c s a : isspace c = false → ch_p c (c :: s) a = Hit s a.
Proof. intros Hc. unfold ch_p. by rewrite skip_space_cons, decide_True. Qed.
Lemma ch_p_other c d s a : isspace d = false → d ≠ c → ch_p c (d :: s) a = NoMatch a.
Proof. intros Hc Hd. unfold ch_p. by rewrite skip_space_cons, decide_False. Qed.

Section written.
Context `{HS : Spirit} {SL : SpiritLaws}.

Lemma string_miss c s a : isspace c = false → c ≠ QUOTE → string_ (c :: s) a = NoMatch a.
Proof. intros Hc Hq. unfold string_. by rewrite skip_space_cons, decide_False. Qed.

Lemma number_miss c s a : isspace c = false → starts_number c = false → number_ (c :: s) a = NoMatch a.
Proof.
  intros Hc Hn. pose proof Hn as [Hd Hp]%orb_false_iff. apply bool_decide_eq_false_1 in Hp.
  assert (c ≠ "-"%char ∧ c ≠ "+"%char) as [Hm Hp'] by (split; intros ->; apply Hp; (apply (bool_decide_unpack _); reflexivity)).
  unfold number_.
  rewrite alternative_miss by (unfold real_p; by rewrite skip_space_cons, real_start).
  rewrite alternative_miss by (unfold int64_p; rewrite skip_space_cons by done; cbn [signed]; rewrite !decide_False by done; simpl; by rewrite Hd).
  unfold uint64_p. rewrite skip_space_cons by done. simpl. by rewrite Hd.
Qed.

(** *** Numbers *)

Lemma digit_char_facts d : is_digit d = true → isspace d = false ∧ d ≠ "-"%char ∧ d ≠ "+"%char ∧ d ≠ QUOTE.
Proof.
  pose (test d := implb (is_digit d) (bool_decide (isspace d = false ∧ d ≠ "-"%char ∧ d ≠ "+"%char ∧ d ≠ QUOTE))).
  assert (test d = true) as Ht by (revert d; apply forall_chars; vm_compute; reflexivity).
  unfold test in Ht. intros Hd. rewrite Hd in Ht. by apply bool_decide_eq_true_1 in Ht.
Qed.

Lemma stops_digit rest c s : stops rest → rest = c :: s → is_digit c = false.
Proof. intros Hs Hr. by pose proof (Hs c s Hr) as [??]%orb_false_iff. Qed.

(** The text of an integer: its sign and its digits. *)
Lemma print_int_form z :
  ∃ ds, print_int z = (if (z <? 0)%Z then lit "-" else []) ++ ds ∧
  Forall (λ c, is_digit c = true) ds ∧ ds ≠ [] ∧ (Z.abs z < 2 ^ 65 → number 0 ds = Z.abs z)%Z.
Proof.
  exists (digits 20 (Z.abs z)). split_and!.
  - unfold print_int. destruct (Z.ltb_spec z 0); [by rewrite Z.abs_neq by lia|by rewrite Z.abs_eq by lia].
  - apply digits_all. lia.
  - apply digits_nonempty.
  - intros Hz. apply number_digits. split; [lia|]. eapply Z.lt_trans; [exact Hz|]. by vm_compute.
Qed.

Lemma skip_space_int (neg : bool) ds rest :
  Forall (λ c, is_digit c = true) ds → ds ≠ [] →
  skip_space ((if neg then lit "-" else []) ++ ds ++ rest) = (if neg then lit "-" else []) ++ ds ++ rest.
Proof.
  intros Hds Hne. destruct neg; [done|]. destruct ds as [|d ds]; [done|].
  apply Forall_cons in Hds as [[Hd _]%digit_char_facts _]. by apply skip_space_cons.
Qed.

Lemma signed_int (neg : bool) ds rest :
  Forall (λ c, is_digit c = true) ds → ds ≠ [] →
  signed ((if neg then lit "-" else []) ++ ds ++ rest) = (neg, ds ++ rest).
Proof.
  intros Hds Hne. destruct neg; [done|]. destruct ds as [|d ds]; [done|].
  apply Forall_cons in Hds as [(_ & Hm & Hp & _)%digit_char_facts _]. cbn [signed app]. by rewrite !decide_False.
Qed.

Lemma read_digits_int neg ds rest :
  Forall (λ c, is_digit c = true) ds → ds ≠ [] → stops rest →
  read_digits neg (ds ++ rest) = Some (if neg then - number 0 ds else number 0 ds)%Z.
Proof.
  intros Hds Hne Hrest. rewrite <-(number_stop (number 0 ds) rest), <-number_app by (done || eauto using stops_digit).
  destruct ds as [|d ds]; [done|]. apply Forall_cons in Hds as [Hd _]. simpl. by rewrite Hd.
Qed.

Lemma string_int (neg : bool) ds rest h a :
  Forall (λ c, is_digit c = true) ds → ds ≠ [] →
  action string_ h ((if neg then lit "-" else []) ++ ds ++ rest) a = NoMatch a.
Proof.
  intros Hds Hne. destruct neg; [by apply (action_miss _ _ "-"%char), string_miss|].
  destruct ds as [|d ds]; [done|]. apply Forall_cons in Hds as [(? & _ & _ & ?)%digit_char_facts _].
  by apply (action_miss string_ h d), string_miss.
Qed.

(** An integer is read as an [int64_t] where it is one, and as a [uint64_t]
    where only that type holds it. *)
Lemma number_written z rest a :
  (- 2 ^ 63 ≤ z < 2 ^ 64)%Z → stops rest →
  number_ (print_int z ++ rest) a =
    numeric (Some z) rest (λ z, new_value (if (z <? 2 ^ 63)%Z then VInt z else VUint z)) a.
Proof.
  intros Hz Hrest. destruct (print_int_form z) as (ds & -> & Hds & Hne & Hnum).
  specialize (Hnum ltac:(lia)). rewrite <-app_assoc. set (neg := (z <? 0)%Z).
  pose proof (λ r c s, stops_digit r c s) as Hstop.
  assert (Hskip : skip_digits (ds ++ rest) = rest) by (apply skip_digits_app; [done|by intros; eapply stops_digit]).
  unfold number_. rewrite alternative_miss.
  2:{ unfold real_p. rewrite skip_space_int by done. rewrite real_int; [done|destruct neg; set_solver|done..]. }
  unfold alternative, int64_p. rewrite skip_space_int, signed_int, read_digits_int, Hskip, Hnum by done.
  assert ((if neg then - Z.abs z else Z.abs z)%Z = z) as -> by (subst neg; destruct (Z.ltb_spec z 0); lia).
  cbn [mbind option_bind]. unfold in_range. rewrite (proj2 (Z.leb_le _ _)) by lia.
  destruct (Z.ltb_spec z (2 ^ 63)) as [Hlt|Hge].
  - cbn [andb numeric]. rewrite (proj2 (Z.ltb_lt z (2 ^ 63))) by done.
    destruct (new_value (VInt z) a) eqn:Hv; by rewrite ?Hv.
  - cbn [andb numeric]. unfold uint64_p. subst neg. destruct (Z.ltb_spec z 0); [lia|].
    rewrite (skip_space_int false ds rest) by done. cbn [app]. rewrite read_digits_int, Hskip, Hnum by done.
    cbn [mbind option_bind]. unfold in_range. rewrite Z.abs_eq by lia.
    rewrite (proj2 (Z.leb_le 0 z)), (proj2 (Z.ltb_lt z (2 ^ 64))) by lia. cbn [andb numeric].
    rewrite (proj2 (Z.ltb_ge z (2 ^ 63))) by done. done.
Qed.
(** *** Compounds *)

(** A parser of members reads the text of [m], in the frames of [K]. *)
Definition reads_member (K : frame → Prop) (text : bytes * Value → bytes) (item : parser) (m : bytes * Value) : Prop :=
  ∀ ctx f a rest, K f → filling ctx f a → stops rest →
  ∃ a', item (text m ++ rest) a = Hit rest a' ∧ filling ctx (fadd f (fst m) (snd m)) a'.

Definition fadd_all f (ms : list (bytes * Value)) : frame := foldl (λ f m, fadd f (fst m) (snd m)) f ms.

Lemma fadd_all_arr l vs : fadd_all (FArr l) (map (pair []) vs) = FArr (l ++ vs).
Proof.
  revert l. induction vs as [|v vs IH]; intros l; [by rewrite app_nil_r|].
  cbn [map fadd_all foldl fadd fst snd]. fold (fadd_all (FArr (l ++ [v])) (map (pair []) vs)).
  by rewrite IH, <-app_assoc.
Qed.

Lemma fadd_all_obj o ms : fadd_all (FObj o) ms = FObj (o ++ ms).
Proof.
  revert o. induction ms as [|[n v] ms IH]; intros o; [by rewrite app_nil_r|].
  cbn [fadd_all foldl fadd fst snd]. fold (fadd_all (FObj (o ++ [(n, v)])) ms).
  by rewrite IH, <-app_assoc.
Qed.

(** The members after the first. *)
Definition more (text : bytes * Value → bytes) (ms : list (bytes * Value)) : bytes :=
  concat (map (λ m, lit "," ++ text m) ms).

Lemma output_elements_more level text m ms :
  output_elements 0 level (map text (m :: ms)) = text m ++ more text ms.
Proof.
  revert m. induction ms as [|m' ms IH]; intros m; [cbn; by rewrite ?app_nil_r|].
  change (output_elements 0 level (map text (m :: m' :: ms)))
    with (text m ++ lit "," ++ output_elements 0 level (map text (m' :: ms))).
  rewrite IH. by unfold more; simpl.
Qed.

Lemma more_length text ms : length ms ≤ length (more text ms).
Proof.
  induction ms as [|m ms IH]; [done|]. unfold more in *. cbn [map concat].
  rewrite !length_app. change (length (lit ",")) with 1. cbn [length]. lia.
Qed.

Lemma more_stops text ms c rest : continues_real c = false → stops (more text ms ++ c :: rest).
Proof. intros Hc. destruct ms; by apply stops_cons. Qed.

(** The characters that close a compound. *)
Definition closes (c : ascii) : Prop := c = "]"%char ∨ c = "}"%char.
Ltac close_cases := match goal with H : closes _ |- _ => destruct H as [-> | ->] end.

Lemma more_written (K : frame → Prop) text item ms fuel ctx f a c rest :
  closes c → (∀ f n v, K f → K (fadd f n v)) → Forall (reads_member K text item) ms → K f → filling ctx f a →
  length ms < fuel →
  ∃ a', kleene_star fuel (sequence (ch_p ","%char) item) (more text ms ++ c :: rest) a = Hit (c :: rest) a' ∧
        filling ctx (fadd_all f ms) a'.
Proof.
  intros Hc HK Hms. revert f a fuel. induction Hms as [|m ms Hm _ IH]; intros f a fuel Hf Ha Hfuel;
    (destruct fuel as [|fuel]; [simpl in Hfuel; lia|]).
  - exists a. split; [|done]. cbn [kleene_star more map concat app]. unfold sequence.
    rewrite ch_p_other by (by close_cases). done.
  - assert (continues_real c = false) by (by close_cases).
    destruct (Hm ctx f a (more text ms ++ c :: rest) Hf Ha (more_stops _ _ _ _ ltac:(done))) as (a1 & Hhit & Ha1).
    destruct (IH _ a1 fuel (HK _ _ _ Hf) Ha1 ltac:(simpl in Hfuel; lia)) as (a2 & Hk & Ha2).
    exists a2. split; [|done]. cbn [kleene_star].
    replace (more text (m :: ms) ++ c :: rest) with (","%char :: text m ++ more text ms ++ c :: rest)
      by (cbn; by rewrite <-app_assoc).
    unfold sequence at 1. rewrite ch_p_same, Hhit by done. exact Hk.
Qed.

Lemma compound_written (K : frame → Prop) text item ms level pl f a o c reason rest :
  (o = "{"%char ∨ o = "["%char) → closes c → fsize f = 0 →
  (∀ f n v, K f → K (fadd f n v)) → K f → Forall (reads_member K text item) ms →
  (∀ a, item (c :: rest) a = NoMatch a) → at_place pl a →
  ∃ a', (action (ch_p o) (λ _, begin_compound (fval f)) >>>
         !! (item >>> ** (ch_p ","%char >>> item)) >>>
         (action (ch_p c) (λ _, end_compound) <|> eps_throw reason))
          (output_array_or_obj 0 level o c (map text ms) ++ rest) a = Hit rest a' ∧
        added pl (name_ a) (fval (fadd_all f ms)) a'.
Proof.
  intros Ho Hc Hf HK Kf Hms Hmiss Ha.
  destruct (begin_ok pl f a Hf Ha) as (a1 & Hbegin & Ha1).
  assert (isspace o = false ∧ isspace c = false) as [Hso Hsc] by (split; [by destruct Ho as [-> | ->]|by close_cases]).
  assert (Hbody : ∃ a2, optional (item >>> ** (ch_p ","%char >>> item))
            (output_elements 0 (S level) (map text ms) ++ c :: rest) a1 = Hit (c :: rest) a2 ∧
            filling (sub pl (name_ a)) (fadd_all f ms) a2).
  { destruct Hms as [|m ms Hm Hms].
    { exists a1. split; [|done]. apply optional_miss. unfold sequence. cbn. by rewrite Hmiss. }
    rewrite output_elements_more, <-app_assoc.
    assert (continues_real c = false) as Hcc by (by close_cases).
    destruct (Hm _ f a1 (more text ms ++ c :: rest) Kf Ha1 (more_stops _ _ _ _ Hcc)) as (a2 & Hhit & Ha2).
    destruct (more_written K text item ms (S (length (more text ms ++ c :: rest))) _ _ a2 c rest Hc HK Hms (HK _ _ _ Kf) Ha2)
      as (a3 & Hk & Ha3).
    { rewrite length_app. pose proof (more_length text ms). lia. }
    exists a3. split; [|done]. apply optional_hit. by rewrite (sequence_hit _ _ _ _ _ _ Hhit). }
  destruct Hbody as (a2 & Hbody & Ha2).
  destruct (end_ok _ _ _ _ Ha2) as (a3 & Hend & Ha3). exists a3. split; [|done].
  replace (output_array_or_obj 0 level o c (map text ms) ++ rest)
    with (o :: [] ++ output_elements 0 (S level) (map text ms) ++ c :: rest)
    by (change (output_array_or_obj 0 level o c (map text ms))
          with (o :: output_elements 0 (S level) (map text ms) ++ [c]);
        by rewrite <-app_comm_cons, <-app_assoc).
  rewrite (sequence_hit _ _ _ _ (c :: rest) a2);
    [|erewrite sequence_hit; [exact Hbody|]; apply action_hit; [done|by apply ch_p_same|exact Hbegin]].
  apply alternative_hit, (action_hit _ _ c []); [done|by apply ch_p_same|exact Hend].
Qed.
(** *** Values *)

Lemma compound_miss c d s a h (p : parser) :
  isspace d = false → d ≠ c → sequence (action (ch_p c) h) p (d :: s) a = NoMatch a.
Proof. intros Hs Hd. unfold sequence. rewrite action_miss; [done|done|by apply ch_p_other]. Qed.

Lemma object_miss value d s a : isspace d = false → d ≠ "{"%char → object_ value (d :: s) a = NoMatch a.
Proof. intros. unfold object_, sequence at 1. by rewrite compound_miss. Qed.
Lemma array_miss value d s a : isspace d = false → d ≠ "["%char → array_ value (d :: s) a = NoMatch a.
Proof. intros. unfold array_, sequence at 1. by rewrite compound_miss. Qed.

Lemma str_p_same c t rest a : isspace c = false → str_p (c :: t) (c :: t ++ rest) a = Hit rest a.
Proof.
  intros Hc. unfold str_p. rewrite skip_space_cons by done.
  rewrite app_comm_cons, take_app_length, drop_app_length, decide_True by done. done.
Qed.
Lemma str_p_other c t d s a : isspace d = false → d ≠ c → str_p (c :: t) (d :: s) a = NoMatch a.
Proof. intros Hd Hne. unfold str_p. rewrite skip_space_cons by done. rewrite decide_False; [done|]. by intros [=]. Qed.

(** What closes a compound is no value. *)
Lemma value_miss fuel c s a : closes c → value_rule (S fuel) (c :: s) a = NoMatch a.
Proof.
  intros Hc. cbn [value_rule].
  rewrite alternative_miss by (apply action_miss; [|apply string_miss]; by close_cases).
  rewrite alternative_miss by (apply number_miss; by close_cases).
  rewrite alternative_miss by (apply object_miss; by close_cases).
  rewrite alternative_miss by (apply array_miss; by close_cases).
  rewrite !alternative_miss by (apply action_miss; [by close_cases|]; apply (str_p_other _ _ c); by close_cases).
  apply action_miss; [by close_cases|]; apply (str_p_other _ _ c); by close_cases.
Qed.

Lemma elements_length level x l : x ∈ l → length x ≤ length (output_elements 0 level l).
Proof.
  induction l as [|y l IH]; [by intros []%elem_of_nil|]. cbn [output_elements]. rewrite !length_app.
  intros [-> |Hx]%elem_of_cons; [lia|]. specialize (IH Hx). lia.
Qed.

Context (append_double : Z → Z → bytes).
Abbreviation output := (output append_double 0).

(** [value] reads what is written for [v], wherever it goes. *)
Definition reads (value : parser) level (v : Value) : Prop :=
  ∀ pl rest a, stops rest → at_place pl a →
  ∃ a', value (output level v ++ rest) a = Hit rest a' ∧ added pl (name_ a) v a'.

Lemma element_written level value v :
  reads value level v → reads_member (λ f, ∃ l, f = FArr l) (λ m, output level (snd m)) value ([], v).
Proof.
  intros Hv ctx f a rest [l ->] Ha Hrest. destruct (Hv (Inside ctx (FArr l)) rest a Hrest Ha) as (a' & ? & ?). eauto.
Qed.

Lemma member_written level value n v :
  reads value level v →
  reads_member (λ f, ∃ o, f = FObj o) (λ m, let '(n, v) := m in output_member 0 n (output level v)) (pair_ value) (n, v).
Proof.
  intros Hv ctx f a rest [o ->] Ha Hrest.
  destruct (new_name_ok ctx o (output_str 0 n) a Ha) as (a1 & Hn & Ha1 & Hname).
  rewrite get_str_written in Hname.
  destruct (Hv (Inside ctx (FObj o)) rest a1 Hrest Ha1) as (a2 & Hhit & Ha2). rewrite Hname in Ha2.
  exists a2. split; [|done]. unfold pair_.
  change (output_member 0 n (output level v)) with (output_str 0 n ++ lit ":" ++ output level v).
  rewrite <-!app_assoc. rewrite (sequence_hit _ _ _ _ (output level v ++ rest) a1); [by apply alternative_hit|].
  rewrite (sequence_hit _ _ _ _ (lit ":" ++ output level v ++ rest) a1); [by apply alternative_hit, ch_p_same|].
  apply (action_hit _ _ QUOTE); [done| |done]. apply string_written.
Qed.

Lemma int_written fuel z pl rest a :
  (- 2 ^ 63 ≤ z < 2 ^ 64)%Z → stops rest → at_place pl a →
  ∃ a', value_rule (S fuel) (print_int z ++ rest) a = Hit rest a' ∧
        added pl (name_ a) (if (z <? 2 ^ 63)%Z then VInt z else VUint z) a'.
Proof.
  intros Hz Hrest Ha. destruct (new_value_ok pl (if (z <? 2 ^ 63)%Z then VInt z else VUint z) a Ha) as (a' & Hv & Ha').
  exists a'. split; [|done]. cbn [value_rule]. rewrite alternative_miss.
  - apply alternative_hit. rewrite number_written by done. unfold numeric. by rewrite Hv.
  - destruct (print_int_form z) as (ds & -> & Hds & Hne & _). rewrite <-app_assoc. by apply string_int.
Qed.

Lemma str_written fuel s pl rest a :
  at_place pl a →
  ∃ a', value_rule (S fuel) (output_str 0 s ++ rest) a = Hit rest a' ∧ added pl (name_ a) (VStr s) a'.
Proof.
  intros Ha. destruct (new_value_ok pl (VStr s) a Ha) as (a' & Hv & Ha'). exists a'. split; [|done].
  cbn [value_rule]. apply alternative_hit, (action_hit _ _ QUOTE); [done|apply string_written|].
  fold (output_str 0 s). unfold new_str. by rewrite (get_str_written s).
Qed.

(** The words. *)
Lemma word_written fuel v pl level rest a :
  v = VNull ∨ (∃ b, v = VBool b) → at_place pl a →
  ∃ a', value_rule (S fuel) (output level v ++ rest) a = Hit rest a' ∧ added pl (name_ a) v a'.
Proof.
  intros Hw Ha. destruct (new_value_ok pl v a Ha) as (a' & Hv & Ha'). exists a'. split; [|done].
  cbn [value_rule].
  assert (Hmiss : ∀ c t (p q r : parser), c = "n"%char ∨ c = "t"%char ∨ c = "f"%char →
    (action string_ new_str <|> number_ <|> object_ p <|> array_ q <|> r) (c :: t) a = r (c :: t) a).
  { intros c t p q r Hc. assert (isspace c = false) by (by destruct Hc as [-> |[-> | ->]]).
    rewrite alternative_miss by (apply action_miss, string_miss; by destruct Hc as [-> |[-> | ->]]).
    rewrite alternative_miss by (apply number_miss; by destruct Hc as [-> |[-> | ->]]).
    rewrite alternative_miss by (apply object_miss; by destruct Hc as [-> |[-> | ->]]).
    by rewrite alternative_miss by (apply array_miss; by destruct Hc as [-> |[-> | ->]]). }
  destruct Hw as [-> |[b ->]]; [|destruct b].
  - change (output level VNull ++ rest) with ("n"%char :: lit "ull" ++ rest). rewrite Hmiss by auto. rewrite !alternative_miss by (by apply action_miss, str_p_other).
    by apply (action_hit _ _ "n"%char (lit "ull")); [|apply str_p_same|].
  - change (output level (VBool true) ++ rest) with ("t"%char :: lit "rue" ++ rest). rewrite Hmiss by auto.
    apply alternative_hit. by apply (action_hit _ _ "t"%char (lit "rue")); [|apply str_p_same|].
  - change (output level (VBool false) ++ rest) with ("f"%char :: lit "alse" ++ rest). rewrite Hmiss by auto.
    rewrite alternative_miss by (by apply action_miss, str_p_other). apply alternative_hit.
    by apply (action_hit _ _ "f"%char (lit "alse")); [|apply str_p_same|].
Qed.
Lemma array_written fuel level l pl rest a :
  Forall (reads (value_rule (S fuel)) (S level)) l → at_place pl a →
  ∃ a', value_rule (S (S fuel)) (output level (VArray l) ++ rest) a = Hit rest a' ∧ added pl (name_ a) (VArray l) a'.
Proof.
  intros Hl Ha.
  destruct (compound_written (λ f, ∃ l, f = FArr l) (λ m, output (S level) (snd m)) (value_rule (S fuel))
    (map (pair []) l) level pl (FArr []) a "["%char "]"%char "not an array"%string rest) as (a' & Hhit & Ha').
  - by right.
  - by left.
  - done.
  - intros f n v [l' ->]. by eexists.
  - by eexists.
  - apply Forall_map. eapply Forall_impl; [exact Hl|]. intros v. apply element_written.
  - intros a'. apply value_miss. by left.
  - done.
  - exists a'. rewrite fadd_all_arr in Ha'. split; [|done].
    rewrite map_map in Hhit. change (output level (VArray l)) with (output_array_or_obj 0 level "["%char "]"%char (map (output (S level)) l)).
    remember (S fuel) as k. cbn [value_rule]. change (output_array_or_obj 0 level "["%char "]"%char (map (output (S level)) l) ++ rest)
      with ("["%char :: (output_elements 0 (S level) (map (output (S level)) l) ++ ["]"%char]) ++ rest) in *.
    rewrite alternative_miss by (by apply action_miss, string_miss).
    rewrite alternative_miss by (by apply number_miss).
    rewrite alternative_miss by (by apply object_miss).
    by apply alternative_hit.
Qed.

Lemma object_written fuel level o pl rest a :
  Forall (λ m, reads (value_rule (S fuel)) (S level) (snd m)) o → at_place pl a →
  ∃ a', value_rule (S (S fuel)) (output level (VObj o) ++ rest) a = Hit rest a' ∧ added pl (name_ a) (VObj o) a'.
Proof.
  intros Ho Ha.
  pose (text := λ m : bytes * Value, let '(n, v) := m in output_member 0 n (output (S level) v)).
  destruct (compound_written (λ f, ∃ o, f = FObj o) text (pair_ (value_rule (S fuel)))
    o level pl (FObj []) a "{"%char "}"%char "not an object"%string rest) as (a' & Hhit & Ha').
  - by left.
  - by right.
  - done.
  - intros f n v [o' ->]. by eexists.
  - by eexists.
  - eapply Forall_impl; [exact Ho|]. intros [n v]. apply member_written.
  - intros a'. unfold pair_, sequence. by rewrite (action_miss string_) by (by try apply string_miss).
  - done.
  - exists a'. rewrite fadd_all_obj in Ha'. split; [|done].
    change (output level (VObj o)) with (output_array_or_obj 0 level "{"%char "}"%char (map text o)).
    remember (S fuel) as k. cbn [value_rule].
    change (output_array_or_obj 0 level "{"%char "}"%char (map text o) ++ rest)
      with ("{"%char :: (output_elements 0 (S level) (map text o) ++ ["}"%char]) ++ rest) in *.
    rewrite alternative_miss by (by apply action_miss, string_miss).
    rewrite alternative_miss by (by apply number_miss).
    by apply alternative_hit.
Qed.

(** A part of a compound is at least two characters shorter. *)
Lemma compound_fuel level o c l x fuel :
  length (output_array_or_obj 0 level o c l) ≤ fuel → x ∈ l →
  length x ≤ fuel - 2.
Proof.
  change (output_array_or_obj 0 level o c l) with (o :: output_elements 0 (S level) l ++ [c]).
  cbn [length]. rewrite length_app. cbn [length]. intros Hf Hx%(elements_length (S level)). lia.
Qed.

Lemma value_written v level fuel :
  plain v = true → length (output level v) ≤ fuel → reads (value_rule (S fuel)) level v.
Proof.
  revert level fuel. induction v as [o IH|l IH|s|b|z|d| |z] using Value_nested_ind;
    intros level fuel Hp Hf pl rest a Hrest Ha.
  - assert (2 ≤ fuel) by (revert Hf; cbn [JsonWriter.output]; unfold output_array_or_obj; simpl; rewrite !length_app; simpl; lia).
    destruct fuel as [|fuel]; [lia|]. apply object_written; [|done].
    apply Forall_forall. intros [n v] Hin. rewrite Forall_forall in IH. apply (IH _ Hin).
    + cbn [plain] in Hp. rewrite forallb_forall in Hp. apply (Hp (n, v)), list_elem_of_In, Hin.
    + cbn [JsonWriter.output] in Hf. eapply compound_fuel in Hf; [|apply (list_elem_of_fmap_2 _ _ _ Hin)].
      revert Hf. unfold output_member. rewrite !length_app. simpl. lia.
  - assert (2 ≤ fuel) by (revert Hf; cbn [JsonWriter.output]; unfold output_array_or_obj; simpl; rewrite !length_app; simpl; lia).
    destruct fuel as [|fuel]; [lia|]. apply array_written; [|done].
    apply Forall_forall. intros v Hin. rewrite Forall_forall in IH. apply (IH _ Hin).
    + cbn [plain] in Hp. rewrite forallb_forall in Hp. apply Hp, list_elem_of_In, Hin.
    + cbn [JsonWriter.output] in Hf. eapply compound_fuel in Hf; [|apply (list_elem_of_fmap_2 _ _ _ Hin)]. simpl in *. lia.
  - by apply str_written.
  - apply word_written; eauto.
  - cbn [plain] in Hp. apply andb_true_iff in Hp as [?%Z.leb_le Hlt].
    destruct (int_written fuel z pl rest a) as (a' & ? & Ha'); [apply Z.ltb_lt in Hlt; lia|done..|]. rewrite Hlt in Ha'. eauto.
  - done.
  - apply word_written; eauto.
  - cbn [plain] in Hp. apply andb_true_iff in Hp as [Hge%Z.leb_le ?%Z.ltb_lt].
    destruct (int_written fuel z pl rest a) as (a' & ? & Ha'); [lia|done..|].
    rewrite (proj2 (Z.ltb_ge _ _)) in Ha' by done. eauto.
Qed.

Lemma read_range_write v rest :
  plain v = true → stops rest →
  ∃ a, read_range_or_throw (write append_double v ++ rest) VNull = Hit rest a ∧ value_ a = v.
Proof.
  intros Hp Hrest. unfold read_range_or_throw, json_, write.
  destruct (value_written v 0 (length (output 0 v ++ rest)) Hp) with (pl := Top) (rest := rest)
    (a := Actions VNull None [] []) as (a & Hhit & Ha); [rewrite length_app; lia|done|done|].
  exists a. split; [|done]. by apply alternative_hit.
Qed.

Lemma read_written v rest :
  plain v = true → stops rest → read (write append_double v ++ rest) = Some v.
Proof. intros Hp Hrest. unfold read. destruct (read_range_write v rest Hp Hrest) as (a & -> & <-). done. Qed.

Lemma read_nil : read [] = None.
Proof.
  unfold read, read_range_or_throw, json_. cbn [length].
  assert (∀ a, value_rule 1 [] a = NoMatch a) as Hv; [|unfold alternative; by rewrite Hv].
  intros a. cbn [value_rule]. rewrite alternative_miss by done.
  rewrite alternative_miss; [done|]. unfold number_. rewrite alternative_miss; [done|].
  unfold real_p. cbn [skip_space]. destruct (strict_real_p []) as [[z n]|] eqn:Hr; [|done].
  apply real_bound in Hr. simpl in Hr. lia.
Qed.

(** C5 Reading the text that was written for a value gives the value back: any
    nesting of objects and arrays, any bytes in strings and names, the
    integers of 64 bits. The reader stops right behind it: the text after it,
    the end of a line or a further request, is not looked at. *)
Theorem read_write v rest :
  plain v = true → stops rest →
  read (write append_double v ++ rest) = Some v ∧
  ∃ a, read_range_or_throw (write append_double v ++ rest) VNull = Hit rest a.
Proof.
  intros Hp Hrest. split; [by apply read_written|].
  destruct (read_range_write v rest Hp Hrest) as (a & Ha & _). by exists a.
Qed.
End written.

(** ** A lexer *)
Module Example.

(** The text behind a strict real number: a sign or none, digits around a dot
    with one at least, an exponent or none; an exponent where there is no dot.
    The bits of its value are left at 0. *)
Definition exponent (s : bytes) : option bytes :=
  match s with
  | c :: s =>
      if decide (c ∈ lit "eE")
      then let s := snd (signed s) in if decide (take_digits s = []) then None else Some (skip_digits s)
      else None
  | [] => None
  end.
Definition strict_real (s : bytes) : option bytes :=
  let s := snd (signed s) in
  match skip_digits s with
  | c :: t =>
      if decide (c = "."%char)
      then if decide (take_digits s = [] ∧ take_digits t = []) then None
           else Some (default (skip_digits t) (exponent (skip_digits t)))
      else if decide (take_digits s = []) then None else exponent (c :: t)
  | [] => None
  end.

#[export] Instance lexer : Spirit := {
  lex_escape_ch_p s :=
    match s with
    | [] => None
    | c :: t => if decide (c = BACKSLASH) then match t with [] => None | _ => Some 2 end else Some 1
    end;
  strict_real_p s := (λ rest, (0%Z, length s - length rest)) <$> strict_real s;
}.

Lemma take_skip_digits s : length s = length (take_digits s) + length (skip_digits s).
Proof. induction s as [|c s IH]; simpl; [lia|]. destruct (is_digit c); simpl; lia. Qed.

Lemma exponent_length s r : exponent s = Some r → length r < length s.
Proof.
  destruct s as [|c s]; simpl; [done|]. repeat case_decide; intros [= <-].
  pose proof (signed_length s). pose proof (skip_digits_length (snd (signed s))). lia.
Qed.

Lemma strict_real_length s r : strict_real s = Some r → length r < length s.
Proof.
  unfold strict_real. pose proof (signed_length s). set (u := snd (signed s)) in *.
  pose proof (take_skip_digits u).
  destruct (skip_digits u) as [|c t]; [done|]. cbn [length] in *. case_decide.
  - case_decide; [done|]. intros [= <-]. pose proof (skip_digits_length t).
    destruct (exponent (skip_digits t)) as [r|] eqn:Hr; simpl; [apply exponent_length in Hr|]; lia.
  - case_decide; [done|]. intros ?%exponent_length. cbn [length] in *. lia.
Qed.

Lemma signed_nothing c s : starts_number c = false → signed (c :: s) = (false, c :: s).
Proof.
  unfold starts_number. rewrite orb_false_iff, bool_decide_eq_false. intros [_ Hc]. simpl.
  by rewrite !decide_False by (intros ->; apply Hc, (bool_decide_unpack _); done).
Qed.

Lemma strict_real_start c s : starts_number c = false → strict_real (c :: s) = None.
Proof.
  intros Hc. unfold strict_real. rewrite signed_nothing by done.
  unfold starts_number in Hc. rewrite orb_false_iff, bool_decide_eq_false in Hc. destruct Hc as [Hd Hc]. simpl.
  rewrite Hd. rewrite decide_False by (intros ->; apply Hc, (bool_decide_unpack _); done). done.
Qed.

(** Digits with no dot or exponent behind them. *)
Lemma strict_real_int (neg : bool) ds s :
  ds ≠ [] → Forall (λ c, is_digit c = true) ds → (∀ c s', s = c :: s' → continues_real c = false) →
  strict_real ((if neg then lit "-" else []) ++ ds ++ s) = None.
Proof.
  intros Hne Hds Hs. assert (∀ c t, s = c :: t → is_digit c = false) as Hd.
  { intros c t Hc. specialize (Hs c t Hc). unfold continues_real in Hs. by apply orb_false_iff in Hs as [? _]. }
  unfold strict_real. rewrite signed_int by done. cbn [snd]. rewrite take_digits_app, skip_digits_app by done. simpl.
  destruct s as [|c t]; [done|]. specialize (Hs c t eq_refl). unfold continues_real in Hs.
  rewrite orb_false_iff, bool_decide_eq_false in Hs. destruct Hs as [_ Hc].
  rewrite decide_False by (intros ->; apply Hc, (bool_decide_unpack _); done).
  rewrite decide_False by done. unfold exponent. rewrite decide_False; [done|].
  intros Hin. apply Hc. set_solver.
Qed.

#[export] Instance lexer_laws : SpiritLaws.
Proof.
  split.
  - intros c s Hc. simpl. by rewrite decide_False.
  - done.
  - intros [|c s] n; simpl; [done|]. case_decide; [destruct s|]; intros; simplify_eq/=; lia.
  - intros s z n. simpl. intros (r & Hr & [= -> ->])%fmap_Some.
    apply strict_real_length in Hr. lia.
  - intros c s Hc. simpl. by rewrite strict_real_start.
  - intros sign ds s Hsign Hne Hds Hs. simpl. apply fmap_None.
    assert (∃ neg : bool, sign = if neg then lit "-" else []) as [neg ->].
    { rewrite !elem_of_cons in Hsign. destruct Hsign as [-> |[-> |[]%not_elem_of_nil]]; [by exists false|by exists true]. }
    by apply strict_real_int.
Qed.

Example strict_reals :
  map strict_real_p [lit "-1.5"; lit "+2.0e3,"; lit ".5e"; lit "7E-2]"; lit "-15"; lit "e5"; lit "1e"; lit "-."] =
    [Some (0%Z, 4); Some (0%Z, 6); Some (0%Z, 2); Some (0%Z, 4); None; None; None; None].
Proof. vm_compute. reflexivity. Qed.

Definition value : Value :=
  VObj [(lit "id", VInt (- 2 ^ 63)); (lit "a b", VArray [VNull; VObj []; VUint (2 ^ 64 - 1); VBool true]);
        (lit "", VStr [QUOTE; BACKSLASH; char_of_Z 10; NUL; "255"%char])].

Lemma read_write_witness :
  read (write (λ _ _, []) value ++ lit "{$}") = Some value ∧
  ∃ a, read_range_or_throw (write (λ _ _, []) value ++ lit "{$}") VNull = Hit (lit "{$}") a.
Proof. apply read_write; [vm_compute; reflexivity|]. by apply stops_cons. Defined.

Lemma read_answers_witness :
  match read_range_or_throw (lit "{ 1") VNull with
  | Hit rest a => length rest < 3
  | Thrown _ => True
  | _ => False
  end.
Proof. exact (read_answers (lit "{ 1") VNull). Defined.

(** Texts that are refused. *)
Example read_refuses :
  map read [lit "{"; lit "[1,]"; lit "nul"; lit "]"; lit "12a"; lit " [ 1 , -2 ] x"; lit "-1.5"] =
    [None; None; None; None; Some (VInt 12); Some (VArray [VInt 1; VInt (-2)]); Some (VReal 0)].
Proof. vm_compute. reflexivity. Qed.
End Example.
End JsonText.
