(* ===== verification/RpcManager.v ===== *)
(** * rpc_manager.h, rpc_manager.cc: the RPC handlers

    A handler reads the request document and answers with a boolean and a
    response document.  It works on a copy of the request, which its mutating
    [operator[]]s extend with null members; the state of a handler's body is
    the program state paired with that copy. *)

From S2P Require Import Prelude Crypto Base64 KvStore Db ModuleManager DbManager Json.
Local Open Scope prog_scope.

(** ** RPC_Response *)
Module RPC_Response.

(** [RPC_Response(int id)] *)
Definition new (id : Z) : Value :=
  VObj [(lit "jsonrpc", VStr "2.0"%string); (lit "result", VObj []); (lit "error", VStr []);
        (lit "id", VInt id)].

(** [Config::add(res.data(), name, value)] *)
Definition add_data (name : bytes) (value : Value) : M Value () := member "result"%string (add name value).

Definition encode_base64 (BUFFERSIZE : nat) (inp : bytes) : outcome bytes :=
  match Base64.encode BUFFERSIZE inp with Some s => Ret s | None => Undef end.

End RPC_Response.

(** ** RPC_Request *)
Module RPC_Request.

Record RPC_Request := Req { _json : Value; _error : bytes }.

Definition on_json {A} (m : M Value A) : M RPC_Request A := zoom _json (λ j r, Req j (_error r)) m.
Definition set_error (e : bytes) : M RPC_Request () := modify (λ r, Req (_json r) e).

(** The two conditions at the start of [valid]. *)
Definition bad_version (v : Value) : bool :=
  match v with VStr s => bool_decide (s ≠ lit "2.0") | _ => true end.
Definition bad_id (v : Value) : bool :=
  match get_int v with Ret z => (z =? 0)%Z | _ => true end.

(** The loop over the rules, on the copy [params]: the first parameter of
    another type. *)
Fixpoint check_params (rules : list (bytes * Value_type)) : M Value (option bytes) :=
  match rules with
  | [] => ret None
  | (name, t) :: rules =>
      let! v := index name in
      if decide (type v = t) then check_params rules else ret (Some name)
  end.

(** [param] is in the order of the [std::map]. *)
Definition valid (param : list (bytes * Value_type)) : M RPC_Request bool :=
  let! version := on_json (index "jsonrpc"%string) in
  if bad_version version then set_error "jsonrpc != 2.0"%string ;;; ret false else
  let! id := on_json (index "id"%string) in
  if bad_id id then set_error "no id"%string ;;; ret false else
  let! params := on_json (index "params"%string) in
  match check_params param params with
  | (Ret None, _) => ret true
  | (Ret (Some name), _) => set_error (name ++ " has the wrong type"%string) ;;; ret false
  | (Throw e, _) => throw e
  | (Undef, _) => undef
  end.

(** [params()[name]] *)
Definition param (name : bytes) : M RPC_Request Value :=
  on_json (member "params"%string (index name)).
Definition param_str (name : bytes) : M RPC_Request bytes :=
  let! v := param name in lift_outcome (get_str v).

Definition createResponse : M RPC_Request Value :=
  let! id := on_json (index "id"%string) in
  let! z := lift_outcome (get_int id) in
  ret (RPC_Response.new z).

(** Run a computation on a local document. *)
Definition edit {S} (m : M Value ()) (v : Value) : M S Value := λ s,
  match m v with (Ret _, v') => (Ret v', s) | (Throw e, _) => (Throw e, s) | (Undef, _) => (Undef, s) end.

Definition createErrorResponse : M RPC_Request Value :=
  let! res := createResponse in
  let! error := gets _error in
  edit (assign "err"%string (VStr error)) res.

Definition decode_base64 (BUFFERSIZE : nat) (id : bytes) : M RPC_Request bytes :=
  let! v := param id in
  if decide (type v = str_type) then
    let! s := lift_outcome (get_str v) in
    match Base64.decode BUFFERSIZE s with
    | Some (Some res) => ret res
    | _ => undef
    end
  else
    let e := id ++ " not found"%string in
    set_error e ;;; throw (thrown_string e).

End RPC_Request.

(** ** The handlers *)
Module RpcManager.
Import RPC_Request.
#[local] Existing Instance Manager.mm_kv.

Section handlers.
Context `{Digest} `{Clock} `{Archive} {W P G : Type} `{HM : HasModules W P G}.
(** libb64's buffer size (16777216 in the build) and the local time. *)
Context (BUFFERSIZE : nat) (now : ptime).

Definition body := M (W * RPC_Request) (bool * option Value).

(** A handler: [RPC_Request req(root)], the body, and the response assigned
    to the reference parameter, if any. *)
Definition handler : Type := Value → Value → M W (bool * Value).
Definition handle (b : body) : handler := λ root response w,
  let '(r, (w', _)) := b (w, Req root []) in
  (match r with
   | Ret (ok, Some v) => Ret (ok, v)
   | Ret (ok, None) => Ret (ok, response)
   | Throw e => Throw e
   | Undef => Undef
   end, w').

Definition req {A} (m : M RPC_Request A) : M (W * RPC_Request) A := zoom snd (λ r w, (fst w, r)) m.
Definition world {A} (m : M W A) : M (W * RPC_Request) A := zoom fst (λ s w, (s, snd w)) m.

(** A call of DBManager on the handler's object. *)
Definition db {A} (m : M (W * Object) A) (o : Object) : M (W * RPC_Request) (A * Object) := λ w,
  let '(r, (w', o')) := m (fst w, o) in
  (match r with Ret a => Ret (a, o') | Throw e => Throw e | Undef => Undef end, (w', snd w)).

(** [if(!req.valid(rules)) { response = req.createErrorResponse().json();
    return false; }] *)
Definition validated (rules : list (bytes * Value_type)) (b : body) : body :=
  if! req (valid rules) then b
  else let! res := req createErrorResponse in ret (false, Some res).

(** [res = req.createErrorResponse(); res.json()[field] = message;] *)
Definition failure (field message : bytes) : body :=
  let! res := req createErrorResponse in
  let! res := edit (assign field (VStr message)) res in
  ret (false, Some res).

(** [res = req.createResponse(); add(res.data(), name, value);] *)
Definition success (name : bytes) (value : Value) : body :=
  let! res := req createResponse in
  let! res := edit (RPC_Response.add_data name value) res in
  ret (true, Some res).

(** *** class Util *)
Definition BootstrapFromPeer : handler := λ root response,
  let! s := lift_outcome (get_str root) in
  let! response := edit (assign "jsonrpc"%string (VStr "2.0"%string)) response in
  let! id := lift_outcome (at_const "id"%string root) in
  let! response := edit (assign "id"%string id) response in
  let! response := edit (assign "result"%string (VStr "success"%string)) response in
  ret (true, response).

Definition BootstrapFromHostlist : handler := λ root response,
  let! s := lift_outcome (get_str root) in ret (true, response).

Definition RuntimeInfo : handler := handle (success "uptime"%string (VStr "1"%string)).

(** *** class LocalStorage *)
Definition file_put : handler := handle (
  validated [(lit "path", str_type)] (
    let! path := req (param_str "path"%string) in
    let! res := req createResponse in
    let! r := world (Manager.store_file path []) in
    if fst r then
      let! res := edit (RPC_Response.add_data "id"%string (VStr (snd r))) res in
      ret (true, Some res)
    else failure "error"%string "store file failed"%string)).

Definition file_get : handler := handle (
  validated [(lit "id", str_type)] (
    let! id := req (param_str "id"%string) in
    let! res := req createResponse in
    let! r := world (Manager.get_file id []) in
    if fst r then
      let! res := edit (RPC_Response.add_data "path"%string (VStr (snd r))) res in
      ret (true, Some res)
    else failure "error"%string "get file failed"%string)).

(** The end of [CreateObject]: the object, which [create] has stored
    already, is stored again. *)
Definition store_created (o : Object) : body :=
  let! r := db DBManager.create_object o in
  if fst r then success "id"%string (VStr (o_id (snd r)))
  else failure "err"%string "create object failed"%string.

Definition CreateObject : handler := handle (
  validated [(lit "content", str_type)] (
    let! i := req (param "id"%string) in
    if decide (type i = str_type) then
      let! custom_id := lift_outcome (get_str i) in
      let! found := db (DBManager.get_object_head custom_id) Object_new in
      if fst found then
        let! content := req (decode_base64 BUFFERSIZE "content"%string) in
        let! r := db (DBManager.update_object now content) (snd found) in
        if fst r then success "id"%string (VStr (o_id (snd r)))
        else failure "err"%string "update object failed"%string
      else
        let! content := req (decode_base64 BUFFERSIZE "content"%string) in
        let! r := db (DBManager.create_custom now content custom_id) (snd found) in
        store_created (snd r)
    else
      let! content := req (decode_base64 BUFFERSIZE "content"%string) in
      let! r := db (DBManager.create now content) Object_new in
      store_created (snd r))).

(** In the [full] branch a second [res] is filled and assigned to the
    response, which is then overwritten with the first. *)
Definition GetObject : handler := handle (
  validated [(lit "id", str_type)] (
    let! res := req createResponse in
    let! id := req (param_str "id"%string) in
    let! r := db (DBManager.get_object_head id) Object_new in
    if fst r then
      let obj := snd r in
      let! params := req (on_json (index "params"%string)) in
      let! has_full := lift_outcome (contains "full"%string params) in
      let! full := (if has_full : bool then
                      let! v := req (param "full"%string) in lift_outcome (get_bool v)
                    else ret false) in
      let! res := (if full : bool then
                     let! inner := req createResponse in
                     let! inner := edit (RPC_Response.add_data "content"%string (VStr (o_id obj))) inner in
                     ret res
                   else
                     let! econtent := lift_outcome (RPC_Response.encode_base64 BUFFERSIZE (o_head obj)) in
                     edit (RPC_Response.add_data "content"%string (VStr econtent)) res) in
      ret (true, Some res)
    else failure "error"%string "get object failed"%string)).

Definition DeleteObject : handler := λ root response, ret (false, response).
Definition UpdateObject : handler := λ root response, ret (false, response).

(** *** class anStore *)
Definition kv_get : handler := handle (
  validated [(lit "key", str_type)] (
    let! key := req (param_str "key"%string) in
    let! r := world (Manager.kv_get key None) in
    if fst r then
      let! res := req createResponse in
      match snd r with
      | None => undef
      | Some kv_res =>
          let value := default [] (kv_res !! key) in
          let! value := lift_outcome (RPC_Response.encode_base64 BUFFERSIZE value) in
          let! res := edit (RPC_Response.add_data "content"%string (VStr value)) res in
          ret (true, Some res)
      end
    else failure "error"%string "kv.get failed"%string)).

Definition kv_put : handler := handle (
  validated [(lit "key", str_type); (lit "value", str_type)] (
    let! content := req (decode_base64 BUFFERSIZE "value"%string) in
    let! key := req (param_str "key"%string) in
    if! world (Manager.kv_put key content) then
      let! res := req createResponse in ret (true, Some res)
    else failure "error"%string "kv.put failed"%string)).

Definition kv_remove : handler := handle (
  validated [(lit "key", str_type)] (
    let! key := req (param_str "key"%string) in
    if! world (Manager.kv_remove key) then
      let! res := req createResponse in ret (true, Some res)
    else failure "error"%string "kv.remove failed"%string)).

Definition session_t_join : handler := λ root response, ret (false, response).
Definition session_t_leave : handler := λ root response, ret (false, response).
Definition session_t_update : handler := λ root response, ret (false, response).

(** [RPCManager::init]: the methods it registers, in order. *)
Definition methods : list (bytes * handler) :=
  [(lit "an.info", RuntimeInfo);
   (lit "an.BootstrapFromPeer", BootstrapFromPeer);
   (lit "an.BootstrapFromHostlist", BootstrapFromHostlist);
   (lit "object.create", CreateObject);
   (lit "object.get", GetObject);
   (lit "object.update", UpdateObject);
   (lit "object.delete", DeleteObject);
   (lit "file.put", file_put);
   (lit "file.get", file_get);
   (lit "kv.get", kv_get);
   (lit "kv.put", kv_put);
   (lit "kv.remove", kv_remove);
   (lit "session.t.join", session_t_join);
   (lit "session.t.leave", session_t_leave);
   (lit "session.t.update", session_t_update)].
End handlers.
End RpcManager.

(** ** Well-formed requests *)
Section requests.
Import RPC_Request.
Implicit Types (r : RPC_Request) (z : Z) (ps : list (bytes * Value)).

(** The request document of [r] has version 2.0, the integer id [z] and the
    parameters [ps]. *)
Definition request_doc (v : Value) z ps : Prop :=
  ∃ o, v = VObj o ∧ assoc "jsonrpc"%string o = Some (VStr "2.0"%string) ∧
       assoc "id"%string o = Some (VInt z) ∧ assoc "params"%string o = Some (VObj ps).

Definition good_id z : Prop := (- 2 ^ 31 ≤ z < 2 ^ 31)%Z ∧ z ≠ 0%Z.

(** The reply [createResponse] starts, with [data] as its result. *)
Definition reply z (data : list (bytes * Value)) : Value :=
  VObj [(lit "jsonrpc", VStr "2.0"%string); (lit "result", VObj data); (lit "error", VStr []);
        (lit "id", VInt z)].

Lemma on_json_index r key o x :
  _json r = VObj o → assoc key o = Some x → on_json (index key) r = (Ret x, r).
Proof.
  intros Hj Hx. unfold on_json, zoom. rewrite Hj, (index_present key o x) by done.
  rewrite <-Hj. by destruct r.
Qed.

Lemma param_present r z ps name x :
  request_doc (_json r) z ps → assoc name ps = Some x → param name r = (Ret x, r).
Proof.
  intros (o & Hj & _ & _ & Hp) Hx. unfold param, on_json, zoom, member. rewrite Hj, Hp. cbn [from_option id].
  rewrite (index_present name ps x) by done. cbn beta iota.
  rewrite (assoc_update_id _ _ _ Hp), <-Hj. by destruct r.
Qed.

Lemma param_absent r z ps name :
  request_doc (_json r) z ps → assoc name ps = None →
  ∃ r', param name r = (Ret VNull, r') ∧ request_doc (_json r') z (ps ++ [(name, VNull)]).
Proof.
  intros (o & Hj & Hv & Hi & Hp) Hx. unfold param, on_json, zoom, member. rewrite Hj, Hp. cbn [from_option id].
  rewrite (index_absent name ps) by done. cbn beta iota.
  eexists. split; [done|]. eexists. split; [done|].
  rewrite !assoc_update_other by done. by rewrite assoc_update_same.
Qed.

Lemma param_str_present r z ps name s :
  request_doc (_json r) z ps → assoc name ps = Some (VStr s) → param_str name r = (Ret s, r).
Proof.
  intros Hr Hs. unfold param_str. by rewrite (bind_run _ _ _ _ _ (param_present _ _ _ _ _ Hr Hs)).
Qed.

Lemma createResponse_ok r z ps :
  request_doc (_json r) z ps → good_id z → createResponse r = (Ret (reply z []), r).
Proof.
  intros (o & Hj & _ & Hi & _) [Hz _]. unfold createResponse.
  rewrite (bind_run _ _ _ _ _ (on_json_index r _ _ _ Hj Hi)). unfold get_int. simpl.
  by rewrite bind_lift_ret, int32_small by lia.
Qed.

(** The rules a list of parameters satisfies. *)
Definition typed ps (rules : list (bytes * Value_type)) : Prop :=
  ∀ name t, (name, t) ∈ rules → ∃ v, assoc name ps = Some v ∧ type v = t.

Lemma check_params_ok rules ps : typed ps rules → check_params rules (VObj ps) = (Ret None, VObj ps).
Proof.
  intros Ht. induction rules as [|[n t] rules IH]; [done|]. simpl.
  destruct (Ht n t) as (v & Hv & <-); [by left|].
  rewrite (bind_run _ _ _ _ _ (index_present n ps v Hv)), decide_True by done.
  apply IH. intros n' t' Hin. apply Ht. by right.
Qed.

Lemma valid_ok r z ps rules :
  request_doc (_json r) z ps → good_id z → typed ps rules → valid rules r = (Ret true, r).
Proof.
  intros (o & Hj & Hv & Hi & Hp) [Hz Hz0] Ht. unfold valid.
  rewrite (bind_run _ _ _ _ _ (on_json_index r _ _ _ Hj Hv)).
  replace (bad_version _) with false by by vm_compute.
  rewrite (bind_run _ _ _ _ _ (on_json_index r _ _ _ Hj Hi)).
  replace (bad_id (VInt z)) with false by (unfold bad_id, get_int; simpl; rewrite int32_small by lia;
    symmetry; by apply Z.eqb_neq).
  rewrite (bind_run _ _ _ _ _ (on_json_index r _ _ _ Hj Hp)), (check_params_ok rules ps Ht). done.
Qed.

Lemma decode_base64_ok B r z ps name c s :
  request_doc (_json r) z ps → assoc name ps = Some (VStr c) → Base64.decode B c = Some (Some s) →
  decode_base64 B name r = (Ret s, r).
Proof.
  intros Hr Hn Hd. unfold decode_base64.
  rewrite (bind_run _ _ _ _ _ (param_present _ _ _ _ _ Hr Hn)). simpl. by rewrite bind_lift_ret, Hd.
Qed.

(** An id that [get_int] refuses, the two conditions of [valid] before it
    passing: [createErrorResponse] throws. *)
Lemma invalid_id r o rules :
  _json r = VObj o → assoc "jsonrpc"%string o = Some (VStr "2.0"%string) →
  get_int (default VNull (assoc "id"%string o)) = Throw runtime_error →
  ∃ r', valid rules r = (Ret false, r') ∧
    (createErrorResponse r').1 = Throw runtime_error.
Proof.
  intros Hj Hv Hi. unfold valid. rewrite (bind_run _ _ _ _ _ (on_json_index r _ _ _ Hj Hv)).
  replace (bad_version _) with false by by vm_compute.
  set (o' := assoc_update "id"%string (default VNull (assoc "id"%string o)) o).
  assert (Hon : on_json (index "id"%string) r =
    (Ret (default VNull (assoc "id"%string o)), Req (VObj o') (_error r))).
  { unfold on_json, zoom, index, member, get_state. by rewrite Hj. }
  rewrite (bind_run _ _ _ _ _ Hon). unfold bad_id. rewrite Hi. unfold set_error. run.
  eexists. split; [done|]. unfold createErrorResponse, createResponse. run.
  unfold on_json, zoom. cbn [_json].
  assert (Ha : assoc "id"%string o' = Some (default VNull (assoc "id"%string o)))
    by apply assoc_update_same.
  unfold bind at 1 2. cbn [_json]. rewrite (index_present _ _ _ Ha). cbn beta iota.
  unfold lift_outcome. by rewrite Hi.
Qed.
End requests.

(** ** The handlers on well-formed requests *)
Section handler_laws.
Context `{HD : Digest} `{HC : Clock} `{HA : Archive} {AL : ArchiveLaw}.
Context {W P G : Type} `{HM : HasModules W P G} {KL : @KvLaws W HD Manager.mm_kv}.
Context (BUFFERSIZE : nat) (HB : 0 < BUFFERSIZE) (now : ptime).
Import RPC_Request RpcManager.
#[local] Existing Instance Manager.mm_kv.
Implicit Types (w : W) (r : RPC_Request) (z : Z) (ps : list (bytes * Value)) (root response : Value).

Lemma req_run {A} (m : M RPC_Request A) w r a r' : m r = (Ret a, r') → req m (w, r) = (Ret a, (w, r')).
Proof. unfold req, zoom. simpl. by intros ->. Qed.

Lemma world_run {A} (m : M W A) w r a w' : m w = (Ret a, w') → world m (w, r) = (Ret a, (w', r)).
Proof. unfold world, zoom. simpl. by intros ->. Qed.

Lemma db_run {A} (m : M (W * Object) A) o w r a w' o' :
  m (w, o) = (Ret a, (w', o')) → db m o (w, r) = (Ret (a, o'), (w', r)).
Proof. unfold db. simpl. by intros ->. Qed.

Lemma validated_ok rules b w r z ps :
  request_doc (_json r) z ps → good_id z → typed ps rules → validated rules b (w, r) = b (w, r).
Proof.
  intros Hr Hz Ht. unfold validated.
  by rewrite (bind_run _ _ _ _ _ (req_run _ w _ _ _ (valid_ok r z ps rules Hr Hz Ht))).
Qed.

Lemma success_ok name v w r z ps :
  request_doc (_json r) z ps → good_id z →
  success name v (w, r) = (Ret (true, Some (reply z [(name, v)])), (w, r)).
Proof.
  intros Hr Hz. unfold success.
  by rewrite (bind_run _ _ _ _ _ (req_run _ w _ _ _ (createResponse_ok r z ps Hr Hz))).
Qed.

Lemma handle_run b root response w v w' r :
  b (w, Req root []) = (Ret (true, Some v), (w', r)) →
  handle b root response w = (Ret (true, v), w').
Proof. unfold handle. by intros ->. Qed.

Lemma typed_singleton ps name t v : assoc name ps = Some v → type v = t → typed ps [(name, t)].
Proof. intros Hv Ht n t' [= <- <-]%list_elem_of_singleton. eauto. Qed.

(** file.put and file.get pass the signals' answers on. *)
Lemma file_put_run w root response z ps path id w' :
  request_doc root z ps → good_id z → assoc "path"%string ps = Some (VStr path) →
  Manager.store_file path [] w = (Ret (true, id), w') →
  file_put root response w = (Ret (true, reply z [(lit "id", VStr id)]), w').
Proof.
  intros Hr Hz Hp Hs. apply (handle_run _ _ _ _ _ _ (Req root [])).
  rewrite (validated_ok _ _ _ _ z ps) by (done || by eapply typed_singleton).
  rewrite (bind_run _ _ _ _ _ (req_run _ w _ _ _ (param_str_present (Req root []) z ps _ _ Hr Hp))).
  rewrite (bind_run _ _ _ _ _ (req_run _ w _ _ _ (createResponse_ok (Req root []) z ps Hr Hz))).
  by rewrite (bind_run _ _ _ _ _ (world_run _ _ (Req root []) _ _ Hs)).
Qed.

Lemma file_get_run w root response z ps id path w' :
  request_doc root z ps → good_id z → assoc "id"%string ps = Some (VStr id) →
  Manager.get_file id [] w = (Ret (true, path), w') →
  file_get root response w = (Ret (true, reply z [(lit "path", VStr path)]), w').
Proof.
  intros Hr Hz Hp Hs. apply (handle_run _ _ _ _ _ _ (Req root [])).
  rewrite (validated_ok _ _ _ _ z ps) by (done || by eapply typed_singleton).
  rewrite (bind_run _ _ _ _ _ (req_run _ w _ _ _ (param_str_present (Req root []) z ps _ _ Hr Hp))).
  rewrite (bind_run _ _ _ _ _ (req_run _ w _ _ _ (createResponse_ok (Req root []) z ps Hr Hz))).
  by rewrite (bind_run _ _ _ _ _ (world_run _ _ (Req root []) _ _ Hs)).
Qed.

(** The second [create_object] of the handler stores the same archive. *)
Lemma create_again w objs o :
  DBManager.database w objs → DBManager.admissible o objs →
  objs !! validate_key (o_id o) = None →
  ∃ w1 w2, DBManager.create_object (w, o) = (Ret true, (w1, o)) ∧
    DBManager.create_object (w1, o) = (Ret true, (w2, o)) ∧
    DBManager.database w2 (DBManager.store o objs).
Proof.
  intros Hdb Ha Hk. destruct (DBManager.create_object_ok w o objs Hdb Ha) as (w1 & H1 & Hdb1); [by left|].
  destruct (DBManager.create_object_ok w1 o _ Hdb1) as (w2 & H2 & Hdb2).
  - destruct Ha as (Hok & Hsz & Hc). split_and!; [done|done|].
    intros k im' [[<- <-]|[_ Hk']]%lookup_insert_Some; [done|by apply (Hc k)].
  - right. apply lookup_insert_eq.
  - exists w1, w2. rewrite insert_insert_eq in Hdb2. done.
Qed.

Lemma store_created_ok w w' r z ps o :
  request_doc (_json r) z ps → good_id z →
  DBManager.create_object (w, o) = (Ret true, (w', o)) →
  store_created o (w, r) = (Ret (true, Some (reply z [(lit "id", VStr (o_id o))])), (w', r)).
Proof.
  intros Hr Hz Hc. unfold store_created. rewrite (bind_run _ _ _ _ _ (db_run _ _ _ _ _ _ _ Hc)).
  cbn [fst snd]. by apply (success_ok _ _ _ _ _ ps).
Qed.

(** object.create without an id, of a new text. *)
Lemma CreateObject_new w objs root response z ps c s :
  request_doc root z ps → good_id z → assoc "content"%string ps = Some (VStr c) →
  assoc "id"%string ps = None → Base64.decode BUFFERSIZE c = Some (Some s) →
  DBManager.database w objs → objs !! validate_key (object_id s) = None →
  DBManager.admissible (DBManager.created now s (object_id s) Object_new) objs →
  ∃ w', CreateObject BUFFERSIZE now root response w =
          (Ret (true, reply z [(lit "id", VStr (object_id s))]), w') ∧
        DBManager.database w' (DBManager.store (DBManager.created now s (object_id s) Object_new) objs).
Proof.
  intros Hr Hz Hc Hid Hd Hdb Hk Ha.
  destruct (create_again w objs _ Hdb Ha Hk) as (w1 & w2 & H1 & H2 & Hdb2).
  exists w2. split; [|done]. apply (handle_run _ _ _ _ _ _ (snd (param "id"%string (Req root [])))).
  destruct (param_absent (Req root []) z ps "id"%string Hr Hid) as (r1 & Hp & Hr1). rewrite Hp.
  rewrite (validated_ok _ _ _ _ z ps) by (done || by eapply typed_singleton).
  rewrite (bind_run _ _ _ _ _ (req_run _ w _ _ _ Hp)). cbn [type]. rewrite decide_False by done.
  assert (Hc1 : assoc "content"%string (ps ++ [(lit "id", VNull)]) = Some (VStr c)).
  { clear -Hc. induction ps as [|[n v] ps IH]; simpl in *; [done|]. case_decide; auto. }
  rewrite (bind_run _ _ _ _ _ (req_run _ w _ _ _ (decode_base64_ok _ r1 z _ _ c s Hr1 Hc1 Hd))).
  rewrite (bind_run _ _ _ _ _ (db_run (DBManager.create now s) Object_new w r1 true w1 _
    (eq_trans (DBManager.create_run _ _ _ _) H1))).
  cbn [snd]. by apply (store_created_ok _ _ _ z (ps ++ [(lit "id", VNull)])).
Qed.

(** object.create with the id of an object: an update. *)
Lemma CreateObject_update w objs root response z ps c s i im :
  let o := DBManager.updated now s (DBManager.loaded im) in
  request_doc root z ps → good_id z → assoc "content"%string ps = Some (VStr c) →
  assoc "id"%string ps = Some (VStr i) → Base64.decode BUFFERSIZE c = Some (Some s) →
  DBManager.database w objs → kv_ok (S := W) i → objs !! validate_key i = Some im →
  patchable (oi_head im) s → DBManager.admissible o (delete (validate_key i) objs) →
  ∃ w', CreateObject BUFFERSIZE now root response w =
          (Ret (true, reply z [(lit "id", VStr (oi_id im))]), w') ∧
        DBManager.database w' (<[validate_key i := serialize o]> objs).
Proof.
  intros o Hr Hz Hc Hid Hd Hdb Hi Hk Hp Ha.
  assert (Hkey : validate_key (oi_id im) = validate_key i).
  { destruct Hdb as (m & _ & Hst). by destruct (proj1 Hst _ _ Hk) as (_ & _ & ? & _). }
  destruct (DBManager.update_object_ok now s w (DBManager.loaded im) objs im Hdb) as (w' & Hu & Hdb');
    [simpl; by rewrite Hkey|done|simpl; by rewrite Hkey|].
  exists w'. split; [|simpl in Hdb'; by rewrite Hkey in Hdb'].
  pose proof (DBManager.get_object_head_ok w Object_new i objs im Hdb Hi Hk) as Hg.
  apply (handle_run _ _ _ _ _ _ (Req root [])).
  rewrite (validated_ok _ _ _ _ z ps) by (done || by eapply typed_singleton).
  rewrite (bind_run _ _ _ _ _ (req_run _ w _ _ _ (param_present (Req root []) z ps _ _ Hr Hid))).
  cbn [type]. rewrite decide_True by done. cbn [get_str]. rewrite bind_lift_ret.
  rewrite (bind_run _ _ _ _ _ (db_run _ _ _ (Req root []) _ _ _ Hg)). cbn [fst snd].
  rewrite (bind_run _ _ _ _ _ (req_run _ w _ _ _ (decode_base64_ok _ (Req root []) z ps _ c s Hr Hc Hd))).
  fold (DBManager.loaded im).
  rewrite (bind_run _ _ _ _ _ (db_run _ _ _ (Req root []) _ _ _ Hu)). cbn [fst snd].
  by rewrite (success_ok _ _ _ _ z ps).
Qed.

(** object.get of a stored object. *)
Lemma GetObject_present w objs root response z ps i im :
  request_doc root z ps → good_id z → assoc "id"%string ps = Some (VStr i) →
  assoc "full"%string ps = None →
  DBManager.database w objs → kv_ok (S := W) i → objs !! validate_key i = Some im →
  ∃ e, Base64.encode BUFFERSIZE (oi_head im) = Some e ∧
       Base64.decode BUFFERSIZE e = Some (Some (oi_head im)) ∧
       GetObject BUFFERSIZE root response w = (Ret (true, reply z [(lit "content", VStr e)]), w).
Proof.
  intros Hr Hz Hid Hfull Hdb Hi Hk. exists (Base64.encode_all (oi_head im)).
  assert (He : Base64.encode BUFFERSIZE (oi_head im) = Some (Base64.encode_all (oi_head im)))
    by by apply Base64.encode_eq.
  split_and!; [done|by rewrite Base64.decode_eq, Base64.decode_block_encode_all by done|].
  pose proof (DBManager.get_object_head_ok w Object_new i objs im Hdb Hi Hk) as Hg.
  pose proof Hr as (o & Hj & _ & _ & Hps).
  apply (handle_run _ _ _ _ _ _ (Req root [])).
  rewrite (validated_ok _ _ _ _ z ps) by (done || by eapply typed_singleton).
  rewrite (bind_run _ _ _ _ _ (req_run _ w _ _ _ (createResponse_ok (Req root []) z ps Hr Hz))).
  rewrite (bind_run _ _ _ _ _ (req_run _ w _ _ _ (param_str_present (Req root []) z ps _ _ Hr Hid))).
  rewrite (bind_run _ _ _ _ _ (db_run _ _ _ (Req root []) _ _ _ Hg)). cbn [fst snd].
  rewrite (bind_run _ _ _ _ _ (req_run _ w _ _ _ (on_json_index (Req root []) _ o _ Hj Hps))).
  unfold contains. cbn [get_obj]. rewrite Hfull. run.
  unfold RPC_Response.encode_base64. cbn [o_head deserialize]. rewrite He. by run.
Qed.
End handler_laws.

(** ** Properties of the RPC layer *)
Section rpc_properties.
Context `{HD : Digest} `{HC : Clock} `{HA : Archive} {AL : ArchiveLaw}.
Context {W P G : Type} `{HM : HasModules W P G} {KL : @KvLaws W HD Manager.mm_kv}.
Context (BUFFERSIZE : nat) (now : ptime).
Import RPC_Request RpcManager.
#[local] Existing Instance Manager.mm_kv.
Implicit Types (w : W) (z : Z) (ps : list (bytes * Value)) (root response : Value).

(** What object.create stores, object.get gives back: the request with a
    new text answers with the object's id, and a later request for that id
    answers with base64 text that decodes to the same bytes. *)
Theorem object_create_get w objs root1 root2 response z1 z2 ps1 ps2 c s :
  0 < BUFFERSIZE →
  request_doc root1 z1 ps1 → good_id z1 → assoc "content"%string ps1 = Some (VStr c) →
  assoc "id"%string ps1 = None → Base64.decode BUFFERSIZE c = Some (Some s) →
  DBManager.database w objs → objs !! validate_key (object_id s) = None →
  DBManager.admissible (DBManager.created now s (object_id s) Object_new) objs →
  request_doc root2 z2 ps2 → good_id z2 → assoc "id"%string ps2 = Some (VStr (object_id s)) →
  assoc "full"%string ps2 = None →
  ∃ w' e, CreateObject BUFFERSIZE now root1 response w =
            (Ret (true, reply z1 [(lit "id", VStr (object_id s))]), w') ∧
    GetObject BUFFERSIZE root2 response w' = (Ret (true, reply z2 [(lit "content", VStr e)]), w') ∧
    Base64.decode BUFFERSIZE e = Some (Some s).
Proof.
  intros HB Hr1 Hz1 Hc Hid Hd Hdb Hk Ha Hr2 Hz2 Hid2 Hfull.
  destruct (CreateObject_new BUFFERSIZE now w objs root1 response z1 ps1 c s)
    as (w' & Hcr & Hdb'); [done..|].
  destruct (GetObject_present BUFFERSIZE HB w'
    (DBManager.store (DBManager.created now s (object_id s) Object_new) objs) root2 response z2 ps2 (object_id s)
    (serialize (DBManager.created now s (object_id s) Object_new))) as (e & _ & Hde & Hg);
    [done..|apply Ha|apply lookup_insert_eq|].
  by exists w', e.
Qed.

(** C8 object.create with the id of an existing object replaces its text:
    object.get of that id then answers with the new one. For texts of which a
    patch is always made ([patchable]: the old or the new one of at most 100
    characters, or at most 125 line ends in both). *)
Theorem object_update_get w objs root1 root2 response z1 z2 ps1 ps2 c s i im :
  0 < BUFFERSIZE →
  request_doc root1 z1 ps1 → good_id z1 → assoc "content"%string ps1 = Some (VStr c) →
  assoc "id"%string ps1 = Some (VStr i) → Base64.decode BUFFERSIZE c = Some (Some s) →
  DBManager.database w objs → kv_ok (S := W) i → objs !! validate_key i = Some im →
  patchable (oi_head im) s → DBManager.admissible (DBManager.updated now s (DBManager.loaded im)) (delete (validate_key i) objs) →
  request_doc root2 z2 ps2 → good_id z2 → assoc "id"%string ps2 = Some (VStr i) →
  assoc "full"%string ps2 = None →
  ∃ w' e, CreateObject BUFFERSIZE now root1 response w =
            (Ret (true, reply z1 [(lit "id", VStr (oi_id im))]), w') ∧
    GetObject BUFFERSIZE root2 response w' = (Ret (true, reply z2 [(lit "content", VStr e)]), w') ∧
    Base64.decode BUFFERSIZE e = Some (Some s).
Proof.
  intros HB Hr1 Hz1 Hc Hid Hd Hdb Hi Hk Hp Ha Hr2 Hz2 Hid2 Hfull.
  destruct (CreateObject_update BUFFERSIZE now w objs root1 response z1 ps1 c s i im)
    as (w' & Hcr & Hdb'); [done..|].
  destruct (GetObject_present BUFFERSIZE HB w'
    (<[validate_key i := serialize (DBManager.updated now s (DBManager.loaded im))]> objs) root2 response z2 ps2 i
    (serialize (DBManager.updated now s (DBManager.loaded im)))) as (e & _ & Hde & Hg);
    [done..|apply lookup_insert_eq|].
  by exists w', e.
Qed.

(** The handlers that start with [valid]. *)
Definition validating : list handler :=
  [file_put; file_get; CreateObject BUFFERSIZE now; GetObject BUFFERSIZE; kv_get BUFFERSIZE;
   kv_put BUFFERSIZE; kv_remove].

Lemma validated_throws b rules root response w o :
  root = VObj o → assoc "jsonrpc"%string o = Some (VStr "2.0"%string) →
  get_int (default VNull (assoc "id"%string o)) = Throw runtime_error →
  handle (validated rules b) root response w = (Throw runtime_error, w).
Proof.
  intros -> Hv Hi.
  destruct (invalid_id (Req (VObj o) []) o rules eq_refl Hv Hi) as (r' & Hval & He).
  unfold handle, validated. rewrite (bind_run _ _ _ _ _ (req_run _ w _ _ _ Hval)).
  unfold bind, req, zoom. simpl. destruct (createErrorResponse r') as [out r'']. simpl in He. by subst.
Qed.

(** A request of version 2.0 whose id is missing or not an integer makes
    every validating handler throw: [valid] refuses it, but the error reply
    reads the id again with [get_int]. *)
Theorem invalid_id_throws root response w o h :
  root = VObj o → assoc "jsonrpc"%string o = Some (VStr "2.0"%string) →
  get_int (default VNull (assoc "id"%string o)) = Throw runtime_error →
  h ∈ validating → h root response w = (Throw runtime_error, w).
Proof.
  intros Hr Hv Hi Hh. unfold validating in Hh.
  repeat (apply elem_of_cons in Hh as [->|Hh]; [by eapply validated_throws|]).
  by apply elem_of_nil in Hh.
Qed.

(** kv.get looks the client's key up in a map whose keys are digests of
    values: what kv.put stored under a key comes back as the empty string,
    unless the key happens to be the digest. *)
Theorem kv_get_forgets_value w m root response z ps key :
  0 < BUFFERSIZE →
  request_doc root z ps → good_id z → assoc "key"%string ps = Some (VStr key) →
  kv_refines (S := W) w m → kv_ok (S := W) key → is_Some (KvSpec.links m !! validate_key key) →
  key ∉ KvSpec.names (validate_key key) m →
  ∃ e, kv_get BUFFERSIZE root response w = (Ret (true, reply z [(lit "content", VStr e)]), w) ∧
       Base64.decode BUFFERSIZE e = Some (Some []).
Proof.
  intros HB Hr Hz Hk HR Hok Hm Hni.
  destruct (kv_get_present (S := W) w m key None HR Hok Hm) as (h & v & Hh & _ & Hg).
  exists (Base64.encode_all []). split;
    [|by rewrite Base64.decode_eq, Base64.decode_block_encode_all by done].
  apply (handle_run _ _ _ _ _ _ (Req root [])).
  rewrite (validated_ok _ _ _ _ z ps) by (done || by eapply typed_singleton).
  rewrite (bind_run _ _ _ _ _ (req_run _ w _ _ _ (param_str_present (Req root []) z ps _ _ Hr Hk))).
  simpl in Hg. rewrite (bind_run _ _ _ _ _ (world_run _ _ (Req root []) _ _ Hg)). cbn [fst snd].
  rewrite (bind_run _ _ _ _ _ (req_run _ w _ _ _ (createResponse_ok (Req root []) z ps Hr Hz))).
  rewrite lookup_singleton_ne by (intros ->; done). cbn [from_option id].
  unfold RPC_Response.encode_base64. by rewrite Base64.encode_eq.
Qed.

(** The reply of [createErrorResponse] with [_error = e]. *)
Definition error_reply z (e : bytes) : Value :=
  VObj [(lit "jsonrpc", VStr "2.0"%string); (lit "result", VObj []); (lit "error", VStr []);
        (lit "id", VInt z); (lit "err", VStr e)].

(** The validating handlers of one parameter, with it. *)
Definition single_parameter : list (bytes * handler) :=
  [(lit "path", file_put); (lit "id", file_get); (lit "content", CreateObject BUFFERSIZE now);
   (lit "id", GetObject BUFFERSIZE); (lit "key", kv_get BUFFERSIZE); (lit "key", kv_remove)].

Lemma validated_wrong_type b name root response w z ps :
  request_doc root z ps → good_id z → type (default VNull (assoc name ps)) ≠ str_type →
  handle (validated [(name, str_type)] b) root response w =
    (Ret (false, error_reply z (name ++ " has the wrong type"%string)), w).
Proof.
  intros Hr Hz Ht. pose proof Hr as (o & Hj & Hv & Hi & Hp). pose proof Hz as [Hz1 Hz0].
  assert (Hval : valid [(name, str_type)] (Req root []) =
    (Ret false, Req root (name ++ " has the wrong type"%string))).
  { unfold valid. rewrite (bind_run _ _ _ _ _ (on_json_index (Req root []) _ o _ Hj Hv)).
    replace (bad_version _) with false by by vm_compute.
    rewrite (bind_run _ _ _ _ _ (on_json_index (Req root []) _ o _ Hj Hi)).
    replace (bad_id (VInt z)) with false by (unfold bad_id, get_int; simpl; rewrite int32_small by lia;
      symmetry; by apply Z.eqb_neq).
    rewrite (bind_run _ _ _ _ _ (on_json_index (Req root []) _ o _ Hj Hp)).
    cbn [check_params]. unfold bind at 1, index, member, get_state. cbn beta iota.
    rewrite decide_False by done. done. }
  unfold handle, validated. rewrite (bind_run _ _ _ _ _ (req_run _ w _ _ _ Hval)).
  unfold createErrorResponse.
  assert (He : createErrorResponse (Req root (name ++ " has the wrong type"%string)) =
    (Ret (error_reply z (name ++ " has the wrong type"%string)), Req root (name ++ " has the wrong type"%string))).
  { unfold createErrorResponse.
    rewrite (bind_run _ _ _ _ _ (createResponse_ok (Req root _) z ps Hr Hz)). by run. }
  by rewrite (bind_run _ _ _ _ _ (req_run _ w _ _ _ He)).
Qed.

(** A request whose parameter is missing or not a string is answered with
    an error that names the parameter, and nothing is stored or read. *)
Theorem wrong_type_refused root response w z ps name h :
  request_doc root z ps → good_id z → (name, h) ∈ single_parameter →
  type (default VNull (assoc name ps)) ≠ str_type →
  h root response w = (Ret (false, error_reply z (name ++ " has the wrong type"%string)), w).
Proof.
  intros Hr Hz Hh Ht. unfold single_parameter in Hh.
  repeat (apply elem_of_cons in Hh as [[= -> ->]|Hh]; [by eapply validated_wrong_type|]).
  by apply elem_of_nil in Hh.
Qed.

(** object.get with [full] set answers with an empty result: the response
    filled for it is overwritten with the one started before. *)
Theorem get_full_is_empty w objs root response z ps i im :
  request_doc root z ps → good_id z → assoc "id"%string ps = Some (VStr i) →
  assoc "full"%string ps = Some (VBool true) →
  DBManager.database w objs → kv_ok (S := W) i → objs !! validate_key i = Some im →
  GetObject BUFFERSIZE root response w = (Ret (true, reply z []), w).
Proof.
  intros Hr Hz Hid Hfull Hdb Hi Hk.
  pose proof (DBManager.get_object_head_ok w Object_new i objs im Hdb Hi Hk) as Hg.
  pose proof Hr as (o & Hj & _ & _ & Hps).
  apply (handle_run _ _ _ _ _ _ (Req root [])).
  rewrite (validated_ok _ _ _ _ z ps) by (done || by eapply typed_singleton).
  rewrite (bind_run _ _ _ _ _ (req_run _ w _ _ _ (createResponse_ok (Req root []) z ps Hr Hz))).
  rewrite (bind_run _ _ _ _ _ (req_run _ w _ _ _ (param_str_present (Req root []) z ps _ _ Hr Hid))).
  rewrite (bind_run _ _ _ _ _ (db_run _ _ _ (Req root []) _ _ _ Hg)). cbn [fst snd].
  rewrite (bind_run _ _ _ _ _ (req_run _ w _ _ _ (on_json_index (Req root []) _ o _ Hj Hps))).
  unfold contains. cbn [get_obj]. rewrite Hfull. run.
  rewrite bool_decide_true by eauto. run.
  rewrite (bind_run _ _ _ _ _ (req_run _ w _ _ _ (param_present (Req root []) z ps _ _ Hr Hfull))).
  cbn [get_bool]. run.
  rewrite (bind_run _ _ _ _ _ (req_run _ w _ _ _ (createResponse_ok (Req root []) z ps Hr Hz))). by run.
Qed.
End rpc_properties.
