(* ===== verification/JsonRpc.v ===== *)
(** * jsonrpc_handler.cpp, rpc_server.cc: dispatch and the connection

    [Handler] of third-party/jsonrpc, as modified in this repository for
    boost::json values, and the part of src/src/rpc/rpc_server.cc between the
    socket and the handler.  The JSON reader and writer are arguments here;
    Protocol.v puts in those of JsonReader.v and JsonWriter.v. *)

From S2P Require Import Prelude Decimal Json.
Local Open Scope prog_scope.

Module JsonRpc.

Section handler.
Context {W : Type}.

(** A registered method: name, description, callback. *)
Record CallbackMethod := Method {
  GetName : bytes;
  GetDescription : Value;
  Call : Value → Value → M W (bool * Value);
}.

(** [RpcMethod(obj, method, name)]: no description. *)
Definition RpcMethod (name : bytes) (call : Value → Value → M W (bool * Value)) : CallbackMethod :=
  Method name VNull call.

(** The handler's state is the list [m_methods]. *)
Definition AddMethod (method : CallbackMethod) (m_methods : list CallbackMethod) : list CallbackMethod :=
  m_methods ++ [method].

Fixpoint erase_first (name : bytes) (l : list CallbackMethod) : list CallbackMethod :=
  match l with
  | [] => []
  | m :: l => if decide (GetName m = name) then l else m :: erase_first name l
  end.

Definition DeleteMethod (name : bytes) (m_methods : list CallbackMethod) : list CallbackMethod :=
  if decide (name = lit "system.describe") then m_methods else erase_first name m_methods.

Fixpoint Lookup (name : bytes) (l : list CallbackMethod) : option CallbackMethod :=
  match l with
  | [] => None
  | m :: l => if decide (GetName m = name) then Some m else Lookup name l
  end.

(** Run a computation on a local document. *)
Definition edit (m : M Value ()) (v : Value) : M W Value := λ s,
  match m v with (Ret _, v') => (Ret v', s) | (Throw e, _) => (Throw e, s) | (Undef, _) => (Undef, s) end.

(** [SystemDescribe]: [methods] starts as the null value. *)
Fixpoint describe (l : list CallbackMethod) (methods : Value) : M W Value :=
  match l with
  | [] => ret methods
  | m :: l => let! methods := edit (assign (GetName m) (GetDescription m)) methods in describe l methods
  end.

Definition SystemDescribe (m_methods : list CallbackMethod) (msg response : Value) : M W (bool * Value) :=
  let! response := edit (assign "jsonrpc"%string (VStr "2.0"%string)) response in
  let! id := lift_outcome (at_const "id"%string msg) in
  let! response := edit (assign "id"%string id) response in
  let! methods := describe m_methods VNull in
  let! response := edit (assign "result"%string methods) response in
  ret (true, response).

(** [root.is_null() || !root.contains("jsonrpc") ||
    root["jsonrpc"].get_str() != "2.0"] *)
Definition bad_version (root : Value) : M W bool :=
  if is_null root then ret true else
  let! c := lift_outcome (contains "jsonrpc"%string root) in
  if negb c then ret true else
  let! v := lift_outcome (at_const "jsonrpc"%string root) in
  let! s := lift_outcome (get_str v) in
  ret (bool_decide (s ≠ lit "2.0")).

(** [root.contains("id") && (type is array or object)] *)
Definition bad_id (root : Value) : M W bool :=
  let! c := lift_outcome (contains "id"%string root) in
  if negb c then ret false else
  let! v := lift_outcome (at_const "id"%string root) in
  ret (bool_decide (type v = array_type ∨ type v = obj_type)).

Definition bad_method (root : Value) : M W bool :=
  let! c := lift_outcome (contains "method"%string root) in
  if negb c then ret true else
  let! v := lift_outcome (at_const "method"%string root) in
  ret (bool_decide (type v ≠ str_type)).

(** [error["id"] = "0"; error["jsonrpc"] = "2.0";] on the caller's [error]. *)
Definition error_header (error : Value) : M W Value :=
  let! error := edit (assign "id"%string (VStr "0"%string)) error in
  edit (assign "jsonrpc"%string (VStr "2.0"%string)) error.

Definition Check (root error : Value) : M W (bool * Value) :=
  if! bad_version root then let! error := error_header error in ret (false, error) else
  if! bad_id root then
    let! error := error_header error in
    let! error := edit (assign "error"%string (VObj [])) error in
    ret (false, error) else
  if! bad_method root then let! error := error_header error in ret (false, error) else
  ret (true, error).

Definition METHOD_NOT_FOUND : Z := (-32601)%Z.

(** The reply to an unknown method: the member "error" is given [error], the
    null value, and not [err]. *)
Definition not_found (root : Value) : M W (bool * Value) :=
  let! c := lift_outcome (contains "id"%string root) in
  let! id := (if c : bool then lift_outcome (at_const "id"%string root) else ret (VStr "0"%string)) in
  ret (false, VObj [(lit "id", id); (lit "jsonrpc", VStr "2.0"%string); (lit "error", VNull)]).

(** [Process(const Value& root, Value& response)]. After a failed [Check] the
    log statement reads [error] as a string. *)
Definition Process_value (m_methods : list CallbackMethod) (root response : Value) : M W (bool * Value) :=
  let! r := Check root VNull in
  if fst r then
    let! v := lift_outcome (at_const "method"%string root) in
    let! method := lift_outcome (get_str v) in
    if decide (method = []) then not_found root else
    match Lookup method m_methods with
    | Some rpc => Call rpc root response
    | None => not_found root
    end
  else
    let! s := lift_outcome (get_str (snd r)) in ret (false, snd r).

(** The loop over a batch: [j] counts the replies. *)
Fixpoint batch (m_methods : list CallbackMethod) (arr : list Value) (j : nat) (response : Value) : M W Value :=
  match arr with
  | [] => ret response
  | x :: arr =>
      let! r := Process_value m_methods x VNull in
      if is_null (snd r) then batch m_methods arr j response
      else let! response := edit (assign_at j (snd r)) response in batch m_methods arr (S j) response
  end.

(** boost::json::read and boost::json::write *)
Context (json_read : bytes → option Value) (json_write : Value → bytes).

(** [Process(const std::string& msg, Value& response)]. [NULL] is the integer
    zero for the constructors of Value. *)
Definition Process (m_methods : list CallbackMethod) (msg : bytes) (response : Value) : M W (bool * Value) :=
  match json_read msg with
  | None =>
      let! response := edit (assign "id"%string (VInt 0)) response in
      let! response := edit (assign "jsonrpc"%string (VStr "2.0"%string)) response in
      let! error := edit (assign "code"%string (VInt (-32700))) VNull in
      let! error := edit (assign "message"%string (VStr "Parse error."%string)) error in
      let! response := edit (assign "error"%string error) response in
      ret (false, response)
  | Some (VArray arr) => let! response := batch m_methods arr 0 response in ret (true, response)
  | Some root => Process_value m_methods root response
  end.

(** ** connection::handle_read *)

(** [istream_iterator<char>] skips white space. *)
Definition strip (buf : bytes) : bytes := filter (λ c, isspace c = false) buf.

(** What is in the request buffer when the read completes without error; the
    result is the text sent back, if any. *)
Definition handle_read (m_methods : list CallbackMethod) (request_buf : bytes) : M W (option bytes) :=
  let data := strip request_buf in
  if decide (data = []) then ret None else
  let! r := Process m_methods data VNull in
  if is_null (snd r) then ret None
  else ret (Some (json_write (snd r) ++ "{$}"%string)).

(** ** Laws *)
Implicit Types (w : W) (root response : Value) (ms : list CallbackMethod).

(** What [Check] accepts: an object of version 2.0 with a method name and no
    structured id. *)
Definition well_formed root : bool :=
  match root with
  | VObj o =>
      match assoc "jsonrpc"%string o with Some (VStr s) => bool_decide (s = lit "2.0") | _ => false end &&
      match assoc "id"%string o with Some (VArray _ | VObj _) => false | _ => true end &&
      match assoc "method"%string o with Some (VStr _) => true | _ => false end
  | _ => false
  end.

(** The method it names. *)
Definition method_of root : bytes :=
  match root with
  | VObj o => match assoc "method"%string o with Some (VStr m) => m | _ => [] end
  | _ => []
  end.

Lemma bind_throws {A B} (m : M W A) (k : A → M W B) w e :
  m w = (Throw e, w) → bind m k w = (Throw e, w).
Proof. apply bind_throw. Qed.

(** A failed test leads to [error_header] on the null [error]. *)
Lemma error_header_null {A} (k : Value → M W A) w :
  (let! error := error_header VNull in k error) w = (Throw runtime_error, w).
Proof. done. Qed.

Lemma bad_version_obj o w :
  bad_version (VObj o) w =
    match assoc "jsonrpc"%string o with
    | None => (Ret true, w)
    | Some (VStr s) => (Ret (bool_decide (s ≠ lit "2.0")), w)
    | Some _ => (Throw runtime_error, w)
    end.
Proof.
  unfold bad_version, contains, at_const. cbn [is_null type get_obj].
  destruct (assoc "jsonrpc"%string o) as [[]|]; reflexivity.
Qed.

Lemma bad_id_obj o w :
  bad_id (VObj o) w =
    (Ret (match assoc "id"%string o with
          | None => false
          | Some v => bool_decide (type v = array_type ∨ type v = obj_type)
          end), w).
Proof.
  unfold bad_id, contains, at_const. cbn [get_obj]. by destruct (assoc "id"%string o).
Qed.

Lemma bad_method_obj o w :
  bad_method (VObj o) w =
    (Ret (match assoc "method"%string o with
          | None => true
          | Some v => bool_decide (type v ≠ str_type)
          end), w).
Proof.
  unfold bad_method, contains, at_const. cbn [get_obj]. by destruct (assoc "method"%string o).
Qed.

Lemma check_spec root w :
  Check root VNull w = (if well_formed root then Ret (true, VNull) else Throw runtime_error, w).
Proof.
  destruct root as [o|a|s|b|z|d| |z]; try reflexivity. unfold Check, well_formed.
  unfold bind at 1. rewrite bad_version_obj.
  destruct (assoc "jsonrpc"%string o) as [[| |s| | | | |]|]; try reflexivity.
  destruct (decide (s = lit "2.0")) as [->|Hne];
    [rewrite bool_decide_false by tauto|by rewrite bool_decide_true, bool_decide_false by done].
  rewrite (bool_decide_true (lit "2.0" = lit "2.0")) by done. cbn [andb].
  unfold bind at 1. rewrite bad_id_obj.
  destruct (assoc "id"%string o) as [[]|]; try reflexivity;
    cbn [type]; rewrite ?bool_decide_false by (by intros []); cbn [andb];
    unfold bind at 1; rewrite bad_method_obj;
    by destruct (assoc "method"%string o) as [[]|].
Qed.

Lemma process_wf ms root response w :
  well_formed root = true → method_of root ≠ [] →
  Process_value ms root response w =
    match Lookup (method_of root) ms with
    | Some rpc => Call rpc root response w
    | None => not_found root w
    end.
Proof.
  intros Hwf Hm. unfold Process_value. unfold bind at 1. rewrite check_spec, Hwf. cbn [fst].
  destruct root as [o| | | | | | |]; try done. unfold well_formed, method_of, at_const in *. cbn [get_obj].
  destruct (assoc "method"%string o) as [[]|]; try (by rewrite andb_false_r in Hwf). run.
  cbn [get_str]. run. rewrite decide_False by done. by destruct (Lookup _ _).
Qed.

(** A well-formed request for a registered method is that method's call; the
    first registered under the name wins. *)
Theorem process_dispatches ms1 m ms2 root response w :
  well_formed root = true → method_of root = GetName m → GetName m ≠ [] →
  (∀ x, x ∈ ms1 → GetName x ≠ GetName m) →
  Process_value (ms1 ++ m :: ms2) root response w = Call m root response w.
Proof.
  intros Hwf Hn Hne Hms. rewrite process_wf by (done || by rewrite Hn). rewrite Hn.
  assert (Lookup (GetName m) (ms1 ++ m :: ms2) = Some m) as ->; [|done].
  induction ms1 as [|x ms1 IH]; simpl; [by rewrite decide_True|].
  rewrite decide_False by (apply Hms; left). apply IH. intros y Hy. apply Hms. by right.
Qed.

(** A malformed request is never answered: building the error reply assigns
    members to a null value, which throws out of [Process]. *)
Theorem malformed_throws ms root response w :
  well_formed root = false → Process_value ms root response w = (Throw runtime_error, w).
Proof. intros Hwf. unfold Process_value. unfold bind at 1. by rewrite check_spec, Hwf. Qed.

Lemma describe_null m ms w : describe (m :: ms) VNull w = (Throw runtime_error, w).
Proof. done. Qed.
End handler.

Section connection.
Context {W : Type} (json_read : bytes → option Value) (json_write : Value → bytes).
Implicit Types (w : W) (ms : list (@CallbackMethod W)).

(** Neither is a text that is not JSON, or a batch whose first element has a
    reply: [handle_read] throws, and its caller is a thread of the pool
    without a handler. *)
Theorem unparsed_or_batch_throws ms buf w w' :
  strip buf ≠ [] →
  match json_read (strip buf) with
  | None => w' = w
  | Some (VArray (x :: _)) => ∃ v, is_null v = false ∧ ∃ b, Process_value ms x VNull w = (Ret (b, v), w')
  | Some _ => False
  end →
  handle_read json_read json_write ms buf w = (Throw runtime_error, w').
Proof.
  intros Hne. unfold handle_read. rewrite decide_False by done. unfold Process.
  destruct (json_read (strip buf)) as [[o|[|x a]|s|b|z|d| |z]|]; try done; [|by intros ->].
  intros (v & Hv & b & Hp). unfold bind at 1. cbn [batch].
  rewrite bind_assoc, (bind_run _ _ _ _ _ Hp). cbn [snd]. rewrite Hv. done.
Qed.

(** White space is dropped from the whole buffer, inside strings too:
    requests that differ only in it get the same answer. *)
Theorem handle_read_ignores_space ms buf buf' w :
  strip buf = strip buf' →
  handle_read json_read json_write ms buf w = handle_read json_read json_write ms buf' w.
Proof. intros Hs. unfold handle_read. by rewrite Hs. Qed.

(** A request for an unknown method is answered with its id, but with the
    null value for "error": code and message are built and not used. *)
Theorem unknown_method_reply ms o response w i :
  well_formed (VObj o) = true → Lookup (method_of (VObj o)) ms = None → assoc "id"%string o = Some i →
  Process_value ms (VObj o) response w =
    (Ret (false, VObj [(lit "id", i); (lit "jsonrpc", VStr "2.0"%string); (lit "error", VNull)]), w).
Proof.
  intros Hwf Hl Hi.
  assert (Hnf : not_found (VObj o) w =
    (Ret (false, VObj [(lit "id", i); (lit "jsonrpc", VStr "2.0"%string); (lit "error", VNull)]), w)).
  { unfold not_found, contains, at_const. cbn [get_obj]. by rewrite Hi. }
  destruct (decide (method_of (VObj o) = [])) as [He|]; [|by rewrite process_wf, Hl].
  unfold Process_value. unfold bind at 1. rewrite check_spec, Hwf. cbn [fst].
  unfold well_formed, method_of, at_const in *. cbn [get_obj].
  destruct (assoc "method"%string o) as [[]|]; try (by rewrite andb_false_r in Hwf). subst. run. done.
Qed.
End connection.

(** ** Requests to a counter *)
Module Example.

(** A method that counts its calls, and another of the same name. *)
Definition count : CallbackMethod (W := nat) :=
  RpcMethod (lit "count") (λ root response n, (Ret (true, VObj [(lit "result", VInt (Z.of_nat n))]), S n)).
Definition other : CallbackMethod (W := nat) := RpcMethod (lit "other") (λ root response, ret (false, VNull)).

Definition members (method : string) : list (bytes * Value) :=
  [(lit "jsonrpc", VStr "2.0"%string); (lit "method", VStr method); (lit "id", VInt 7)].
Definition call (method : string) : Value := VObj (members method).

Lemma process_dispatches_witness :
  Process_value [other; count; count] (call "count") VNull 3 =
    (Ret (true, VObj [(lit "result", VInt 3)]), 4).
Proof.
  apply (process_dispatches [other] count [count] (call "count") VNull 3); [reflexivity|reflexivity|by intros [=]|].
  intros x ->%list_elem_of_singleton. by intros [=].
Defined.

Lemma malformed_throws_witness :
  Process_value [count] (VObj [(lit "method", VStr "count"%string)]) VNull 3 = (Throw runtime_error, 3).
Proof. exact (malformed_throws [count] (VObj [(lit "method", VStr "count"%string)]) VNull 3 eq_refl). Defined.

(** A reader of texts that calls ["c"] in a batch, and nothing else. *)
Definition reader (t : bytes) : option Value :=
  if decide (t = lit "[c]") then Some (VArray [call "count"]) else None.
Definition writer (v : Value) : bytes := lit "reply".

Lemma unparsed_or_batch_throws_witness :
  handle_read reader writer [count] (lit "[ c ]") 3 = (Throw runtime_error, 4) ∧
  handle_read reader writer [count] (lit "nonsense") 3 = (Throw runtime_error, 3).
Proof.
  split; apply unparsed_or_batch_throws; [by intros [=]| |by intros [=]|reflexivity].
  exists (VObj [(lit "result", VInt 3)]). split; [reflexivity|]. exists true. reflexivity.
Defined.

Lemma handle_read_ignores_space_witness :
  handle_read reader writer [count] (lit "[ c ]") 3 = handle_read reader writer [count] (lit "[c]") 3.
Proof. exact (handle_read_ignores_space reader writer [count] (lit "[ c ]") (lit "[c]") 3 eq_refl). Defined.

Lemma unknown_method_reply_witness :
  Process_value [count] (call "count.all") VNull 3 =
    (Ret (false, VObj [(lit "id", VInt 7); (lit "jsonrpc", VStr "2.0"%string); (lit "error", VNull)]), 3).
Proof. exact (unknown_method_reply [count] (members "count.all") VNull 3 (VInt 7) eq_refl eq_refl eq_refl). Defined.
End Example.
End JsonRpc.
