(* ===== verification/Protocol.v ===== *)
(** * Requests and replies as text

    The connection of JsonRpc.v with the reader and the writer of boost/json:
    what a client's text means to the daemon. *)

From S2P Require Import Prelude Decimal Json JsonWriter JsonReader JsonText JsonRpc.
Local Open Scope prog_scope.

Module Protocol.
Import JsonWriter JsonReader JsonText JsonRpc.

(** A request as [handle_read] sees it: the spaces of its strings and names
    are gone with the white space around them. *)
Definition drop_spaces (s : bytes) : bytes := filter (λ c, c ≠ " "%char) s.

Fixpoint despace (v : Value) : Value :=
  match v with
  | VObj o => VObj (map (λ m, let '(n, x) := m in (drop_spaces n, despace x)) o)
  | VArray l => VArray (map despace l)
  | VStr s => VStr (drop_spaces s)
  | v => v
  end.

(** ** The white space of a written value *)

Lemma strip_app s t : strip (s ++ t) = strip s ++ strip t.
Proof. apply filter_app. Qed.

Lemma strip_keep s : Forall (λ c, isspace c = false) s → strip s = s.
Proof. intros Hs. apply filter_id. by apply Forall_forall. Qed.

(** What the writer writes is printable. *)
Definition printable (c : ascii) : bool := (32 <=? uchar c)%Z && (uchar c <=? 126)%Z.
Definition all_printable (s : bytes) : Prop := Forall (λ c, printable c = true) s.

Lemma esc_char_text c :
  forallb printable (esc_char false c) = true ∧
  strip (esc_char false c) = if decide (c = " "%char) then [] else esc_char false c.
Proof.
  pose (test c := forallb printable (esc_char false c) &&
    bool_decide (strip (esc_char false c) = if decide (c = " "%char) then [] else esc_char false c)).
  assert (Ht : test c = true) by (revert c; apply forall_chars; vm_compute; reflexivity).
  unfold test in Ht. apply andb_true_iff in Ht as [? ?%bool_decide_eq_true_1]. done.
Qed.

Lemma all_printable_app s t : all_printable (s ++ t) ↔ all_printable s ∧ all_printable t.
Proof. apply Forall_app. Qed.

Lemma lit_printable s : forallb printable s = true → all_printable s.
Proof. intros Hs. apply Forall_forall. intros c Hc. eapply forallb_forall in Hs; [done|]. by apply list_elem_of_In. Qed.

Lemma esc_printable s : all_printable (add_esc_chars s false).
Proof.
  induction s as [|c s IH]; [constructor|]. apply all_printable_app. split; [|done].
  apply lit_printable, esc_char_text.
Qed.

Lemma strip_esc s : strip (add_esc_chars s false) = add_esc_chars (drop_spaces s) false.
Proof.
  induction s as [|c s IH]; [done|]. cbn [add_esc_chars]. rewrite strip_app, (proj2 (esc_char_text c)), IH.
  unfold drop_spaces. rewrite filter_cons. case_decide; rewrite ?decide_False, ?decide_True by tauto; done.
Qed.

Lemma str_printable s : all_printable (output_str 0 s).
Proof.
  unfold output_str. constructor; [done|]. apply all_printable_app. split; [apply esc_printable|by repeat constructor].
Qed.

Lemma strip_str s : strip (output_str 0 s) = output_str 0 (drop_spaces s).
Proof.
  change (output_str 0 s) with ([QUOTE] ++ add_esc_chars s false ++ [QUOTE]).
  by rewrite !strip_app, strip_esc.
Qed.

Lemma digits_printable s : Forall (λ c, is_digit c = true) s → all_printable s ∧ strip s = s.
Proof.
  intros Hs. split; [|apply strip_keep; eapply Forall_impl; [exact Hs|]; intros c; apply digit_char_facts].
  eapply Forall_impl; [exact Hs|]. intros c Hc.
  pose (test c := implb (is_digit c) (printable c)).
  assert (Ht : test c = true) by (revert c Hc; intros c _; revert c; apply forall_chars; vm_compute; reflexivity).
  unfold test in Ht. by rewrite Hc in Ht.
Qed.

Lemma int_printable z : all_printable (print_int z) ∧ strip (print_int z) = print_int z.
Proof.
  destruct (print_int_form z) as (ds & -> & [Hp Hs]%digits_printable & _ & _).
  rewrite all_printable_app, strip_app, Hs. destruct (z <? 0)%Z; split_and!; try done; by repeat constructor.
Qed.

Lemma compound_text level o c l :
  output_array_or_obj 0 level o c l = [o] ++ output_elements 0 (S level) l ++ [c].
Proof. done. Qed.

Lemma elements_cons level x l :
  output_elements 0 level (x :: l) = x ++ (match l with [] => [] | _ => lit "," end) ++ output_elements 0 level l.
Proof. done. Qed.

Lemma elements_printable level l : Forall all_printable l → all_printable (output_elements 0 level l).
Proof.
  induction 1 as [|x l Hx _ IH]; [constructor|]. rewrite elements_cons, !all_printable_app.
  split_and!; [done|by destruct l; repeat constructor|done].
Qed.

Lemma strip_elements level l : strip (output_elements 0 level l) = output_elements 0 level (map strip l).
Proof.
  induction l as [|x l IH]; [done|]. cbn [map]. rewrite !elements_cons, !strip_app, IH.
  by destruct l.
Qed.

Lemma member_text n v : output_member 0 n v = output_str 0 n ++ lit ":" ++ v.
Proof. done. Qed.

Section text.
Context (append_double : Z → Z → bytes).
Abbreviation output := (output append_double 0).

Lemma output_text v level :
  plain v = true → all_printable (output level v) ∧ strip (output level v) = output level (despace v).
Proof.
  revert level. induction v as [o IH|l IH|s|b|z|d| |z] using Value_nested_ind; intros level Hp;
    [| |split; [apply str_printable|apply strip_str]|destruct b; (split; [by apply lit_printable|done])
     |apply int_printable|done|split; [by apply lit_printable|done]|apply int_printable];
    cbn [plain] in Hp; rewrite forallb_forall in Hp; rewrite Forall_forall in IH; cbn [JsonWriter.output despace];
    rewrite !compound_text, !all_printable_app, !strip_app, strip_elements.
  - assert (Hm : ∀ m, m ∈ o → all_printable (output (S level) (snd m)) ∧
      strip (output (S level) (snd m)) = output (S level) (despace (snd m))).
    { intros [n v] Hin. apply (IH _ Hin). apply (Hp (n, v)), list_elem_of_In, Hin. }
    split; [split_and!; try (by repeat constructor); apply elements_printable; apply Forall_map, Forall_forall|].
    + intros [n v] Hin. rewrite member_text, !all_printable_app.
      split_and!; [apply str_printable|by repeat constructor|apply (Hm _ Hin)].
    + do 2 f_equal. f_equal. rewrite !map_map. apply map_ext_in. intros [n v] Hin%list_elem_of_In.
      rewrite !member_text, !strip_app, strip_str. f_equal. f_equal. apply (Hm _ Hin).
  - assert (Hm : ∀ v, v ∈ l → all_printable (output (S level) v) ∧
      strip (output (S level) v) = output (S level) (despace v)).
    { intros v Hin. apply (IH _ Hin), Hp, list_elem_of_In, Hin. }
    split; [split_and!; try (by repeat constructor); apply elements_printable; apply Forall_map, Forall_forall|].
    + intros v Hin. apply (Hm _ Hin).
    + do 2 f_equal. f_equal. rewrite !map_map. apply map_ext_in. intros v Hin%list_elem_of_In. apply (Hm _ Hin).
Qed.

Lemma plain_despace v : plain v = true → plain (despace v) = true.
Proof.
  induction v as [o IH|l IH|s|b|z|d| |z] using Value_nested_ind; intros Hp; try done;
    cbn [plain despace] in *; rewrite forallb_forall in *; rewrite Forall_forall in IH.
  - intros m [[n v] [<- Hin]]%in_map_iff. apply (IH (n, v)); [by apply list_elem_of_In|]. by apply (Hp (n, v)).
  - intros m [v [<- Hin]]%in_map_iff. apply IH; [by apply list_elem_of_In|]. by apply Hp.
Qed.
End text.

(** ** What the daemon does with a text *)
Section protocol.
Context {W : Type} `{HS : Spirit} {SL : SpiritLaws} (append_double : Z → Z → bytes).
Implicit Types (ms : list (@CallbackMethod W)) (w : W) (root : Value).

(** The end of a line. *)
Definition crlf : bytes := [char_of_Z 13; char_of_Z 10].

(** The reply that is written back, if it is not null. *)
Definition reply_text (response : Value) : option bytes :=
  if is_null response then None else Some (write append_double response ++ "{$}"%string).

Lemma read_stripped root more :
  plain root = true → stops (strip more) →
  read (strip (write append_double root ++ more)) = Some (despace root).
Proof.
  intros Hp Hm. rewrite strip_app. unfold write at 1. rewrite (proj2 (output_text _ root 0 Hp)).
  apply read_written; [by apply plain_despace|done].
Qed.

Lemma write_stripped_ne root more :
  plain root = true → strip (write append_double root ++ more) ≠ [].
Proof.
  intros Hp He. pose proof (read_stripped root [] Hp) as Hr. rewrite app_nil_r in Hr.
  rewrite strip_app in He. apply app_eq_nil in He as [He _]. rewrite He in Hr.
  assert (Hf : read [] = Some (despace root)) by (by apply Hr; intros ? ? [=]).
  by rewrite read_nil in Hf.
Qed.

Lemma handle_read_line ms root more w :
  plain root = true → type root ≠ array_type → stops (strip more) →
  handle_read read (write append_double) ms (write append_double root ++ more) w =
    (let! r := Process_value ms (despace root) VNull in ret (reply_text (snd r))) w.
Proof.
  intros Hp Ht Hm. unfold handle_read. rewrite decide_False by (by apply write_stripped_ne).
  unfold Process. rewrite read_stripped by done. unfold reply_text.
  destruct root; try done; cbn [despace]; unfold bind;
    destruct (Process_value _ _ _ _) as [[[b v]| |] w']; try done; simpl; by destruct (is_null v).
Qed.

(** C28 A request sent as a line is served as the value it stands for with every
    space gone from its strings and names, and a client reads the reply back as
    the value the method gave; what is behind the request in the buffer, such
    as a second request sent without waiting, is dropped without an answer. *)
Theorem request_served ms root more w b response w' :
  plain root = true → type root ≠ array_type → stops (strip more) →
  Process_value ms (despace root) VNull w = (Ret (b, response), w') → plain response = true → response ≠ VNull →
  ∃ text, handle_read read (write append_double) ms (write append_double root ++ more) w = (Ret (Some text), w') ∧
          read text = Some response.
Proof.
  intros Hp Ht Hm Hpv Hr Hne. exists (write append_double response ++ "{$}"%string). split.
  - rewrite handle_read_line by done. unfold bind. rewrite Hpv. unfold reply_text. cbn [snd].
    by destruct response.
  - apply read_written; [done|]. by apply stops_cons.
Qed.

(** Without spaces it is the request itself. *)
Lemma despace_id root : plain root = true → strip (write append_double root) = write append_double root → despace root = root.
Proof.
  intros Hp Hs. pose proof (read_stripped root [] Hp ltac:(by intros ? ? [=])) as Hr.
  rewrite app_nil_r, Hs in Hr. pose proof (read_written append_double root [] Hp ltac:(by intros ? ? [=])) as Hw.
  rewrite app_nil_r in Hw. congruence.
Qed.
End protocol.

(** ** Two requests in one buffer *)
Module Example.
#[local] Existing Instances JsonText.Example.lexer JsonText.Example.lexer_laws.
Import JsonRpc.Example.

Definition real (bits : Z) (precision : Z) : bytes := [].
Definition second : bytes := crlf ++ write real (call "count") ++ crlf.

Lemma stops_second : stops (strip second).
Proof.
  assert (Hs : head (strip second) = Some "{"%char) by (vm_compute; reflexivity).
  intros c s He. rewrite He in Hs. by injection Hs as ->.
Qed.

(** The name of the method has a space; the second request is not served. *)
Lemma request_served_witness :
  ∃ t, handle_read read (write real) [other; count] (write real (call "co unt") ++ second) 3 = (Ret (Some t), 4) ∧
       read t = Some (VObj [(lit "result", VInt 3)]).
Proof.
  refine (request_served real [other; count] (call "co unt") second 3 true (VObj [(lit "result", VInt 3)]) 4
    eq_refl _ stops_second _ eq_refl _); [by intros [=]|vm_compute; reflexivity|by intros [=]].
Defined.
End Example.
End Protocol.
