(* ===== verification/RpcServer.v ===== *)
(** * rpc_server.h, rpc_server.cc: the server and its connections

    [RpcServer] and [connection], over boost::asio.  The io_service is the
    list of the operations that have been started; an event is the end of one of
    them, as the network decides it, and runs its handler.  Handlers run one
    at a time, as with a pool of one thread; what several threads may do to
    one connection is settled by [one_operation]. *)

From S2P Require Import Prelude Decimal Json JsonWriter JsonReader JsonText JsonRpc Protocol.
Local Open Scope prog_scope.

Module RpcServer.
Import JsonWriter JsonReader JsonText JsonRpc Protocol.

(** [async_read_until(socket_, request_buf_, "\r\n", ...)] is done when the
    buffer holds the delimiter. *)
Fixpoint has_line (s : bytes) : bool :=
  match s with
  | c :: s' => bool_decide (take 2 s = crlf) || has_line s'
  | [] => false
  end.

(** A short: the port of the configuration is an int. *)
Definition int16 (z : Z) : Z := ((z + 2 ^ 15) mod 2 ^ 16 - 2 ^ 15)%Z.

Inductive operation := Accept | Read (i : nat) | Write (i : nat).
#[export] Instance operation_eq_dec : EqDecision operation.
Proof. solve_decision. Defined.

(** [sent] is what the peer has been sent. *)
Record connection := Connection {
  request_buf_ : bytes;
  response_ : bytes;
  sent : bytes;
}.
Definition connection_new : connection := Connection [] [] [].

(** The end of an operation: an accept, bytes received, the end of the stream
    or an error of a read, a write. *)
Inductive event :=
  | Accepted (error : bool)
  | Received (i : nat) (data : bytes)
  | ReadFailed (i : nat)
  | Written (i : nat) (error : bool).

#[export] Instance event_eq_dec : EqDecision event.
Proof. solve_decision. Defined.

Definition of_event (e : event) : operation :=
  match e with
  | Accepted _ => Accept
  | Received i _ | ReadFailed i => Read i
  | Written i _ => Write i
  end.

Section server.
Context {W : Type} (json_read : bytes → option Value) (json_write : Value → bytes).

(** [world] is what the handlers work on, [pending] the io_service;
    [connections] those made so far, the last of them [new_connection_]. *)
Record server := Server {
  world : W;
  jsonHandler_ : list (@CallbackMethod W);
  connections : list connection;
  pending : list operation;
}.

Definition AddMethod (method : CallbackMethod) : M server () :=
  modify (λ s, Server (world s) (JsonRpc.AddMethod method (jsonHandler_ s)) (connections s) (pending s)).
Definition DeleteMethod (method : bytes) : M server () :=
  modify (λ s, Server (world s) (JsonRpc.DeleteMethod method (jsonHandler_ s)) (connections s) (pending s)).

Definition post (op : operation) : M server () :=
  modify (λ s, Server (world s) (jsonHandler_ s) (connections s) (pending s ++ [op])).

Fixpoint remove_op (op : operation) (l : list operation) : list operation :=
  match l with
  | [] => []
  | x :: l => if decide (x = op) then l else x :: remove_op op l
  end.
Definition complete (op : operation) : M server () :=
  modify (λ s, Server (world s) (jsonHandler_ s) (connections s) (remove_op op (pending s))).

Definition on_connection (i : nat) (f : connection → connection) : M server () :=
  modify (λ s, Server (world s) (jsonHandler_ s) (alter f i (connections s)) (pending s)).
Definition the_connection (i : nat) : M server connection :=
  gets (λ s, default connection_new (connections s !! i)).

Definition on_world {A} (m : M W A) : M server A :=
  zoom world (λ w s, Server w (jsonHandler_ s) (connections s) (pending s)) m.

(** [connection::start] *)
Definition start (i : nat) : M server () := post (Read i).

(** [connection::handle_read]: the buffer is read to its end. *)
Definition handle_read (i : nat) (error : bool) : M server () :=
  if error then ret () else
  let! c := the_connection i in
  on_connection i (λ c, Connection [] (response_ c) (sent c)) ;;;
  let! ms := gets jsonHandler_ in
  let! rep := on_world (JsonRpc.handle_read json_read json_write ms (request_buf_ c)) in
  match rep with
  | Some rep =>
      on_connection i (λ c, Connection (request_buf_ c) (response_ c ++ rep) (sent c)) ;;;
      post (Write i)
  | None => ret ()
  end.

(** [connection::handle_write] *)
Definition handle_write (i : nat) (error : bool) : M server () :=
  if error then ret () else post (Read i).

(** [RpcServer::handle_accept] *)
Definition handle_accept (error : bool) : M server () :=
  if error then ret () else
  let! n := gets (λ s, length (connections s) - 1) in
  start n ;;;
  modify (λ s, Server (world s) (jsonHandler_ s) (connections s ++ [connection_new]) (pending s)) ;;;
  post Accept.

(** The io_service: what the operations do, and their handlers. *)
Definition on_event (e : event) : M server () :=
  match e with
  | Accepted error => complete Accept ;;; handle_accept error
  | Received i data =>
      on_connection i (λ c, Connection (request_buf_ c ++ data) (response_ c) (sent c)) ;;;
      let! c := the_connection i in
      if has_line (request_buf_ c) then complete (Read i) ;;; handle_read i false else ret ()
  | ReadFailed i => complete (Read i) ;;; handle_read i true
  | Written i error =>
      (if error : bool then ret () else
         on_connection i (λ c, Connection (request_buf_ c) [] (sent c ++ response_ c))) ;;;
      complete (Write i) ;;; handle_write i error
  end.

(** The constructor, on the result of resolving the address, opening the
    acceptor and listening for the text of the port; [jsonHandler] is the
    handler as its own constructor leaves it. *)
Definition RpcServer_new (listen : bytes → outcome ()) (jsonHandler : list CallbackMethod) (port : Z) (w : W) : outcome server :=
  match listen (print_int (int16 port)) with
  | Ret _ => Ret (Server w jsonHandler [connection_new] [Accept])
  | Throw e => Throw e
  | Undef => Undef
  end.

(** A step of a thread of the pool. An exception that leaves the handler
    leaves the thread: the process is terminated. *)
Inductive step (s : server) (e : event) (s' : server) : Prop :=
  | step_ret : of_event e ∈ pending s → on_event e s = (Ret tt, s') → step s e s'.
Inductive terminates (s : server) (e : event) : Prop :=
  | terminates_throw x s' : of_event e ∈ pending s → on_event e s = (Throw x, s') → terminates s e.

Inductive steps : server → list event → server → Prop :=
  | steps_nil s : steps s [] s
  | steps_cons s e s1 es s2 : step s e s1 → steps s1 es s2 → steps s (e :: es) s2.

(** A run of the events given, as far as each is pending. *)
Fixpoint run_events (es : list event) (s : server) : option server :=
  match es with
  | [] => Some s
  | e :: es =>
      if decide (of_event e ∈ pending s) then
        match on_event e s with (Ret _, s') => run_events es s' | _ => None end
      else None
  end.

(** [RpcServer::run] joins the threads of the pool; a thread returns when
    nothing is pending. *)
Definition run_returns (thread_pool_size_ : nat) (s : server) : Prop :=
  thread_pool_size_ = 0 ∨ pending s = [].

(** ** What the events do *)
Implicit Types (s : server) (c : connection) (op : operation).

Definition receive (data : bytes) c : connection := Connection (request_buf_ c ++ data) (response_ c) (sent c).
Definition take_request (rep : bytes) c : connection := Connection [] (response_ c ++ rep) (sent c).
Definition send c : connection := Connection (request_buf_ c) [] (sent c ++ response_ c).

(** What a connection's read does with a whole request. *)
Definition answer s i (data : bytes) : outcome (option bytes) * W :=
  JsonRpc.handle_read json_read json_write (jsonHandler_ s)
    (request_buf_ (default connection_new (connections s !! i)) ++ data) (world s).

Inductive transition s : event → server → Prop :=
  | t_accept_error : transition s (Accepted true)
      (Server (world s) (jsonHandler_ s) (connections s) (remove_op Accept (pending s)))
  | t_accept : transition s (Accepted false)
      (Server (world s) (jsonHandler_ s) (connections s ++ [connection_new])
         (remove_op Accept (pending s) ++ [Read (length (connections s) - 1); Accept]))
  | t_more i data :
      has_line (request_buf_ (default connection_new (connections s !! i)) ++ data) = false →
      transition s (Received i data)
        (Server (world s) (jsonHandler_ s) (alter (receive data) i (connections s)) (pending s))
  | t_silent i data w :
      has_line (request_buf_ (default connection_new (connections s !! i)) ++ data) = true →
      answer s i data = (Ret None, w) →
      transition s (Received i data)
        (Server w (jsonHandler_ s) (alter (take_request []) i (connections s)) (remove_op (Read i) (pending s)))
  | t_reply i data rep w :
      has_line (request_buf_ (default connection_new (connections s !! i)) ++ data) = true →
      answer s i data = (Ret (Some rep), w) →
      transition s (Received i data)
        (Server w (jsonHandler_ s) (alter (take_request rep) i (connections s))
           (remove_op (Read i) (pending s) ++ [Write i]))
  | t_read_error i : transition s (ReadFailed i)
      (Server (world s) (jsonHandler_ s) (connections s) (remove_op (Read i) (pending s)))
  | t_written i : transition s (Written i false)
      (Server (world s) (jsonHandler_ s) (alter send i (connections s))
         (remove_op (Write i) (pending s) ++ [Read i]))
  | t_write_error i : transition s (Written i true)
      (Server (world s) (jsonHandler_ s) (connections s) (remove_op (Write i) (pending s))).

(** A connection that exists: the events of one that does not are not
    pending. *)
Definition exists_for s e : Prop :=
  match e with Accepted _ => True | Received i _ | ReadFailed i | Written i _ => i < length (connections s) end.

Lemma received_line s i data :
  i < length (connections s) →
  on_event (Received i data) s =
    if has_line (request_buf_ (default connection_new (connections s !! i)) ++ data) then
      match answer s i data with
      | (Ret None, w) => (Ret tt, Server w (jsonHandler_ s) (alter (take_request []) i (connections s)) (remove_op (Read i) (pending s)))
      | (Ret (Some rep), w) => (Ret tt, Server w (jsonHandler_ s) (alter (take_request rep) i (connections s))
                                 (remove_op (Read i) (pending s) ++ [Write i]))
      | (Throw e, w) => (Throw e, Server w (jsonHandler_ s) (alter (take_request []) i (connections s)) (remove_op (Read i) (pending s)))
      | (Undef, w) => (Undef, Server w (jsonHandler_ s) (alter (take_request []) i (connections s)) (remove_op (Read i) (pending s)))
      end
    else (Ret tt, Server (world s) (jsonHandler_ s) (alter (receive data) i (connections s)) (pending s)).
Proof.
  intros Hi. destruct (lookup_lt_is_Some_2 _ _ Hi) as [c Hc]. unfold answer. rewrite Hc. cbn [default].
  unfold on_event, the_connection, on_connection. run. cbn [connections]. rewrite list_lookup_alter_eq, Hc.
  cbn [fmap option_fmap option_map default request_buf_ id from_option].
  destruct (has_line _); [|done]. unfold complete, handle_read, the_connection, on_connection, on_world. run.
  cbn [connections jsonHandler_ pending world]. rewrite list_lookup_alter_eq, Hc.
  cbn [fmap option_fmap option_map default request_buf_ id from_option].
  unfold bind, zoom. cbn [world connections pending jsonHandler_].
  assert (Hn : take_request [] c = Connection [] (response_ c) (sent c)) by (unfold take_request; by rewrite app_nil_r).
  assert (He : ∀ f g, f c = g c → alter f i (connections s) = alter g i (connections s)).
  { intros f g Hfg. apply list_alter_ext; [|done]. by intros c' [= <-]%(eq_trans (eq_sym Hc)). }
  destruct (JsonRpc.handle_read _ _ _ _ _) as [[[rep|]| |] w]; cbn; rewrite ?list_alter_alter_eq;
    f_equal; f_equal; by apply He.
Qed.

Lemma step_transition s e s' : exists_for s e → step s e s' → transition s e s'.
Proof.
  intros Hi [_ He]. destruct e as [[]|i data|i|i []].
  - injection He as <-. constructor.
  - injection He as <-. rewrite <-app_assoc. cbn. constructor.
  - rewrite received_line in He by done. destruct (has_line _) eqn:Hl.
    + destruct (answer s i data) as [[[rep|]| |] w] eqn:Ha; try discriminate He; injection He as <-; by econstructor.
    + injection He as <-. by constructor.
  - injection He as <-. constructor.
  - injection He as <-. constructor.
  - injection He as <-. constructor.
Qed.

Lemma transition_step s e s' : exists_for s e → of_event e ∈ pending s → transition s e s' → step s e s'.
Proof.
  intros Hi Hp Ht. constructor; [done|]. destruct Ht as [| |i data Hl|i data w Hl Ha|i data rep w Hl Ha| | |]; try done.
  - unfold on_event, complete, handle_accept, start, post. run. unfold modify. cbn. by rewrite <-app_assoc.
  - by rewrite received_line, Hl.
  - by rewrite received_line, Hl, Ha.
  - by rewrite received_line, Hl, Ha.
Qed.

(** ** The invariant of the server *)

Lemma elem_of_remove_op op x l : NoDup l → x ∈ remove_op op l ↔ x ∈ l ∧ x ≠ op.
Proof.
  induction 1 as [|y l Hy Hl IH]; cbn [remove_op]; [set_solver|]. case_decide as Hd; [subst; set_solver|].
  rewrite !elem_of_cons, IH. naive_solver.
Qed.

Lemma NoDup_remove_op op l : NoDup l → NoDup (remove_op op l).
Proof.
  induction 1 as [|y l Hy Hl IH]; cbn [remove_op]; [constructor|]. case_decide; [done|].
  constructor; [by rewrite elem_of_remove_op by done; intros [??]|done].
Qed.

(** An operation started after another has ended. *)
Lemma NoDup_next op x l : NoDup l → (x ∈ l → x = op) → NoDup (remove_op op l ++ [x]).
Proof.
  intros Hl Hx. apply NoDup_snoc; [by apply NoDup_remove_op|].
  rewrite elem_of_remove_op by done. naive_solver.
Qed.

Lemma elem_of_next op x y l : NoDup l → y ∈ remove_op op l ++ [x] ↔ (y ∈ l ∧ y ≠ op) ∨ y = x.
Proof. intros Hl. by rewrite elem_of_app, elem_of_remove_op, list_elem_of_singleton. Qed.

Definition of_connection op (i : nat) : Prop := op = Read i ∨ op = Write i.

Record invariant s : Prop := Invariant {
  inv_nodup : NoDup (pending s);
  inv_range op i : op ∈ pending s → of_connection op i → S i < length (connections s);
  inv_one i : Read i ∈ pending s → Write i ∈ pending s → False;
  inv_new : connections s !! (length (connections s) - 1) = Some connection_new;
  inv_reading i c : Read i ∈ pending s → connections s !! i = Some c → response_ c = [];
  inv_writing i c : Write i ∈ pending s → connections s !! i = Some c → request_buf_ c = [];
}.

Lemma invariant_new ms w : invariant (Server w ms [connection_new] [Accept]).
Proof.
  split; cbn.
  - apply NoDup_singleton.
  - intros op i ->%list_elem_of_singleton [[=]|[=]].
  - intros i [=]%list_elem_of_singleton.
  - done.
  - intros i c [=]%list_elem_of_singleton.
  - intros i c [=]%list_elem_of_singleton.
Qed.

Lemma exists_pending s e : invariant s → of_event e ∈ pending s → exists_for s e.
Proof.
  intros Hs Hp. destruct e; simpl in *; [done|..]; eapply (inv_range s Hs _ i) in Hp; try lia; by (left + right).
Qed.

(** The connections of an event that runs on connection [i]: the new one is
    not touched. *)
Lemma invariant_on s op i f w ms p :
  invariant s → op ∈ pending s → of_connection op i →
  NoDup p → (∀ x, x ∈ p → x ∈ pending s ∨ of_connection x i) →
  (Read i ∈ p → Write i ∈ p → False) →
  (∀ c, connections s !! i = Some c → (Read i ∈ p → response_ (f c) = []) ∧ (Write i ∈ p → request_buf_ (f c) = [])) →
  invariant (Server w ms (alter f i (connections s)) p).
Proof.
  intros Hs Hop Hi Hp Hsub Hone Hf. pose proof (inv_range s Hs op i Hop Hi) as Hlen.
  split; cbn; rewrite ?length_alter; try done.
  - intros x j Hx Hj. destruct (Hsub x Hx) as [Hx'|[-> | ->]]; [by eapply inv_range|..];
      destruct Hj as [[= <-]|[= <-]]; done.
  - intros j Hr Hw. destruct (decide (j = i)) as [->|Hne]; [auto|].
    destruct (Hsub _ Hr) as [Hr'|[[= ->]|[=]]]; [|done]. destruct (Hsub _ Hw) as [Hw'|[[=]|[= ->]]]; [|done].
    by eapply inv_one.
  - rewrite list_lookup_alter_ne by lia. by apply inv_new.
  - intros j c Hr. destruct (decide (i = j)) as [->|Hne].
    + rewrite list_lookup_alter_eq. intros (c' & Hc & ->)%fmap_Some. by apply Hf.
    + rewrite list_lookup_alter_ne by done. destruct (Hsub _ Hr) as [Hr'|[[= ->]|[=]]]; [|done]. by apply inv_reading.
  - intros j c Hr. destruct (decide (i = j)) as [->|Hne].
    + rewrite list_lookup_alter_eq. intros (c' & Hc & ->)%fmap_Some. by apply Hf.
    + rewrite list_lookup_alter_ne by done. destruct (Hsub _ Hr) as [Hr'|[[=]|[= ->]]]; [|done]. by apply inv_writing.
Qed.

(** An operation ends and starts nothing. *)
Lemma invariant_less s op : invariant s → invariant (Server (world s) (jsonHandler_ s) (connections s) (remove_op op (pending s))).
Proof.
  intros Hs. pose proof (inv_nodup s Hs) as Hnd. split; cbn.
  - by apply NoDup_remove_op.
  - intros x i [Hx _]%elem_of_remove_op; [|done]. by apply inv_range.
  - intros i [Hr _]%elem_of_remove_op [Hw _]%elem_of_remove_op; [|done..]. by eapply inv_one.
  - by apply inv_new.
  - intros i c [Hr _]%elem_of_remove_op; [|done]. by apply inv_reading.
  - intros i c [Hr _]%elem_of_remove_op; [|done]. by apply inv_writing.
Qed.

Lemma invariant_accept s :
  invariant s → Accept ∈ pending s →
  invariant (Server (world s) (jsonHandler_ s) (connections s ++ [connection_new])
    (remove_op Accept (pending s) ++ [Read (length (connections s) - 1); Accept])).
Proof.
  intros Hs Ha. pose proof (inv_nodup s Hs) as Hnd. set (n := length (connections s) - 1).
  assert (Hn : S n = length (connections s)).
  { pose proof (lookup_lt_Some _ _ _ (inv_new s Hs)). lia. }
  assert (Hlen : length (connections s ++ [connection_new]) = S (S n)) by (rewrite length_app; simpl; lia).
  assert (Hfresh : ∀ op, of_connection op n → op ∉ pending s) by (intros op Ho Hop; pose proof (inv_range s Hs op n Hop Ho); lia).
  assert (Hin : ∀ x, x ∈ remove_op Accept (pending s) ++ [Read n; Accept] → x ≠ Read n → x ∈ pending s).
  { intros x. rewrite elem_of_app, elem_of_remove_op, elem_of_cons, list_elem_of_singleton by done. naive_solver. }
  split; cbn; rewrite ?Hlen.
  - change [Read n; Accept] with ([Read n] ++ [Accept]). rewrite app_assoc. apply NoDup_snoc.
    + apply NoDup_next; [done|]. intros Hr. destruct (Hfresh (Read n)); [by left|done].
    + rewrite elem_of_next by done. naive_solver.
  - intros op i Hop Hi. destruct (decide (op = Read n)) as [->|Hne]; [destruct Hi as [[= <-]|[=]]; lia|].
    pose proof (inv_range s Hs op i (Hin op Hop Hne) Hi). lia.
  - intros i Hr Hw. apply Hin in Hw; [|done]. destruct (decide (i = n)) as [->|Hne].
    + destruct (Hfresh (Write n)); [by right|done].
    + apply Hin in Hr; [by eapply inv_one|congruence].
  - rewrite lookup_app_r by lia. by replace (S (S n) - 1 - length (connections s)) with 0 by lia.
  - intros i c Hr Hc. destruct (decide (i = n)) as [->|Hne].
    + rewrite lookup_app_l in Hc by lia. pose proof (inv_new s Hs) as Hnew. fold n in Hnew. by simplify_eq.
    + apply Hin in Hr; [|congruence]. pose proof (inv_range s Hs _ i Hr ltac:(by left)).
      rewrite lookup_app_l in Hc by lia. by eapply inv_reading.
  - intros i c Hw Hc. apply Hin in Hw; [|done]. pose proof (inv_range s Hs _ i Hw ltac:(by right)).
    rewrite lookup_app_l in Hc by lia. by eapply inv_writing.
Qed.

Lemma invariant_step s e s' : invariant s → step s e s' → invariant s'.
Proof.
  intros Hs He. pose proof He as [Hp _]. pose proof (exists_pending s e Hs Hp) as Hx.
  apply step_transition in He; [|done]. pose proof (inv_nodup s Hs) as Hnd.
  destruct He as [| |i data Hl|i data w Hl Ha|i data rep w Hl Ha|i|i|i]; cbn [of_event exists_for] in *.
  - by apply invariant_less.
  - by apply invariant_accept.
  - apply (invariant_on s (Read i)); try done; [by left|by left|by intros; eapply inv_one|].
    intros c Hc. split; intros Hr; [exact (inv_reading s Hs i c Hr Hc)|]. by destruct (inv_one s Hs i).
  - apply (invariant_on s (Read i)); try done; [by left|by apply NoDup_remove_op| | |].
    + intros x [? _]%elem_of_remove_op; [by left|done].
    + intros [_ ?]%elem_of_remove_op; done.
    + intros c Hc. split; [|done]. intros [_ ?]%elem_of_remove_op; done.
  - apply (invariant_on s (Read i)); try done; [by left| | | |].
    + apply NoDup_next; [done|]. intros Hw. by destruct (inv_one s Hs i).
    + intros x [[? _]| ->]%elem_of_next; [by left|by right; right|done].
    + intros [[_ ?]|?]%elem_of_next; done.
    + intros c Hc. split; [|done]. intros [[_ ?]|?]%elem_of_next; done.
  - by apply invariant_less.
  - apply (invariant_on s (Write i)); try done; [by right| | | |].
    + apply NoDup_next; [done|]. intros Hr. by destruct (inv_one s Hs i).
    + intros x [[? _]| ->]%elem_of_next; [by left|by right; left|done].
    + intros _ [[_ ?]|?]%elem_of_next; done.
    + intros c Hc. split; [done|]. intros [[_ ?]|?]%elem_of_next; done.
  - by apply invariant_less.
Qed.

Lemma invariant_steps s es s' : invariant s → steps s es s' → invariant s'.
Proof. intros Hs Hes. induction Hes; eauto using invariant_step. Qed.

(** C4 From its constructor on, through any sequence of accepts, reads, writes
    and errors, the server has at most one operation of each connection under
    way, so no two handlers of one connection ever run, or touch its buffers,
    at the same time; while it reads it has sent all it answered, and while it
    writes there is no request left in the buffer. *)
Theorem one_operation listen ms port w s es s' i c :
  RpcServer_new listen ms port w = Ret s → steps s es s' → connections s' !! i = Some c →
  NoDup (pending s') ∧ ¬ (Read i ∈ pending s' ∧ Write i ∈ pending s') ∧
  (Read i ∈ pending s' → response_ c = []) ∧ (Write i ∈ pending s' → request_buf_ c = []).
Proof.
  intros Hnew Hes Hc. unfold RpcServer_new in Hnew. destruct (listen _); simplify_eq.
  apply (invariant_steps _ _ _ (invariant_new ms w)) in Hes as Hs. split_and!.
  - by apply inv_nodup.
  - intros [??]. by eapply inv_one.
  - intros ?. by eapply inv_reading.
  - intros ?. by eapply inv_writing.
Qed.

(** ** Accepting *)

Lemma run_events_steps es s s' : run_events es s = Some s' → steps s es s'.
Proof.
  revert s. induction es as [|e es IH]; intros s; cbn [run_events]; [intros [= <-]; constructor|].
  case_decide as Hp; [|done]. destruct (on_event e s) as [[[]| |] s1] eqn:He; [|done..].
  intros Hes. econstructor; [by constructor|by apply IH].
Qed.

Lemma steps_app s es1 s1 es2 s2 : steps s es1 s1 → steps s1 es2 s2 → steps s (es1 ++ es2) s2.
Proof. induction 1; [done|]. intros. econstructor; eauto. Qed.

Lemma steps_app_inv s es1 es2 s2 : steps s (es1 ++ es2) s2 → ∃ s1, steps s es1 s1 ∧ steps s1 es2 s2.
Proof.
  revert s. induction es1 as [|e es1 IH]; intros s Hes; [exists s; split; [constructor|done]|].
  inversion Hes as [|? ? s1 ? ? Hst Hes']; subst. destruct (IH s1 Hes') as (s3 & ? & ?).
  exists s3. split; [by econstructor|done].
Qed.

(** The acceptor's operation: started again by each accept, until one fails. *)
Lemma accept_step s e s' :
  invariant s → step s e s' → (Accept ∈ pending s' ↔ Accept ∈ pending s ∧ e ≠ Accepted true).
Proof.
  intros Hs He. pose proof He as [Hp _]. pose proof (exists_pending s e Hs Hp) as Hx.
  apply step_transition in He; [|done]. pose proof (inv_nodup s Hs) as Hnd.
  destruct He; cbn [pending of_event] in *; rewrite ?elem_of_next, ?elem_of_remove_op by done; try naive_solver.
  rewrite elem_of_app, elem_of_cons, list_elem_of_singleton. naive_solver.
Qed.

Lemma accept_steps s es s' :
  invariant s → steps s es s' → (Accept ∈ pending s' ↔ Accept ∈ pending s ∧ Accepted true ∉ es).
Proof.
  intros Hs Hes. induction Hes as [s|s e s1 es s2 He Hes IH]; [set_solver|].
  rewrite IH, (accept_step s e s1), not_elem_of_cons by (done || by eapply invariant_step). naive_solver.
Qed.

(** C30 The server accepts connections as long as no accept fails: until then
    [run] does not return, whatever the connections do. The first accept that
    fails is the last: no connection is accepted after it. *)
Theorem accepts_until_error listen ms port w s es s' :
  RpcServer_new listen ms port w = Ret s → steps s es s' →
  if decide (Accepted true ∈ es) then ∀ es1 es2, es = es1 ++ Accepted true :: es2 → Accepted false ∉ es2
  else ∀ n, 0 < n → ¬ run_returns n s'.
Proof.
  intros Hnew Hes. unfold RpcServer_new in Hnew. destruct (listen _); simplify_eq.
  pose proof (invariant_new ms w) as Hinv. case_decide as Herr.
  - intros es1 es2 -> Hacc. apply list_elem_of_split in Hacc as (es3 & es4 & ->).
    replace (es1 ++ Accepted true :: es3 ++ Accepted false :: es4)
      with ((es1 ++ Accepted true :: es3) ++ Accepted false :: es4) in Hes by by rewrite <-app_assoc.
    apply steps_app_inv in Hes as (s1 & Hes1 & Hes2). apply (accept_steps _ _ _ Hinv) in Hes1.
    inversion Hes2 as [|? ? s2 ? ? [Hp _] _]; subst. apply Hes1 in Hp as [_ Hp]. apply Hp. set_solver.
  - intros n Hn [-> |Hp]; [lia|]. apply (accept_steps _ _ _ Hinv) in Hes.
    rewrite Hp in Hes. cbn in Hes. apply (not_elem_of_nil Accept), Hes. split; [by left|done].
Qed.

(** ** Connections that have ended *)

Definition ended s i : Prop := S i < length (connections s) ∧ Read i ∉ pending s ∧ Write i ∉ pending s.

Lemma ended_step s e s' i : invariant s → ended s i → step s e s' → ended s' i ∧ ¬ of_connection (of_event e) i.
Proof.
  intros Hs (Hi & Hr & Hw) He. pose proof He as [Hp _]. pose proof (exists_pending s e Hs Hp) as Hx.
  apply step_transition in He; [|done]. pose proof (inv_nodup s Hs) as Hnd.
  assert (Hno : ¬ of_connection (of_event e) i) by (intros [Ho|Ho]; rewrite Ho in Hp; done).
  split; [|done]. unfold ended, of_connection in *.
  destruct He; cbn [pending connections of_event] in *; rewrite ?length_app, ?length_alter, ?elem_of_next, ?elem_of_remove_op by done;
    split_and!; try done; try lia; try naive_solver;
    rewrite elem_of_app, elem_of_remove_op, elem_of_cons, list_elem_of_singleton by done;
    intros [[? _]|[[= Hn]|[=]]]; first [done|lia].
Qed.

Lemma ended_steps s es s' i : invariant s → ended s i → steps s es s' → Forall (λ e, ¬ of_connection (of_event e) i) es.
Proof.
  intros Hs Hi Hes. induction Hes as [s|s e s1 es s2 He Hes IH]; [constructor|].
  destruct (ended_step s e s1 i Hs Hi He) as [Hi1 Hno]. constructor; [done|].
  apply IH; [by eapply invariant_step|done].
Qed.

(** C31 A request that has no reply, a blank line or one whose reply is null,
    ends its connection: the server neither reads from it nor writes to it
    again. So does an error of a read or of a write. *)
Theorem no_reply_ends listen ms port w s es1 s1 i e s2 es2 s3 :
  RpcServer_new listen ms port w = Ret s → steps s es1 s1 → step s1 e s2 → steps s2 es2 s3 →
  match e with
  | Received j data =>
      j = i ∧ has_line (request_buf_ (default connection_new (connections s1 !! i)) ++ data) = true ∧
      fst (answer s1 i data) = Ret None
  | ReadFailed j | Written j true => j = i
  | _ => False
  end →
  Forall (λ e, ¬ of_connection (of_event e) i) es2.
Proof.
  intros Hnew Hes1 He Hes2 Hcase. unfold RpcServer_new in Hnew. destruct (listen _); simplify_eq.
  apply (invariant_steps _ _ _ (invariant_new ms w)) in Hes1 as Hs1.
  pose proof (invariant_step _ _ _ Hs1 He) as Hs2. pose proof He as [Hp _].
  pose proof (inv_nodup s1 Hs1) as Hnd. eapply ended_steps; [exact Hs2| |exact Hes2].
  pose proof (exists_pending _ _ Hs1 Hp) as Hx. apply step_transition in He; [|done].
  assert (Hlen : of_connection (of_event e) i → S i < length (connections s1)) by by apply inv_range.
  unfold of_connection in Hlen.
  destruct He as [| |j data Hl|j data w' Hl Ha|j data rep w' Hl Ha|j|j|j]; try done;
    [destruct Hcase as (-> & Hl' & Ha'); congruence|destruct Hcase as (-> & _)|destruct Hcase as (-> & _ & Ha'); by rewrite Ha in Ha'|subst j..];
    unfold ended; cbn [pending connections of_event] in *; rewrite ?length_alter, !elem_of_remove_op by done;
    (split; [auto|split]); intros [Hin Hne]; try done; by eapply (inv_one s1 Hs1 i).
Qed.
End server.

(** ** Clients that speak JSON *)

Lemma has_line_printable t u : all_printable t → has_line (t ++ u) = has_line u.
Proof.
  induction 1 as [|c t Hc _ IH]; [done|]. cbn [app has_line]. rewrite IH, bool_decide_false; [done|].
  intros [= -> _]. done.
Qed.

Lemma has_line_whole t : all_printable t → has_line (t ++ crlf) = true.
Proof. intros Ht. by rewrite has_line_printable. Qed.

(** Short of its last byte a line is not complete. *)
Lemma has_line_part t p d : all_printable t → p ++ d = t ++ crlf → d ≠ [] → has_line p = false.
Proof.
  intros Ht Hp Hd. apply app_eq_inv in Hp as [(k & Hk & Hk')|(k & Hk & Hk')].
  - rewrite Hk, has_line_printable by done. destruct k as [|x [|y k]]; [done|..].
    + injection Hk' as <- _. done.
    + injection Hk' as _ _ Hnil. symmetry in Hnil. by apply app_nil in Hnil as [_ ?].
  - rewrite Hk in Ht. apply all_printable_app in Ht as [Hpp _].
    rewrite <-(app_nil_r p). by rewrite has_line_printable.
Qed.

Section session.
Context {W : Type} `{HS : Spirit} {SL : SpiritLaws} (append_double : Z → Z → bytes).
Abbreviation server := (@server W).
Abbreviation step := (step read (write append_double)).
Abbreviation steps := (steps read (write append_double)).
Implicit Types (s : server) (w : W) (root : Value).

Definition request_line root : bytes := write append_double root ++ crlf.

(** The replies to a sequence of requests. *)
Fixpoint serve (ms : list (@CallbackMethod W)) (roots : list Value) : M W (list Value) :=
  match roots with
  | [] => ret []
  | root :: roots =>
      let! r := Process_value ms (despace root) VNull in
      let! replies := serve ms roots in
      ret (snd r :: replies)
  end.

(** The pieces a text arrives in; the last is not empty. *)
Definition pieces (t : bytes) (ds : list bytes) : Prop :=
  concat ds = t ∧ ∃ ds' d, ds = ds' ++ [d] ∧ d ≠ [].

Definition exchange (i : nat) (ds : list bytes) : list event := map (Received i) ds ++ [Written i false].

Lemma receive_receive d d' i (l : list connection) : alter (receive d') i (alter (receive d) i l) = alter (receive (d ++ d')) i l.
Proof.
  rewrite list_alter_alter_eq. apply list_alter_ext; [|done].
  intros [] _. unfold receive. cbn. by rewrite <-app_assoc.
Qed.

Lemma pieces_received s i c t ds d :
  connections s !! i = Some c → RpcServer.Read i ∈ pending s → all_printable t →
  request_buf_ c ++ concat ds ++ d = t ++ crlf → d ≠ [] →
  steps s (map (Received i) ds)
    (Server (world s) (jsonHandler_ s) (alter (receive (concat ds)) i (connections s)) (pending s)).
Proof.
  intros Hc Hr Ht. revert s c Hc Hr. induction ds as [|x ds IH]; intros s c Hc Hr Hall Hd.
  - cbn [concat map]. rewrite list_alter_id; [destruct s; constructor|].
    intros []. unfold receive. cbn. by rewrite app_nil_r.
  - cbn [map concat] in *. pose proof (lookup_lt_Some _ _ _ Hc) as Hi.
    assert (Hx : has_line (request_buf_ c ++ x) = false).
    { apply (has_line_part t _ (concat ds ++ d)); [done|by rewrite <-Hall, <-!app_assoc|by intros [_ ?]%app_nil]. }
    econstructor.
    + apply transition_step; [done|done|]. apply t_more. by rewrite Hc.
    + rewrite <-receive_receive.
      refine (IH (Server (world s) (jsonHandler_ s) (alter (receive x) i (connections s)) (pending s)) (receive x c) _ _ _ _); try done.
      * cbn. by rewrite list_lookup_alter_eq, Hc.
      * cbn. by rewrite <-Hall, <-!app_assoc.
Qed.
Lemma pieces_split t ds : pieces t ds → ∃ ds' d, ds = ds' ++ [d] ∧ d ≠ [] ∧ concat ds' ++ d = t.
Proof.
  intros [Ht (ds' & d & -> & Hd)]. exists ds', d. split_and!; try done.
  by rewrite concat_app in Ht; cbn in Ht; rewrite app_nil_r in Ht.
Qed.

Lemma stops_crlf : stops (strip crlf).
Proof. by intros c t [=]. Qed.

(** One request and its reply. *)
Lemma exchange_steps s i out root ds b v w' :
  connections s !! i = Some (Connection [] [] out) → RpcServer.Read i ∈ pending s → NoDup (pending s) →
  RpcServer.Write i ∉ pending s →
  plain root = true → type root ≠ array_type → pieces (request_line root) ds →
  Process_value (jsonHandler_ s) (despace root) VNull (world s) = (Ret (b, v), w') → is_null v = false →
  ∃ p, steps s (exchange i ds)
    (Server w' (jsonHandler_ s) (<[i := Connection [] [] (out ++ write append_double v ++ "{$}"%string)]> (connections s)) p) ∧
  RpcServer.Read i ∈ p ∧ NoDup p ∧ RpcServer.Write i ∉ p.
Proof.
  intros Hc Hr Hnd Hw Hp Ht (ds' & d & -> & Hd & Hall)%pieces_split Hpv Hv.
  pose proof (proj1 (output_text append_double root 0 Hp)) as Hprint.
  pose proof (lookup_lt_Some _ _ _ Hc) as Hi. unfold exchange. rewrite map_app, <-app_assoc. cbn [map app].
  set (s1 := Server (world s) (jsonHandler_ s) (alter (receive (concat ds')) i (connections s)) (pending s)).
  set (rep := write append_double v ++ "{$}"%string).
  set (s2 := Server w' (jsonHandler_ s) (alter (take_request rep) i (connections s1)) (remove_op (RpcServer.Read i) (pending s) ++ [RpcServer.Write i])).
  exists (remove_op (RpcServer.Write i) (pending s2) ++ [RpcServer.Read i]).
  assert (Hc1 : connections s1 !! i = Some (Connection (concat ds') [] out)).
  { cbn. by rewrite list_lookup_alter_eq, Hc. }
  assert (Hnd2 : NoDup (pending s2)) by (by apply NoDup_next).
  split; [|split_and!].
  - eapply steps_app.
    { eapply pieces_received; [done|done|exact Hprint| |exact Hd]. cbn. by rewrite Hall. }
    fold s1. econstructor; [|econstructor; [|]].
    + apply (transition_step _ _ s1 _ s2); cbn [exists_for of_event connections s1]; [by rewrite length_alter|done|].
      apply (t_reply _ _ s1 i d rep w').
      * rewrite Hc1. cbn [default id from_option request_buf_]. rewrite Hall. by apply has_line_whole.
      * unfold answer. rewrite Hc1. cbn [default id from_option request_buf_ world jsonHandler_ s1]. rewrite Hall.
        unfold request_line. rewrite handle_read_line by (done || apply stops_crlf).
        unfold bind. rewrite Hpv. unfold reply_text. cbn [snd]. by rewrite Hv.
    + apply transition_step; [cbn [exists_for of_event connections s1 s2]; by rewrite !length_alter| |apply t_written].
      cbn. apply elem_of_app. right. by left.
    + cbn [connections s2 s1]. rewrite !list_alter_alter_eq.
      assert (alter (send ∘ take_request rep ∘ receive (concat ds')) i (connections s) =
              <[i := Connection [] [] (out ++ rep)]> (connections s)) as ->; [|constructor].
      rewrite list_insert_alter. apply list_alter_ext; [|done]. intros c Hc'. by simplify_eq.
  - apply elem_of_app. right. by left.
  - apply NoDup_next; [done|]. intros [[_ ?]|[=]]%elem_of_next; done.
  - intros [[_ ?]|[=]]%elem_of_next; done.
Qed.

(** C3 A client that sends its requests one after another, each when it has the
    reply to the one before, in whatever pieces the network delivers them: the
    methods run once for each request, in order, on the state the one before
    left, and the client gets exactly the replies, each followed by "{$}". The
    requests are values the writer can write and no arrays, and a method gets
    its request with the spaces gone from its strings and names ([despace]);
    each request is one the methods answer, with a reply that is not null
    (for one whose reply is null nothing is sent, and a line that is no request
    ends the server). *)
Theorem session s i out roots dss replies w' :
  connections s !! i = Some (Connection [] [] out) → RpcServer.Read i ∈ pending s → NoDup (pending s) →
  RpcServer.Write i ∉ pending s →
  Forall (λ root, plain root = true ∧ type root ≠ array_type) roots →
  Forall2 (λ root ds, pieces (request_line root) ds) roots dss →
  serve (jsonHandler_ s) roots (world s) = (Ret replies, w') → Forall (λ v, is_null v = false) replies →
  ∃ s', steps s (concat (map (exchange i) dss)) s' ∧ world s' = w' ∧
    connections s' = <[i := Connection [] [] (out ++ concat (map (λ v, write append_double v ++ "{$}"%string) replies))]> (connections s).
Proof.
  intros Hc Hr Hnd Hw Hroots Hds. revert s out replies Hc Hr Hnd Hw.
  induction Hds as [|root ds roots dss Hd _ IH]; intros s out replies Hc Hr Hnd Hw Hserve Hnull.
  - injection Hserve as <- <-. exists s. split_and!; [constructor|done|].
    cbn. by rewrite app_nil_r, list_insert_id.
  - apply Forall_cons in Hroots as [[Hp Ht] Hroots]. cbn [serve] in Hserve.
    apply bind_inv in Hserve as ([b v] & w1 & Hpv & Hserve).
    apply bind_inv in Hserve as (replies' & w2 & Hserve & [= <- ->]).
    apply Forall_cons in Hnull as [Hv Hnull].
    destruct (exchange_steps s i out root ds b v w1) as (p & Hsteps & Hr1 & Hnd1 & Hw1); try done.
    set (c := Connection [] [] (out ++ write append_double v ++ "{$}"%string)) in *.
    destruct (IH Hroots (Server w1 (jsonHandler_ s) (<[i := c]> (connections s)) p) (sent c) replies')
      as (s' & Hsteps' & <- & Hcs);
      [cbn; by rewrite list_lookup_insert_eq by (by eapply lookup_lt_Some)|done..|].
    exists s'. split_and!; [by eapply steps_app|done|]. rewrite Hcs. cbn [connections map concat sent c].
    by rewrite list_insert_insert_eq, <-!app_assoc.
Qed.
(** What [Process] throws for leaves the connection's handler. *)
Lemma bad_text_throws ms t w :
  strip t ≠ [] →
  match read (strip t) with
  | None => True
  | Some root => type root ≠ array_type ∧ well_formed root = false
  end →
  JsonRpc.handle_read read (write append_double) ms t w = (Throw runtime_error, w).
Proof.
  intros Hne Hbad. unfold JsonRpc.handle_read. rewrite decide_False by done. unfold Process.
  destruct (read (strip t)) as [root|]; [|done]. destruct Hbad as [Ht Hwf].
  assert (Hpv : Process_value ms root VNull w = (Throw runtime_error, w))
    by (unfold Process_value; unfold bind at 1; by rewrite check_spec, Hwf).
  destruct root; try done; by rewrite (bind_throw _ _ _ _ _ Hpv).
Qed.

(** C29 Whoever can connect can end the daemon with one line that is not JSON, or
    not a request of version 2.0: from every state the server can be in, the
    exception of the parse error's or the failed check's reply leaves the thread
    of the pool. *)
Theorem bad_line_terminates listen ms port w s es s' t :
  RpcServer_new listen ms port w = Ret s → steps s es s' → Accepted true ∉ es →
  has_line t = true → strip t ≠ [] →
  match read (strip t) with
  | None => True
  | Some root => type root ≠ array_type ∧ well_formed root = false
  end →
  ∃ s1, step s' (Accepted false) s1 ∧
    terminates read (write append_double) s1 (Received (length (connections s') - 1) t).
Proof.
  intros Hnew Hes Herr Hl Hne Hbad. unfold RpcServer_new in Hnew. destruct (listen _); simplify_eq.
  pose proof (invariant_new ms w) as Hinv. pose proof (invariant_steps _ _ _ _ _ Hinv Hes) as Hs'.
  assert (Ha : Accept ∈ pending s') by (apply (accept_steps _ _ _ _ _ Hinv Hes); split; [by left|done]).
  pose proof (inv_new s' Hs') as Hc. set (n := length (connections s') - 1) in *.
  eexists. split; [by apply transition_step; [done|done|constructor]|].
  set (s1 := Server _ _ _ _).
  assert (Hn : n < length (connections s1)) by (apply lookup_lt_Some in Hc; cbn; rewrite length_app; lia).
  assert (Hc1 : connections s1 !! n = Some connection_new) by (cbn; by apply lookup_app_l_Some).
  eapply (terminates_throw _ _ _ _ runtime_error).
  - cbn [of_event pending s1]. apply elem_of_app. right. by left.
  - rewrite received_line by done. unfold answer. rewrite Hc1.
    cbn [default id from_option request_buf_ connection_new app]. rewrite Hl.
    by rewrite bad_text_throws.
Qed.
End session.

(** ** The port *)

(** The port reaches the constructor as a [short]: the server listens on the
    configured port only below 32768; the ports above become negative
    numbers. *)
Theorem port_is_short {W} (ms : list (@CallbackMethod W)) port w :
  (0 ≤ port < 2 ^ 16)%Z →
  RpcServer_new (λ t, if decide (t = print_int port) then Ret tt else Throw runtime_error) ms port w =
    if (port <? 2 ^ 15)%Z then Ret (Server w ms [connection_new] [Accept]) else Throw runtime_error.
Proof.
  intros Hp. unfold RpcServer_new, int16. destruct (Z.ltb_spec port (2 ^ 15)) as [Hlt|Hge].
  - rewrite Z.mod_small by lia. by rewrite decide_True by (f_equal; lia).
  - replace ((port + 2 ^ 15) mod 2 ^ 16)%Z with (port - 2 ^ 15)%Z
      by (rewrite <-(Z_mod_plus_full _ (-1)), Z.mod_small; lia).
    rewrite decide_False; [done|]. destruct (print_int_form port) as (ds & -> & Hds & Hne & _).
    destruct (print_int_form (port - 2 ^ 15 - 2 ^ 15)) as (ds' & -> & _).
    rewrite (proj2 (Z.ltb_lt _ 0)), (proj2 (Z.ltb_ge port 0)) by lia.
    destruct Hds as [|d ds Hd _]; [done|]. intros [= <- _]. by apply digit_char_facts in Hd as (_ & ? & _).
Qed.

(** ** A server with one method *)
Module Example.
#[local] Existing Instances JsonText.Example.lexer JsonText.Example.lexer_laws.
Import JsonRpc.Example.

Definition real (bits : Z) (precision : Z) : bytes := [].
Definition start_state : @server nat := Server 3 [count] [connection_new] [Accept].
Definition run_on (es : list event) : @server nat :=
  default start_state (run_events read (write real) es start_state).

(** Two clients: one sends a request in two pieces and reads the reply, the
    other a blank line. *)
Definition line : bytes := request_line real (call "count").
Definition traffic : list event :=
  [Accepted false; Received 0 (take 10 line); Accepted false; Received 1 crlf; Received 0 (drop 10 line); Written 0 false].

Lemma run_traffic : steps read (write real) start_state traffic (run_on traffic).
Proof. apply run_events_steps. vm_compute. reflexivity. Qed.

Example traffic_end :
  (world (run_on traffic), connections (run_on traffic), pending (run_on traffic)) =
  (4, [Connection [] [] (lit "{" ++ QUOTE :: lit "result" ++ QUOTE :: lit ":3}{$}"); Connection [] [] []; connection_new],
   [Accept; RpcServer.Read 0]).
Proof. vm_compute. reflexivity. Qed.

Lemma one_operation_witness :
  NoDup (pending (run_on traffic)) ∧ ¬ (RpcServer.Read 0 ∈ pending (run_on traffic) ∧ RpcServer.Write 0 ∈ pending (run_on traffic)).
Proof.
  edestruct (one_operation read (write real) (λ _, Ret tt) [count] 22222 3 start_state traffic (run_on traffic) 0)
    as (? & ? & _); [reflexivity|apply run_traffic|vm_compute; reflexivity|done].
Defined.

Lemma accepts_until_error_witness :
  ¬ run_returns 4 (run_on traffic) ∧ Accepted false ∉ [ReadFailed 0].
Proof.
  split.
  - apply (accepts_until_error read (write real) (λ _, Ret tt) [count] 22222 3 start_state traffic (run_on traffic)
      eq_refl run_traffic). lia.
  - refine (accepts_until_error read (write real) (λ _, Ret tt) [count] 22222 3 start_state
      (traffic ++ [Accepted true; ReadFailed 0]) (run_on (traffic ++ [Accepted true; ReadFailed 0])) eq_refl _ traffic [ReadFailed 0] eq_refl).
    apply run_events_steps. vm_compute. reflexivity.
Defined.

Lemma no_reply_ends_witness :
  Forall (λ e, ¬ of_connection (of_event e) 1) (drop 4 traffic).
Proof.
  eapply (no_reply_ends read (write real) (λ _, Ret tt) [count] 22222 3 start_state (take 3 traffic) (run_on (take 3 traffic)) 1
    (Received 1 crlf) (run_on (take 4 traffic)) (drop 4 traffic) (run_on traffic)).
  - reflexivity.
  - apply run_events_steps. vm_compute. reflexivity.
  - constructor; [apply (bool_decide_unpack _); vm_compute; reflexivity|vm_compute; reflexivity].
  - apply run_events_steps. vm_compute. reflexivity.
  - split_and!; vm_compute; reflexivity.
Defined.

Lemma session_witness :
  ∃ s', steps read (write real) (run_on [Accepted false])
    [Received 0 (take 10 line); Received 0 (drop 10 line); Written 0 false; Received 0 line; Written 0 false] s' ∧ world s' = 5.
Proof.
  destruct (session real (run_on [Accepted false]) 0 [] [call "count"; call "count"]
    [[take 10 line; drop 10 line]; [line]] [VObj [(lit "result", VInt 3)]; VObj [(lit "result", VInt 4)]] 5)
    as (s' & Hs & Hw & _).
  - vm_compute. reflexivity.
  - apply (bool_decide_unpack _). vm_compute. reflexivity.
  - apply (bool_decide_unpack _). vm_compute. reflexivity.
  - apply (bool_decide_unpack _). vm_compute. reflexivity.
  - by repeat constructor.
  - repeat constructor; try (vm_compute; reflexivity).
    + exists [take 10 line], (drop 10 line). split; [done|]. by vm_compute.
    + exists [], line. split; [done|]. by vm_compute.
  - vm_compute. reflexivity.
  - by repeat constructor.
  - exists s'. split; [exact Hs|exact Hw].
Defined.

Lemma bad_line_terminates_witness :
  ∃ s1, step read (write real) (run_on traffic) (Accepted false) s1 ∧
    terminates read (write real) s1 (Received 2 (lit "x" ++ crlf)).
Proof.
  refine (bad_line_terminates real (λ _, Ret tt) [count] 22222 3 start_state traffic (run_on traffic) (lit "x" ++ crlf)
    eq_refl run_traffic _ _ _ _).
  - apply (bool_decide_unpack _). vm_compute. reflexivity.
  - reflexivity.
  - by vm_compute.
  - vm_compute. exact I.
Defined.

Lemma port_is_short_witness :
  RpcServer_new (λ t, if decide (t = print_int 40000) then Ret tt else Throw runtime_error) [count] 40000 3 = Throw runtime_error.
Proof. apply (port_is_short [count] 40000 3). lia. Defined.
End Example.
End RpcServer.
