(* ===== verification/Blockstore.v ===== *)
(** * blockstore.cc: files in blocks, and a block cache

    The plugin that serves the file signals.  A stored file is a header file
    under [_unique_dir], named by the digest of the whole file: its size as a
    32-bit integer, then the contents if they fit in a block, or else the
    names of its blocks, which are files of the same directory.  [get_file]
    publishes a file in [_pub_dir] through an LRU cache whose eviction deletes
    the published copy. *)

From S2P Require Import Prelude Crypto LruCache FileSystem KvStore StorePaths ModuleManager.
Local Open Scope prog_scope.

(** class public_file *)
Record public_file := PubFile { pf_path : bytes; pf_good : bool }.

(** [uint] in memory, little-endian. *)
Definition le32 (z : Z) : bytes :=
  [char_of_Z z; char_of_Z (z / 256); char_of_Z (z / 65536); char_of_Z (z / 16777216)].
Definition of_le32 (l : bytes) : Z :=
  match l with
  | a :: b :: c :: d :: _ => (uchar a + 256 * uchar b + 65536 * uchar c + 16777216 * uchar d)%Z
  | _ => 0%Z
  end.

(** The C string in a buffer of bytes that is followed by [after] in
    memory: up to the first NUL. *)
Fixpoint c_string (buffer after : bytes) : bytes :=
  match buffer with
  | [] => after
  | c :: buffer => if decide (c = NUL) then [] else c :: c_string buffer after
  end.

(** [abs(x)] of a [uint]: the argument is converted to [int]. *)
Definition abs_int (x : Z) : Z := Z.abs (if (x <? 2 ^ 31)%Z then x else x - 2 ^ 32).

Module Blockstore.

Definition HASH_SIZE : nat := 128.

(** The members set by [initialise]. *)
Record blockstore := BS {
  _path : bytes;
  _pub_dir : bytes;
  _mid_dir : bytes;
  _unique_dir : bytes;
  _data_dir : bytes;
  _blocksize : Z;      (* uint *)
}.

Section ops.
Context `{Digest} `{FileSystem} (this : blockstore).
(** What a C-string read finds behind a block buffer that holds no NUL. *)
Context (overread : bytes → bytes).

(** *** Blocks *)

(** [new an::block(buffer, size)] keeps the size as a [uint]. *)
Definition block_of (contents : bytes) : bytes := take (Z.to_nat (uint32 (zlen contents))) contents.

Definition load_block (bid : bytes) : M fs bytes :=
  try_catch
    (let! hp := lift_outcome (hash_to_path bid) in
     let! ifile := gets (ifs_open (_unique_dir this ++ hp)) in
     match ifile with
     | None => throw file_not_found
     | Some contents => ret (block_of contents)
     end)
    (λ e, match e with filesystem_error => Some (throw file_not_found) | _ => None end).

(** [catch(...)] *)
Definition get_block (id : bytes) (res : option bytes) : M fs (bool * option bytes) :=
  try_catch (let! b := load_block id in ret (true, Some b)) (λ _, Some (ret (false, res))).

Definition store_block (content : bytes) : M fs bool :=
  let hash := Crypto.hex_hash content in
  let! hp := lift_outcome (hash_to_path hash) in
  if! ensure_directories (remove_filename (_unique_dir this ++ hp)) then
    write_file (_unique_dir this ++ hp) content
  else ret false.

(** *** Files *)

(** The loop of [load_file] over the block names; [ok] says that [ofile] has
    not failed: inserting an empty block sets its failbit. *)
Fixpoint load_loop (fuel : nat) (ofile : bytes) (ifile : bytes) (ok : bool) : M fs (option public_file) :=
  match fuel with
  | O => undef
  | S fuel =>
      let bid := take HASH_SIZE ifile in
      if (length bid <? HASH_SIZE)%nat then ret None              (* eof: break *)
      else
        let! newifile := lift_outcome (hash_to_path bid) in
        if bool_decide (NUL ∈ bid) then throw file_not_found else  (* strlen(bid) < HASH_SIZE *)
        let! nif := gets (ifs_open (_unique_dir this ++ newifile)) in
        match nif with
        | None => ret (Some (PubFile [] false))
        | Some contents =>
            (if ok then modify (ofs_write ofile contents) else ret tt) ;;;
            load_loop fuel ofile (drop HASH_SIZE ifile) (ok && bool_decide (contents ≠ []))
        end
  end.

(** [boost::math::isfinite] is true of every [uint]. *)
Definition load_file (fid : bytes) : M fs public_file :=
  try_catch
    (let! hp := lift_outcome (hash_to_path fid) in
     let! ifile := gets (ifs_open (_unique_dir this ++ hp)) in
     match ifile with
     | None => throw file_not_found
     | Some ifile =>
         let! σ := get_state in
         match ofs_open (_pub_dir this ++ fid) σ with
         | None => throw file_not_found
         | Some σ' =>
             modify (λ _, σ') ;;;
             if (length ifile <? 4)%nat then undef else           (* filesize not set *)
             let filesize := of_le32 ifile in
             let ifile := drop 4 ifile in
             if (filesize <=? uint64 (_blocksize this - 4))%Z then
               (* unset bytes of the buffer, or more than it holds *)
               if (zlen ifile <? filesize)%Z || (_blocksize this <? filesize)%Z then undef else
               modify (ofs_write (_pub_dir this ++ fid) (take (Z.to_nat filesize) ifile)) ;;;
               ret (PubFile (_pub_dir this ++ fid) true)
             else
               let! r := load_loop (S (length ifile)) (_pub_dir this ++ fid) ifile true in
               ret (default (PubFile (_pub_dir this ++ fid) true) r)
         end
     end)
    (λ e, match e with filesystem_error => Some (ret (PubFile [] false)) | _ => None end).

(** The name of a block: a full buffer is hashed as a C string, the last,
    shorter one by its length. *)
Definition block_hash (eof : bool) (buffer : bytes) : bytes :=
  if eof then Crypto.Hash buffer else Crypto.Hash (c_string buffer (overread buffer)).

(** One pass of the [do] loop of [store_file]; [false] when it returns
    [false].  [buffer] is what the buffer held before. *)
Definition store_pass (header : bytes) (filesize blockc : Z) (buffer input : bytes) : M fs (bool * bytes * bytes) :=
  let bs := Z.to_nat (_blocksize this) in
  let chunk := take bs input in
  let buffer := chunk ++ drop (length chunk) buffer in
  let eof := (length chunk <? bs)%nat in
  let readbytes := if eof then abs_int (uint32 (filesize - (blockc - 1) * _blocksize this)) else _blocksize this in
  let data := take (Z.to_nat readbytes) buffer in
  let hash := block_hash eof data in
  let! block_path := lift_outcome (hash_to_path (Crypto.toHex hash)) in
  if! ensure_directories (remove_filename (_unique_dir this ++ block_path)) then
    if! write_file (_unique_dir this ++ block_path) data then
      modify (ofs_write header (take HASH_SIZE (Crypto.toHex hash))) ;;;
      ret (true, buffer, drop bs input)
    else ret (false, buffer, input)
  else ret (false, buffer, input).

(** [do ... while(blockc++ < blocks)]: [n] passes are left after this one. *)
Fixpoint store_loop (n : nat) (header : bytes) (filesize blockc : Z) (buffer input : bytes) : M fs bool :=
  let! r := store_pass header filesize blockc buffer input in
  let '(ok, buffer, input) := r in
  if ok : bool then
    match n with
    | O => ret true
    | S n => store_loop n header filesize (blockc + 1) buffer input
    end
  else ret false.

Definition store_file (path res : bytes) : M fs (bool * bytes) :=
  let! contents := gets (ifs_open path) in
  let hash := Crypto.toHex (Crypto.HashFile contents) in
  if decide (hash = []) then ret (false, res) else
  let! hpath := lift_outcome (hash_to_path hash) in
  let header := _unique_dir this ++ hpath in
  let! r := try_catch
    (let! size := fs_file_size path in
     let filesize := uint32 size in
     if (_blocksize this =? 0)%Z then undef else
     let blocks := uint32 (filesize / _blocksize this + 1) in
     let! e := gets (fs_exists header) in
     if e then ret true else
     if! ensure_directories (remove_filename header) then
       let! σ := get_state in
       match ofs_open header σ with
       | None => ret false
       | Some σ' =>
           modify (λ _, σ') ;;;
           modify (ofs_write header (le32 filesize)) ;;;
           let! input_file := gets (ifs_open path) in
           match input_file with
           | None => ret false
           | Some input =>
               if (filesize <=? _blocksize this)%Z then
                 modify (ofs_write header input) ;;; ret true
               else store_loop (Z.to_nat (blocks - 1)) header filesize 1 [] input
           end
       end
     else ret false)
    (λ e, match e with filesystem_error => Some (ret false) | _ => None end) in
  if r : bool then ret (true, hash) else ret (false, res).

Definition get_stored_file_path (id : bytes) : outcome (bool * bytes) :=
  match hash_to_path id with
  | Ret hp => Ret (true, _path this ++ hp)
  | Throw e => Throw e
  | Undef => Undef
  end.

Definition remove_file (id : bytes) : M fs bool :=
  let! hp := lift_outcome (hash_to_path id) in
  if! fs_remove (_unique_dir this ++ hp) then ret true else ret false.

(** *** The caches *)

(** The object's mutable state: the two caches, and the files. *)
Record state := State {
  _block_cache : LruCache.lru_cache bytes bytes;
  _pubfile_cache : LruCache.lru_cache bytes public_file;
  bs_fs : fs;
}.

Definition on_fs {A} (m : M fs A) : M state A :=
  zoom bs_fs (λ σ s, State (_block_cache s) (_pubfile_cache s) σ) m.
Definition on_blocks {A} (m : M (LruCache.lru_cache bytes bytes * fs) A) : M state A :=
  zoom (λ s, (_block_cache s, bs_fs s)) (λ p s, State (fst p) (_pubfile_cache s) (snd p)) m.
Definition on_pubfiles {A} (m : M (LruCache.lru_cache bytes public_file * fs) A) : M state A :=
  zoom (λ s, (_pubfile_cache s, bs_fs s)) (λ p s, State (_block_cache s) (fst p) (snd p)) m.

(** [~public_file]: the destructor removes the published file. *)
Definition drop_public (p : public_file) (σ : fs) : fs := snd (fs_remove (pf_path p) σ).
Definition drop_block (_ : bytes) (σ : fs) : fs := σ.

Definition get_file (id res : bytes) : M state (bool * bytes) :=
  let! file := on_pubfiles (LruCache.call load_file drop_public id) in
  if pf_good file then ret (true, pf_path file) else ret (false, res).

(** *** The key-value operations *)

Definition kv_put (_key value : bytes) : M state bool :=
  let key := validate_key _key in
  let hash := Crypto.hex_hash value in
  if decide (key = hash) then on_fs (store_block value) else
  on_fs (
    let! hp := lift_outcome (hash_to_path key) in
    if! ensure_directories (remove_filename (_mid_dir this ++ hp ++ "/x"%string)) then
      write_file (_mid_dir this ++ hp ++ "/"%string ++ hash) value
    else ret false).

(** The loop returns at the first entry; with none the function ends without
    [return]. *)
Definition kv_get_entries (dir : list bytes) (res : KV_ResMap) : M fs (bool * KV_ResPtr) :=
  match dir with
  | [] => undef
  | p :: _ =>
      let! file := gets (ifs_open p) in
      match file with
      | None => ret (false, Some res)
      | Some cont => ret (true, Some (<[Crypto.hex_hash cont := cont]> res))
      end
  end.

Definition kv_get (_key : bytes) (res : KV_ResPtr) : M state (bool * KV_ResPtr) :=
  let key := validate_key _key in
  let res := ∅ in
  try_catch
    (let! cont := on_blocks (LruCache.call load_block drop_block key) in
     ret (true, Some {[Crypto.hex_hash cont := cont]}))
    (λ e, match e with
          | file_not_found => Some (on_fs (try_catch
              (let! hp := lift_outcome (hash_to_path key) in
               let mid_d := _mid_dir this ++ hp in
               let! d := gets (fs_is_directory mid_d) in
               if d then
                 let! dir := fs_directory mid_d in
                 kv_get_entries dir res
               else ret (false, Some res))
              (λ e, match e with filesystem_error => Some (ret (false, Some res)) | _ => None end)))
          | _ => None
          end).

Fixpoint remove_each (dir : list bytes) : M fs bool :=
  match dir with
  | [] => ret true
  | p :: dir => if! fs_remove p then remove_each dir else ret false
  end.

Definition kv_remove (_key : bytes) : M state bool :=
  on_fs (
    let key := validate_key _key in
    let! hp := lift_outcome (hash_to_path key) in
    if! fs_remove (_unique_dir this ++ hp) then ret true else
      let! dir := fs_directory (_mid_dir this ++ hp) in
      if! remove_each dir then
        if! fs_remove (_mid_dir this ++ hp) then ret true else ret false
      else ret false).

End ops.

(** *** Initialisation *)
Section initialise.
Context `{FileSystem} {P G : Type}.

(** The signals of the module manager, the object's state and its members. *)
Record init_state := Init {
  st_mods : ModuleManager.modules P G;
  st_state : state;
  st_this : blockstore;
}.

Definition init_fs {A} (m : M fs A) : M init_state A :=
  zoom (λ s, bs_fs (st_state s))
       (λ σ s, Init (st_mods s) (State (_block_cache (st_state s)) (_pubfile_cache (st_state s)) σ) (st_this s)) m.
Definition set_this (f : blockstore → blockstore) : M init_state () :=
  modify (λ s, Init (st_mods s) (st_state s) (f (st_this s))).

(** [config] is [None] when [get_config] fails; [config_int] reads the
    integers. *)
Definition initialise (me : P) (datadir : bytes) (config : option (bytes → option bytes))
    (config_int : bytes → option Z) : M init_state bool :=
  modify (λ s, Init (ModuleManager.connect_files me (st_mods s)) (st_state s) (st_this s)) ;;;
  match config with
  | None => ret false
  | Some config =>
      let path := datadir ++ "/blockstore"%string in
      set_this (λ t, BS path (_pub_dir t) (_mid_dir t) (_unique_dir t) (_data_dir t) (_blocksize t)) ;;;
      if! init_fs (make_directory path) then
        let path := path ++ "/"%string in
        let pub := default (path ++ "public"%string) (config "publicdir"%string) in
        set_this (λ t, BS path pub (_mid_dir t) (_unique_dir t) (_data_dir t) (_blocksize t)) ;;;
        if! init_fs (make_directory pub) then
          let pub := pub ++ "/"%string in
          let data := default (path ++ "data"%string) (config "datadir"%string) in
          set_this (λ t, BS path pub (_mid_dir t) (_unique_dir t) data (_blocksize t)) ;;;
          if! init_fs (make_directory data) then
            let data := data ++ "/"%string in
            let mid := data ++ "mid"%string in
            let unique := data ++ "unique"%string in
            set_this (λ t, BS path pub mid unique data (_blocksize t)) ;;;
            if! init_fs (make_directory unique) then
              if! init_fs (make_directory mid) then
                let blocksize := uint32 (default 128%Z (config_int "blocksize"%string) * 1024) in
                set_this (λ t, BS path pub (mid ++ "/"%string) (unique ++ "/"%string) data blocksize) ;;;
                let capacity key d := Z.to_nat (uint64 (default d (config_int key))) in
                modify (λ s, Init (st_mods s)
                  (State (LruCache.Lru (capacity (lit "block_cache_size") 512%Z) [])
                         (LruCache.Lru (capacity (lit "file_cache_size") 16%Z) [])
                         (bs_fs (st_state s))) (st_this s)) ;;;
                ret true
              else ret false
            else ret false
          else ret false
        else ret false
      else ret false
  end.
End initialise.

(** ** Laws *)

(** [_unique_dir] and [_pub_dir] as [initialise] leaves them. *)
Definition layout (this : blockstore) (U Pb : list bytes) : Prop :=
  _unique_dir this = path_of U ++ "/"%string ∧ _pub_dir this = path_of Pb ++ "/"%string ∧
  good U ∧ good Pb ∧ apart U Pb ∧ (8 ≤ _blocksize this < 2 ^ 31)%Z.

Lemma le32_length z : length (le32 z) = 4.
Proof. done. Qed.

Lemma of_le32_le32 z l : (0 ≤ z < 2 ^ 32)%Z → of_le32 (le32 z ++ l) = z.
Proof.
  intros Hz. unfold le32, of_le32, char_of_Z. cbn [app].
  assert (Hmod : ∀ x, uchar (ascii_of_N (Z.to_N (x mod 256))) = (x mod 256)%Z).
  { intros x. pose proof (Z.mod_pos_bound x 256). unfold uchar. rewrite N_ascii_embedding by lia. lia. }
  rewrite !Hmod.
  pose proof (Z.div_mod z 256). pose proof (Z.div_mod (z / 256) 256).
  pose proof (Z.div_mod (z / 65536) 256).
  replace (z / 65536)%Z with (z / 256 / 256)%Z in * by (rewrite Z.div_div by lia; done).
  replace (z / 16777216)%Z with (z / 256 / 256 / 256)%Z in * by (rewrite !Z.div_div by lia; done).
  rewrite (Z.mod_small (z / 256 / 256 / 256)).
  - lia.
  - split; [repeat apply Z.div_pos; lia|]. repeat (apply Z.div_lt_upper_bound; [lia|]). lia.
Qed.

(** The blocks of a file, [n] full ones and a last one, with their names. *)
Definition block_name `{Digest} (overread : bytes → bytes) (eof : bool) (buffer : bytes) : bytes :=
  Crypto.toHex (block_hash overread eof buffer).

Fixpoint blocks_of `{Digest} (overread : bytes → bytes) (bs n : nat) (c : bytes) : list (bytes * bytes) :=
  match n with
  | O => [(block_name overread true c, c)]
  | S n => (block_name overread false (take bs c), take bs c) :: blocks_of overread bs n (drop bs c)
  end.

(** What a name stands for when the files of [l] are written one after the
    other: the last file of that name. *)
Fixpoint resolve (l : list (bytes * bytes)) (k : bytes) : option bytes :=
  match l with
  | [] => None
  | (k', data) :: l =>
      match resolve l k with Some d => Some d | None => if decide (k' = k) then Some data else None end
  end.

Section proofs.
Context {DG : Digest} `{FS : FileSystem} {L : FsLaws} (this : blockstore) (overread : bytes → bytes).
Context (U Pb : list bytes) (HL : layout this U Pb).
Implicit Types (σ : fs) (c k : bytes) (m : gmap bytes bytes).

Lemma block_name_hex eof buffer : ∃ x, block_name overread eof buffer = Crypto.hex_hash x.
Proof. unfold block_name, block_hash. destruct eof; eexists; done. Qed.

Lemma hex_hash_length x : length (Crypto.hex_hash x) = HASH_SIZE.
Proof. unfold Crypto.hex_hash. by rewrite Crypto.toHex_length, sha512_length. Qed.

Lemma hex_hash_no_nul x : NUL ∉ Crypto.hex_hash x.
Proof.
  intros Hin. pose proof (Crypto.toHex_hex (Crypto.Hash x)) as Hall.
  rewrite Forall_forall in Hall. apply Hall in Hin. by vm_compute in Hin.
Qed.

Lemma blocks_of_data bs n c : concat (blocks_of overread bs n c).*2 = c.
Proof.
  revert c. induction n as [|n IH]; intros c; simpl; [apply app_nil_r|].
  by rewrite IH, take_drop.
Qed.

Lemma blocks_of_names bs n c b : b ∈ blocks_of overread bs n c → ∃ x, b.1 = Crypto.hex_hash x.
Proof.
  revert c. induction n as [|n IH]; intros c; simpl.
  - intros ->%list_elem_of_singleton. apply block_name_hex.
  - intros [->|Hb]%elem_of_cons; [apply block_name_hex|eauto].
Qed.

(** [ofs_write] on the file of key [k] below [U], from its path as the code
    builds it. *)
Lemma unique_path x : ∃ hp, hash_to_path (Crypto.hex_hash x) = Ret hp ∧
  _unique_dir this ++ hp = path_of (U ++ key_comps (Crypto.hex_hash x)).
Proof.
  destruct (hash_to_path_good _ (good_key_hash x)) as (hp & Hhp & Hp).
  exists hp. destruct HL as (-> & _). auto.
Qed.

(** One pass of [store_file]'s loop. *)
Lemma store_pass_ok σ m h hc filesize blockc buffer input bs (eof : bool) x :
  bs = Z.to_nat (_blocksize this) →
  blob_dir σ U m → good_key h → m !! h = Some hc →
  eof = (length (take bs input) <? bs)%nat →
  (eof = true → (filesize - (blockc - 1) * _blocksize this = zlen input)%Z) →
  block_name overread eof (take bs input) = Crypto.hex_hash x → Crypto.hex_hash x ≠ h →
  ∃ buffer' σ',
    store_pass this overread (path_of (U ++ key_comps h)) filesize blockc buffer input σ
      = (Ret (true, buffer', drop bs input), σ') ∧
    blob_dir σ' U (<[h := hc ++ Crypto.hex_hash x]> (<[Crypto.hex_hash x := take bs input]> m)) ∧
    frame U σ σ'.
Proof.
  intros Hbs HU Hh Hhc Heof Hlast Hname Hne. unfold store_pass. rewrite <-Hbs.
  destruct HL as (_ & _ & _ & _ & _ & Hsz).
  set (buf := take bs input ++ drop (length (take bs input)) buffer).
  rewrite <-Heof.
  assert (Hdata : take (Z.to_nat (if eof then abs_int (uint32 (filesize - (blockc - 1) * _blocksize this))
      else _blocksize this)) buf = take bs input).
  { unfold buf. destruct eof.
    - rewrite (Hlast eq_refl). symmetry in Heof. apply Nat.ltb_lt in Heof.
      rewrite length_take in Heof. rewrite (take_ge input) by lia.
      unfold uint32, abs_int, zlen. rewrite Z.mod_small by lia.
      destruct (Z.ltb_spec (Z.of_nat (length input)) (2 ^ 31)); [|lia].
      rewrite Z.abs_eq, Nat2Z.id by lia. apply take_app_length.
    - symmetry in Heof. apply Nat.ltb_ge in Heof.
      assert (length (take bs input) = bs) as Hl by (rewrite length_take in *; lia).
      rewrite <-Hbs. rewrite <-Hl at 1. apply take_app_length. }
  rewrite Hdata.
  fold (block_name overread eof (take bs input)). rewrite Hname.
  destruct (unique_path x) as (hp & Hhp & Hp). rewrite Hhp, bind_lift_ret, Hp.
  destruct (blob_mkdir σ U m _ HU (good_key_hash x)) as (σ1 & Hrun1 & Hd & HU1 & Hf1).
  destruct (blob_write σ1 U m _ (take bs input) HU1 (good_key_hash x) Hd) as (σ2 & Hrun2 & HU2 & Hf2).
  run. exists buf. eexists. split; [done|].
  rewrite take_ge by (rewrite hex_hash_length; done).
  destruct (blob_append σ2 U _ h hc (Crypto.hex_hash x) HU2 Hh) as [HU3 Hf3].
  { by rewrite lookup_insert_ne. }
  split; [done|]. by eapply frame_trans, frame_trans.
Qed.

Lemma resolve_None l k : k ∉ l.*1 → resolve l k = None.
Proof.
  induction l as [|[k' d] l IH]; [done|]. cbn [fmap list_fmap fst resolve].
  intros [Hne Hk]%not_elem_of_cons. by rewrite IH, decide_False by congruence.
Qed.

Lemma resolve_Some l b : b ∈ l → ∃ b', b' ∈ l ∧ b'.1 = b.1 ∧ resolve l b.1 = Some b'.2.
Proof.
  induction l as [|[k d] l IH]; [by intros ?%elem_of_nil|]. cbn [resolve].
  destruct (resolve l b.1) as [d'|] eqn:E.
  - assert (∃ b', b' ∈ l ∧ b'.1 = b.1 ∧ d' = b'.2) as (b' & Hb' & Hk & ->).
    { clear IH. revert d' E. induction l as [|[k1 d1] l IHl]; [done|]. intros d'. cbn [resolve].
      destruct (resolve l b.1) as [d2|].
      - intros [= <-]. destruct (IHl d2 eq_refl) as (b' & ? & ? & ->). exists b'. set_solver.
      - case_decide; [|done]. intros [= <-]. exists (k1, d1). set_solver. }
    intros _. exists b'. set_solver.
  - intros [->|Hb]%elem_of_cons; simpl.
    + rewrite decide_True by done. exists (k, d). set_solver.
    + destruct (IH Hb) as (b' & _ & _ & ?). congruence.
Qed.

(** The whole loop: the header file gets the names, in order, and every
    block's file its data. *)
Lemma store_loop_ok n σ m h hc filesize blockc buffer input bs :
  bs = Z.to_nat (_blocksize this) →
  blob_dir σ U m → good_key h → m !! h = Some hc →
  (n * bs ≤ length input < S n * bs) →
  (filesize - (blockc - 1) * _blocksize this = zlen input)%Z →
  let l := blocks_of overread bs n input in
  h ∉ l.*1 →
  ∃ σ' m', store_loop this overread n (path_of (U ++ key_comps h)) filesize blockc buffer input σ
      = (Ret true, σ') ∧
    blob_dir σ' U m' ∧ frame U σ σ' ∧ m' !! h = Some (hc ++ concat l.*1) ∧
    (∀ k, k ≠ h → m' !! k = match resolve l k with Some d => Some d | None => m !! k end).
Proof.
  intros Hbs. revert σ m hc blockc buffer input.
  induction n as [|n IH]; intros σ m hc blockc buffer input HU Hh Hhc Hlen Hsize l Hnh.
  - destruct (block_name_hex true input) as [x Hx].
    assert (Hin : take bs input = input) by (apply take_ge; lia).
    destruct (store_pass_ok σ m h hc filesize blockc buffer input bs true x Hbs HU Hh Hhc)
      as (buffer' & σ' & Hrun & HU' & Hf).
    { rewrite Hin. symmetry. apply Nat.ltb_lt. lia. }
    { done. }
    { by rewrite Hin. }
    { subst l. simpl in Hnh. rewrite Hx in Hnh. set_solver. }
    rewrite Hin in HU'. exists σ', (<[h := hc ++ Crypto.hex_hash x]> (<[Crypto.hex_hash x := input]> m)).
    subst l. cbn [blocks_of fmap list_fmap fst concat resolve] in Hnh |- *. rewrite Hx in Hnh |- *.
    cbn [store_loop]. run. split_and!; [done|done|done|..].
    + by rewrite lookup_insert_eq, app_nil_r.
    + intros k Hk. rewrite lookup_insert_ne by done. case_decide as Hd.
      * subst. by rewrite lookup_insert_eq.
      * by rewrite lookup_insert_ne.
  - destruct (block_name_hex false (take bs input)) as [x Hx].
    simpl in Hlen. subst l. cbn [blocks_of] in *. rewrite Hx in *. cbn [fmap list_fmap fst snd] in *.
    apply not_elem_of_cons in Hnh as [Hne Hnh].
    destruct (store_pass_ok σ m h hc filesize blockc buffer input bs false x Hbs HU Hh Hhc)
      as (buffer' & σ1 & Hrun & HU1 & Hf1); [|done|done|done|].
    { symmetry. apply Nat.ltb_ge. rewrite length_take. lia. }
    destruct (IH σ1 _ (hc ++ Crypto.hex_hash x) (blockc + 1)%Z buffer' (drop bs input) HU1 Hh)
      as (σ' & m' & Hrun' & HU' & Hf' & Hh' & Hl').
    { apply lookup_insert_eq. }
    { rewrite length_drop. lia. }
    { unfold zlen in *. rewrite length_drop. lia. }
    { done. }
    exists σ', m'. cbn [store_loop resolve]. run. split_and!; [done|done|by eapply frame_trans|..].
    + rewrite Hh'. simpl. by rewrite app_assoc.
    + intros k Hk. rewrite Hl' by done. destruct (resolve _ k); [done|].
      rewrite lookup_insert_ne by done. case_decide as Hd.
      * subst. by rewrite lookup_insert_eq.
      * by rewrite lookup_insert_ne.
Qed.

(** Reading the blocks back into the published file. *)
Lemma load_loop_ok l σ m d n oc fuel :
  length l < fuel →
  blob_dir σ U m → apart (d ++ [n]) U → good (d ++ [n]) → view σ (d ++ [n]) = Some (NFile oc) →
  (∀ b, b ∈ l → ∃ x, b.1 = Crypto.hex_hash x) → (∀ b, b ∈ l → m !! b.1 = Some b.2) →
  (∀ i b, l !! i = Some b → S i < length l → b.2 ≠ []) →
  ∃ σ', load_loop this fuel (path_of (d ++ [n])) (concat l.*1) true σ = (Ret None, σ') ∧
    view σ' (d ++ [n]) = Some (NFile (oc ++ concat l.*2)) ∧ blob_dir σ' U m.
Proof.
  intros Hfuel HU Hap Hg. revert σ oc fuel Hfuel HU.
  induction l as [|[k data] l IH]; intros σ oc fuel Hfuel HU Hoc Hx Hm Hne.
  { destruct fuel; [simpl in Hfuel; lia|]. exists σ. simpl. by rewrite app_nil_r. }
  destruct fuel as [|fuel]; simpl in Hfuel; [lia|].
  destruct (Hx (k, data)) as [x Hk]; [by left|]. simpl in Hk. subst k.
  pose proof (Hm (Crypto.hex_hash x, data) ltac:(by left)) as Hdata. simpl in Hdata.
  destruct (unique_path x) as (hp & Hhp & Hp).
  cbn [load_loop fmap list_fmap concat fst snd].
  rewrite take_app_le, take_ge, drop_app_ge, hex_hash_length by (rewrite hex_hash_length; done).
  replace (HASH_SIZE <? HASH_SIZE)%nat with false by done.
  rewrite Hhp, bind_lift_ret, bool_decide_false by apply hex_hash_no_nul. rewrite bind_gets, Hp.
  rewrite (ifs_open_file σ _ data);
    [|apply good_app_key; [apply HL|apply good_key_hash]
     |by rewrite (blob_at _ _ _ HU), Hdata by apply good_key_hash].
  rewrite bind_modify, Nat.sub_diag, drop_0.
  set (σ1 := ofs_write _ data σ).
  assert (Hv : ∀ q, good q → view σ1 q = if decide (q = d ++ [n]) then Some (NFile (oc ++ data)) else view σ q).
  { intros q Hq. by apply write_ok. }
  assert (HU1 : blob_dir σ1 U m).
  { apply (frame_blob (d ++ [n]) U σ); [|done|done]. intros q Hq Hn. rewrite Hv by done.
    rewrite decide_False; [done|]. intros ->. by apply Hn. }
  assert (H1 : view σ1 (d ++ [n]) = Some (NFile (oc ++ data))) by (by rewrite Hv, decide_True).
  destruct l as [|b l].
  - destruct fuel; [simpl in *; lia|]. exists σ1. simpl. rewrite app_nil_r. done.
  - rewrite bool_decide_true by (apply (Hne 0 (Crypto.hex_hash x, data)); [done|simpl; lia]).
    destruct (IH σ1 (oc ++ data) fuel) as (σ' & Hrun & Hv' & HU'); [simpl in *; lia|done|done|..].
    + intros b' Hb'. apply Hx. by right.
    + intros b' Hb'. apply Hm. by right.
    + intros i b' Hi Hl. apply (Hne (S i) b'); [done|simpl in *; lia].
    + exists σ'. simpl in *. rewrite Hrun, Hv', <-!app_assoc. done.
Qed.

(** *** Storing and loading whole files *)

Definition file_blocks (c : bytes) : list (bytes * bytes) :=
  blocks_of overread (Z.to_nat (_blocksize this)) (Z.to_nat (zlen c / _blocksize this)) c.

(** No two different blocks of the file share a name. *)
Definition distinct_names (c : bytes) : Prop :=
  ∀ b b', b ∈ file_blocks c → b' ∈ file_blocks c → b.1 = b'.1 → b.2 = b'.2.

(** The data a block's name stands for once the file is stored, and all of
    them. *)
Definition stored_data (c : bytes) (b : bytes * bytes) : bytes := default [] (resolve (file_blocks c) b.1).
Definition stored_blocks (c : bytes) : list (bytes * bytes) := map (λ b, (b.1, stored_data c b)) (file_blocks c).

(** What the header file of a stored file holds. *)
Definition header_of (c : bytes) : bytes :=
  le32 (zlen c) ++ if (zlen c <=? _blocksize this)%Z then c else concat (file_blocks c).*1.

(** [c] has no header yet, and none of its blocks is named as the file. *)
Definition storable (m : gmap bytes bytes) (c : bytes) : Prop :=
  (zlen c < 2 ^ 32)%Z ∧ m !! Crypto.hex_hash c = None ∧
  ((_blocksize this < zlen c)%Z → Crypto.hex_hash c ∉ (file_blocks c).*1).

(** The input of [store_file]: a file outside the store. *)
Definition input_file (σ : fs) (p : list bytes) (c : bytes) : Prop :=
  good p ∧ ¬ (U `prefix_of` p) ∧ view σ p = Some (NFile c).

Lemma quotient_bounds z b : (0 ≤ z)%Z → (0 < b)%Z →
  Z.to_nat (z / b) * Z.to_nat b ≤ Z.to_nat z < S (Z.to_nat (z / b)) * Z.to_nat b.
Proof.
  intros Hz Hb. pose proof (Z.div_mod z b ltac:(lia)). pose proof (Z.mod_pos_bound z b Hb).
  pose proof (Z.div_pos z b Hz Hb). nia.
Qed.

(** [m'] is [m] with the file [c] in it. *)
Definition holds_file (m m' : gmap bytes bytes) (c : bytes) : Prop :=
  m' !! Crypto.hex_hash c = Some (header_of c) ∧
  ∀ k, k ≠ Crypto.hex_hash c →
    m' !! k = if (zlen c <=? _blocksize this)%Z then m !! k
              else match resolve (file_blocks c) k with Some d => Some d | None => m !! k end.

(** What follows the size in the header file. *)
Definition store_contents (c : bytes) : M fs bool :=
  let header := path_of (U ++ key_comps (Crypto.hex_hash c)) in
  if (zlen c <=? _blocksize this)%Z then modify (ofs_write header c) ;;; ret true
  else store_loop this overread (Z.to_nat (zlen c / _blocksize this)) header (zlen c) 1 [] c.

Lemma store_contents_ok σ m0 m c :
  blob_dir σ U m → m !! Crypto.hex_hash c = Some (le32 (zlen c)) → storable m0 c →
  (∀ k, k ≠ Crypto.hex_hash c → m !! k = m0 !! k) →
  ∃ σ' m', store_contents c σ = (Ret true, σ') ∧
    blob_dir σ' U m' ∧ frame U σ σ' ∧ holds_file m0 m' c.
Proof.
  intros HU Hh (Hsz & _ & Hd) Hm. pose proof HL as (_ & _ & _ & _ & _ & Hbs).
  pose proof (good_key_hash c) as Hk. unfold store_contents, holds_file, header_of.
  destruct (Z.leb_spec (zlen c) (_blocksize this)) as [Hle|Hgt].
  - destruct (blob_append σ U m (Crypto.hex_hash c) (le32 (zlen c)) c HU Hk Hh) as [HU4 Hf4].
    eexists _, _. split; [reflexivity|]. split_and!; [exact HU4|done|apply lookup_insert_eq|].
    intros k Hne. rewrite lookup_insert_ne by done. by apply Hm.
  - destruct (store_loop_ok (Z.to_nat (zlen c / _blocksize this)) σ m _ (le32 (zlen c)) (zlen c) 1 [] c _
      eq_refl HU Hk Hh) as (σ' & m' & Hrun & HU4 & Hf4 & Hh' & Ho); [|lia|by apply Hd|].
    { pose proof (quotient_bounds (zlen c) (_blocksize this) ltac:(unfold zlen; lia) ltac:(lia)) as Hq.
      unfold zlen in Hq. by rewrite Nat2Z.id in Hq. }
    exists σ', m'. split_and!; [done|done|done|exact Hh'|].
    intros k Hne. rewrite Ho by done. fold (file_blocks c). destruct (resolve _ k); [done|by apply Hm].
Qed.

Lemma frame_input σ σ' p c : frame U σ σ' → input_file σ p c → input_file σ' p c.
Proof. intros Hf (Hp & HpU & Hin). split_and!; [done|done|]. by rewrite Hf. Qed.

Lemma store_file_ok σ m p c res :
  blob_dir σ U m → input_file σ p c → storable m c →
  ∃ σ' m', store_file this overread (path_of p) res σ = (Ret (true, Crypto.hex_hash c), σ') ∧
    blob_dir σ' U m' ∧ frame U σ σ' ∧ holds_file m m' c.
Proof.
  intros HU Hin Hst. pose proof Hin as (Hp & HpU & Hc). pose proof Hst as (Hsz & Hnew & _).
  pose proof HL as (_ & _ & HgU & _ & _ & Hbs). pose proof (good_key_hash c) as Hk.
  destruct (blob_mkdir σ U m _ HU Hk) as (σ1 & Hrun1 & Hdir & HU1 & Hf1).
  destruct (blob_open σ1 U m _ HU1 Hk Hdir) as (σ2 & Hrun2 & HU2 & Hf2).
  destruct (blob_append σ2 U _ _ [] (le32 (zlen c)) HU2 Hk (lookup_insert_eq _ _ _)) as [HU3 Hf3].
  destruct (store_contents_ok _ m _ c HU3 (lookup_insert_eq _ _ _) Hst) as (σ' & m' & Hrun & HU4 & Hf4 & Hm').
  { intros k Hne. by rewrite !lookup_insert_ne. }
  set (σ3 := ofs_write _ _ σ2) in *.
  assert (Hf03 : frame U σ σ3) by exact (frame_trans _ _ _ _ (frame_trans _ _ _ _ Hf1 Hf2) Hf3).
  destruct (frame_input _ _ _ _ Hf03 Hin) as (_ & _ & Hc3).
  exists σ', m'. split_and!; [|done|by eapply frame_trans|done].
  unfold store_file. rewrite bind_gets, (ifs_open_file σ p c) by done.
  change (Crypto.toHex (Crypto.HashFile (Some c))) with (Crypto.hex_hash c).
  rewrite decide_False by (intros H0%(f_equal length); by rewrite hex_hash_length in H0).
  destruct (unique_path c) as (hp & Hhp & Hpath). rewrite Hhp, bind_lift_ret, Hpath.
  assert (Hdiv : (0 ≤ zlen c / _blocksize this < 2 ^ 31)%Z).
  { unfold zlen in *. split; [apply Z.div_pos; lia|apply Z.div_lt_upper_bound; lia]. }
  etransitivity; [apply (bind_run _ _ _ true σ'), try_catch_ret|done].
  rewrite (bind_run _ _ _ _ _ (file_size_file σ p c Hp Hc)). cbv beta zeta. unfold uint32.
  rewrite (Z.mod_small (zlen c)) by (unfold zlen in *; lia).
  destruct (Z.eqb_spec (_blocksize this) 0) as [|_]; [lia|].
  rewrite bind_gets, exists_none;
    [|by apply good_app_key|by rewrite (blob_at _ _ _ HU), Hnew by done].
  rewrite (bind_run _ _ _ _ _ Hrun1). unfold get_state at 1, bind at 1.
  rewrite Hrun2, bind_modify, bind_modify, bind_gets. fold σ3.
  rewrite (ifs_open_file σ3 p c) by done.
  rewrite (Z.mod_small (_ + 1)) by lia. rewrite Z.add_simpl_r. exact Hrun.
Qed.

(** [_pub_dir] can take a file named [fid]. *)
Definition publishable (σ : fs) (fid : bytes) : Prop :=
  view σ Pb = Some NDir ∧ ∀ n, view σ (Pb ++ [fid]) = Some n → ∃ c, n = NFile c.

Definition published (fid : bytes) : bytes := path_of (Pb ++ [fid]).

Lemma published_good x : good (Pb ++ [Crypto.hex_hash x]).
Proof. apply good_snoc; [apply HL|apply good_comp_hash]. Qed.

Lemma published_apart x : apart (Pb ++ [Crypto.hex_hash x]) U.
Proof.
  destruct HL as (_ & _ & _ & _ & Hap & _). split.
  - intros Hpre. destruct Hap as [_ Hap]. apply Hap. etrans; [|exact Hpre]. by apply prefix_app_r.
  - by apply apart_below.
Qed.

Lemma frame_publishable σ σ' x :
  frame U σ σ' → publishable σ (Crypto.hex_hash x) → publishable σ' (Crypto.hex_hash x).
Proof.
  intros Hf [Hd Hn]. destruct HL as (_ & _ & _ & HgP & Hap & _). split.
  - rewrite Hf; [done|done|]. destruct Hap as [Hap _]. exact Hap.
  - rewrite Hf; [done|apply published_good|by apply apart_below].
Qed.

(** Up to the point where [load_file] looks at the header: the published
    file is open and empty. *)
Lemma load_open σ m x :
  blob_dir σ U m → publishable σ (Crypto.hex_hash x) →
  ∃ σ1, ofs_open (published (Crypto.hex_hash x)) σ = Some σ1 ∧
    view σ1 (Pb ++ [Crypto.hex_hash x]) = Some (NFile []) ∧ blob_dir σ1 U m.
Proof.
  intros HU [Hd Hn]. destruct (open_ok σ Pb _ (published_good x) Hd Hn) as (σ1 & Hrun & Hv).
  exists σ1. split_and!; [done|rewrite Hv, decide_True; [done|done|apply published_good]|].
  apply (frame_blob (Pb ++ [Crypto.hex_hash x]) U σ); [|apply published_apart|done].
  intros q Hq Hne. rewrite Hv by done. rewrite decide_False; [done|]. intros ->. by apply Hne.
Qed.

(** What [load_file] does with the header it read. *)
Definition load_contents (fid header : bytes) : M fs public_file :=
  let filesize := of_le32 header in
  if (filesize <=? uint64 (_blocksize this - 4))%Z then
    if (zlen (drop 4 header) <? filesize)%Z || (_blocksize this <? filesize)%Z then undef else
    modify (ofs_write (published fid) (take (Z.to_nat filesize) (drop 4 header))) ;;;
    ret (PubFile (published fid) true)
  else
    let! r := load_loop this (S (length (drop 4 header))) (published fid) (drop 4 header) true in
    ret (default (PubFile (published fid) true) r).

Lemma load_file_run σ σ1 m x header r σ' :
  blob_dir σ U m → m !! Crypto.hex_hash x = Some header → 4 ≤ length header →
  ofs_open (published (Crypto.hex_hash x)) σ = Some σ1 →
  load_contents (Crypto.hex_hash x) header σ1 = (r, σ') → r ≠ Throw filesystem_error →
  load_file this (Crypto.hex_hash x) σ = (r, σ').
Proof.
  intros HU Hm Hlen Hopen Hrun Hr. unfold load_file.
  destruct (unique_path x) as (hp & Hhp & Hpath). unfold try_catch at 1.
  pose proof HL as (_ & HPb & HgU & _).
  assert (Hpub : _pub_dir this ++ Crypto.hex_hash x = published (Crypto.hex_hash x)).
  { unfold published. rewrite HPb, path_of_snoc, <-app_assoc. done. }
  rewrite Hhp, bind_lift_ret, bind_gets, Hpath, (ifs_open_file σ _ header);
    [|by apply good_app_key, good_key_hash|by rewrite (blob_at _ _ _ HU), Hm by apply good_key_hash].
  unfold get_state at 1, bind at 1. rewrite Hpub, Hopen, bind_modify.
  destruct (Nat.ltb_spec (length header) 4) as [|_]; [lia|].
  fold (load_contents (Crypto.hex_hash x) header). rewrite Hrun.
  destruct r as [|e|]; [done| |done]. by destruct e.
Qed.

Lemma header_length c : 4 ≤ length (header_of c).
Proof. unfold header_of. rewrite length_app, le32_length. lia. Qed.

Lemma file_blocks_nonempty c i b :
  (8 ≤ _blocksize this)%Z → file_blocks c !! i = Some b → S i < length (file_blocks c) → b.2 ≠ [].
Proof.
  intros Hbs. pose proof (quotient_bounds (zlen c) (_blocksize this) ltac:(unfold zlen; lia) ltac:(lia)) as Hq.
  revert Hq. unfold file_blocks, zlen. rewrite Nat2Z.id.
  generalize (Z.to_nat (Z.of_nat (length c) / _blocksize this)). intros n.
  assert (0 < Z.to_nat (_blocksize this)) by lia. generalize dependent (Z.to_nat (_blocksize this)).
  intros bs Hpos. revert i c. induction n as [|n IH]; intros i c Hq; simpl; [lia|].
  destruct i as [|i]; simpl.
  - intros [= <-] _. simpl. apply length_not_nil. rewrite length_take. lia.
  - intros Hi Hl. apply (IH i (drop bs c)); [rewrite length_drop; lia|done|lia].
Qed.

(** The published file, once [σ1] has it open and empty, gets [contents]. *)
Definition loads (c contents : bytes) (σ1 : fs) (m : gmap bytes bytes) : Prop :=
  ∃ σ', load_contents (Crypto.hex_hash c) (header_of c) σ1 =
      (Ret (PubFile (published (Crypto.hex_hash c)) true), σ') ∧
    view σ' (Pb ++ [Crypto.hex_hash c]) = Some (NFile contents) ∧ blob_dir σ' U m.

Lemma load_inline σ1 m c :
  blob_dir σ1 U m → view σ1 (Pb ++ [Crypto.hex_hash c]) = Some (NFile []) →
  (zlen c ≤ _blocksize this - 4)%Z → loads c c σ1 m.
Proof.
  intros HU1 Hv1 Hle. pose proof HL as (_ & _ & _ & _ & _ & Hbs).
  assert (Hz : (0 ≤ zlen c)%Z) by (unfold zlen; lia).
  unfold loads, load_contents, header_of, uint64. rewrite of_le32_le32, Z.mod_small by lia.
  destruct (Z.leb_spec (zlen c) (_blocksize this - 4)); [|lia].
  destruct (Z.leb_spec (zlen c) (_blocksize this)); [|lia].
  change (drop 4 (le32 ?z ++ ?l)) with l. rewrite Z.ltb_irrefl, take_ge by (unfold zlen; lia).
  replace (_blocksize this <? zlen c)%Z with false by (symmetry; apply Z.ltb_ge; lia). cbn [orb].
  eexists. split; [reflexivity|].
  pose proof (write_ok σ1 _ [] c (published_good c) Hv1) as Hw. split.
  - rewrite Hw, decide_True; [done|done|apply published_good].
  - apply (frame_blob (Pb ++ [Crypto.hex_hash c]) U σ1); [|apply published_apart|done].
    intros q Hq Hne. rewrite Hw, decide_False by (done || by intros ->). done.
Qed.

Lemma names_length (l : list (bytes * bytes)) :
  (∀ b, b ∈ l → ∃ x, b.1 = Crypto.hex_hash x) → length l ≤ length (concat l.*1).
Proof.
  induction l as [|b l IH]; intros Hl; cbn [fmap list_fmap concat length]; [lia|].
  destruct (Hl b ltac:(by left)) as [x Hx]. rewrite Hx, length_app, hex_hash_length.
  specialize (IH ltac:(intros; apply Hl; by right)). cbn [fmap list_fmap] in IH. unfold HASH_SIZE. lia.
Qed.

Lemma stored_names c : (stored_blocks c).*1 = (file_blocks c).*1.
Proof. unfold stored_blocks. induction (file_blocks c) as [|b l IH]; simpl; [done|]. f_equal. apply IH. Qed.

Lemma elem_of_stored c b : b ∈ stored_blocks c → ∃ b', b' ∈ file_blocks c ∧ b = (b'.1, stored_data c b').
Proof. intros Hb. apply list_elem_of_fmap in Hb as (b' & -> & ?). eauto. Qed.

(** No block that is not the last was overwritten by an empty one. *)
Definition none_emptied (c : bytes) : Prop :=
  ∀ i b, stored_blocks c !! i = Some b → S i < length (file_blocks c) → b.2 ≠ [].

Lemma load_blocks σ1 m0 m c :
  blob_dir σ1 U m → view σ1 (Pb ++ [Crypto.hex_hash c]) = Some (NFile []) →
  storable m0 c → (_blocksize this < zlen c)%Z → holds_file m0 m c → none_emptied c →
  loads c (concat (stored_blocks c).*2) σ1 m.
Proof.
  intros HU1 Hv1 (Hsz & _ & Hnh) Hgt [_ Hm] Hne. pose proof HL as (_ & _ & _ & _ & _ & Hbs).
  assert (Hz : (0 ≤ zlen c)%Z) by (unfold zlen; lia).
  unfold loads, load_contents, header_of, uint64. rewrite of_le32_le32, Z.mod_small by lia.
  destruct (Z.leb_spec (zlen c) (_blocksize this - 4)); [lia|].
  destruct (Z.leb_spec (zlen c) (_blocksize this)) as [|_]; [lia|].
  change (drop 4 (le32 ?z ++ ?l)) with l. rewrite <-stored_names.
  assert (Hx : ∀ b, b ∈ stored_blocks c → ∃ x, b.1 = Crypto.hex_hash x).
  { intros b (b' & Hb' & ->)%elem_of_stored. exact (blocks_of_names _ _ _ _ Hb'). }
  destruct (load_loop_ok (stored_blocks c) σ1 m Pb (Crypto.hex_hash c) []
    (S (length (concat (stored_blocks c).*1)))) as (σ' & Hrun & Hv & HU').
  - by apply Nat.lt_succ_r, names_length.
  - done.
  - apply published_apart.
  - apply published_good.
  - done.
  - done.
  - intros b (b' & Hb' & ->)%elem_of_stored. cbn [fst snd].
    destruct (resolve_Some _ _ Hb') as (b'' & _ & _ & Hr). unfold stored_data.
    rewrite Hm, Hr; [done|]. intros He. apply Hnh; [done|]. rewrite <-He.
    apply list_elem_of_fmap. by exists b'.
  - intros i b Hi Hl. apply (Hne i b Hi). unfold stored_blocks in Hl. by rewrite length_map in Hl.
  - exists σ'. rewrite (bind_run _ _ _ _ _ Hrun). done.
Qed.

(** Storing a large file and loading it publishes what its names stand for. *)
Lemma store_load_blocks σ m p c res :
  blob_dir σ U m → input_file σ p c → storable m c → publishable σ (Crypto.hex_hash c) →
  (_blocksize this < zlen c)%Z → none_emptied c →
  ∃ σ1 σ2, store_file this overread (path_of p) res σ = (Ret (true, Crypto.hex_hash c), σ1) ∧
    load_file this (Crypto.hex_hash c) σ1 = (Ret (PubFile (published (Crypto.hex_hash c)) true), σ2) ∧
    view σ2 (Pb ++ [Crypto.hex_hash c]) = Some (NFile (concat (stored_blocks c).*2)).
Proof.
  intros HU Hin Hst Hpub Hgt Hne.
  destruct (store_file_ok σ m p c res HU Hin Hst) as (σ1 & m1 & Hstore & HU1 & Hf & Hm1).
  destruct (load_open σ1 m1 c HU1 (frame_publishable _ _ _ Hf Hpub)) as (σ2 & Hopen & Hv2 & HU2).
  destruct (load_blocks σ2 m m1 c HU2 Hv2 Hst Hgt Hm1 Hne) as (σ3 & Hrun & Hv3 & _).
  exists σ1, σ3. split_and!; [done| |done].
  apply (load_file_run σ1 σ2 m1 c (header_of c)); [done|apply Hm1|apply header_length|done..].
Qed.

Lemma distinct_stored c : distinct_names c → stored_blocks c = file_blocks c.
Proof.
  intros Hd. unfold stored_blocks. rewrite <-(map_id (file_blocks c)) at 2. apply map_ext_in.
  intros b Hb%list_elem_of_In. destruct (resolve_Some _ _ Hb) as (b' & Hb' & Hk & Hr).
  unfold stored_data. rewrite Hr. simpl. rewrite (Hd _ _ Hb' Hb Hk). by destruct b.
Qed.

(** A file outside the store whose blocks can be told apart by name comes
    back: [store_file] answers the digest of its contents, and [load_file] of
    that digest publishes exactly these contents.  This holds for every size
    but those of the gap of [gap_file_lost]. *)
Lemma store_then_load σ m p c res :
  blob_dir σ U m → input_file σ p c → storable m c → publishable σ (Crypto.hex_hash c) →
  (zlen c ≤ _blocksize this - 4 ∨ _blocksize this < zlen c ∧ distinct_names c)%Z →
  ∃ σ1 σ2, store_file this overread (path_of p) res σ = (Ret (true, Crypto.hex_hash c), σ1) ∧
    load_file this (Crypto.hex_hash c) σ1 = (Ret (PubFile (published (Crypto.hex_hash c)) true), σ2) ∧
    view σ2 (Pb ++ [Crypto.hex_hash c]) = Some (NFile c).
Proof.
  intros HU Hin Hst Hpub [Hle|[Hgt Hd]].
  - destruct (store_file_ok σ m p c res HU Hin Hst) as (σ1 & m1 & Hstore & HU1 & Hf & Hm1).
    destruct (load_open σ1 m1 c HU1 (frame_publishable _ _ _ Hf Hpub)) as (σ2 & Hopen & Hv2 & HU2).
    destruct (load_inline σ2 m1 c HU2 Hv2 Hle) as (σ3 & Hrun & Hv3 & _).
    exists σ1, σ3. split_and!; [done| |done].
    apply (load_file_run σ1 σ2 m1 c (header_of c)); [done|apply Hm1|apply header_length|done..].
  - destruct (store_load_blocks σ m p c res HU Hin Hst Hpub Hgt) as (σ1 & σ2 & Hrest).
    + unfold none_emptied. rewrite distinct_stored by done. intros i b. apply file_blocks_nonempty.
      destruct HL as (_ & _ & _ & _ & _ & ?). lia.
    + rewrite distinct_stored in Hrest by done. unfold file_blocks in Hrest.
      rewrite blocks_of_data in Hrest. by exists σ1, σ2.
Qed.

(** C33 A file whose size is one of the last four up to the block size is
    stored in its header like a smaller one, but [load_file] takes the contents
    for a list of block names: the file that was stored successfully is not
    found. *)
Theorem gap_file_lost σ m p c res :
  blob_dir σ U m → input_file σ p c → storable m c → publishable σ (Crypto.hex_hash c) →
  (_blocksize this - 4 < zlen c ≤ _blocksize this)%Z →
  HASH_SIZE ≤ length c → let bid := take HASH_SIZE c in
  good_key bid → NUL ∉ bid → m !! bid = None → bid ≠ Crypto.hex_hash c →
  ∃ σ1 σ2, store_file this overread (path_of p) res σ = (Ret (true, Crypto.hex_hash c), σ1) ∧
    load_file this (Crypto.hex_hash c) σ1 = (Ret (PubFile [] false), σ2).
Proof.
  intros HU Hin Hst Hpub Hgap Hlen bid Hbid Hnul Hm Hne. pose proof HL as (HUd & _ & HgU & _ & _ & Hbs).
  destruct (store_file_ok σ m p c res HU Hin Hst) as (σ1 & m1 & Hstore & HU1 & Hf & Hm1 & Ho).
  destruct (load_open σ1 m1 c HU1 (frame_publishable _ _ _ Hf Hpub)) as (σ2 & Hopen & Hv2 & HU2).
  exists σ1, σ2. split; [done|].
  apply (load_file_run σ1 σ2 m1 c (header_of c)); [done|done|apply header_length|done| |done].
  unfold load_contents, header_of, uint64. rewrite of_le32_le32, Z.mod_small by (unfold zlen in *; lia).
  destruct (Z.leb_spec (zlen c) (_blocksize this - 4)); [lia|].
  destruct (Z.leb_spec (zlen c) (_blocksize this)); [|lia].
  change (drop 4 (le32 ?z ++ ?l)) with l. cbn [load_loop]. fold bid.
  assert (length bid = HASH_SIZE) as -> by (unfold bid; rewrite length_take; lia).
  replace (HASH_SIZE <? HASH_SIZE)%nat with false by done.
  destruct (hash_to_path_good bid Hbid) as (hp & Hhp & Hp).
  rewrite bind_assoc, Hhp, bind_lift_ret, bool_decide_false by done.
  rewrite bind_assoc, bind_gets, HUd, Hp, (ifs_open_none σ2); [done|by apply good_app_key|].
  rewrite (blob_at _ _ _ HU2), Ho by done. destruct (Z.leb_spec (zlen c) (_blocksize this)); [|lia].
  by rewrite Hm.
Qed.

Lemma c_string_nul pre x after : NUL ∉ pre → c_string (pre ++ NUL :: x) after = pre.
Proof.
  induction pre as [|a pre IH]; cbn [app c_string]; [by rewrite decide_True|].
  intros [Hne Hp]%not_elem_of_cons. rewrite decide_False by done. by rewrite IH.
Qed.

(** C34 Full blocks are named by the digest of what precedes their first NUL:
    a file of two full blocks that differ only behind it, and a shorter third
    one, is stored successfully but comes back with the second block twice. *)
Theorem nul_blocks_collapse σ m p pre x y t res :
  let bx := pre ++ NUL :: x in
  let b_y := pre ++ NUL :: y in
  let c := bx ++ b_y ++ t in
  blob_dir σ U m → input_file σ p c → storable m c → publishable σ (Crypto.hex_hash c) →
  NUL ∉ pre → zlen bx = _blocksize this → zlen b_y = _blocksize this →
  (zlen t < _blocksize this)%Z → Crypto.hex_hash t ≠ Crypto.hex_hash pre →
  ∃ σ1 σ2, store_file this overread (path_of p) res σ = (Ret (true, Crypto.hex_hash c), σ1) ∧
    load_file this (Crypto.hex_hash c) σ1 = (Ret (PubFile (published (Crypto.hex_hash c)) true), σ2) ∧
    view σ2 (Pb ++ [Crypto.hex_hash c]) = Some (NFile (b_y ++ b_y ++ t)).
Proof.
  intros bx b_y c HU Hin Hst Hpub Hpre Hx Hy Ht Hne.
  assert (Hc : zlen c = (2 * _blocksize this + zlen t)%Z).
  { unfold c, zlen in *. rewrite !length_app. lia. }
  assert (Hn : Z.to_nat (zlen c / _blocksize this) = 2).
  { rewrite Hc, Z.add_comm, Z.div_add, Z.div_small by (unfold zlen in *; lia). done. }
  assert (Hblocks : file_blocks c =
    [(Crypto.hex_hash pre, bx); (Crypto.hex_hash pre, b_y); (Crypto.hex_hash t, t)]).
  { unfold file_blocks. rewrite Hn, <-Hx. unfold zlen at 1. rewrite Nat2Z.id. cbn [blocks_of].
    unfold c. rewrite take_app_length, drop_app_length.
    assert (length bx = length b_y) as -> by (unfold zlen in *; lia).
    rewrite take_app_length, drop_app_length. unfold block_name, block_hash, bx, b_y.
    by rewrite !c_string_nul. }
  assert (Hstored : stored_blocks c =
    [(Crypto.hex_hash pre, b_y); (Crypto.hex_hash pre, b_y); (Crypto.hex_hash t, t)]).
  { unfold stored_blocks, stored_data. rewrite Hblocks. cbn [map fst resolve].
    repeat case_decide; by try congruence. }
  destruct (store_load_blocks σ m p c res HU Hin Hst Hpub) as (σ1 & σ2 & Hrest).
  - unfold zlen in *. destruct HL as (_ & _ & _ & _ & _ & ?). lia.
  - unfold none_emptied. rewrite Hstored, Hblocks. simpl.
    intros [|[|[|]]] b [= <-] Hl; simpl in *; [| |lia]; unfold b_y; by destruct pre.
  - rewrite Hstored in Hrest. simpl in Hrest. rewrite app_nil_r in Hrest. by exists σ1, σ2.
Qed.

(** A block is found under the digest of its contents. *)
Theorem store_get_block σ m content res :
  blob_dir σ U m → (zlen content < 2 ^ 32)%Z →
  ∃ σ', store_block this content σ = (Ret true, σ') ∧
    get_block this (Crypto.hex_hash content) res σ' = (Ret (true, Some content), σ') ∧
    blob_dir σ' U (<[Crypto.hex_hash content := content]> m).
Proof.
  intros HU Hsz. pose proof HL as (_ & _ & HgU & _). pose proof (good_key_hash content) as Hk.
  destruct (blob_mkdir σ U m _ HU Hk) as (σ1 & Hrun1 & Hd & HU1 & _).
  destruct (blob_write σ1 U m _ content HU1 Hk Hd) as (σ2 & Hrun2 & HU2 & _).
  destruct (unique_path content) as (hp & Hhp & Hpath).
  exists σ2. split_and!; [| |done].
  - unfold store_block. rewrite Hhp, bind_lift_ret, Hpath. by run.
  - unfold get_block. apply try_catch_ret. unfold load_block.
    erewrite bind_run; [|apply try_catch_ret]; [reflexivity|].
    rewrite Hhp, bind_lift_ret, bind_gets, Hpath, (ifs_open_file σ2 _ content);
      [|by apply good_app_key|by rewrite (blob_at _ _ _ HU2), lookup_insert_eq].
    unfold block_of, uint32. rewrite Z.mod_small, take_ge by (unfold zlen in *; lia). done.
Qed.

(** [get_file] remembers: once it has answered for an identifier it gives
    the same answer, found or not, whatever has been stored, removed or
    published since, until the cache evicts it. *)
Theorem get_file_sticky s id res r s1 s2 res' :
  LruCache.wf (_pubfile_cache s) → get_file this id res s = (Ret r, s1) →
  _pubfile_cache s2 = _pubfile_cache s1 →
  get_file this id res' s2 = (Ret (r.1, if r.1 then r.2 else res'), s2).
Proof.
  intros Hwf Hrun Hs2. unfold get_file in *. apply bind_inv in Hrun as (file & s' & Hcall & Hr).
  unfold on_pubfiles, zoom in Hcall.
  destruct (LruCache.call _ _ id (_pubfile_cache s, bs_fs s)) as [o [c' σ']] eqn:E.
  injection Hcall as -> <-. assert (Hs1 : s1 = State (_block_cache s) c' σ') by (destruct (pf_good file); by injection Hr).
  assert (Hcall2 : on_pubfiles (LruCache.call (load_file this) drop_public id) s2 = (Ret file, s2)).
  { unfold on_pubfiles, zoom. rewrite Hs2, Hs1. cbn [_pubfile_cache]. rewrite (LruCache.call_again _ _ _ _ _ _ _ _ _ Hwf E).
    rewrite Hs1 in Hs2. simpl in Hs2 |- *. rewrite <-Hs2. by destruct s2. }
  rewrite (bind_run _ _ _ _ _ Hcall2). by destruct (pf_good file); injection Hr as <- _.
Qed.
End proofs.

(** ** A new store *)
Section new.
Context `{HD : Digest} `{FS : FileSystem} {FL : FsLaws} {P G : Type}.
Implicit Types (s : init_state (P := P) (G := G)) (σ : fs) (A : list bytes).

Lemma init_fs_run {B} (m : M fs B) s a σ' :
  m (bs_fs (st_state s)) = (Ret a, σ') →
  init_fs m s = (Ret a, Init (st_mods s)
    (State (_block_cache (st_state s)) (_pubfile_cache (st_state s)) σ') (st_this s)).
Proof. unfold init_fs, zoom. by intros ->. Qed.

Definition root_dir A := A ++ [lit "blockstore"].
Definition public_dir A := root_dir A ++ [lit "public"].
Definition data_dir A := root_dir A ++ [lit "data"].
Definition mid_dir A := data_dir A ++ [lit "mid"].
Definition unique_dir A := data_dir A ++ [lit "unique"].
Definition new_dirs A : list (list bytes) :=
  [mid_dir A; unique_dir A; data_dir A; public_dir A; root_dir A].

Lemma new_dirs_below A q : q ∈ new_dirs A → root_dir A `prefix_of` q.
Proof.
  unfold new_dirs, mid_dir, unique_dir, data_dir, public_dir.
  rewrite !elem_of_cons, elem_of_nil.
  intros [->|[->|[->|[->|[->|[]]]]]]; rewrite <-?app_assoc;
    ((apply prefix_app_r; reflexivity) || reflexivity).
Qed.

(** The directories are different: by their length, or by their last name. *)
Ltac dir_ne :=
  unfold new_dirs, unique_dir, mid_dir, data_dir, public_dir, root_dir in *; rewrite ?not_elem_of_cons, <-?app_assoc;
  repeat split; first [apply not_elem_of_nil | by intros ?%(inj (app _))].
Ltac name_ok := apply (bool_decide_unpack _); by vm_compute.

Lemma new_good A : good A →
  good (root_dir A) ∧ good (public_dir A) ∧ good (data_dir A) ∧ good (unique_dir A) ∧ good (mid_dir A).
Proof.
  intros HA. assert (H1 : good (root_dir A)) by (apply good_snoc; [done|name_ok]).
  assert (H2 : good (data_dir A)) by (apply good_snoc; [done|name_ok]).
  split; [done|]. split; [apply good_snoc; [done|name_ok]|]. split; [done|].
  split; (apply good_snoc; [done|name_ok]).
Qed.

(** The five calls of [make_directory]. *)
Lemma block_dirs_made A σ :
  good A → view σ A = Some NDir → (∀ q, good q → root_dir A `prefix_of` q → view σ q = None) →
  ∃ σ1 σ2 σ3 σ4 σ5, make_directory (path_of (root_dir A)) σ = (Ret true, σ1) ∧
    make_directory (path_of (public_dir A)) σ1 = (Ret true, σ2) ∧
    make_directory (path_of (data_dir A)) σ2 = (Ret true, σ3) ∧
    make_directory (path_of (unique_dir A)) σ3 = (Ret true, σ4) ∧
    make_directory (path_of (mid_dir A)) σ4 = (Ret true, σ5) ∧ made (new_dirs A) σ σ5.
Proof.
  intros HA HdA Hnone. destruct (new_good A HA) as (G1 & G2 & G3 & G4 & G5).
  assert (Hno : ∀ q, good q → q ∈ new_dirs A → view σ q = None).
  { intros q Hq Hin. by apply Hnone, new_dirs_below. }
  assert (H0 : made [] σ σ) by done.
  destruct (make_directory_made σ σ [] A (lit "blockstore") H0) as (σ1 & R1 & M1);
    [done|done|by right|apply not_elem_of_nil|apply Hno; [done|unfold new_dirs; set_solver]|].
  destruct (make_directory_made σ σ1 _ (root_dir A) (lit "public") M1) as (σ2 & R2 & M2);
    [done|done|left; by left|..|apply Hno; [done|unfold new_dirs; set_solver]|].
  { dir_ne. }
  destruct (make_directory_made σ σ2 _ (root_dir A) (lit "data") M2) as (σ3 & R3 & M3);
    [done|done|left; set_solver|..|apply Hno; [done|unfold new_dirs; set_solver]|].
  { dir_ne. }
  destruct (make_directory_made σ σ3 _ (data_dir A) (lit "unique") M3) as (σ4 & R4 & M4);
    [done|done|left; set_solver|..|apply Hno; [done|unfold new_dirs; set_solver]|].
  { dir_ne. }
  destruct (make_directory_made σ σ4 _ (data_dir A) (lit "mid") M4) as (σ5 & R5 & M5);
    [done|done|left; set_solver|..|apply Hno; [done|unfold new_dirs; set_solver]|].
  { dir_ne. }
  by exists σ1, σ2, σ3, σ4, σ5.
Qed.

Lemma made_new A σ σ' :
  good A → (∀ q, good q → q `prefix_of` A → view σ q = Some NDir) →
  (∀ q, good q → root_dir A `prefix_of` q → view σ q = None) → made (new_dirs A) σ σ' →
  blob_dir σ' (unique_dir A) ∅ ∧ (∀ x, publishable (public_dir A) σ' (Crypto.hex_hash x)) ∧
  frame (root_dir A) σ σ'.
Proof.
  intros HA Hchain Hnone Hm. destruct (new_good A HA) as (G1 & G2 & G3 & G4 & G5). split_and!.
  - apply (made_blob (new_dirs A) σ); [done|done|..].
    + intros q Hq Hpre. unfold unique_dir, data_dir, root_dir in Hpre. rewrite <-!app_assoc in Hpre.
      apply prefix_app_cases in Hpre as [Hpre|(r & -> & Hr)]; [right; by apply Hchain|].
      destruct r as [|x r]; [right; rewrite app_nil_r in *; by apply Hchain|left].
      pose proof (prefix_cons_inv_1 _ _ _ _ Hr) as ->. apply prefix_cons_inv_2 in Hr.
      unfold new_dirs, mid_dir, unique_dir, data_dir, root_dir. rewrite <-!app_assoc.
      destruct r as [|x r]; [set_solver|].
      pose proof (prefix_cons_inv_1 _ _ _ _ Hr) as ->. apply prefix_cons_inv_2 in Hr.
      destruct r as [|x r]; [set_solver|].
      pose proof (prefix_cons_inv_1 _ _ _ _ Hr) as ->. apply prefix_cons_inv_2, prefix_nil_inv in Hr as ->.
      set_solver.
    + intros r Hr Hg. split; [|apply Hnone; [done|]].
      * destruct r; [done|]. dir_ne.
      * unfold unique_dir, data_dir. rewrite <-!app_assoc. by apply prefix_app_r.
  - intros x. assert (Hg : good (public_dir A ++ [Crypto.hex_hash x])).
    { apply good_snoc; [done|apply good_comp_hash]. }
    split; [rewrite Hm, decide_True; [done|unfold new_dirs; set_solver|done]|].
    intros n. rewrite Hm, decide_False by (done || dir_ne).
    rewrite Hnone; [done|done|]. unfold public_dir. rewrite <-app_assoc. by apply prefix_app_r.
  - apply (made_frame (new_dirs A)); [done|apply new_dirs_below].
Qed.

Lemma block_dirs_apart A : apart (unique_dir A) (public_dir A).
Proof.
  unfold unique_dir, public_dir, data_dir. rewrite <-app_assoc.
  split; intros Hp%prefix_app_inv; by apply prefix_cons_inv_1 in Hp.
Qed.

(** [initialise] under the default configuration, in a data directory
    without a block store: it connects the four file signals, succeeds, and
    leaves an empty store with blocks of 128 KiB and two empty caches, having
    touched nothing outside its directory. *)
Lemma initialise_new A me s :
  good A → (∀ q, good q → q `prefix_of` A → view (bs_fs (st_state s)) q = Some NDir) →
  (∀ q, good q → root_dir A `prefix_of` q → view (bs_fs (st_state s)) q = None) →
  ∃ s', initialise me (path_of A) (Some (λ _, None)) (λ _, None) s = (Ret true, s') ∧
    st_mods s' = ModuleManager.connect_files me (st_mods s) ∧
    layout (st_this s') (unique_dir A) (public_dir A) ∧ _blocksize (st_this s') = 131072%Z ∧
    blob_dir (bs_fs (st_state s')) (unique_dir A) ∅ ∧
    (∀ x, publishable (public_dir A) (bs_fs (st_state s')) (Crypto.hex_hash x)) ∧
    _block_cache (st_state s') = LruCache.Lru 512 [] ∧ _pubfile_cache (st_state s') = LruCache.Lru 16 [] ∧
    frame (root_dir A) (bs_fs (st_state s)) (bs_fs (st_state s')).
Proof.
  intros HA Hchain Hnone.
  destruct (block_dirs_made A (bs_fs (st_state s)) HA) as (σ1 & σ2 & σ3 & σ4 & σ5 & R1 & R2 & R3 & R4 & R5 & Hm);
    [by apply Hchain|done|].
  destruct (made_new A (bs_fs (st_state s)) σ5 HA Hchain Hnone Hm) as (HU & Hpub & Hfr).
  destruct (new_good A HA) as (G1 & G2 & G3 & G4 & G5).
  assert (H1 : path_of A ++ "/blockstore"%string = path_of (root_dir A)) by (unfold root_dir; by rewrite path_of_snoc).
  assert (Hn : ∀ d n, (path_of d ++ "/"%string) ++ n = path_of (d ++ [n])).
  { intros d n. rewrite path_of_snoc, <-app_assoc. done. }
  assert (H2 : (path_of (root_dir A) ++ "/"%string) ++ "public"%string = path_of (public_dir A)) by apply Hn.
  assert (H3 : (path_of (root_dir A) ++ "/"%string) ++ "data"%string = path_of (data_dir A)) by apply Hn.
  assert (H4 : (path_of (data_dir A) ++ "/"%string) ++ "unique"%string = path_of (unique_dir A)) by apply Hn.
  assert (H5 : (path_of (data_dir A) ++ "/"%string) ++ "mid"%string = path_of (mid_dir A)) by apply Hn.
  eexists. split.
  { unfold initialise. rewrite H1. unfold set_this, default, from_option. rewrite H2, H3, H4, H5. run.
    rewrite (bind_run _ _ _ _ _ (init_fs_run _ (Init _ (st_state s) _) _ _ R1)). run. cbn [st_mods st_state bs_fs _block_cache _pubfile_cache].
    rewrite (bind_run _ _ _ _ _ (init_fs_run _ (Init _ (State _ _ _) _) _ _ R2)). run. cbn [st_mods st_state bs_fs _block_cache _pubfile_cache].
    rewrite (bind_run _ _ _ _ _ (init_fs_run _ (Init _ (State _ _ _) _) _ _ R3)). run. cbn [st_mods st_state bs_fs _block_cache _pubfile_cache].
    rewrite (bind_run _ _ _ _ _ (init_fs_run _ (Init _ (State _ _ _) _) _ _ R4)). run. cbn [st_mods st_state bs_fs _block_cache _pubfile_cache].
    rewrite (bind_run _ _ _ _ _ (init_fs_run _ (Init _ (State _ _ _) _) _ _ R5)). run. reflexivity. }
  simpl. split; [done|]. split; [repeat (split; [done || apply block_dirs_apart|]); done|].
  split; [done|]. split; [done|]. split; [done|].
  split; [reflexivity|]. split; [reflexivity|done].
Qed.
End new.

(** ** A store in memory *)
Module Example.
#[local] Existing Instances example_digest MemFs.mem_fs MemFs.mem_fs_laws.

Definition root : list bytes := [lit "d"; lit "blockstore"].
Definition U : list bytes := root ++ [lit "data"; lit "unique"].
Definition Pb : list bytes := root ++ [lit "public"].
Definition input : list bytes := [lit "d"; lit "input"].

(** A store with blocks of [bs] bytes. *)
Definition this (bs : Z) : blockstore :=
  BS (path_of root ++ "/"%string) (path_of Pb ++ "/"%string) (path_of (root ++ [lit "data"; lit "mid"]) ++ "/"%string)
     (path_of U ++ "/"%string) (path_of (root ++ [lit "data"]) ++ "/"%string) bs.

(** An empty store, and a file to store. *)
Definition nodes (c : bytes) : list (list bytes * node) :=
  [([lit "d"], NDir); (root, NDir); (Pb, NDir); (root ++ [lit "data"], NDir); (U, NDir); (input, NFile c)].
Definition start (c : bytes) : MemFs.state := mem_of (nodes c).
Definition no_overread (_ : bytes) : bytes := [].

Lemma blocks_layout bs : (8 ≤ bs < 2 ^ 31)%Z → layout (this bs) U Pb.
Proof.
  intros Hbs. repeat (split; [done || (apply (bool_decide_unpack _); by vm_compute) ||
    (split; apply (bool_decide_unpack _); by vm_compute)|]). done.
Qed.

Lemma start_blob c : blob_dir (start c) U ∅.
Proof.
  apply mem_blob_dir; [apply (bool_decide_unpack _); by vm_compute|].
  apply andb_true_intro. split; [reflexivity|]. by vm_compute.
Qed.

Lemma start_input c : input_file U (start c) input c.
Proof.
  split_and!; [apply (bool_decide_unpack _); by vm_compute..|].
  unfold start. rewrite mem_at by (apply (bool_decide_unpack _); by vm_compute). reflexivity.
Qed.

Lemma start_publishable c x : publishable Pb (start c) (Crypto.hex_hash x).
Proof.
  assert (Hg : good (Pb ++ [Crypto.hex_hash x])).
  { apply good_snoc; [apply (bool_decide_unpack _); by vm_compute|apply good_comp_hash]. }
  split.
  - unfold start. rewrite mem_at by (apply (bool_decide_unpack _); by vm_compute). reflexivity.
  - intros n. unfold start. rewrite mem_at by done. rewrite mem_fresh_below; [done|by vm_compute|done].
Qed.

(** A file of three blocks of eight bytes. *)
Definition three : bytes := lit "first...second..end".

Lemma storable_three : storable (this 8) no_overread ∅ three ∧ distinct_names (this 8) no_overread three.
Proof.
  split; [split; [done|split; [apply lookup_empty|intros _]]|].
  - apply (bool_decide_unpack _). by vm_compute.
  - intros b b' Hb Hb' He. revert b b' Hb Hb' He. unfold file_blocks.
    cut (forallb (λ b, forallb (λ b', bool_decide (b.1 = b'.1 → b.2 = b'.2)) (file_blocks (this 8) no_overread three))
      (file_blocks (this 8) no_overread three) = true); [|by vm_compute].
    intros Hall b b' Hb%list_elem_of_In Hb'%list_elem_of_In. rewrite forallb_forall in Hall.
    apply Hall in Hb. rewrite forallb_forall in Hb. apply Hb in Hb'. by apply bool_decide_eq_true in Hb'.
Qed.

Lemma three_stored : ∃ σ1 σ2,
  store_file (this 8) no_overread (path_of input) [] (start three) = (Ret (true, Crypto.hex_hash three), σ1) ∧
  load_file (this 8) (Crypto.hex_hash three) σ1 =
    (Ret (PubFile (published Pb (Crypto.hex_hash three)) true), σ2) ∧
  node_at (FileSystem := MemFs.mem_fs) σ2 (path_of (Pb ++ [Crypto.hex_hash three])) = Some (NFile three).
Proof.
  exact (store_then_load (FS := MemFs.mem_fs) (this 8) no_overread U Pb (blocks_layout 8 ltac:(lia)) (start three) ∅
    input three [] (start_blob three) (start_input three) (proj1 storable_three) (start_publishable three three)
    (or_intror (conj eq_refl (proj2 storable_three)))).
Defined.

(** 130 bytes, with blocks of 132. *)
Definition gap : bytes := replicate 130 "a"%char.

Lemma storable_gap : storable (this 132) no_overread ∅ gap.
Proof. split; [done|split; [apply lookup_empty|done]]. Qed.

Lemma gap_file_lost_witness : ∃ σ1 σ2,
  store_file (this 132) no_overread (path_of input) [] (start gap) = (Ret (true, Crypto.hex_hash gap), σ1) ∧
  load_file (this 132) (Crypto.hex_hash gap) σ1 = (Ret (PubFile [] false), σ2).
Proof.
  apply (gap_file_lost (FS := MemFs.mem_fs) (this 132) no_overread U Pb (blocks_layout 132 ltac:(lia)) (start gap) ∅
    input gap [] (start_blob gap) (start_input gap) storable_gap (start_publishable gap gap)).
  - split; [reflexivity|discriminate].
  - apply Nat.leb_le. reflexivity.
  - apply (bool_decide_unpack _). by vm_compute.
  - apply (bool_decide_unpack _). by vm_compute.
  - apply lookup_empty.
  - apply (bool_decide_unpack _). by vm_compute.
Defined.

(** Two blocks that differ behind a NUL. *)
Definition twice : bytes := (lit "abc" ++ NUL :: lit "1111") ++ (lit "abc" ++ NUL :: lit "2222") ++ lit "end".

Lemma storable_twice : storable (this 8) no_overread ∅ twice.
Proof.
  split; [done|split; [apply lookup_empty|intros _]]. apply (bool_decide_unpack _). by vm_compute.
Qed.

Lemma nul_blocks_collapse_witness : ∃ σ1 σ2,
  store_file (this 8) no_overread (path_of input) [] (start twice) = (Ret (true, Crypto.hex_hash twice), σ1) ∧
  load_file (this 8) (Crypto.hex_hash twice) σ1 =
    (Ret (PubFile (published Pb (Crypto.hex_hash twice)) true), σ2) ∧
  node_at (FileSystem := MemFs.mem_fs) σ2 (path_of (Pb ++ [Crypto.hex_hash twice])) =
    Some (NFile ((lit "abc" ++ NUL :: lit "2222") ++ (lit "abc" ++ NUL :: lit "2222") ++ lit "end")).
Proof.
  apply (nul_blocks_collapse (FS := MemFs.mem_fs) (this 8) no_overread U Pb (blocks_layout 8 ltac:(lia))
    (start twice) ∅ input (lit "abc") (lit "1111") (lit "2222") (lit "end") []
    (start_blob twice) (start_input twice) storable_twice (start_publishable twice twice)).
  - apply (bool_decide_unpack _). by vm_compute.
  - reflexivity.
  - reflexivity.
  - reflexivity.
  - apply (bool_decide_unpack _). by vm_compute.
Defined.

Lemma store_get_block_witness : ∃ σ',
  store_block (this 8) (lit "block") (start []) = (Ret true, σ') ∧
  get_block (this 8) (Crypto.hex_hash (lit "block")) None σ' = (Ret (true, Some (lit "block")), σ') ∧
  blob_dir σ' U (<[Crypto.hex_hash (lit "block") := lit "block"]> ∅).
Proof.
  exact (store_get_block (FS := MemFs.mem_fs) (this 8) U Pb (blocks_layout 8 ltac:(lia)) (start []) ∅
    (lit "block") None (start_blob []) eq_refl).
Defined.

(** Asking for a file that is cached as missing, before and after it could be
    loaded. *)
Definition missing : state :=
  State (LruCache.Lru 4 []) (LruCache.Lru 4 [(Crypto.hex_hash three, PubFile [] false)]) (start three).

Lemma get_file_sticky_witness :
  get_file (this 8) (Crypto.hex_hash three) (lit "old")
    (State (LruCache.Lru 4 []) (_pubfile_cache missing)
       (store_file (this 8) no_overread (path_of input) [] (start three)).2) =
  (Ret (false, lit "old"),
    State (LruCache.Lru 4 []) (_pubfile_cache missing)
       (store_file (this 8) no_overread (path_of input) [] (start three)).2).
Proof.
  apply (get_file_sticky (FS := MemFs.mem_fs) (this 8) missing (Crypto.hex_hash three) [] (false, []) missing).
  - repeat split; [apply Nat.ltb_lt; reflexivity|apply Nat.leb_le; reflexivity|apply NoDup_singleton].
  - apply pair_eq_split; [vm_compute; reflexivity|]. reflexivity.
  - reflexivity.
Defined.
End Example.
End Blockstore.
