(* ===== verification/Program.v ===== *)
(** * The daemon's storage, put together

    A program state with the module manager, the files and both storage
    plugins.  The flat file store serves the key-value signals and the block
    store the file signals, as their [initialise] functions connect them.  The
    laws of the flat file store become laws of the signals, so that the
    theorems about DBManager and the RPC handlers apply to the whole program. *)

From S2P Require Import Prelude Crypto Base64 LruCache FileSystem KvStore StorePaths Db.
From S2P Require Import ModuleManager FFStore DbManager Json RpcManager JsonRpc Blockstore.
Local Open Scope prog_scope.

(** The two drivers of modules/localstorage that are built. *)
Inductive plugin := FlatFile | Blocks.

Section program.
Context `{HD : Digest} `{FS : FileSystem}.
(** ConfigManager::datadir, the parts of the configuration the two plugins
    read, and what a read behind a block buffer finds. *)
Context (datadir : bytes) (ff_config : bytes → option bytes)
  (bs_config : option (bytes → option bytes)) (bs_config_int : bytes → option Z)
  (overread : bytes → bytes).

(** There are no utilities here: [Empty_set] is the type of their handles. *)
Record world := World {
  w_mods : ModuleManager.modules plugin Empty_set;
  w_fs : fs;
  w_ff : FFStore.ffstore;
  w_bs : Blockstore.blockstore;
  w_blocks : LruCache.lru_cache bytes bytes;
  w_pubfiles : LruCache.lru_cache bytes public_file;
}.

(** *** The parts of the state the components work on *)
Definition ff_part (w : world) : FFStore.init_state :=
  FFStore.Init (w_mods w) (w_fs w) (w_ff w).
Definition set_ff_part (s : FFStore.init_state) (w : world) : world :=
  World (FFStore.st_mods s) (FFStore.st_fs s) (FFStore.st_this s) (w_bs w) (w_blocks w) (w_pubfiles w).

Definition bs_state (w : world) : Blockstore.state := Blockstore.State (w_blocks w) (w_pubfiles w) (w_fs w).
Definition set_bs_state (s : Blockstore.state) (w : world) : world :=
  World (w_mods w) (Blockstore.bs_fs s) (w_ff w) (w_bs w) (Blockstore._block_cache s) (Blockstore._pubfile_cache s).

Definition bs_part (w : world) : Blockstore.init_state := Blockstore.Init (w_mods w) (bs_state w) (w_bs w).
Definition set_bs_part (s : Blockstore.init_state) (w : world) : world :=
  let σ := Blockstore.st_state s in
  World (Blockstore.st_mods s) (Blockstore.bs_fs σ) (w_ff w) (Blockstore.st_this s)
    (Blockstore._block_cache σ) (Blockstore._pubfile_cache σ).

Definition set_fs (σ : fs) (w : world) : world :=
  World (w_mods w) σ (w_ff w) (w_bs w) (w_blocks w) (w_pubfiles w).

(** *** The flat file store as a key-value store on its files and members *)
Definition ff_get (w : world) : fs * FFStore.ffstore := (w_fs w, w_ff w).
Definition ff_set (s : fs * FFStore.ffstore) (w : world) : world :=
  World (w_mods w) (fst s) (snd s) (w_bs w) (w_blocks w) (w_pubfiles w).

Definition with_this {A} (m : FFStore.ffstore → M fs A) : M (fs * FFStore.ffstore) A :=
  λ s, zoom fst (λ σ s, (σ, snd s)) (m (snd s)) s.

#[export] Instance this_kv : KvStore (fs * FFStore.ffstore) := {|
  KvStore.kv_put k v := with_this (λ t, FFStore.kv_put t k v);
  KvStore.kv_get k r := with_this (λ t, FFStore.kv_get t k r);
  KvStore.kv_remove k := with_this (λ t, FFStore.kv_remove t k);
|}.

(** *** The plugins *)
Definition flat_file : LocalStorage.LocalStorage world :=
  let base := LocalStorage.base (lit "ffstore") LocalStorage.PLAIN
    (zoom ff_part set_ff_part (FFStore.initialise FlatFile datadir ff_config)) in {|
  LocalStorage.getName := LocalStorage.getName base;
  LocalStorage.getType := LocalStorage.getType base;
  LocalStorage.initialise := LocalStorage.initialise base;
  LocalStorage.db_store_snapshot := LocalStorage.db_store_snapshot base;
  LocalStorage.db_store_diff := LocalStorage.db_store_diff base;
  LocalStorage.db_store_obj := LocalStorage.db_store_obj base;
  LocalStorage.db_remove := LocalStorage.db_remove base;
  LocalStorage.db_get_snapshot := LocalStorage.db_get_snapshot base;
  LocalStorage.db_get_diff := LocalStorage.db_get_diff base;
  LocalStorage.db_get_obj := LocalStorage.db_get_obj base;
  LocalStorage.plg_kv_put k v := zoom ff_get ff_set (KvStore.kv_put k v);
  LocalStorage.plg_kv_get k r := zoom ff_get ff_set (KvStore.kv_get k r);
  LocalStorage.plg_kv_remove k := zoom ff_get ff_set (KvStore.kv_remove k);
  LocalStorage.plg_store_file := LocalStorage.plg_store_file base;
  LocalStorage.plg_get_file := LocalStorage.plg_get_file base;
  LocalStorage.plg_remove_file := LocalStorage.plg_remove_file base;
  LocalStorage.plg_get_block := LocalStorage.plg_get_block base;
|}.

(** An operation of the block store on its files, and on its caches too. *)
Definition on_files {A} (m : Blockstore.blockstore → M fs A) : M world A :=
  λ w, zoom w_fs set_fs (m (w_bs w)) w.
Definition on_blockstore {A} (m : Blockstore.blockstore → M Blockstore.state A) : M world A :=
  λ w, zoom bs_state set_bs_state (m (w_bs w)) w.

Definition block_store : LocalStorage.LocalStorage world :=
  let base := LocalStorage.base (lit "blockstore") LocalStorage.BINARY
    (zoom bs_part set_bs_part (Blockstore.initialise Blocks datadir bs_config bs_config_int)) in {|
  LocalStorage.getName := LocalStorage.getName base;
  LocalStorage.getType := LocalStorage.getType base;
  LocalStorage.initialise := LocalStorage.initialise base;
  LocalStorage.db_store_snapshot := LocalStorage.db_store_snapshot base;
  LocalStorage.db_store_diff := LocalStorage.db_store_diff base;
  LocalStorage.db_store_obj := LocalStorage.db_store_obj base;
  LocalStorage.db_remove := LocalStorage.db_remove base;
  LocalStorage.db_get_snapshot := LocalStorage.db_get_snapshot base;
  LocalStorage.db_get_diff := LocalStorage.db_get_diff base;
  LocalStorage.db_get_obj := LocalStorage.db_get_obj base;
  LocalStorage.plg_kv_put k v := on_blockstore (λ t, Blockstore.kv_put t k v);
  LocalStorage.plg_kv_get k r := on_blockstore (λ t, Blockstore.kv_get t k r);
  LocalStorage.plg_kv_remove k := on_blockstore (λ t, Blockstore.kv_remove t k);
  LocalStorage.plg_store_file path res := on_files (λ t, Blockstore.store_file t overread path res);
  LocalStorage.plg_get_file i res := on_blockstore (λ t, Blockstore.get_file t i res);
  LocalStorage.plg_remove_file i := on_files (λ t, Blockstore.remove_file t i);
  LocalStorage.plg_get_block i res := on_files (λ t, Blockstore.get_block t i res);
|}.

#[export] Instance world_modules : HasModules world plugin Empty_set := {|
  mods := w_mods;
  set_mods m w := World m (w_fs w) (w_ff w) (w_bs w) (w_blocks w) (w_pubfiles w);
  plg p := match p with FlatFile => flat_file | Blocks => block_store end;
  util_initialise g := match g with end;
|}.
End program.

(** ** The contract of the running program *)
Section laws.
Context `{HD : Digest} `{FS : FileSystem} {FL : FsLaws}.
Context (L D : list bytes).

(** The flat file store with its members as set by [initialise]. *)
#[export] Instance this_laws : @KvLaws (fs * FFStore.ffstore) HD this_kv.
Proof.
  refine {| kv_ok := FFStore.key_ok;
            kv_refines s m := FFStore.layout (snd s) L D ∧ FFStore.holds L D (fst s) m;
            kv_ok_short := FFStore.key_ok_short |}.
  - intros [σ t] m k v [Hl Hh] Hk Hv.
    destruct (kv_put_ok (KvLaws := FFStore.ff_laws t L D Hl) σ m k v Hh Hk Hv) as (σ' & Hr & Hh').
    exists (σ', t). simpl in *. unfold with_this, zoom. simpl. by rewrite Hr.
  - intros [σ t] m k [Hl Hh] Hk Hm.
    destruct (kv_remove_present (KvLaws := FFStore.ff_laws t L D Hl) σ m k Hh Hk Hm) as (σ' & Hr & Hh').
    exists (σ', t). simpl in *. unfold with_this, zoom. simpl. by rewrite Hr.
  - intros [σ t] m k [Hl Hh] Hk Hm. simpl in *. unfold with_this, zoom. simpl.
    pose proof (kv_remove_absent (KvLaws := FFStore.ff_laws t L D Hl) σ m k Hh Hk Hm) as Hr.
    simpl in Hr. by rewrite Hr.
  - intros [σ t] m k r [Hl Hh] Hk Hm. simpl in *. unfold with_this, zoom. simpl.
    pose proof (kv_get_absent (KvLaws := FFStore.ff_laws t L D Hl) σ m k r Hh Hk Hm) as Hr.
    simpl in Hr. by rewrite Hr.
  - intros [σ t] m k r [Hl Hh] Hk Hm. simpl in *. unfold with_this, zoom. simpl.
    destruct (kv_get_present (KvLaws := FFStore.ff_laws t L D Hl) σ m k r Hh Hk Hm) as (h & v & Hi & Hv & Hr).
    simpl in Hr. exists h, v. by rewrite Hr.
Defined.
End laws.

Section boot.
Context `{HD : Digest} `{FS : FileSystem} {FL : FsLaws}.
Context (overread : bytes → bytes) (A : list bytes).

(** The directories of the two stores under the data directory [A]. *)
Definition link_dir : list bytes := A ++ [lit "ffstore"; lit "link"].
Definition raw_dir : list bytes := A ++ [lit "ffstore"; lit "raw"].
Definition blocks_dir : list bytes := Blockstore.unique_dir A.
Definition public_dir : list bytes := Blockstore.public_dir A.

(** The default configuration: no value is set. *)
#[local] Instance booted_modules : HasModules world plugin Empty_set :=
  world_modules (path_of A) (λ _, None) (Some (λ _, None)) (λ _, None) overread.
#[local] Existing Instance Manager.mm_kv.
#[local] Existing Instance this_kv.
#[local] Instance link_raw_laws : @KvLaws (fs * FFStore.ffstore) HD this_kv := this_laws link_dir raw_dir.

(** The key-value signals as the running program offers them. *)
#[export] Instance program_laws : @KvLaws world HD Manager.mm_kv :=
  single_laws ff_get ff_set FlatFile (λ s w, match s with (_, _) => eq_refl end)
    (λ w, match w with World _ _ _ _ _ _ => eq_refl end) (λ _ _, eq_refl)
    (λ _ _, eq_refl) (λ _ _, eq_refl) (λ _, eq_refl).

(** A program state once the modules are initialised: the flat file store
    holds [m], the block store the blocks [b]. *)
Record running (w : world) (m : KvSpec.spec) (b : gmap bytes bytes) : Prop := {
  running_kv : kv_refines (S := world) w m;
  running_files : ModuleManager.sig_store_file (w_mods w) = [Blocks] ∧
    ModuleManager.sig_get_file (w_mods w) = [Blocks] ∧ ModuleManager.sig_remove_file (w_mods w) = [Blocks];
  running_layout : Blockstore.layout (w_bs w) blocks_dir public_dir;
  running_blocks : blob_dir (w_fs w) blocks_dir b;
  running_caches : LruCache.wf (w_blocks w) ∧ LruCache.wf (w_pubfiles w);
}.

Lemma stores_apart p q :
  p ∈ [link_dir; raw_dir] → q = A ++ [lit "blockstore"] → apart q p.
Proof.
  intros Hp ->. rewrite !elem_of_cons, elem_of_nil in Hp. unfold link_dir, raw_dir in Hp.
  destruct Hp as [->|[->|[]]]; split; intros Hq%prefix_app_inv; by apply prefix_cons_inv_1 in Hq.
Qed.

Lemma new_cache_wf (V : Type) n : 0 < n → LruCache.wf (LruCache.Lru n ([] : list (bytes * V))).
Proof. intros Hp. split; [done|]. split; [apply Nat.le_0_l|apply NoDup_nil_2]. Qed.

Lemma load_modules_ok (kernel_loadPlugin : bytes → M world bool) names w :
  (∀ path, kernel_loadPlugin path w = (Ret true, w)) →
  Manager.load_modules kernel_loadPlugin names w = (Ret true, w).
Proof.
  intros Hload. induction names as [|n names IH]; [done|]. simpl.
  assert (Manager.loadPlugin kernel_loadPlugin n ("./"%string ++ n ++ ".so"%string) n w = (Ret true, w)) as Hl.
  { unfold Manager.loadPlugin. by rewrite (bind_run _ _ _ _ _ (Hload _)). }
  by rewrite (bind_run _ _ _ _ _ Hl).
Qed.

(** The module manager starts the program. *)
Lemma init_running (kernel_loadPlugin : bytes → M world bool) names w :
  good A → (∀ q, good q → q `prefix_of` A → view (w_fs w) q = Some NDir) →
  (∀ q, good q → (A ++ [lit "ffstore"]) `prefix_of` q → view (w_fs w) q = None) →
  (∀ q, good q → (A ++ [lit "blockstore"]) `prefix_of` q → view (w_fs w) q = None) →
  w_mods w = ModuleManager.empty → (∀ path, kernel_loadPlugin path w = (Ret true, w)) →
  ∃ w', Manager.init kernel_loadPlugin names (λ _, [FlatFile; Blocks]) (λ _, []) w = (Ret true, w') ∧
    running w' KvSpec.empty ∅ ∧ Blockstore._blocksize (w_bs w') = 131072%Z ∧
    (∀ x, Blockstore.publishable public_dir (w_fs w') (Crypto.hex_hash x)) ∧
    ModuleManager._localstorages (w_mods w') = [FlatFile; Blocks] ∧ w_pubfiles w' = LruCache.Lru 16 [] ∧
    (∀ q, good q → ¬ ((A ++ [lit "ffstore"]) `prefix_of` q) → ¬ ((A ++ [lit "blockstore"]) `prefix_of` q) →
      view (w_fs w') q = view (w_fs w) q).
Proof.
  intros HA Hchain Hff Hbs Hmods Hload.
  pose proof (load_modules_ok kernel_loadPlugin names w Hload) as Hnames.
  destruct (FFStore.initialise_ok A FlatFile (ff_part w) HA Hchain Hff) as (s1 & R1 & Hm1 & Hl1 & Hh1 & Hf1).
  assert (I1 : LocalStorage.initialise (plg FlatFile) w = (Ret true, set_ff_part s1 w)).
  { simpl. unfold zoom. by rewrite R1. }
  set (w1 := set_mods (ModuleManager.push_localstorage FlatFile (mods (set_ff_part s1 w))) (set_ff_part s1 w)).
  assert (Hap : apart (A ++ [lit "ffstore"]) (A ++ [lit "blockstore"])).
  { split; intros Hq%prefix_app_inv; by apply prefix_cons_inv_1 in Hq. }
  destruct (Blockstore.initialise_new A Blocks (bs_part w1) HA) as (s2 & R2 & Hm2 & Hl2 & Hbs2 & Hb2 & Hp2 & Hc2 & Hc2' & Hf2).
  { intros q Hq Hpre. simpl. rewrite <-(Hchain q Hq Hpre). apply Hf1; [done|].
    intros Hc. pose proof (prefix_length _ _ Hpre). apply prefix_length in Hc.
    rewrite length_app in Hc. simpl in Hc. lia. }
  { intros q Hq Hpre. simpl. rewrite <-(Hbs q Hq Hpre). apply Hf1; [done|].
    intros Hc. destruct (prefix_weak_total _ _ _ Hpre Hc); by destruct Hap. }
  assert (I2 : LocalStorage.initialise (plg Blocks) w1 = (Ret true, set_bs_part s2 w1)).
  { simpl. unfold zoom. by rewrite R2. }
  eexists. split.
  { unfold Manager.init. rewrite (bind_run _ _ _ _ _ Hnames), bind_gets. cbn [Manager.create_localstorages].
    rewrite bind_assoc, (bind_run _ _ _ _ _ I1), bind_assoc, bind_modify.
    change (set_mods (ModuleManager.push_localstorage FlatFile (mods (set_ff_part s1 w))) (set_ff_part s1 w)) with w1.
    rewrite bind_assoc, (bind_run _ _ _ _ _ I2), bind_assoc, bind_modify, bind_ret, bind_gets. reflexivity. }
  simpl. simpl in Hm1, Hm2. rewrite Hmods in Hm1. rewrite Hm2, Hm1. simpl.
  split; [|split; [done|split; [done|split; [done|split; [done|]]]]].
  2:{ intros q Hq Hq1 Hq2. rewrite Hf2 by done. by apply Hf1. }
  split; simpl; [| |done|done|rewrite Hc2, Hc2'; split; (apply new_cache_wf, Nat.ltb_lt; reflexivity)].
  - split; [done|]. split; [done|]. simpl. destruct Hh1. split; [..|done|done].
    + apply (frame_blob (A ++ [lit "blockstore"]) raw_dir (FFStore.st_fs s1)); [exact Hf2| |done].
      apply stores_apart; [set_solver|done].
    + apply (frame_multi _ (A ++ [lit "blockstore"]) link_dir (FFStore.st_fs s1)); [exact Hf2| |done].
      apply stores_apart; [set_solver|done].
  - done.
Qed.

(** C9 The module manager starts the program: in a data directory without the
    two stores, [init] loads the libraries, initialises the two plugins, and
    leaves an empty database behind the key-value signals, which only the flat
    file store serves, and an empty block store with 128 KiB blocks behind the
    file signals. *)
Theorem boot_running `{Clock} `{Archive} (kernel_loadPlugin : bytes → M world bool) names w :
  good A → (∀ q, good q → q `prefix_of` A → view (w_fs w) q = Some NDir) →
  (∀ q, good q → (A ++ [lit "ffstore"]) `prefix_of` q → view (w_fs w) q = None) →
  (∀ q, good q → (A ++ [lit "blockstore"]) `prefix_of` q → view (w_fs w) q = None) →
  w_mods w = ModuleManager.empty → (∀ path, kernel_loadPlugin path w = (Ret true, w)) →
  ∃ w', Manager.init kernel_loadPlugin names (λ _, [FlatFile; Blocks]) (λ _, []) w = (Ret true, w') ∧
    DBManager.database w' ∅ ∧ ModuleManager.sig_kv_get (w_mods w') = [FlatFile] ∧
    ModuleManager.sig_store_file (w_mods w') = [Blocks] ∧ Blockstore._blocksize (w_bs w') = 131072%Z ∧
    blob_dir (w_fs w') blocks_dir ∅.
Proof.
  intros HA Hchain Hff Hbs Hmods Hload.
  destruct (init_running kernel_loadPlugin names w HA Hchain Hff Hbs Hmods Hload)
    as (w' & Hrun & [Hkv (Hsf & _) _ Hb _] & Hsz & _).
  exists w'. split; [done|]. split; [exists KvSpec.empty; split; [done|by split]|].
  by destruct Hkv as ((_ & ? & _) & _).
Qed.

(** *** Files through the RPC interface *)
Import RPC_Request RpcManager.

Lemma single_store_file w path res ok id σ :
  ModuleManager.sig_store_file (w_mods w) = [Blocks] →
  Blockstore.store_file (w_bs w) overread path res (w_fs w) = (Ret (ok, id), σ) →
  Manager.store_file path res w = (Ret (ok, id), set_fs σ w).
Proof.
  intros Hsig Hrun. unfold Manager.store_file. simpl. rewrite Hsig. simpl.
  unfold bind, on_files, zoom. rewrite Hrun. by destruct ok.
Qed.

Lemma single_get_file w i res ok path s :
  ModuleManager.sig_get_file (w_mods w) = [Blocks] →
  Blockstore.get_file (w_bs w) i res (bs_state w) = (Ret (ok, path), s) →
  Manager.get_file i res w = (Ret (ok, path), set_bs_state s w).
Proof.
  intros Hsig Hrun. unfold Manager.get_file. simpl. rewrite Hsig. simpl.
  unfold bind, on_blockstore, zoom. rewrite Hrun. by destruct ok.
Qed.

(** A file loaded for the first time, into a cache that has room. *)
Lemma get_file_miss this i res file c s σ' :
  LruCache.find i (LruCache.container c) = None →
  (length (LruCache.container c) < LruCache.capacity c)%nat →
  Blockstore.load_file this i (Blockstore.bs_fs s) = (Ret file, σ') → pf_good file = true →
  Blockstore._pubfile_cache s = c →
  ∃ s', Blockstore.get_file this i res s = (Ret (true, pf_path file), s') ∧ Blockstore.bs_fs s' = σ'.
Proof.
  intros Hf Hroom Hrun Hgood Hc. unfold Blockstore.get_file.
  assert (Hcall : LruCache.call (Blockstore.load_file this) Blockstore.drop_public i (c, Blockstore.bs_fs s) =
    (Ret file, (LruCache.Lru (LruCache.capacity c) (LruCache.container_insert i file (LruCache.container c)), σ'))).
  { rewrite (LruCache.call_miss _ _ _ _ _ _ _ Hf Hrun). unfold LruCache.insert.
    rewrite decide_False by lia. done. }
  unfold bind, Blockstore.on_pubfiles, zoom. rewrite Hc, Hcall, Hgood. eexists. done.
Qed.

(** C6 A file goes through the RPC interface and back: file.put of a path
    outside the store answers with the digest of the contents, and file.get of
    that digest with the path of a published file of the same contents. For
    contents below 2^32 bytes that have no header in the store yet; whose size
    is at most the block size less four, or above the block size with no two
    different blocks of one name (blocks that differ only behind a NUL share
    one) and none named as the file: the sizes in between are lost;
    when the cache has room and does not hold the digest. *)
Theorem file_put_get w m b root1 root2 response z1 z2 ps1 ps2 p c :
  running w m b → request_doc root1 z1 ps1 → good_id z1 → assoc "path"%string ps1 = Some (VStr (path_of p)) →
  Blockstore.input_file blocks_dir (w_fs w) p c → Blockstore.storable (w_bs w) overread b c →
  Blockstore.publishable public_dir (w_fs w) (Crypto.hex_hash c) →
  (zlen c ≤ Blockstore._blocksize (w_bs w) - 4 ∨
    Blockstore._blocksize (w_bs w) < zlen c ∧ Blockstore.distinct_names (w_bs w) overread c)%Z →
  LruCache.find (Crypto.hex_hash c) (LruCache.container (w_pubfiles w)) = None →
  length (LruCache.container (w_pubfiles w)) < LruCache.capacity (w_pubfiles w) →
  request_doc root2 z2 ps2 → good_id z2 → assoc "id"%string ps2 = Some (VStr (Crypto.hex_hash c)) →
  ∃ w1 w2, file_put root1 response w = (Ret (true, reply z1 [(lit "id", VStr (Crypto.hex_hash c))]), w1) ∧
    file_get root2 response w1 =
      (Ret (true, reply z2 [(lit "path", VStr (Blockstore.published public_dir (Crypto.hex_hash c)))]), w2) ∧
    view (w_fs w2) (public_dir ++ [Crypto.hex_hash c]) = Some (NFile c).
Proof.
  intros [_ (Hsf & Hgf & _) Hl Hb _] Hr1 Hz1 Hp Hin Hst Hpub Hsz Hf Hroom Hr2 Hz2 Hid.
  destruct (Blockstore.store_then_load (w_bs w) overread blocks_dir public_dir Hl (w_fs w) b p c []
    Hb Hin Hst Hpub Hsz) as (σ1 & σ2 & Hstore & Hload & Hv).
  destruct (get_file_miss (w_bs w) (Crypto.hex_hash c) [] _ (w_pubfiles w) (bs_state (set_fs σ1 w)) σ2 Hf Hroom Hload
    eq_refl eq_refl) as (s' & Hget & Hs').
  exists (set_fs σ1 w), (set_bs_state s' (set_fs σ1 w)). split_and!.
  - exact (file_put_run w root1 response z1 ps1 _ _ _ Hr1 Hz1 Hp (single_store_file _ _ _ _ _ _ Hsf Hstore)).
  - exact (file_get_run (set_fs σ1 w) root2 response z2 ps2 _ _ _ Hr2 Hz2 Hid (single_get_file (set_fs σ1 w) _ _ _ _ _ Hgf Hget)).
  - simpl. by rewrite Hs'.
Qed.
End boot.

(** ** The RPC server *)
Section server.
Context `{HD : Digest} `{HC : Clock} `{HA : Archive} {W P G : Type} `{HM : HasModules W P G}.
Context (BUFFERSIZE : nat) (now : ptime).
Implicit Types (w : W) (root response : Value).

(** The handler's list as [Handler()] leaves it: system.describe, which reads
    the names and descriptions of [m_methods] when it is called. *)
Definition Handler (m_methods : list (JsonRpc.CallbackMethod (W := W))) : list JsonRpc.CallbackMethod :=
  JsonRpc.AddMethod (JsonRpc.RpcMethod (lit "system.describe") (JsonRpc.SystemDescribe m_methods)) [].

(** [RPCManager::init]: the calls of [AddMethod], in order. *)
Definition register (l : list (JsonRpc.CallbackMethod (W := W))) : list JsonRpc.CallbackMethod :=
  foldl (λ l m, JsonRpc.AddMethod (JsonRpc.RpcMethod (fst m) (snd m)) l) l (RpcManager.methods BUFFERSIZE now).

(** The list system.describe sees is the same, with itself in front: its
    entry has the name and the description of the real one. *)
Definition server : list JsonRpc.CallbackMethod :=
  register (Handler (register (Handler []))).

Lemma register_app l :
  register l = l ++ map (λ m, JsonRpc.RpcMethod (fst m) (snd m)) (RpcManager.methods BUFFERSIZE now).
Proof.
  unfold register. generalize (RpcManager.methods (W := W) BUFFERSIZE now). intros ms. revert l.
  induction ms as [|m ms IH]; intros l; simpl; [by rewrite app_nil_r|].
  rewrite IH. unfold JsonRpc.AddMethod. by rewrite <-app_assoc.
Qed.

Lemma Lookup_registered name h l (ms : list (bytes * RpcManager.handler (W := W))) :
  NoDup ms.*1 → (name, h) ∈ ms → (∀ m, m ∈ l → JsonRpc.GetName m ≠ name) →
  JsonRpc.Lookup name (l ++ map (λ m, JsonRpc.RpcMethod (fst m) (snd m)) ms) = Some (JsonRpc.RpcMethod name h).
Proof.
  intros Hnd Hin. induction l as [|x l IH]; intros Hl; simpl.
  - clear Hl. induction ms as [|[n h'] ms IH]; [by apply elem_of_nil in Hin|].
    simpl in *. apply NoDup_cons in Hnd as [Hn Hnd]. apply elem_of_cons in Hin as [[= -> ->]|Hin].
    + by rewrite decide_True.
    + rewrite decide_False; [by apply IH|]. intros ->. apply Hn. apply list_elem_of_fmap. by exists (name, h).
  - rewrite decide_False by (apply Hl; left). apply IH. intros m Hm. apply Hl. by right.
Qed.

Lemma method_names_NoDup : NoDup (RpcManager.methods (W := W) BUFFERSIZE now).*1.
Proof. apply (bool_decide_unpack _). by vm_compute. Qed.

Lemma server_lookup name h :
  (name, h) ∈ RpcManager.methods BUFFERSIZE now →
  name ≠ [] ∧ JsonRpc.Lookup name server = Some (JsonRpc.RpcMethod name h).
Proof.
  intros Hin.
  assert (Hne : name ≠ [] ∧ name ≠ lit "system.describe").
  { revert Hin. unfold RpcManager.methods.
    intros Hin. repeat (apply elem_of_cons in Hin as [[= -> _]|Hin]; [by split; intros [=]|]).
    by apply elem_of_nil in Hin. }
  split; [apply Hne|]. unfold server. rewrite register_app.
  rewrite (Lookup_registered name h); [done|apply method_names_NoDup|done|].
  intros m ->%list_elem_of_singleton. simpl. by destruct Hne.
Qed.

(** C21 Every method [RPCManager::init] registers is reached under its name:
    a well-formed request that names it is that handler's call. *)
Theorem registered_methods_dispatch name h root response w :
  (name, h) ∈ RpcManager.methods BUFFERSIZE now →
  JsonRpc.well_formed root = true → JsonRpc.method_of root = name →
  JsonRpc.Process_value server root response w = h root response w.
Proof.
  intros Hin Hwf Hname. destruct (server_lookup name h Hin) as [Hne Hl].
  rewrite JsonRpc.process_wf by (done || by rewrite Hname). by rewrite Hname, Hl.
Qed.

(** system.describe never answers: the reply it is to fill is the null
    value, which the connection passes and which has no members to assign. *)
Theorem describe_throws root w :
  JsonRpc.well_formed root = true → JsonRpc.method_of root = lit "system.describe" →
  JsonRpc.Process_value server root VNull w = (Throw runtime_error, w).
Proof.
  intros Hwf Hname. rewrite JsonRpc.process_wf by (done || by rewrite Hname). unfold server.
  rewrite register_app, Hname. reflexivity.
Qed.
End server.

(** ** A program in memory *)
Module Example.
#[local] Existing Instances example_digest example_clock
  ExampleArchive.archive ExampleArchive.archive_law MemFs.mem_fs MemFs.mem_fs_laws.

Definition A : list bytes := [lit "d"].
Definition input : list bytes := [lit "d"; lit "input"].
Definition no_overread (_ : bytes) : bytes := [].

#[local] Instance example_modules : HasModules world plugin Empty_set := booted_modules no_overread A.
#[local] Existing Instance Manager.mm_kv.
#[local] Instance example_laws : @KvLaws world example_digest Manager.mm_kv :=
  program_laws (FL := MemFs.mem_fs_laws) no_overread A.

(** A data directory with nothing but a file to store. *)
Definition text : bytes := lit "some text".
Definition nodes : list (list bytes * node) := [(A, NDir); (input, NFile text)].
Definition before : world :=
  World ModuleManager.empty (mem_of nodes) (FFStore.FF [] [] []) (Blockstore.BS [] [] [] [] [] 0)
    (LruCache.Lru 0 []) (LruCache.Lru 0 []).
Definition loading (_ : bytes) : M world bool := ret true.

(** The program once [init] has run. *)
Definition booted : world :=
  (Manager.init loading [lit "ffstore"; lit "blockstore"] (λ _, [FlatFile; Blocks]) (λ _, []) before).2.

Lemma datadir_good : good A.
Proof. apply (bool_decide_unpack _). by vm_compute. Qed.

Lemma chain q : good q → q `prefix_of` A → node_at (FileSystem := MemFs.mem_fs) (w_fs before) (path_of q) = Some NDir.
Proof.
  intros Hq Hp. cbn [w_fs before]. rewrite (mem_at nodes q Hq). destruct q as [|c q]; [by destruct Hq|].
  pose proof (prefix_cons_inv_1 _ _ _ _ Hp) as ->.
  apply prefix_cons_inv_2, prefix_nil_inv in Hp as ->. reflexivity.
Qed.

Lemma below n q : n ≠ lit "input" → good q → (A ++ [n]) `prefix_of` q →
  node_at (FileSystem := MemFs.mem_fs) (w_fs before) (path_of q) = None.
Proof.
  intros Hn Hq [r ->]. cbn [w_fs before]. rewrite (mem_at nodes _ Hq). apply not_elem_of_list_to_map_1.
  unfold nodes, A, input. cbn [fmap list_fmap fst app]. rewrite !not_elem_of_cons.
  split; [by intros [=]|]. split; [by intros [= -> _]|apply not_elem_of_nil].
Qed.

Lemma booted_running :
  running no_overread A booted KvSpec.empty ∅ ∧ Blockstore._blocksize (w_bs booted) = 131072%Z ∧
  (∀ x, Blockstore.publishable (public_dir A) (w_fs booted) (Crypto.hex_hash x)) ∧
  w_pubfiles booted = LruCache.Lru 16 [] ∧
  node_at (FileSystem := MemFs.mem_fs) (w_fs booted) (path_of input) = Some (NFile text).
Proof.
  destruct (init_running (FS := MemFs.mem_fs) no_overread A loading [lit "ffstore"; lit "blockstore"] before
    datadir_good chain) as (w' & Hrun & Hw & Hsz & Hp & _ & Hc & Hf).
  - intros q. by apply below.
  - intros q. by apply below.
  - done.
  - done.
  - unfold booted. change example_modules with (booted_modules (FS := MemFs.mem_fs) no_overread A) in *.
    rewrite Hrun. split; [done|]. split; [done|]. split; [done|]. split; [done|]. cbn [snd].
    rewrite Hf; [|apply (bool_decide_unpack _); by vm_compute..]. cbn [w_fs before].
    rewrite mem_at by (apply (bool_decide_unpack _); by vm_compute). reflexivity.
Qed.

Lemma boot_running_witness : ∃ w',
  Manager.init loading [lit "ffstore"; lit "blockstore"] (λ _, [FlatFile; Blocks]) (λ _, []) before = (Ret true, w') ∧
  DBManager.database w' ∅ ∧ ModuleManager.sig_kv_get (w_mods w') = [FlatFile] ∧
  ModuleManager.sig_store_file (w_mods w') = [Blocks] ∧ Blockstore._blocksize (w_bs w') = 131072%Z ∧
  blob_dir (w_fs w') (blocks_dir A) ∅.
Proof.
  exact (boot_running (FS := MemFs.mem_fs) no_overread A loading [lit "ffstore"; lit "blockstore"] before
    datadir_good chain (λ q, below (lit "ffstore") q ltac:(done)) (λ q, below (lit "blockstore") q ltac:(done))
    eq_refl (λ _, eq_refl)).
Defined.

(** Requests, as they come from the JSON reader. *)
Definition request (method : string) (z : Z) (ps : list (bytes * Value)) : Value :=
  VObj [(lit "jsonrpc", VStr "2.0"%string); (lit "method", VStr method); (lit "params", VObj ps); (lit "id", VInt z)].

Lemma request_ok method z ps : request_doc (request method z ps) z ps.
Proof. eexists. split; [reflexivity|]. by split. Qed.

Lemma good_1 : good_id 1.
Proof. split; [split; [discriminate|reflexivity]|discriminate]. Qed.

Lemma storable_text : Blockstore.storable (w_bs booted) no_overread ∅ text.
Proof.
  destruct booted_running as (_ & Hsz & _).
  split; [done|split; [apply lookup_empty|]]. rewrite Hsz. by intros.
Qed.

Lemma file_put_get_witness : ∃ w1 w2,
  RpcManager.file_put (request "file.put" 1 [(lit "path", VStr (path_of input))]) VNull booted =
    (Ret (true, reply 1 [(lit "id", VStr (Crypto.hex_hash text))]), w1) ∧
  RpcManager.file_get (request "file.get" 1 [(lit "id", VStr (Crypto.hex_hash text))]) VNull w1 =
    (Ret (true, reply 1 [(lit "path", VStr (Blockstore.published (public_dir A) (Crypto.hex_hash text)))]), w2) ∧
  node_at (FileSystem := MemFs.mem_fs) (w_fs w2) (path_of (public_dir A ++ [Crypto.hex_hash text])) = Some (NFile text).
Proof.
  destruct booted_running as (Hw & Hsz & Hp & Hc & Hin).
  apply (file_put_get (FS := MemFs.mem_fs) no_overread A booted KvSpec.empty ∅ _ _ VNull 1 1
    [(lit "path", VStr (path_of input))] [(lit "id", VStr (Crypto.hex_hash text))] input text
    Hw (request_ok _ 1 _) good_1 eq_refl).
  - split_and!; [apply (bool_decide_unpack _); by vm_compute..|exact Hin].
  - exact storable_text.
  - apply Hp.
  - left. rewrite Hsz. discriminate.
  - rewrite Hc. reflexivity.
  - rewrite Hc. apply Nat.ltb_lt. reflexivity.
  - apply request_ok.
  - exact good_1.
  - reflexivity.
Defined.

(** *** Objects *)
Definition o1 : Object := DBManager.created 0 (lit "a") (object_id (lit "a")) Object_new.
Definition o2 : Object := DBManager.updated 0 (lit "ab") o1.
Definition create_root : Value := request "object.create" 1 [(lit "content", VStr "YQ=="%string)].

(** The program once the first object is created. *)
Definition created : world := (RpcManager.CreateObject 5 0 create_root VNull booted).2.

Lemma booted_database : DBManager.database booted ∅.
Proof.
  destruct booted_running as ([Hkv _ _ _ _] & _). exists KvSpec.empty. split; [exact Hkv|by split].
Qed.

Lemma created_id_ok : kv_ok (S := world) (object_id (lit "a")).
Proof. change (good_key (validate_key (object_id (lit "a")))). apply (bool_decide_unpack _). by vm_compute. Qed.

Lemma o1_admissible : DBManager.admissible o1 ∅.
Proof. split; [exact created_id_ok|split; [by vm_compute|apply DBManager.no_clash_empty]]. Qed.

Lemma o2_admissible : DBManager.admissible o2 ∅.
Proof. split; [exact created_id_ok|split; [by vm_compute|apply DBManager.no_clash_empty]]. Qed.

Lemma created_database : DBManager.database created (DBManager.store o1 ∅).
Proof.
  destruct (CreateObject_new 5 0 booted ∅ create_root VNull 1 [(lit "content", VStr "YQ=="%string)] (lit "YQ==") (lit "a"))
    as (w' & Hrun & Hdb).
  - apply request_ok.
  - exact good_1.
  - reflexivity.
  - reflexivity.
  - reflexivity.
  - exact booted_database.
  - apply lookup_empty.
  - exact o1_admissible.
  - unfold created. by rewrite Hrun.
Qed.

Lemma created_there : DBManager.store o1 ∅ !! validate_key (object_id (lit "a")) = Some (serialize o1).
Proof. apply lookup_insert_eq. Qed.

Definition get_root : Value := request "object.get" 1 [(lit "id", VStr (object_id (lit "a")))].

Lemma object_create_get_witness : ∃ w' e,
  RpcManager.CreateObject 5 0 create_root VNull booted = (Ret (true, reply 1 [(lit "id", VStr (object_id (lit "a")))]), w') ∧
  RpcManager.GetObject 5 get_root VNull w' = (Ret (true, reply 1 [(lit "content", VStr e)]), w') ∧
  Base64.decode 5 e = Some (Some (lit "a")).
Proof.
  apply (object_create_get 5 0 booted ∅ create_root get_root VNull 1 1
    [(lit "content", VStr "YQ=="%string)] [(lit "id", VStr (object_id (lit "a")))] (lit "YQ==") (lit "a")).
  - apply Nat.ltb_lt. reflexivity.
  - apply request_ok.
  - exact good_1.
  - reflexivity.
  - reflexivity.
  - reflexivity.
  - exact booted_database.
  - apply lookup_empty.
  - exact o1_admissible.
  - apply request_ok.
  - exact good_1.
  - reflexivity.
  - reflexivity.
Defined.

Definition update_params : list (bytes * Value) :=
  [(lit "content", VStr "YWI="%string); (lit "id", VStr (object_id (lit "a")))].

Lemma object_update_get_witness : ∃ w' e,
  RpcManager.CreateObject 5 0 (request "object.create" 1 update_params) VNull created =
    (Ret (true, reply 1 [(lit "id", VStr (object_id (lit "a")))]), w') ∧
  RpcManager.GetObject 5 get_root VNull w' = (Ret (true, reply 1 [(lit "content", VStr e)]), w') ∧
  Base64.decode 5 e = Some (Some (lit "ab")).
Proof.
  apply (object_update_get 5 0 created (DBManager.store o1 ∅) (request "object.create" 1 update_params) get_root VNull
    1 1 update_params [(lit "id", VStr (object_id (lit "a")))] (lit "YWI=") (lit "ab") (object_id (lit "a")) (serialize o1)).
  - apply Nat.ltb_lt. reflexivity.
  - apply request_ok.
  - exact good_1.
  - reflexivity.
  - reflexivity.
  - reflexivity.
  - exact created_database.
  - exact created_id_ok.
  - exact created_there.
  - apply (bool_decide_unpack _). by vm_compute.
  - unfold DBManager.store. change (o_id o1) with (object_id (lit "a")). rewrite delete_insert_eq, delete_empty. exact o2_admissible.
  - apply request_ok.
  - exact good_1.
  - reflexivity.
  - reflexivity.
Defined.

Definition full_params : list (bytes * Value) := [(lit "id", VStr (object_id (lit "a"))); (lit "full", VBool true)].

Lemma get_full_is_empty_witness :
  RpcManager.GetObject 5 (request "object.get" 1 full_params) VNull created = (Ret (true, reply 1 []), created).
Proof.
  exact (get_full_is_empty 5 created (DBManager.store o1 ∅) _ VNull 1 full_params (object_id (lit "a")) (serialize o1)
    (request_ok _ 1 _) good_1 eq_refl eq_refl created_database created_id_ok created_there).
Defined.

(** *** Values *)
Definition kept : world := (Manager.kv_put (lit "key") (lit "value") booted).2.

Lemma key_ok : kv_ok (S := world) (lit "key").
Proof. by apply kv_ok_short. Qed.

Lemma kept_refines :
  kv_refines (S := world) kept (KvSpec.put (validate_key (lit "key")) (lit "value") KvSpec.empty).
Proof.
  destruct booted_running as ([Hkv _ _ _ _] & _).
  destruct (kv_put_ok (S := world) booted KvSpec.empty (lit "key") (lit "value") Hkv key_ok) as (w' & Hrun & HR).
  - reflexivity.
  - change (Manager.kv_put (lit "key") (lit "value") booted = (Ret true, w')) in Hrun. unfold kept. by rewrite Hrun.
Qed.

Lemma kv_get_forgets_value_witness : ∃ e,
  RpcManager.kv_get 5 (request "kv.get" 1 [(lit "key", VStr "key"%string)]) VNull kept =
    (Ret (true, reply 1 [(lit "content", VStr e)]), kept) ∧ Base64.decode 5 e = Some (Some []).
Proof.
  apply (kv_get_forgets_value 5 kept (KvSpec.put (validate_key (lit "key")) (lit "value") KvSpec.empty)
    _ VNull 1 [(lit "key", VStr "key"%string)] (lit "key")).
  - apply Nat.ltb_lt. reflexivity.
  - apply request_ok.
  - exact good_1.
  - reflexivity.
  - exact kept_refines.
  - exact key_ok.
  - unfold KvSpec.put. cbn [KvSpec.links]. rewrite lookup_insert_eq. eauto.
  - unfold KvSpec.put, KvSpec.names. cbn [KvSpec.links KvSpec.empty]. rewrite lookup_insert_eq, lookup_empty.
    cbn [from_option id]. rewrite (right_id_L ∅ (∪)), elem_of_singleton. by intros ?%(f_equal length).
Defined.

(** *** Refused requests *)
Definition no_id : list (bytes * Value) :=
  [(lit "jsonrpc", VStr "2.0"%string); (lit "params", VObj [(lit "key", VStr "k"%string)])].

Lemma invalid_id_throws_witness :
  RpcManager.kv_get 5 (VObj no_id) VNull booted = (Throw runtime_error, booted).
Proof.
  apply (invalid_id_throws 5 0 (VObj no_id) VNull booted no_id); [reflexivity..|].
  unfold validating. do 4 apply list_elem_of_further. apply list_elem_of_here.
Defined.

Lemma wrong_type_refused_witness :
  RpcManager.kv_remove (request "kv.remove" 1 [(lit "key", VInt 3)]) VNull booted =
    (Ret (false, error_reply 1 (lit "key" ++ " has the wrong type"%string)), booted).
Proof.
  apply (wrong_type_refused 5 0 _ VNull booted 1 [(lit "key", VInt 3)]).
  - apply request_ok.
  - exact good_1.
  - unfold single_parameter. do 5 apply list_elem_of_further. apply list_elem_of_here.
  - discriminate.
Defined.

(** *** Requests to the server *)
Lemma registered_methods_dispatch_witness :
  JsonRpc.Process_value (server 5 0) get_root VNull created = RpcManager.GetObject 5 get_root VNull created.
Proof.
  apply (registered_methods_dispatch 5 0 (lit "object.get")); [|reflexivity|reflexivity].
  unfold RpcManager.methods. do 4 apply list_elem_of_further. apply list_elem_of_here.
Defined.

Lemma describe_throws_witness :
  JsonRpc.Process_value (server 5 0) (request "system.describe" 1 []) VNull booted = (Throw runtime_error, booted).
Proof. apply (describe_throws 5 0); reflexivity. Defined.
End Example.
