(* ===== verification/Wire.v ===== *)
(** * From the socket to the stores and back

    [Replies]: what the registered handlers of rpc_manager.cc may answer, as a
    document: nothing, or an object of version 2.0 with an object as its result
    and an integer id, of strings and small integers throughout.  Such a reply
    is written and read back without loss.  [Wire]: a client of the server of
    rpc_server.cc with these methods, from the text of its requests to the text
    of the replies. *)

From S2P Require Import Prelude Crypto Base64 FileSystem KvStore Db DbManager Json JsonWriter JsonReader JsonText ModuleManager RpcManager JsonRpc Protocol RpcServer Program.
Local Open Scope prog_scope.

Module Replies.
Import JsonWriter JsonReader JsonText RPC_Request RpcManager.

(** ** The documents *)

Definition plain_members (o : list (bytes * Value)) : Prop := Forall (λ m, plain (snd m) = true) o.

(** The members [_init] and the constructor make, and those added later. *)
Inductive typed_reply : Value → Prop :=
  | Typed_reply data error z more :
      plain_members data → (- 2 ^ 31 ≤ z < 2 ^ 31)%Z → plain_members more →
      typed_reply (VObj ([(lit "jsonrpc", VStr "2.0"%string); (lit "result", VObj data); (lit "error", VStr error);
                          (lit "id", VInt z)] ++ more)).

Lemma plain_obj o : plain_members o → plain (VObj o) = true.
Proof.
  intros Ho. cbn [plain]. apply forallb_forall. intros [n v] Hin%list_elem_of_In.
  by apply (proj1 (Forall_forall _ _) Ho (n, v)).
Qed.

Lemma typed_plain v : typed_reply v → plain v = true.
Proof.
  intros [data error z more Hd Hz Hm]. apply plain_obj. apply Forall_app. split; [|done].
  repeat constructor; cbn [snd]; [by apply plain_obj|]. cbn [plain].
  rewrite (proj2 (Z.leb_le _ _)), (proj2 (Z.ltb_lt _ _)) by lia. done.
Qed.

Lemma plain_update key x o : plain_members o → plain x = true → plain_members (assoc_update key x o).
Proof.
  intros Ho Hx. induction Ho as [|[n v] o Hv Ho IH]; cbn [assoc_update]; [by repeat constructor|].
  case_decide; by constructor.
Qed.

Lemma assoc_update_ne key x n v o : n ≠ key → assoc_update key x ((n, v) :: o) = (n, v) :: assoc_update key x o.
Proof. intros Hn. cbn [assoc_update]. by rewrite decide_False. Qed.

Lemma int32_range z : (- 2 ^ 31 ≤ int32 z < 2 ^ 31)%Z.
Proof. unfold int32. pose proof (Z.mod_pos_bound (z + 2 ^ 31) (2 ^ 32) ltac:(lia)). lia. Qed.

Lemma get_int_range v z : get_int v = Ret z → (- 2 ^ 31 ≤ z < 2 ^ 31)%Z.
Proof. unfold get_int. destruct (get_int64 v); intros [=]. subst. apply int32_range. Qed.

(** ** What a computation returns *)
Section yields.
Context {S : Type}.

Definition yields {A} (m : M S A) (Q : A → Prop) : Prop := ∀ s a s', m s = (Ret a, s') → Q a.

Lemma yields_any {A} (m : M S A) : yields m (λ _, True).
Proof. done. Qed.

Lemma yields_ret {A} (a : A) (Q : A → Prop) : Q a → yields (ret a) Q.
Proof. intros Ha s a' s' [= <- _]. done. Qed.

Lemma yields_undef {A} (Q : A → Prop) : yields undef Q.
Proof. by intros s a s' [=]. Qed.

Lemma yields_bind {A B} (m : M S A) (k : A → M S B) (P : A → Prop) (Q : B → Prop) :
  yields m P → (∀ a, P a → yields (k a) Q) → yields (bind m k) Q.
Proof. intros Hm Hk s b s' (a & s1 & Ha & Hb)%bind_inv. by eapply Hk; [eapply Hm|]. Qed.

Lemma yields_then {A B} (m : M S A) (k : A → M S B) (Q : B → Prop) : (∀ a, yields (k a) Q) → yields (bind m k) Q.
Proof. intros Hk. eapply yields_bind; [apply yields_any|auto]. Qed.

Lemma yields_lift {A} (o : outcome A) (Q : A → Prop) : (∀ a, o = Ret a → Q a) → yields (lift_outcome o) Q.
Proof. intros Ho s a s' [= Ha _]. auto. Qed.

Lemma edit_assign field x o (s : S) : edit (assign field x) (VObj o) s = (Ret (VObj (assoc_update field x o)), s).
Proof. done. Qed.

Lemma yields_assign field s v :
  field ≠ lit "jsonrpc" → field ≠ lit "result" → field ≠ lit "id" →
  typed_reply v → yields (edit (assign field (VStr s)) v) typed_reply.
Proof.
  intros Hj Hr Hi [data error z more Hd Hz Hm] w a w'. rewrite edit_assign. intros [Ha _]%pair_equal_spec.
  assert (VObj (assoc_update field (VStr s) ([(lit "jsonrpc", VStr "2.0"%string); (lit "result", VObj data);
    (lit "error", VStr error); (lit "id", VInt z)] ++ more)) = a) as <- by congruence. cbn [app].
  do 2 rewrite assoc_update_ne by congruence. destruct (decide (lit "error" = field)) as [<-|He].
  - by apply (Typed_reply data s z more).
  - do 2 rewrite assoc_update_ne by congruence.
    by apply (Typed_reply data error z (assoc_update field (VStr s) more)); try apply plain_update.
Qed.

Lemma yields_add name s v : typed_reply v → yields (edit (RPC_Response.add_data name (VStr s)) v) typed_reply.
Proof.
  intros [data error z more Hd Hz Hm] w a w' [= <- _].
  apply (Typed_reply (data ++ [(name, VStr s)]) error z more); try done.
  apply Forall_app. split; [done|by repeat constructor].
Qed.
End yields.

Lemma yields_zoom {W S A} (get : W → S) set (m : M S A) (Q : A → Prop) : yields m Q → yields (zoom get set m) Q.
Proof. intros Hm w a w'. unfold zoom. destruct (m (get w)) as [o s] eqn:He. intros [= -> _]. by eapply Hm. Qed.

Lemma createResponse_typed : yields createResponse typed_reply.
Proof.
  apply yields_then. intros id. eapply yields_bind; [apply yields_lift, get_int_range|]. intros z Hz.
  apply yields_ret, (Typed_reply [] [] z []); [constructor|done|constructor].
Qed.

Lemma createErrorResponse_typed : yields createErrorResponse typed_reply.
Proof.
  eapply yields_bind; [apply createResponse_typed|]. intros v Hv. apply yields_then. intros error.
  by apply yields_assign.
Qed.

(** ** The handlers *)
Section handlers.
Context `{HD : Digest} `{HC : Clock} `{HA : Archive} {W P G : Type} `{HM : HasModules W P G}.
Context (BUFFERSIZE : nat) (now : ptime).

(** The response the body assigns, which it always does. *)
Definition answered (r : bool * option Value) : Prop := ∃ v, snd r = Some v ∧ typed_reply v.
Definition body_typed (b : body (W := W)) : Prop := yields b answered.

Lemma answered_some ok v : typed_reply v → answered (ok, Some v).
Proof. intros Hv. by exists v. Qed.

Lemma req_response : yields (req (W := W) createResponse) typed_reply.
Proof. apply yields_zoom, createResponse_typed. Qed.
Lemma req_error_response : yields (req (W := W) createErrorResponse) typed_reply.
Proof. apply yields_zoom, createErrorResponse_typed. Qed.

Lemma failure_typed field message :
  field = lit "err" ∨ field = lit "error" → body_typed (failure field message).
Proof.
  intros Hf. eapply yields_bind; [apply req_error_response|]. intros v Hv.
  eapply yields_bind; [by apply yields_assign; destruct Hf as [-> | ->]|]. intros v' Hv'. by apply yields_ret, answered_some.
Qed.

Lemma success_typed name s : body_typed (success name (VStr s)).
Proof.
  eapply yields_bind; [apply req_response|]. intros v Hv.
  eapply yields_bind; [by apply yields_add|]. intros v' Hv'. by apply yields_ret, answered_some.
Qed.

Lemma validated_typed rules b : body_typed b → body_typed (validated rules b).
Proof.
  intros Hb. apply yields_then. intros []; [done|].
  eapply yields_bind; [apply req_error_response|]. intros v Hv. by apply yields_ret, answered_some.
Qed.

Lemma store_created_typed o : body_typed (store_created o).
Proof. apply yields_then. intros [[] o']; [apply success_typed|apply failure_typed; by left]. Qed.

(** The steps of a body: replies are followed, other results forgotten. *)
Ltac yields_step :=
  lazymatch goal with
  | |- yields (success _ _) _ => apply success_typed
  | |- yields (failure _ _) _ => apply failure_typed; first [by left|by right]
  | |- yields (store_created _) _ => apply store_created_typed
  | |- yields (ret (_, Some _)) _ => apply yields_ret, answered_some; assumption
  | |- yields undef _ => apply yields_undef
  | |- yields (bind (req createResponse) _) _ => eapply yields_bind; [apply req_response|intros ? ?]
  | |- yields (bind (edit (RPC_Response.add_data _ _) _) _) _ => eapply yields_bind; [apply yields_add; assumption|intros ? ?]
  | |- yields (bind _ _) _ => apply yields_then; intros ?
  | |- yields (if ?b then _ else _) _ => destruct b
  | |- yields (match ?b with Some _ => _ | None => _ end) _ => destruct b
  end.
Ltac yields_body := unfold body_typed; repeat yields_step.

Lemma typed_handler b root w ok v w' : body_typed b → handle b root VNull w = (Ret (ok, v), w') → typed_reply v.
Proof.
  intros Hb. unfold handle. destruct (b (w, Req root [])) as [[[ok' [v'|]]| |] [w1 r]] eqn:He; intros [=]; subst.
  - apply Hb in He as (v1 & [= <-] & ?). done.
  - apply Hb in He as (v1 & [=] & ?).
Qed.

(** Every handler but those that leave the response alone. *)
Definition answers_typed (h : handler (W := W)) : Prop :=
  ∀ root w ok v w', h root VNull w = (Ret (ok, v), w') → v = VNull ∨ typed_reply v.

Lemma handle_answers b : body_typed b → answers_typed (handle b).
Proof. intros Hb root w ok v w' Hh. right. by eapply typed_handler. Qed.

Lemma ret_answers : answers_typed (λ root response, ret (false, response)).
Proof. intros root w ok v w' [= _ <- _]. by left. Qed.

Lemma CreateObject_typed : answers_typed (CreateObject BUFFERSIZE now).
Proof. apply handle_answers, validated_typed. yields_body. Qed.

Lemma GetObject_typed : answers_typed (GetObject BUFFERSIZE).
Proof.
  apply handle_answers, validated_typed. unfold body_typed. do 3 yields_step. yields_step; [|by yields_step].
  cbv zeta. do 3 yields_step. apply (yields_bind _ _ typed_reply); [|intros; by yields_step].
  yields_step; yields_step; [|by apply yields_add].
  yields_step. by apply yields_ret.
Qed.

Lemma file_put_typed : answers_typed file_put.
Proof. apply handle_answers, validated_typed. yields_body. Qed.
Lemma file_get_typed : answers_typed file_get.
Proof. apply handle_answers, validated_typed. yields_body. Qed.
Lemma kv_get_typed : answers_typed (kv_get BUFFERSIZE).
Proof. apply handle_answers, validated_typed. yields_body. Qed.
Lemma kv_put_typed : answers_typed (kv_put BUFFERSIZE).
Proof. apply handle_answers, validated_typed. yields_body. Qed.
Lemma kv_remove_typed : answers_typed kv_remove.
Proof. apply handle_answers, validated_typed. yields_body. Qed.
Lemma RuntimeInfo_typed : answers_typed RuntimeInfo.
Proof. apply handle_answers. yields_body. Qed.

Lemma BootstrapFromPeer_typed : answers_typed BootstrapFromPeer.
Proof. intros root w ok v w' (s & w1 & _ & (v' & w2 & [=] & _)%bind_inv)%bind_inv. Qed.
Lemma BootstrapFromHostlist_typed : answers_typed BootstrapFromHostlist.
Proof. intros root w ok v w' (s & w1 & _ & [= _ <- _])%bind_inv. by left. Qed.

Lemma methods_typed : Forall (λ m, answers_typed (snd m)) (methods BUFFERSIZE now).
Proof.
  unfold methods. repeat apply Forall_cons_2; try apply Forall_nil_2; cbn [snd];
    auto using RuntimeInfo_typed, BootstrapFromPeer_typed, BootstrapFromHostlist_typed, CreateObject_typed,
      GetObject_typed, file_put_typed, file_get_typed, kv_get_typed, kv_put_typed, kv_remove_typed, ret_answers.
Qed.

(** C24 Whatever a registered method answers on a connection has the type of a
    reply: nothing, or an object with version 2.0, an object as its result and
    an integer id, of strings and integers throughout; and what is written for
    it reads back as the same document. *)
Theorem reply_type `{HSp : Spirit} {SL : SpiritLaws} append_double name h root w ok v w' rest :
  (name, h) ∈ methods BUFFERSIZE now → h root VNull w = (Ret (ok, v), w') →
  (v = VNull ∨ typed_reply v) ∧ (stops rest → read (write append_double v ++ rest) = Some v).
Proof.
  intros Hin Hh. assert (Hv : v = VNull ∨ typed_reply v).
  { by eapply (proj1 (Forall_forall _ _) methods_typed (name, h)). }
  split; [done|]. intros Hrest. apply read_written; [|done]. destruct Hv as [->|Hv]; [done|by apply typed_plain].
Qed.
End handlers.
End Replies.

(** ** From text to text *)
Module Wire.
Import JsonWriter JsonReader JsonText RPC_Request RpcManager Protocol RpcServer.
#[local] Existing Instance Manager.mm_kv.

Section wire.
Context `{HD : Digest} `{HC : Clock} `{HA : Archive} {AL : ArchiveLaw}.
Context {W P G : Type} `{HM : HasModules W P G} {KL : @KvLaws W HD Manager.mm_kv}.
Context `{HSp : Spirit} {SL : SpiritLaws} (append_double : Z → Z → bytes).
Context (BUFFERSIZE : nat) (now : ptime).
Implicit Types (s : @server W) (root : Value).

(** A request for [method] with the parameters [ps], once its spaces are
    gone. *)
Definition request_for (method : bytes) root (z : Z) (ps : list (bytes * Value)) : Prop :=
  plain root = true ∧ request_doc (despace root) z ps ∧ JsonRpc.method_of (despace root) = method.

Lemma request_well_formed method root z ps :
  request_for method root z ps → method ≠ [] → JsonRpc.well_formed (despace root) = true ∧ type root ≠ array_type.
Proof.
  intros (Hp & (o & Ho & Hv & Hi & Hps) & Hm) Hne. split; [|intros Ht; by destruct root].
  rewrite Ho in *. unfold JsonRpc.well_formed. rewrite Hv, Hi, bool_decide_true by done. cbn [andb].
  unfold JsonRpc.method_of in Hm. destruct (assoc "method"%string o) as [[]|]; try done; by subst.
Qed.

(** One request over the socket, answered by its handler. *)
Lemma served s i out method h root z ps ds v w' b :
  connections s !! i = Some (Connection [] [] out) → RpcServer.Read i ∈ pending s → NoDup (pending s) →
  RpcServer.Write i ∉ pending s → jsonHandler_ s = Program.server BUFFERSIZE now →
  (method, h) ∈ methods BUFFERSIZE now → request_for method root z ps → pieces (request_line append_double root) ds →
  h (despace root) VNull (world s) = (Ret (b, v), w') → is_null v = false →
  ∃ p, steps read (write append_double) s (exchange i ds)
    (Server w' (jsonHandler_ s) (<[i := Connection [] [] (out ++ write append_double v ++ "{$}"%string)]> (connections s)) p) ∧
  RpcServer.Read i ∈ p ∧ NoDup p ∧ RpcServer.Write i ∉ p.
Proof.
  intros Hc Hr Hnd Hw Hms Hin Hreq Hd Hh Hv. destruct (Program.server_lookup BUFFERSIZE now method h Hin) as [Hne Hl].
  destruct (request_well_formed method root z ps Hreq Hne) as [Hwf Ht]. destruct Hreq as (Hp & _ & Hm).
  eapply exchange_steps; try done.
  rewrite Hms, JsonRpc.process_wf by (done || by rewrite Hm). by rewrite Hm, Hl.
Qed.

Lemma create_registered : (lit "object.create", CreateObject BUFFERSIZE now) ∈ methods BUFFERSIZE now.
Proof. unfold methods. do 3 right. left. Qed.
Lemma get_registered : (lit "object.get", GetObject BUFFERSIZE) ∈ methods BUFFERSIZE now.
Proof. unfold methods. do 4 right. left. Qed.

Lemma reply_read z name value :
  good_id z → read (write append_double (reply z [(name, VStr value)])) = Some (reply z [(name, VStr value)]).
Proof.
  intros [Hz _]. rewrite <-(app_nil_r (write _ _)). apply read_written; [|by intros ? ? [=]].
  apply Replies.typed_plain, (Replies.Typed_reply [(name, VStr value)] [] z []); [by repeat constructor|done|constructor].
Qed.

(** C7 A client that sends object.create with a new text and then object.get
    with the id of that text, as lines of JSON in whatever pieces, reads back
    the reply with the id and the reply with the text, in base64: through the
    connection, the reader, the dispatch, the handlers, the database and its
    stores, and the writer. *)
Theorem create_get_on_the_wire s i root1 root2 z1 z2 ps1 ps2 ds1 ds2 objs c text :
  connections s !! i = Some connection_new → RpcServer.Read i ∈ pending s → NoDup (pending s) →
  RpcServer.Write i ∉ pending s → jsonHandler_ s = Program.server BUFFERSIZE now → 0 < BUFFERSIZE →
  request_for (lit "object.create") root1 z1 ps1 → pieces (request_line append_double root1) ds1 → good_id z1 →
  assoc "content"%string ps1 = Some (VStr c) → assoc "id"%string ps1 = None →
  Base64.decode BUFFERSIZE c = Some (Some text) →
  DBManager.database (world s) objs → objs !! validate_key (object_id text) = None →
  DBManager.admissible (DBManager.created now text (object_id text) Object_new) objs →
  request_for (lit "object.get") root2 z2 ps2 → pieces (request_line append_double root2) ds2 → good_id z2 →
  assoc "id"%string ps2 = Some (VStr (object_id text)) → assoc "full"%string ps2 = None →
  ∃ s' c' text1 text2 e,
    steps read (write append_double) s (exchange i ds1 ++ exchange i ds2) s' ∧
    connections s' !! i = Some c' ∧ sent c' = text1 ++ "{$}"%string ++ text2 ++ "{$}"%string ∧
    read text1 = Some (reply z1 [(lit "id", VStr (object_id text))]) ∧
    read text2 = Some (reply z2 [(lit "content", VStr e)]) ∧
    Base64.decode BUFFERSIZE e = Some (Some text).
Proof.
  intros Hc Hr Hnd Hw Hms HB Hreq1 Hd1 Hz1 Hcont Hid1 Hdec Hdb Hk Ha Hreq2 Hd2 Hz2 Hid2 Hfull.
  destruct (CreateObject_new BUFFERSIZE now (world s) objs (despace root1) VNull z1 ps1 c text)
    as (w1 & Hcr & Hdb1); [apply Hreq1|done..|].
  destruct (GetObject_present BUFFERSIZE HB w1
    (DBManager.store (DBManager.created now text (object_id text) Object_new) objs) (despace root2) VNull z2 ps2 (object_id text)
    (serialize (DBManager.created now text (object_id text) Object_new))) as (e & _ & Hde & Hg);
    [apply Hreq2|done..|apply Ha|apply lookup_insert_eq|].
  destruct (served s i [] _ _ root1 z1 ps1 ds1 _ w1 true Hc Hr Hnd Hw Hms create_registered Hreq1 Hd1 Hcr eq_refl)
    as (p1 & Hs1 & Hr1 & Hnd1 & Hw1).
  set (c1 := Connection [] [] _) in Hs1. set (s1 := Server w1 _ _ p1) in Hs1.
  assert (Hc1 : connections s1 !! i = Some c1) by (apply list_lookup_insert_eq; by eapply lookup_lt_Some).
  destruct (served s1 i (sent c1) _ _ root2 z2 ps2 ds2 _ w1 true Hc1 Hr1 Hnd1 Hw1 Hms get_registered Hreq2 Hd2 Hg eq_refl)
    as (p2 & Hs2 & _).
  eexists _, _, _, _, e. split; [by eapply steps_app|]. split_and!.
  - apply list_lookup_insert_eq. cbn. rewrite length_insert. by eapply lookup_lt_Some.
  - cbn [sent c1 app]. by rewrite <-app_assoc.
  - by apply reply_read.
  - by apply reply_read.
  - done.
Qed.
End wire.

(** ** The program in memory, over a socket *)
Module Example.
#[local] Existing Instances example_digest example_clock
  ExampleArchive.archive ExampleArchive.archive_law MemFs.mem_fs MemFs.mem_fs_laws
  Program.Example.example_modules Program.Example.example_laws
  JsonText.Example.lexer JsonText.Example.lexer_laws.
Import Program.Example.

Definition real (bits : Z) (precision : Z) : bytes := [].
Definition info : Value := reply 7 [(lit "uptime", VStr "1"%string)].

Lemma reply_type_witness :
  (info = VNull ∨ Replies.typed_reply info) ∧ (stops (lit "{$}") → read (write real info ++ lit "{$}") = Some info).
Proof.
  apply (Replies.reply_type 5 0 real (lit "an.info") RuntimeInfo (request "an.info" 7 []) booted true info booted (lit "{$}")).
  - unfold methods. left.
  - reflexivity.
Defined.

Definition listening : @server Program.world := Server booted (Program.server 5 0) [connection_new; connection_new] [RpcServer.Read 0; Accept].
Definition line1 : bytes := request_line real create_root.
Definition line2 : bytes := request_line real get_root.

Lemma one_piece root : pieces (request_line real root) [request_line real root].
Proof.
  split; [apply app_nil_r|]. exists [], (request_line real root). split; [done|].
  unfold request_line. by intros [_ ?]%app_nil.
Qed.

Lemma create_get_on_the_wire_witness : ∃ s' c' text1 text2 e,
  steps read (write real) listening [Received 0 line1; Written 0 false; Received 0 line2; Written 0 false] s' ∧
  connections s' !! 0 = Some c' ∧ sent c' = text1 ++ "{$}"%string ++ text2 ++ "{$}"%string ∧
  read text1 = Some (reply 1 [(lit "id", VStr (object_id (lit "a")))]) ∧
  read text2 = Some (reply 1 [(lit "content", VStr e)]) ∧
  Base64.decode 5 e = Some (Some (lit "a")).
Proof.
  apply (create_get_on_the_wire real 5 0 listening 0 create_root get_root 1 1
    [(lit "content", VStr "YQ=="%string)] [(lit "id", VStr (object_id (lit "a")))] [line1] [line2] ∅ (lit "YQ==") (lit "a")).
  - reflexivity.
  - left.
  - apply (bool_decide_unpack _). reflexivity.
  - apply (bool_decide_unpack _). reflexivity.
  - reflexivity.
  - apply Nat.ltb_lt. reflexivity.
  - split_and!; [reflexivity| |reflexivity]. eexists. split; [vm_compute; reflexivity|]. by split.
  - apply one_piece.
  - exact good_1.
  - reflexivity.
  - reflexivity.
  - reflexivity.
  - exact booted_database.
  - apply lookup_empty.
  - exact o1_admissible.
  - split_and!; [vm_compute; reflexivity| |vm_compute; reflexivity].
    eexists. split; [vm_compute; reflexivity|]. split_and!; vm_compute; reflexivity.
  - apply one_piece.
  - exact good_1.
  - reflexivity.
  - reflexivity.
Defined.
End Example.
End Wire.
