(* ===== verification/Storage.v ===== *)
(** * storage.h, storage.cc: files of shared blocks

    The file objects behind the FUSE mount.  Blocks are shared: a file's list
    of blocks, its current block and the caller of [add_block] hold the same
    object, which [write] changes in place.  Blocks live in a store of their
    own and are referred to by their index in it; they are never freed while
    they can be reached. *)

From S2P Require Import Prelude Decimal Crypto LruCache KvStore Db ModuleManager Json JsonRpc Blockstore.
Local Open Scope prog_scope.

Definition AN_ID_LENGTH : nat := 64.

(** [char] and [unsigned long] in memory. *)
Definition le64 (z : Z) : bytes := le32 (uint32 z) ++ le32 (z / 2 ^ 32).
Definition of_le64 (l : bytes) : Z := (of_le32 l + 2 ^ 32 * of_le32 (drop 4 l))%Z.

Module Storage.

(** class block: [b_data] is the allocation, of the size given to the
    constructor. *)
Record block := Block { b_data : bytes; b_size : Z }.

(** struct block_header: the size, and the name of the next header. *)
Definition block_header_size : nat := 8 + AN_ID_LENGTH.

(** class file. A smart_block is [None] when null; [_block_offset] is [None]
    until it is first assigned, since the constructor does not set it. *)
Record file := File {
  f_size : Z;                                  (* int *)
  read_offset : Z;
  write_offset : Z;
  block_ids : list bytes;
  data_blocks : list (option nat);
  _block_offset : option Z;
  _current_block : option nat;
  _current_block_id : Z;
}.

Definition new_file : file := File 0 0 0 [] [] None None 0.

Section ops.
(** ConfigManager::blocksize *)
Context (BLOCKSIZE : Z).

(** A file and the blocks. *)
Definition state : Type := file * list block.

Definition set_file (f : file → file) : M state () := modify (λ s, (f (fst s), snd s)).

(** [new block(p, s)]: [data] is what can be read from [p]. *)
Definition new_block (data : bytes) (s : Z) : M state nat := λ st,
  let n := Z.to_nat (uint32 s) in
  if (length data <? n)%nat then (Undef, st)
  else (Ret (length (snd st)), (fst st, snd st ++ [Block (take n data) (uint32 s)])).

(** The block a smart pointer refers to. *)
Definition deref (p : option nat) : M state (nat * block) := λ st,
  match p with
  | None => (Undef, st)
  | Some l => match snd st !! l with Some b => (Ret (l, b), st) | None => (Undef, st) end
  end.

Definition put_block (l : nat) (b : block) : M state () := modify (λ s, (fst s, <[l := b]> (snd s))).

(** [memcpy(b->data + at, data, n)] *)
Definition memcpy (p : option nat) (at_ : Z) (data : bytes) (n : Z) : M state () :=
  let! r := deref p in
  let '(l, b) := r in
  let i := Z.to_nat at_ in
  let n := Z.to_nat n in
  if (length data <? n)%nat || (length (b_data b) <? i + n)%nat then undef
  else put_block l (Block (take i (b_data b) ++ take n data ++ drop (i + n) (b_data b)) (b_size b)).

(** [b->size = s] *)
Definition set_size (p : option nat) (s : Z) : M state () :=
  let! r := deref p in put_block (fst r) (Block (b_data (snd r)) (uint32 s)).

Definition add_block (b : option nat) : M state bool :=
  set_file (λ f, File (f_size f) (read_offset f) (write_offset f) (block_ids f) (data_blocks f ++ [b])
    (_block_offset f) (_current_block f) (_current_block_id f)) ;;;
  let! r := deref b in
  set_file (λ f, File (int32 (f_size f + b_size (snd r))) (read_offset f) (write_offset f) (block_ids f)
    (data_blocks f) (_block_offset f) b (int32 (zlen (data_blocks f) - 1))) ;;;
  ret true.

(** [data_blocks.front()] is undefined for an empty vector. *)
Definition reset_offset : M state () :=
  let! f := gets fst in
  match data_blocks f with
  | [] => undef
  | b :: _ => set_file (λ f, File (f_size f) (read_offset f) 0 (block_ids f) (data_blocks f) (Some 0%Z) b 0)
  end.

Definition next_block : M state () :=
  let! f := gets fst in
  let i := int32 (_current_block_id f + 1) in
  match data_blocks f !! Z.to_nat i with
  | None => undef
  | Some b =>
      if (i <? 0)%Z then undef else
      set_file (λ f, File (f_size f) (read_offset f) (write_offset f) (block_ids f) (data_blocks f) (Some 0%Z) b i)
  end.

(** [ceil] of an integer quotient, which is already truncated. *)
Definition block_for_offset (offset : Z) : Z := int32 (Z.quot offset BLOCKSIZE).

(** The loop of [write]: [rsize] starts at [BLOCKSIZE] and shrinks once; a
    block that is not the first is filled from the start of [data] again. *)
Fixpoint write_loop (fuel : nat) (data : bytes) (i size rsize : Z) : M state Z :=
  match fuel with
  | O => undef
  | S fuel =>
      if (size <=? 0)%Z then ret rsize else
      let rsize := if (size <? BLOCKSIZE)%Z then size else rsize in
      let! f := gets fst in
      (match data_blocks f with
       | [] => let! b := new_block (drop (Z.to_nat i) data) rsize in add_block (Some b) ;;; ret tt
       | _ =>
           match _block_offset f with
           | None => undef                                  (* never assigned *)
           | Some o =>
               (if (0 <? o)%Z then ret tt else memcpy (_current_block f) o data rsize) ;;;
               set_size (_current_block f) rsize ;;; next_block
           end
       end) ;;;
      write_loop fuel data (i + rsize) (size - rsize) rsize
  end.

(** [write(data, size)], for the effect: its callers ignore the result, which
    the code forgets to return. *)
Definition write (data : bytes) (size : Z) : M state () :=
  if (size <=? BLOCKSIZE)%Z then
    let! f := gets fst in
    match data_blocks f with
    | [] => let! b := new_block data size in add_block (Some b) ;;; ret tt
    | _ => memcpy (_current_block f) 0 data size ;;; set_size (_current_block f) size
    end
  else
    let! rsize := write_loop (S (Z.to_nat size)) data 0 size BLOCKSIZE in
    set_file (λ f, File (f_size f) (read_offset f) (write_offset f) (block_ids f) (data_blocks f)
      (Some rsize) (_current_block f) (_current_block_id f)).

(** *** Reading and writing through streams *)

(** [operator<<]: every block's data up to its size. *)
Fixpoint output_blocks (l : list (option nat)) : M state bytes :=
  match l with
  | [] => ret []
  | p :: l =>
      let! r := deref p in
      let n := Z.to_nat (b_size (snd r)) in
      if (length (b_data (snd r)) <? n)%nat then undef else
      let! rest := output_blocks l in ret (take n (b_data (snd r)) ++ rest)
  end.
Definition output : M state bytes := let! f := gets fst in output_blocks (data_blocks f).

(** [is >> buff] for a string: white space is skipped; at the end of the
    stream the extraction fails and [buff] stays.  The result is what is left,
    whether the stream is still good, and [buff]. *)
Fixpoint word (str : bytes) : bytes * bytes :=
  match str with
  | c :: str' => if isspace c then ([], str) else let '(w, rest) := word str' in (c :: w, rest)
  | [] => ([], [])
  end.
Definition extract (str buff : bytes) : bytes * bool * bytes :=
  match skip_space str with
  | [] => ([], false, buff)
  | str => let '(w, rest) := word str in (rest, negb (bool_decide (rest = [])), w)
  end.

(** [f.sf->write(buff.c_str(), t_read)]: the string and its NUL can be read. *)
Fixpoint input_loop (fuel : nat) (str : bytes) (good : bool) (buff : bytes) (t_read : Z) : M state (bytes * Z) :=
  match fuel with
  | O => undef
  | S fuel =>
      if good then
        let '(str, good, buff) := extract str buff in
        let t_read := (t_read + int32 (zlen buff))%Z in
        if (BLOCKSIZE <=? t_read)%Z then
          write (buff ++ [NUL]) t_read ;;; input_loop fuel str good [] 0
        else input_loop fuel str good buff t_read
      else ret (buff, t_read)
  end.

(** [operator>>]: a round per word and one more at most, and the last test. *)
Definition input (str : bytes) : M state () :=
  let! r := input_loop (S (S (length str))) str true [] 0 in
  (if (0 <? snd r)%Z then write (fst r ++ [NUL]) (snd r) else ret tt) ;;;
  reset_offset.
End ops.

(** *** StorageManager *)
Section manager.
Context `{Digest} {W P G : Type} `{HM : HasModules W P G}.
Context (BLOCKSIZE : Z).

(** The blocks [load_file] loads are new objects. *)
Definition alloc (b : bytes) : M (W * list block) nat := λ s,
  (Ret (length (snd s)), (fst s, snd s ++ [Block b (zlen b)])).

Definition on_world {A} (m : M W A) : M (W * list block) A := zoom fst (λ w s, (w, snd s)) m.

(** [if(!get_block(id, b)) throw 1;] *)
Definition fetch (id : bytes) : M (W * list block) (option nat) :=
  let! r := on_world (Manager.get_block id None) in
  if fst r then
    match snd r with
    | None => ret None
    | Some b => let! l := alloc b in ret (Some l)
    end
  else throw thrown_int.

(** The loop over the blocks; [offset] does not move. *)
Fixpoint load_data (n : nat) (header : bytes) (offset : nat) (res : file) : M (W * list block) file :=
  match n with
  | O => ret res
  | S n =>
      if (length header <? offset + AN_ID_LENGTH)%nat then undef else
      let hash := c_string (take AN_ID_LENGTH (drop offset header)) [] in
      let! subblock := fetch hash in
      load_data n header offset
        (File (f_size res) (read_offset res) (write_offset res) (block_ids res ++ [hash])
           (data_blocks res ++ [subblock]) (_block_offset res) (_current_block res) (_current_block_id res))
  end.

(** [ceil] of an unsigned quotient, to [int]; undefined when it is too large. *)
Definition to_int (z : Z) : option Z := if (z <? 2 ^ 31)%Z then Some z else None.

(** An entry that ends in the magic bytes "DH". *)
Definition is_file_entry (e : bytes) : bool :=
  bool_decide (length e = AN_ID_LENGTH + 2 ∧ e !! AN_ID_LENGTH = Some "D"%char ∧ e !! (AN_ID_LENGTH + 1) = Some "H"%char).

Definition load_entry (e : bytes) (res : file) : M (W * list block) file :=
  if is_file_entry e then
    let blockid := take AN_ID_LENGTH e in
    let! r := on_world (Manager.get_block blockid None) in
    if fst r then
      match snd r with
      | None => undef
      | Some header1 =>
          if (length header1 <? block_header_size)%nat then throw thrown_int else
          if (BLOCKSIZE =? 0)%Z then undef else
          let size := of_le64 header1 in
          match to_int (size / uint64 BLOCKSIZE),
                to_int (uint64 (BLOCKSIZE - Z.of_nat block_header_size) / Z.of_nat AN_ID_LENGTH) with
          | Some blocks_needed, Some blocks_per_file =>
              if (blocks_per_file <? blocks_needed)%Z then throw thrown_int else
              load_data (Z.to_nat blocks_needed) header1 block_header_size
                (File (int32 size) (read_offset res) (write_offset res) (block_ids res) (data_blocks res)
                   (_block_offset res) (_current_block res) (_current_block_id res))
          | _, _ => undef
          end
      end
    else throw thrown_int
  else ret res.

Fixpoint load_entries (l : list (bytes * bytes)) (res : file) : M (W * list block) file :=
  match l with
  | [] => ret res
  | e :: l => let! res := load_entry (snd e) res in load_entries l res
  end.

Definition load_file (id : bytes) : M (W * list block) file :=
  let db_id := Crypto.Hash (lit "DataMap" ++ id) in
  let! r := on_world (Manager.kv_get db_id None) in
  if fst r then
    match snd r with
    | None => undef
    | Some kres => load_entries (entries kres) new_file
    end
  else ret new_file.

(** Files are shared objects too: [load_file]'s result is a new one, which the
    cache and every handle of that name refer to. *)
Definition objects : Type := W * list block * list file.

Definition load_shared (id : bytes) : M objects nat :=
  let! f := zoom fst (λ s o, (s, snd o)) (load_file id) in
  λ o, (Ret (length (snd o)), (fst o, snd o ++ [f])).

(** [StorageManager::open]: the file cache; dropping a file changes nothing
    that is modelled. *)
Definition open (id : bytes) : M (LruCache.lru_cache bytes nat * objects) nat :=
  LruCache.call load_shared (λ _ s, s) id.

(** An operation on the file a handle refers to. *)
Definition on_file {A} (l : nat) (m : M state A) : M objects A := λ o,
  match snd o !! l with
  | None => (Undef, o)
  | Some f => let '(r, (f', bs)) := m (f, snd (fst o)) in (r, ((fst (fst o), bs), <[l := f']> (snd o)))
  end.

(** Reading and writing through an [an_file]. *)
Definition an_file_read (l : nat) : M objects bytes := on_file l output.
Definition an_file_write (l : nat) (str : bytes) : M objects () := on_file l (input BLOCKSIZE str).
End manager.

(** ** Writing files *)
Section writing.
Context (BLOCKSIZE : Z) (HBS : (0 < BLOCKSIZE < 2 ^ 31)%Z).
Implicit Types (w data : bytes) (bs : list block).

Definition no_space w : Prop := Forall (λ c, isspace c = false) w.

Lemma word_app w rest :
  no_space w → (rest = [] ∨ ∃ c r, rest = c :: r ∧ isspace c = true) → word (w ++ rest) = (w, rest).
Proof.
  intros Hw Hr. induction Hw as [|c w Hc Hw IH]; cbn [app word].
  - destruct Hr as [->|(c & r & -> & Hc)]; [done|]. cbn [word]. by rewrite Hc.
  - by rewrite Hc, IH.
Qed.

Lemma extract_word w rest buff :
  w ≠ [] → no_space w → (rest = [] ∨ ∃ c r, rest = c :: r ∧ isspace c = true) →
  extract (w ++ rest) buff = (rest, negb (bool_decide (rest = [])), w).
Proof.
  intros Hne Hw Hr. unfold extract. destruct w as [|c w]; [done|].
  assert (Hc : isspace c = false) by by inversion Hw.
  assert (skip_space ((c :: w) ++ rest) = (c :: w) ++ rest) as -> by (simpl; by rewrite Hc).
  pose proof (word_app (c :: w) rest Hw Hr) as Hword. cbn [app] in *. by rewrite Hword.
Qed.

(** The first block of a new file. *)
Lemma write_new w data bs :
  (zlen w ≤ BLOCKSIZE)%Z →
  write BLOCKSIZE (w ++ data) (zlen w) (new_file, bs) =
    (Ret tt, (File (int32 (zlen w)) 0 0 [] [Some (length bs)] None (Some (length bs)) 0,
      bs ++ [Block w (zlen w)])).
Proof.
  intros Hw. assert (Hz : (0 ≤ zlen w < 2 ^ 32)%Z) by (unfold zlen in *; lia).
  unfold write. destruct (Z.leb_spec (zlen w) BLOCKSIZE); [|lia]. rewrite bind_gets. cbn [fst data_blocks new_file].
  unfold bind at 1. unfold bind at 1. unfold new_block. cbn [fst snd].
  unfold uint32. rewrite Z.mod_small by lia. replace (Z.to_nat (zlen w)) with (length w) by (unfold zlen; lia).
  destruct (Nat.ltb_spec (length (w ++ data)) (length w)) as [Hlt|_]; [rewrite length_app in Hlt; lia|].
  rewrite take_app_length. unfold add_block, set_file. rewrite bind_modify.
  unfold bind at 1, deref. cbn [fst snd]. rewrite list_lookup_middle by done. rewrite bind_modify. reflexivity.
Qed.

(** A file written through the mount in one word of at most a block is read
    back as that word. *)
Theorem one_word_roundtrip w bs :
  w ≠ [] → no_space w → (zlen w ≤ BLOCKSIZE)%Z →
  ∃ s, input BLOCKSIZE w (new_file, bs) = (Ret tt, s) ∧ output s = (Ret w, s).
Proof.
  intros Hne Hw Hlen. assert (Hz : (0 < zlen w < 2 ^ 31)%Z).
  { unfold zlen in *. destruct w; [done|]. simpl in *. lia. }
  set (s1 := (File (int32 (zlen w)) 0 0 [] [Some (length bs)] None (Some (length bs)) 0, bs ++ [Block w (zlen w)])).
  assert (Hr : (let! r := input_loop BLOCKSIZE (S (S (length w))) w true [] 0 in
    (if (0 <? snd r)%Z then write BLOCKSIZE (fst r ++ [NUL]) (snd r) else ret tt)) (new_file, bs) = (Ret tt, s1)).
  { unfold bind at 1. cbn [input_loop].
    pose proof (extract_word w [] [] Hne Hw (or_introl eq_refl)) as He. rewrite app_nil_r in He. rewrite He.
    rewrite int32_small, Z.add_0_l by lia. cbn [negb]. rewrite bool_decide_true by done.
    destruct (Z.leb_spec BLOCKSIZE (zlen w)).
    - unfold bind. rewrite write_new by done. destruct (length w); reflexivity.
    - destruct (length w) eqn:El; cbn [input_loop negb ret fst snd];
        (destruct (Z.ltb_spec 0 (zlen w)); [by rewrite write_new|lia]). }
  exists (File (int32 (zlen w)) 0 0 [] [Some (length bs)] (Some 0%Z) (Some (length bs)) 0, bs ++ [Block w (zlen w)]).
  split.
  - unfold input. rewrite <-bind_assoc. rewrite (bind_run _ _ _ _ _ Hr). reflexivity.
  - unfold output. rewrite bind_gets. cbn [fst data_blocks output_blocks]. unfold bind at 1, deref. cbn [snd fst].
    rewrite list_lookup_middle by done. cbn [b_size b_data snd].
    replace (Z.to_nat (zlen w)) with (length w) by (unfold zlen; lia).
    rewrite Nat.ltb_irrefl. unfold bind. simpl. by rewrite firstn_all, app_nil_r.
Qed.

Lemma bind_undef_1 {S A B} (m : M S A) (k : A → M S B) st : (m st).1 = Undef → (bind m k st).1 = Undef.
Proof. unfold bind. destruct (m st) as [o st']. simpl. by intros ->. Qed.

(** Writing more than a block to a new file: the second round reads the block
    offset, which neither the constructor nor the first round has set. *)
Lemma large_write data size bs :
  (BLOCKSIZE < size < 2 ^ 31)%Z → (write BLOCKSIZE data size (new_file, bs)).1 = Undef.
Proof.
  intros Hsize. unfold write. destruct (Z.leb_spec size BLOCKSIZE); [lia|].
  apply bind_undef_1. destruct (Z.to_nat size) as [|n] eqn:En; [lia|]. cbn [write_loop].
  destruct (Z.leb_spec size 0); [lia|]. destruct (Z.ltb_spec size BLOCKSIZE); [lia|].
  rewrite bind_gets. cbn [fst data_blocks new_file].
  unfold bind at 1. unfold bind at 1. unfold bind at 1. unfold new_block. cbn [fst snd drop].
  destruct (Nat.ltb _ _); [done|]. unfold add_block, set_file. rewrite bind_modify.
  unfold bind at 1, deref. cbn [fst snd]. rewrite list_lookup_middle by done. rewrite bind_modify.
  unfold ret at 1. unfold ret at 1.
  destruct (Z.leb_spec (size - BLOCKSIZE) 0); [lia|]. reflexivity.
Qed.

Lemma overread_undefined data size bs :
  (zlen data < size < 2 ^ 31)%Z → (write BLOCKSIZE data size (new_file, bs)).1 = Undef.
Proof.
  intros Hsize. destruct (decide (BLOCKSIZE < size)%Z); [apply large_write; lia|].
  unfold write. destruct (Z.leb_spec size BLOCKSIZE); [|lia]. rewrite bind_gets. cbn [fst data_blocks new_file].
  apply bind_undef_1. unfold new_block, uint32. rewrite Z.mod_small by (unfold zlen in *; lia).
  destruct (Nat.ltb_spec (length data) (Z.to_nat size)); [done|unfold zlen in *; lia].
Qed.

(** Writing two words to a new file is undefined: the stream's words are
    counted together, but only the last one is in the buffer that is written,
    so that the write reads behind it. *)
Theorem two_words_undefined w1 c sp w2 bs :
  w1 ≠ [] → w2 ≠ [] → no_space w1 → no_space w2 → Forall (λ c, isspace c = true) (c :: sp) →
  1 < length w1 → (zlen w1 < BLOCKSIZE)%Z → (zlen w1 + zlen w2 < 2 ^ 31)%Z →
  (input BLOCKSIZE (w1 ++ (c :: sp) ++ w2) (new_file, bs)).1 = Undef.
Proof.
  intros Hne1 Hne2 Hw1 Hw2 Hsp Hl1 Hlt Hsum.
  assert (Hz2 : (0 ≤ zlen w2)%Z) by (unfold zlen; lia). assert (Hz1 : (1 < zlen w1)%Z) by (unfold zlen; lia).
  pose proof (Forall_inv Hsp) as Hc. simpl in Hc.
  unfold input. rewrite <-bind_assoc. apply bind_undef_1.
  set (n := length (w1 ++ (c :: sp) ++ w2)).
  assert (Hn : ∃ n', n = S (S n')).
  { unfold n. rewrite !length_app. simpl. exists (length w1 + length sp + length w2 - 1). lia. }
  destruct Hn as [n' ->]. cbn [input_loop]. unfold bind at 1.
  rewrite extract_word by (done || (right; by exists c, (sp ++ w2))).
  rewrite bool_decide_false by done. cbn [negb]. rewrite int32_small, Z.add_0_l by lia.
  destruct (Z.leb_spec BLOCKSIZE (zlen w1)); [lia|].
  assert (He : extract ((c :: sp) ++ w2) w1 = ([], false, w2)).
  { unfold extract. assert (skip_space ((c :: sp) ++ w2) = skip_space (w2 ++ [])) as ->.
    { rewrite app_nil_r. clear -Hsp. induction (c :: sp) as [|a l IH]; [done|].
      pose proof (Forall_inv Hsp) as Ha. apply Forall_inv_tail in Hsp. cbn [app skip_space].
      simpl in Ha. rewrite Ha. by apply IH. }
    fold (extract (w2 ++ []) w1). by rewrite extract_word by (done || by left). }
  rewrite He. rewrite int32_small by lia.
  assert (Hover : (zlen (w2 ++ [NUL]) < zlen w1 + zlen w2 < 2 ^ 31)%Z).
  { unfold zlen in *. rewrite length_app. simpl. lia. }
  destruct (Z.leb_spec BLOCKSIZE (zlen w1 + zlen w2)).
  - pose proof (overread_undefined _ _ bs Hover) as Hu.
    unfold bind at 1. destruct (write _ _ _ _) as [o st]. simpl in Hu. by subst o.
  - cbn [ret fst snd]. destruct (Z.ltb_spec 0 (zlen w1 + zlen w2)); [|lia]. by apply overread_undefined.
Qed.
End writing.

(** ** Loading files *)
Section loading.
Context `{HD : Digest} {W P G : Type} `{HM : HasModules W P G}.
Context (BLOCKSIZE : Z) (HBS : (72 ≤ BLOCKSIZE < 2 ^ 31)%Z).
Implicit Types (w : W) (hd b : bytes) (bs : list block) (f : file).

Lemma fetch_found w bs id b :
  Manager.get_block id None w = (Ret (true, Some b), w) →
  fetch id (w, bs) = (Ret (Some (length bs)), (w, bs ++ [Block b (zlen b)])).
Proof.
  intros Hg. unfold fetch, on_world, zoom. unfold bind at 1. cbn [fst snd]. by rewrite Hg.
Qed.

(** The blocks a loop of [n] rounds appends. *)
Lemma load_data_ok n w bs hd at_ b f :
  let id := c_string (take AN_ID_LENGTH (drop at_ hd)) [] in
  at_ + AN_ID_LENGTH ≤ length hd → Manager.get_block id None w = (Ret (true, Some b), w) →
  load_data n hd at_ f (w, bs) =
    (Ret (File (f_size f) (read_offset f) (write_offset f) (block_ids f ++ replicate n id)
       (data_blocks f ++ map Some (seq (length bs) n)) (_block_offset f) (_current_block f) (_current_block_id f)),
     (w, bs ++ replicate n (Block b (zlen b)))).
Proof.
  intros id Hlen Hg. revert f bs. induction n as [|n IH]; intros f bs.
  - simpl. rewrite !app_nil_r. by destruct f.
  - cbn [load_data]. destruct (Nat.ltb_spec (length hd) (at_ + AN_ID_LENGTH)); [lia|].
    rewrite (bind_run _ _ _ _ _ (fetch_found w bs _ b Hg)). rewrite IH. cbn [f_size read_offset write_offset block_ids
      data_blocks _block_offset _current_block _current_block_id]. rewrite length_app, Nat.add_1_r.
    rewrite <-!app_assoc. reflexivity.
Qed.

Lemma output_range n f bs b :
  ∀ k, length bs = k → output_blocks (map Some (seq k n)) (f, bs ++ replicate n (Block b (zlen b))) =
    (Ret (concat (replicate n b)), (f, bs ++ replicate n (Block b (zlen b)))).
Proof.
  assert (Hgen : ∀ m j, j + m ≤ n → output_blocks (map Some (seq (length bs + j) m)) (f, bs ++ replicate n (Block b (zlen b))) =
    (Ret (concat (replicate m b)), (f, bs ++ replicate n (Block b (zlen b))))).
  { intros m. induction m as [|m IH]; intros j Hj; [done|]. cbn [seq map output_blocks].
    assert (Hl : (bs ++ replicate n (Block b (zlen b))) !! (length bs + j) = Some (Block b (zlen b))).
    { rewrite lookup_app_r by lia. rewrite Nat.add_sub_swap, Nat.sub_diag, Nat.add_0_l by lia.
      apply lookup_replicate. split; [done|lia]. }
    unfold bind at 1, deref. cbn [snd fst]. rewrite Hl. cbn [b_size b_data snd].
    replace (Z.to_nat (zlen b)) with (length b) by (unfold zlen; lia). rewrite Nat.ltb_irrefl, firstn_all.
    unfold bind at 1. replace (S (length bs + j)) with (length bs + S j) by lia. rewrite IH by lia. reflexivity. }
  intros k <-. specialize (Hgen n 0). rewrite Nat.add_0_r in Hgen. by apply Hgen.
Qed.

(** A stored file loads as its first block, once for every whole block of
    its size: the loop does not move on in the header, and what is left of the
    size after the last whole block is not loaded. *)
Theorem load_repeats_first_block w bs id k e hd b :
  let id1 := c_string (take AN_ID_LENGTH (drop block_header_size hd)) [] in
  let n := Z.to_nat (of_le64 hd / BLOCKSIZE) in
  Manager.kv_get (Crypto.Hash (lit "DataMap" ++ id)) None w = (Ret (true, Some {[k := e]}), w) →
  is_file_entry e = true → Manager.get_block (take AN_ID_LENGTH e) None w = (Ret (true, Some hd), w) →
  block_header_size + AN_ID_LENGTH ≤ length hd → (0 ≤ of_le64 hd)%Z →
  (of_le64 hd / BLOCKSIZE ≤ (BLOCKSIZE - 72) / 64)%Z →
  Manager.get_block id1 None w = (Ret (true, Some b), w) →
  ∃ f, load_file BLOCKSIZE id (w, bs) = (Ret f, (w, bs ++ replicate n (Block b (zlen b)))) ∧
    f_size f = int32 (of_le64 hd) ∧ block_ids f = replicate n id1 ∧
    output (f, bs ++ replicate n (Block b (zlen b))) =
      (Ret (concat (replicate n b)), (f, bs ++ replicate n (Block b (zlen b)))).
Proof.
  intros id1 n Hkv He Hhd Hlen Hsize Hfit Hb. eexists. split_and!.
  - unfold load_file, on_world at 1, zoom. unfold bind at 1. cbn [fst snd]. rewrite Hkv. cbn [fst snd].
    rewrite entries_singleton. cbn [load_entries snd]. unfold load_entry at 1. rewrite He.
    unfold on_world at 1, zoom. unfold bind at 1, bind at 1. cbn [fst snd]. rewrite Hhd. cbn [fst snd].
    destruct (Nat.ltb_spec (length hd) block_header_size); [lia|].
    destruct (Z.eqb_spec BLOCKSIZE 0); [lia|]. unfold uint64, to_int.
    change (Z.of_nat block_header_size) with 72%Z. change (Z.of_nat AN_ID_LENGTH) with 64%Z.
    rewrite !Z.mod_small by lia.
    assert ((BLOCKSIZE - 72) / 64 < 2 ^ 31)%Z by (apply Z.div_lt_upper_bound; lia).
    destruct (Z.ltb_spec (of_le64 hd / BLOCKSIZE) (2 ^ 31)); [|lia].
    destruct (Z.ltb_spec ((BLOCKSIZE - 72) / 64) (2 ^ 31)); [|lia].
    destruct (Z.ltb_spec ((BLOCKSIZE - 72) / 64) (of_le64 hd / BLOCKSIZE)); [lia|].
    rewrite (load_data_ok n w bs hd block_header_size b) by done. reflexivity.
  - done.
  - done.
  - unfold output. rewrite bind_gets. cbn [fst data_blocks new_file app]. by apply output_range.
Qed.
End loading.

(** ** Examples *)
Module Example.

Lemma one_word_roundtrip_witness : ∃ s,
  input 8 (lit "word") (new_file, []) = (Ret tt, s) ∧ output s = (Ret (lit "word"), s).
Proof.
  apply (one_word_roundtrip 8 ltac:(lia)); [discriminate| |discriminate]. by repeat constructor.
Defined.

Lemma two_words_undefined_witness : (input 8 (lit "two words") (new_file, [])).1 = Undef.
Proof.
  apply (two_words_undefined 8 ltac:(lia) (lit "two") " "%char [] (lit "words")); try discriminate.
  - by repeat constructor.
  - by repeat constructor.
  - by repeat constructor.
  - apply Nat.ltb_lt. reflexivity.
  - reflexivity.
  - reflexivity.
Defined.

(** A program with one plugin that knows a file of 500 bytes. *)
#[local] Existing Instance example_digest.
Definition name (c : string) : bytes := concat (replicate 64 (lit c)).
Definition header : bytes := le64 500 ++ replicate 64 NUL ++ name "b" ++ name "c".
Definition entry : bytes := name "a" ++ lit "DH".

Definition plugin : LocalStorage.LocalStorage () :=
  let base := LocalStorage.base (W := ()) (lit "example") LocalStorage.BINARY (ret true) in
  LocalStorage.Plugin (LocalStorage.getName base) (LocalStorage.getType base) (LocalStorage.initialise base)
    (LocalStorage.db_store_snapshot base) (LocalStorage.db_store_diff base) (LocalStorage.db_store_obj base)
    (LocalStorage.db_remove base) (LocalStorage.db_get_snapshot base) (LocalStorage.db_get_diff base)
    (LocalStorage.db_get_obj base) (LocalStorage.plg_kv_put base)
    (λ _ _, ret (true, Some {[lit "k" := entry]})) (LocalStorage.plg_kv_remove base)
    (LocalStorage.plg_store_file base) (LocalStorage.plg_get_file base) (LocalStorage.plg_remove_file base)
    (λ id _, ret (true, Some (if decide (id = name "a") then header else lit "first"))).

#[local] Instance plugin_modules : HasModules () () Empty_set := {|
  mods _ := ModuleManager.Modules [] [tt] [] [tt] [] [] [] [] [];
  set_mods _ w := w;
  plg _ := plugin;
  util_initialise (g : Empty_set) := match g with end;
|}.

Lemma load_repeats_first_block_witness : ∃ f,
  load_file 200 (lit "file") (tt, []) = (Ret f, (tt, [Block (lit "first") 5; Block (lit "first") 5])) ∧
  f_size f = 500%Z ∧ block_ids f = [name "b"; name "b"] ∧
  output (f, [Block (lit "first") 5; Block (lit "first") 5]) =
    (Ret (lit "firstfirst"), (f, [Block (lit "first") 5; Block (lit "first") 5])).
Proof.
  apply (load_repeats_first_block 200 ltac:(lia) tt [] (lit "file") (lit "k") entry header (lit "first")).
  - reflexivity.
  - reflexivity.
  - reflexivity.
  - apply Nat.leb_le. reflexivity.
  - discriminate.
  - discriminate.
  - reflexivity.
Defined.
End Example.
End Storage.
