(* ===== verification/Daemon.v ===== *)
(** * config_manager.cc, plugin_manager.cc, net_manager.cc, singleton.h,
    daemon.cc, main.cc: starting and stopping the daemon

    What boost::property_tree reads from the configuration file, the command
    line that boost::program_options parses, and the process calls of [main]
    are parameters. *)

From S2P Require Import Prelude Crypto FileSystem KvStore StorePaths Db ModuleManager Json JsonRpc.
Local Open Scope prog_scope.

(** [if(s[0] == '~') s = std::string(getenv("HOME")) + s.substr(1);] The
    first character of an empty string is NUL; a null [HOME] is undefined. *)
Definition expand_home (home : option bytes) (s : bytes) : outcome bytes :=
  match s with
  | c :: rest =>
      if decide (c = "~"%char) then
        match home with Some h => Ret (h ++ rest) | None => Undef end
      else Ret s
  | [] => Ret []
  end.

(** ** ConfigManager *)
Module ConfigManager.

Definition ANARCHNET_RPC_PORT : Z := 23666.
Definition ANARCHNET_PORT : Z := 23555.
Definition ANARCHNET_THREADS : Z := 4.
Definition ANARCHNET_BLOCKSIZE : Z := 1024.

(** The tree [read_info] gives: the children of "daemon.modules", and the
    values at a path, as integers and as strings. *)
Record ptree := Tree {
  pt_modules : option (list bytes);
  pt_int : bytes → option Z;
  pt_str : bytes → option bytes;
}.

Record ConfigManager := Config {
  _modules : gset bytes;
  _port : Z;
  _rpc_port : Z;
  _threads : Z;
  _bs : Z;
  _data_dir : bytes;
  _log_dir : bytes;
  _dir : bytes;
}.

Section init.
Context `{FileSystem} (home : option bytes).
(** [read_info] throws when the file is missing or malformed. *)
Context (read_info : bytes → fs → outcome ptree).

Definition state : Type := ConfigManager * fs.
Definition files {A} (m : M fs A) : M state A := zoom snd (λ σ s, (fst s, σ)) m.

(** A directory that is made if it is not there, and must be one. *)
Definition check_dir (p : bytes) : M fs bool :=
  let! e := gets (fs_exists p) in
  if negb e then fs_create_directory p
  else gets (fs_is_directory p).

Definition init (directory : bytes) : M state bool :=
  let config_file := directory ++ "/anarchnet.conf"%string in
  let! pt := (λ s, (read_info config_file (snd s), s)) in
  let! modules := (match pt_modules pt with Some l => ret l | None => throw runtime_error end) in
  modify (λ s, (Config (_modules (fst s) ∪ list_to_set modules)
    (default ANARCHNET_PORT (pt_int pt "daemon.port"%string))
    (default ANARCHNET_RPC_PORT (pt_int pt "daemon.rpc_port"%string))
    (default ANARCHNET_THREADS (pt_int pt "daemon.threads"%string))
    (default ANARCHNET_BLOCKSIZE (pt_int pt "daemon.blocksize"%string))
    (_data_dir (fst s)) (_log_dir (fst s)) (_dir (fst s)), snd s)) ;;;
  let! dir := lift_outcome (expand_home home (default (lit "~/.anarchNet") (pt_str pt "daemon.dir"%string))) in
  let! data_dir := lift_outcome
    (expand_home home (default (lit "~/.anarchNet/data") (pt_str pt "daemon.datadir"%string))) in
  let! log_dir := lift_outcome
    (expand_home home (default (lit "~/.anarchNet/log") (pt_str pt "daemon.logdir"%string))) in
  modify (λ s, (Config (_modules (fst s)) (_port (fst s)) (_rpc_port (fst s)) (_threads (fst s)) (_bs (fst s))
    data_dir log_dir dir, snd s)) ;;;
  if! files (check_dir dir) then
    if! files (check_dir data_dir) then files (check_dir log_dir)
    else ret false
  else ret false.

(** [Plugin::get_config]: [None] when there is no such part, and the plugin
    keeps its configuration. *)
Definition get_config {C} (modules_config : bytes → option C) (getName : bytes) : option C :=
  modules_config getName.
End init.

(** ** The default configuration in a fresh home *)
Section defaults.
Context `{FS : FileSystem} {L : FsLaws}.
Implicit Types (σ : fs) (h : list bytes).

Definition an_dir h := h ++ [lit ".anarchNet"].
Definition an_data h := an_dir h ++ [lit "data"].
Definition an_log h := an_dir h ++ [lit "log"].

Lemma check_dir_made σ0 σ l d n :
  made l σ0 σ → good (d ++ [n]) → good d → d ∈ l ∨ view σ0 d = Some NDir →
  (d ++ [n] ∉ l) → view σ0 (d ++ [n]) = None →
  ∃ σ', check_dir (path_of (d ++ [n])) σ = (Ret true, σ') ∧ made ((d ++ [n]) :: l) σ0 σ'.
Proof.
  intros Hm Hg Hgd Hd Hn Hnone.
  assert (Hv : view σ (d ++ [n]) = None) by (rewrite Hm by done; by rewrite decide_False).
  destruct (make_directory_made σ0 σ l d n Hm Hg Hgd Hd Hn Hnone) as (σ' & Hrun & Hm').
  exists σ'. split; [|done]. revert Hrun. unfold make_directory, check_dir. rewrite !bind_gets.
  by rewrite exists_none by done.
Qed.

Lemma files_run {A} (m : M fs A) c σ a σ' : m σ = (Ret a, σ') → files m (c, σ) = (Ret a, (c, σ')).
Proof. unfold files, zoom. simpl. by intros ->. Qed.

Lemma an_good h : good h → good (an_dir h) ∧ good (an_data h) ∧ good (an_log h).
Proof.
  intros Hh. assert (H1 : good (an_dir h)) by (apply good_snoc; [done|apply (bool_decide_unpack _); by vm_compute]).
  split; [done|]. split; (apply good_snoc; [done|apply (bool_decide_unpack _); by vm_compute]).
Qed.

Lemma expand_an h a : expand_home (Some (path_of h)) (lit "~/.anarchNet" ++ a) = Ret (path_of (an_dir h) ++ a).
Proof. unfold an_dir, expand_home. rewrite path_of_snoc, <-app_assoc. done. Qed.

(** [ConfigManager::init] with a configuration that only lists modules, in a
    home directory without [.anarchNet]: it succeeds with the compiled-in
    values and makes the three directories, the data directory among them. *)
Theorem init_default h σ c directory read_info l :
  good h → view σ h = Some NDir → (∀ q, good q → an_dir h `prefix_of` q → view σ q = None) →
  read_info (directory ++ "/anarchnet.conf"%string) σ = Ret (Tree (Some l) (λ _, None) (λ _, None)) →
  _modules c = ∅ →
  ∃ σ', init (Some (path_of h)) read_info directory (c, σ) =
      (Ret true, (Config (list_to_set l) 23555 23666 4 1024 (path_of (an_data h)) (path_of (an_log h))
         (path_of (an_dir h)), σ')) ∧
    made [an_log h; an_data h; an_dir h] σ σ'.
Proof.
  intros Hh Hd Hnone Hread Hc. destruct (an_good h Hh) as (G1 & G2 & G3).
  assert (Hno : ∀ q, good q → q ∈ [an_log h; an_data h; an_dir h] → view σ q = None).
  { intros q Hq Hin. apply Hnone; [done|]. unfold an_log, an_data in Hin.
    rewrite !elem_of_cons, elem_of_nil in Hin. destruct Hin as [->|[->|[->|[]]]]; ((apply prefix_app_r; reflexivity) || reflexivity). }
  destruct (check_dir_made σ σ [] h (lit ".anarchNet")) as (σ1 & R1 & M1);
    [done|done|done|by right|apply not_elem_of_nil|apply Hno; [done|set_solver]|].
  destruct (check_dir_made σ σ1 _ (an_dir h) (lit "data") M1) as (σ2 & R2 & M2);
    [done|done|left; set_solver|..|apply Hno; [done|set_solver]|].
  { unfold an_dir. rewrite not_elem_of_cons. split; [apply snoc_ne|apply not_elem_of_nil]. }
  destruct (check_dir_made σ σ2 _ (an_dir h) (lit "log") M2) as (σ3 & R3 & M3);
    [done|done|left; set_solver|..|apply Hno; [done|set_solver]|].
  { rewrite !not_elem_of_cons. split; [by intros [_ [=]]%app_inj_tail|].
    split; [unfold an_dir; apply snoc_ne|apply not_elem_of_nil]. }
  exists σ3. split; [|exact M3].
  unfold init. unfold bind at 1. cbn [snd]. rewrite Hread. cbn [pt_modules pt_int pt_str from_option id]. run.
  pose proof (expand_an h []) as E1. pose proof (expand_an h (lit "/data")) as E2.
  pose proof (expand_an h (lit "/log")) as E3. rewrite !app_nil_r in E1.
  assert (Ed : path_of (an_dir h) ++ lit "/data" = path_of (an_data h)) by (unfold an_data; by rewrite path_of_snoc).
  assert (El : path_of (an_dir h) ++ lit "/log" = path_of (an_log h)) by (unfold an_log; by rewrite path_of_snoc).
  rewrite Ed in E2. rewrite El in E3. cbn [lit String.list_ascii_of_string app] in E1, E2, E3.
  unfold default. cbn [lit String.list_ascii_of_string]. rewrite E1, E2, E3. run. cbn [fst snd].
  rewrite (bind_run _ _ _ _ _ (files_run _ _ _ _ _ R1)), (bind_run _ _ _ _ _ (files_run _ _ _ _ _ R2)).
  rewrite (files_run _ _ _ _ _ R3). cbn [_modules]. rewrite Hc. by rewrite (left_id_L ∅ (∪)).
Qed.
End defaults.

(** ** A fresh home in memory *)
Module Example.
#[local] Existing Instances MemFs.mem_fs MemFs.mem_fs_laws.

Definition home : list bytes := [lit "home"].
Definition start : MemFs.state := mem_of [(home, NDir)].
Definition reads (p : bytes) (σ : MemFs.state) : outcome ptree :=
  if decide (p = lit "./anarchnet.conf") then Ret (Tree (Some [lit "ls"]) (λ _, None) (λ _, None))
  else Throw runtime_error.

Lemma init_default_witness :
  ∃ σ', init (Some (path_of home)) reads (lit ".") (Config ∅ 0 0 0 0 [] [] [], start) =
      (Ret true, (Config (list_to_set [lit "ls"]) 23555 23666 4 1024 (path_of (an_data home))
         (path_of (an_log home)) (path_of (an_dir home)), σ')) ∧
    made [an_log home; an_data home; an_dir home] start σ'.
Proof.
  apply (init_default (FS := MemFs.mem_fs) home start (Config ∅ 0 0 0 0 [] [] []) (lit ".") reads [lit "ls"]).
  - apply (bool_decide_unpack _). by vm_compute.
  - reflexivity.
  - intros q Hq Hp. unfold start. rewrite (mem_at _ q Hq). destruct Hp as [r ->].
    unfold an_dir. rewrite <-app_assoc. by rewrite mem_fresh_below.
  - reflexivity.
  - reflexivity.
Defined.
End Example.
End ConfigManager.

(** ** singleton.h *)
Module Singleton.

(** The two static members: the once flag, and the object, if there is one. *)
Record cell (T : Type) := Cell { flag : bool; t : option T }.
Arguments Cell {T}. Arguments flag {T}. Arguments t {T}.

Definition never {T} : cell T := Cell false None.

(** [instance()]: [call_once(init)], then [*t]. *)
Definition instance {T} (new : T) : M (cell T) T :=
  modify (λ c, if flag c then c else Cell true (Some new)) ;;;
  let! o := gets t in match o with Some x => ret x | None => undef end.

Definition kill {T} : M (cell T) () := modify (λ c, Cell (flag c) None).

End Singleton.

(** ** daemon.cc *)
Module anDaemon.
Import Singleton.

Section start.
Context {W : Type}.
(** The managers' [init] functions, in their order. *)
Context (config_init : bytes → M W bool) (logger_init plugin_init module_init storage_init net_init rpc_init : M W bool).

Definition init (directory : bytes) : M W bool :=
  if! config_init directory then
  if! logger_init then
  if! plugin_init then
  if! module_init then
  if! storage_init then
  if! net_init then
  if! rpc_init then ret true
  else ret false else ret false else ret false else ret false else ret false else ret false else ret false.
End start.

(** What [stop] changes of NetManager and RPCManager, and the singletons it
    touches. *)
Record server := Server { _running : bool; _io_stopped : bool }.
Definition new_server : server := Server true false.
Record singletons := Singletons {
  s_net : cell server;
  s_rpc : cell server;
  s_db : cell ();
  s_modules : cell ();
}.

Definition on_net {A} (m : M (cell server) A) : M singletons A :=
  zoom s_net (λ c s, Singletons c (s_rpc s) (s_db s) (s_modules s)) m.
Definition on_rpc {A} (m : M (cell server) A) : M singletons A :=
  zoom s_rpc (λ c s, Singletons (s_net s) c (s_db s) (s_modules s)) m.
Definition on_db {A} (m : M (cell ()) A) : M singletons A :=
  zoom s_db (λ c s, Singletons (s_net s) (s_rpc s) c (s_modules s)) m.
Definition on_modules {A} (m : M (cell ()) A) : M singletons A :=
  zoom s_modules (λ c s, Singletons (s_net s) (s_rpc s) (s_db s) c) m.

(** [NetManager::stop], and [RPCManager::stop], which leaves [_running]. *)
Definition net_stop : M (cell server) () :=
  let! _ := instance new_server in modify (λ c, Cell (flag c) (Some (Server false true))).
Definition rpc_stop : M (cell server) () :=
  let! m := instance new_server in modify (λ c, Cell (flag c) (Some (Server (_running m) true))).

Definition stop : M singletons () :=
  on_net net_stop ;;;
  on_rpc rpc_stop ;;;
  on_db (instance tt) ;;; on_db kill ;;;
  on_modules (instance tt) ;;; on_modules kill.

(** [signal_handler] of main.cc. *)
Inductive signal := SIGINT | SIGHUP | SIGQUIT | SIGKILL | SIGTERM | SIGOTHER.
Definition signal_handler (code : signal) : M singletons () :=
  match code with SIGOTHER => ret tt | _ => stop end.

(** The first signal stops both servers; a second one, or any use of
    DBManager or ModuleManager after it, is undefined: [stop] destroys the two
    singletons, whose once flag stays set, so that [instance] dereferences a
    null pointer. *)
Theorem use_after_stop s s' code :
  code ≠ SIGOTHER → signal_handler code s = (Ret tt, s') →
  (_io_stopped <$> t (s_net s')) = Some true ∧ (_io_stopped <$> t (s_rpc s')) = Some true ∧
  (on_db (instance tt) s').1 = Undef ∧ (on_modules (instance tt) s').1 = Undef ∧
  ∀ code', code' ≠ SIGOTHER → (signal_handler code' s').1 = Undef.
Proof.
  intros Hc Hrun. assert (Hstop : stop s = (Ret tt, s')) by (by destruct code). clear Hrun.
  destruct s as [[[] [n|]] [[] [r|]] [[] [[]|]] [[] [[]|]]]; vm_compute in Hstop; try discriminate;
    injection Hstop as <-; repeat (split; [reflexivity|]); intros []; done.
Qed.

(** Every singleton but the database's is created while [init] runs. *)
Definition started : singletons :=
  Singletons (Cell true (Some new_server)) (Cell true (Some new_server)) never (Cell true (Some tt)).
Definition stopped : singletons :=
  Singletons (Cell true (Some (Server false true))) (Cell true (Some (Server true true))) (Cell true None) (Cell true None).

Lemma use_after_stop_witness :
  (_io_stopped <$> t (s_net stopped)) = Some true ∧ (_io_stopped <$> t (s_rpc stopped)) = Some true ∧
  (on_db (instance tt) stopped).1 = Undef ∧ (on_modules (instance tt) stopped).1 = Undef ∧
  ∀ code', code' ≠ SIGOTHER → (signal_handler code' stopped).1 = Undef.
Proof. apply (use_after_stop started _ SIGTERM); [discriminate|reflexivity]. Defined.
End anDaemon.

(** ** plugin_manager.cc, net_manager.cc *)
Module Managers.

(** The servers [PluginManager::init] adds to the kernel, with their versions. *)
Definition servers : list (bytes * Z) :=
  [(lit "BootstrapServer", 1%Z); (lit "LocalStorageServer", 1%Z); (lit "RemoteStorageServer", 1%Z);
   (lit "SessionServer", 1%Z); (lit "GenericServer", 1%Z)].

Definition plugin_init : M (list (bytes * Z)) bool :=
  modify (λ kernel, kernel ++ servers) ;;; ret true.

Section net.
Context {W : Type}.

(** p2p::Discovery *)
Definition Hello (root response : Value) : M W (bool * Value) := ret (false, response).
Definition GetPeers (root response : Value) : M W (bool * Value) := ret (false, response).

(** [NetManager::init] registers them on a local object, which is gone when
    the methods are called: [alive] says whether it is not. *)
Definition on_local (alive : bool) (m : Value → Value → M W (bool * Value)) (root response : Value) : M W (bool * Value) :=
  if alive then m root response else undef.

Definition net_methods (alive : bool) : list (JsonRpc.CallbackMethod (W := W)) :=
  JsonRpc.AddMethod (JsonRpc.RpcMethod (lit "GetPeers") (on_local alive GetPeers))
    (JsonRpc.AddMethod (JsonRpc.RpcMethod (lit "Hello") (on_local alive Hello)) []).

(** [init] returns: the object is destroyed. *)
Definition net_init : list (JsonRpc.CallbackMethod (W := W)) * bool := (net_methods false, true).
End net.
End Managers.

(** ** main.cc *)
Module Main.
Section main.
Context {W : Type} (home : option bytes).
(** The process calls, and the daemon. *)
Context (fork setsid : M W Z) (daemon_init : bytes → M W bool) (daemon_run : M W ()).

(** What the command line says; parsing it throws for an unknown option. *)
Record options := Options {
  o_help : bool;
  o_version : bool;
  o_daemonize : bool;
  o_directory : option bytes;
}.

Definition EXIT_SUCCESS : Z := 0.
Definition EXIT_FAILURE : Z := 1.

(** The fork: an exit code when this process ends here. *)
Definition daemonize : M W (option Z) :=
  let! pid := fork in
  if (pid <? 0)%Z then ret (Some EXIT_FAILURE) else
  if (0 <? pid)%Z then ret (Some EXIT_SUCCESS) else
  let! sid := setsid in
  if (sid <? 0)%Z then ret (Some EXIT_FAILURE) else ret None.

Definition main (parse : outcome options) : M W Z :=
  try_catch
    (let! vm := lift_outcome parse in
     if o_help vm then ret 1%Z else
     if o_version vm then ret 0%Z else
     let! directory := lift_outcome (expand_home home (default (lit ".") (o_directory vm))) in
     if! daemon_init directory then
       let! exited := (if o_daemonize vm then daemonize else ret None) in
       match exited with
       | Some code => ret code
       | None => daemon_run ;;; ret EXIT_SUCCESS
       end
     else ret EXIT_FAILURE)
    (λ _, Some (ret EXIT_FAILURE)).

(** The process ends with code 0 or 1 whatever is thrown while it parses,
    starts and runs; it runs the daemon only after a successful start, and a
    start that fails is code 1. *)
Theorem main_exit_code parse w :
  ((main parse w).1 = Ret 0%Z ∨ (main parse w).1 = Ret 1%Z ∨ (main parse w).1 = Undef) ∧
  ∀ vm d w', parse = Ret vm → o_help vm = false → o_version vm = false →
    expand_home home (default (lit ".") (o_directory vm)) = Ret d →
    daemon_init d w = (Ret false, w') → main parse w = (Ret 1%Z, w').
Proof.
  split.
  - unfold main, try_catch, bind, lift_outcome, ret. destruct parse as [vm|e|]; [|auto..].
    destruct (o_help vm); [auto|]. destruct (o_version vm); [auto|].
    destruct (expand_home home _) as [d|e|]; [|auto..].
    destruct (daemon_init d w) as [[[]|e|] w1]; [|auto..].
    destruct (o_daemonize vm).
    + unfold daemonize, bind, ret. destruct (fork w1) as [[pid|e|] w2]; [|auto..].
      destruct (pid <? 0)%Z; [auto|]. destruct (0 <? pid)%Z; [auto|].
      destruct (setsid w2) as [[sid|e|] w3]; [|auto..]. destruct (sid <? 0)%Z; [auto|].
      destruct (daemon_run w3) as [[]]; auto.
    + destruct (daemon_run w1) as [[]]; auto.
  - intros vm d w' -> Hh Hv Hd Hi. unfold main. apply try_catch_ret. run. rewrite Hh, Hv, Hd. run. done.
Qed.
End main.

Lemma main_exit_code_witness :
  main None (ret 0%Z) (ret 0%Z) (λ _, ret false) (ret tt) (Ret (Options false false true None)) tt = (Ret 1%Z, tt).
Proof.
  exact (proj2 (main_exit_code None (ret 0%Z) (ret 0%Z) (λ _, ret false) (ret tt)
    (Ret (Options false false true None)) tt) _ (lit ".") tt eq_refl eq_refl eq_refl eq_refl eq_refl).
Defined.
End Main.
