(* ===== verification/Utilities.v ===== *)
(** * logger, hostlist and pdb_updater: the small parts

    The severity names and the sinks of logger.cc, file_logger.cc, the bootstrap plugin
    hostlist.cc and the background thread of pdb_updater.cc.  The network and
    [boost::algorithm::split] are parameters. *)

From S2P Require Import Prelude Decimal KvStore ModuleManager JsonRpc Storage.
Local Open Scope prog_scope.

(** ** Logging *)
Module Log.

Inductive severity_level := DEBUG | INFO | WARNING | ERROR | FATAL.

Definition level (l : severity_level) : Z :=
  match l with DEBUG => 0 | INFO => 1 | WARNING => 2 | ERROR => 3 | FATAL => 4 end.

Definition str : list bytes := [lit "debug"; lit "info"; lit "warning"; lit "error"; lit "fatal"].

(** [operator<<(strm, lvl)] for the integer value of a level: negative
    values are large as [std::size_t]. *)
Definition print_level (lvl : Z) : bytes :=
  if (uint64 lvl <? zlen str)%Z then default [] (str !! Z.to_nat lvl) else print_int lvl.

(** [Logger::_log] of file_logger.cc. *)
Definition _log (lvl : Z) (message : bytes) : bytes :=
  print_level lvl ++ lit ": " ++ message ++ [char_of_Z 10].

(** [Logger::log] of file_logger.cc: [std::cout << level, message] prints the
    level and drops the message. *)
Definition log (threshold lvl : Z) (message : bytes) : bytes * bool :=
  (if (threshold <=? lvl)%Z then print_int lvl else [], true).

(** *** logger.cc: the sinks

    boost.log's core is the sinks it has and what they have been given; the
    texts of the attributes RecordID and TimeStamp of a record are [stamp]. *)
Inductive target := LogFile (path : bytes) | Cerr.
#[export] Instance target_eq_dec : EqDecision target.
Proof. solve_decision. Defined.

(** A text_sink with its filter [Severity >= threshold] and its stream. *)
Record text_sink := Sink { threshold : Z; stream : target }.
Record core := Core { sinks : list text_sink; written : list (target * bytes) }.

Definition add_sink (s : text_sink) : M core () := modify (λ c, Core (sinks c ++ [s]) (written c)).

(** The formatter "%1% %2% [%3%] %4%", and the end of the line the backend
    adds. *)
Definition format (stamp : bytes * bytes) (lvl : Z) (msg : bytes) : bytes :=
  fst stamp ++ lit " " ++ snd stamp ++ lit " [" ++ print_level lvl ++ lit "] " ++ msg ++ [char_of_Z 10].

(** [Logger::log] *)
Definition sink_log (stamp : bytes * bytes) (msg : bytes) (lvl : severity_level) : M core () :=
  modify (λ c, Core (sinks c) (written c ++
    map (λ s, (stream s, format stamp (level lvl) msg)) (filter (λ s, (threshold s ≤ level lvl)%Z) (sinks c)))).

(** [Logger::init]; the assertion that the file could be opened aborts. *)
Definition sink_init (is_open : bytes → bool) (stamp : bytes * bytes) (logfile : bytes)
    (file_lvl console_lvl : severity_level) : M core bool :=
  if is_open logfile then
    add_sink (Sink (level console_lvl) Cerr) ;;;
    add_sink (Sink (level file_lvl) (LogFile logfile)) ;;;
    sink_log stamp (lit "Logger ready") INFO ;;;
    ret true
  else undef.

Definition log_all (l : list (bytes * bytes * (bytes * severity_level))) : M core () :=
  foldr (λ r m, sink_log (fst r) (fst (snd r)) (snd (snd r)) ;;; m) (ret tt) l.

(** What a stream has been given. *)
Definition lines_of (t : target) (c : core) : list bytes := map snd (filter (λ w, fst w = t) (written c)).

(** A record goes to no stream but those of the sinks. *)
Lemma no_lines_elsewhere t l lvl text :
  filter (λ s, stream s = t) l = [] →
  map snd (filter (λ w : target * bytes, fst w = t)
    (map (λ s, (stream s, text)) (filter (λ s, (threshold s ≤ lvl)%Z) l))) = [].
Proof.
  induction l as [|[n t'] l IH]; [done|]. rewrite !filter_cons. cbn [stream threshold].
  destruct (decide (t' = t)) as [|Hne]; [done|]. intros Hs.
  destruct (decide (n ≤ lvl)%Z); [|by apply IH].
  cbn [map stream]. rewrite filter_cons. cbn [fst]. rewrite decide_False by done. by apply IH.
Qed.

Lemma lines_of_sink_log stamp msg lvl c t n :
  filter (λ s, stream s = t) (sinks c) = [Sink n t] →
  lines_of t (sink_log stamp msg lvl c).2 =
    lines_of t c ++ (if decide (n ≤ level lvl)%Z then [format stamp (level lvl) msg] else []).
Proof.
  unfold lines_of, sink_log, modify. cbn [snd written]. rewrite filter_app, map_app. intros Hs. f_equal.
  revert Hs. induction (sinks c) as [|[n' t'] l IH]; [done|]. rewrite !filter_cons. cbn [stream threshold].
  destruct (decide (t' = t)) as [->|Ht]; intros Hs.
  - injection Hs as -> Hs. pose proof (no_lines_elsewhere t l (level lvl) (format stamp (level lvl) msg) Hs) as Hrest.
    destruct (decide (n ≤ level lvl)%Z); [|exact Hrest].
    cbn [map stream]. rewrite filter_cons. cbn [fst]. rewrite decide_True by done. cbn [map snd]. by rewrite Hrest.
  - destruct (decide (n' ≤ level lvl)%Z); [|by apply IH]. cbn [map stream]. rewrite filter_cons. cbn [fst].
    rewrite decide_False by done. by apply IH.
Qed.

(** The lines of the records [l] at the level [n] and above. *)
Definition shown (n : Z) (l : list (bytes * bytes * (bytes * severity_level))) : list bytes :=
  map (λ r, format (fst r) (level (snd (snd r))) (fst (snd r))) (filter (λ r, (n ≤ level (snd (snd r)))%Z) l).

Lemma lines_of_log_all t n l c :
  filter (λ s, stream s = t) (sinks c) = [Sink n t] →
  lines_of t (log_all l c).2 = lines_of t c ++ shown n l.
Proof.
  revert c. induction l as [|r l IH]; intros c Hc; [cbn; by rewrite app_nil_r|].
  change ((log_all (r :: l) c).2) with ((log_all l (sink_log (fst r) (fst (snd r)) (snd (snd r)) c).2).2).
  rewrite IH by done. rewrite (lines_of_sink_log _ _ _ c t n Hc), <-app_assoc. f_equal.
  unfold shown. rewrite filter_cons. by case_decide.
Qed.

(** After [init] on a fresh core each stream gets exactly the records of its
    level and above, in order and beginning with the one of [init]: the log
    file by the first level, the console by the second. *)
Theorem sinks_by_level is_open stamp logfile file_lvl console_lvl l :
  is_open logfile = true →
  let c := (log_all l (sink_init is_open stamp logfile file_lvl console_lvl (Core [] [])).2).2 in
  let all := (stamp, (lit "Logger ready", INFO)) :: l in
  lines_of (LogFile logfile) c = shown (level file_lvl) all ∧ lines_of Cerr c = shown (level console_lvl) all.
Proof.
  intros Ho c all.
  pose (two := [Sink (level console_lvl) Cerr; Sink (level file_lvl) (LogFile logfile)]).
  assert (Hc : c = (log_all all (Core two [])).2) by (subst c; unfold sink_init; by rewrite Ho).
  rewrite Hc. split; [apply (lines_of_log_all _ (level file_lvl))|apply (lines_of_log_all _ (level console_lvl))];
    cbn [sinks]; unfold two; rewrite !filter_cons; cbn [stream]; repeat case_decide; naive_solver.
Qed.

(** The two tables name every level, each level by a name of its own, and
    any other value by its number. *)
Theorem level_names lvl :
  (∀ l, print_level (level l) = default [] (str !! Z.to_nat (level l)) ∧ print_level (level l) ∈ str) ∧
  (∀ l l', print_level (level l) = print_level (level l') → l = l') ∧
  ((4 < lvl < 2 ^ 31 ∨ - 2 ^ 31 ≤ lvl < 0)%Z → print_level lvl = print_int lvl).
Proof.
  split; [|split].
  - intros l. split; [by destruct l|]. apply (bool_decide_unpack _). by destruct l.
  - by intros [] [].
  - intros Hl. unfold print_level, uint64. destruct Hl as [Hl|Hl].
    + rewrite Z.mod_small by lia. change (zlen str) with 5%Z. by destruct (Z.ltb_spec lvl 5); [lia|].
    + rewrite <-(Z_mod_plus_full lvl 1), Z.mod_small by lia. change (zlen str) with 5%Z.
      by destruct (Z.ltb_spec (lvl + 1 * 2 ^ 64) 5); [lia|].
Qed.

Lemma level_names_witness : print_level (-1) = lit "-1".
Proof.
  transitivity (print_int (-1)); [|reflexivity].
  apply (proj2 (proj2 (level_names (-1)))). right. split; [discriminate|reflexivity].
Defined.
End Log.

(** ** hostlist.cc *)
Module Hostlist.

(** [atoi]: white space, a sign, digits; undefined when the value does not
    fit an [int]. *)
Definition atoi (s : bytes) : outcome Z :=
  let z := match skip_space s with
           | c :: s => if decide (c = "-"%char) then (- number 0 s)%Z
                       else if decide (c = "+"%char) then number 0 s else number 0 (c :: s)
           | [] => 0%Z
           end in
  if ((- 2 ^ 31 <=? z) && (z <? 2 ^ 31))%Z then Ret z else Undef.

Section hostlist.
Context {W : Type}.
(** [boost::algorithm::split(res, s, is_any_of(sep), token_compress_on)] *)
Context (split : bytes → bytes → list bytes).
(** [bootstrapFromPeer], which the class declares and does not define. *)
Context (bootstrapFromPeer : bytes → Z → M W bool).
(** [http_request]: the contents of the file, if it could be fetched. *)
Context (http_request : bytes → M W (option bytes)).

(** The loop over the lines: [fail] is what it returns in the end. *)
Fixpoint peers (plist : list bytes) (fail : bool) : M W bool :=
  match plist with
  | [] => ret fail
  | peer :: plist =>
      match split ":"%string peer with
      | ip :: port :: _ =>
          let! port := lift_outcome (atoi port) in
          if! bootstrapFromPeer ip port then peers plist false else peers plist fail
      | _ => undef                                     (* pinfo[1] *)
      end
  end.

Definition bootstrapFromHostlist (args : bytes) : M W bool :=
  let! hlist := http_request args in
  match hlist with
  | None => ret false
  | Some hlist => peers (split [char_of_Z 10] hlist) true
  end.
End hostlist.

Section laws.
Context (split : bytes → bytes → list bytes) (reachable : bytes → Z → bool).
Implicit Types (line : bytes).

(** The peer a line names. *)
Definition peer_of line : option (bytes * Z) :=
  match split ":"%string line with
  | ip :: port :: _ => match atoi port with Ret z => Some (ip, z) | _ => None end
  | _ => None
  end.
Definition reached line : bool :=
  match peer_of line with Some (ip, port) => reachable ip port | None => false end.

(** A network that answers, for every peer, whether it is reachable. *)
Definition ask (ip : bytes) (port : Z) : M () bool := ret (reachable ip port).

Lemma peer_of_Some line ip port :
  peer_of line = Some (ip, port) →
  ∃ p rest, split ":"%string line = ip :: p :: rest ∧ atoi p = Ret port.
Proof.
  unfold peer_of. destruct (split _ line) as [|ip' [|p rest]]; try discriminate.
  destruct (atoi p) as [z| |] eqn:Hp; try discriminate. intros [= -> ->]. eauto.
Qed.

Lemma peers_step line ip port plist fail :
  peer_of line = Some (ip, port) →
  peers split ask (line :: plist) fail tt = peers split ask plist (fail && negb (reached line)) tt.
Proof.
  intros Hp. unfold reached. rewrite Hp.
  destruct (peer_of_Some _ _ _ Hp) as (p & rest & Hs & Ha). cbn [peers]. rewrite Hs, Ha. run.
  unfold ask at 1. run. by destruct (reachable ip port); rewrite ?andb_false_r, ?andb_true_r.
Qed.

Lemma peers_ok plist fail rest :
  Forall (λ l, is_Some (peer_of l)) plist →
  peers split ask (plist ++ rest) fail tt = peers split ask rest (fail && negb (existsb reached plist)) tt.
Proof.
  intros Hl. revert fail. induction Hl as [|line plist [[ip port] Hp] _ IH]; intros fail; cbn [app existsb].
  { by rewrite andb_true_r. }
  by rewrite (peers_step _ _ _ _ _ Hp), IH, negb_orb, andb_assoc.
Qed.

(** The answer is inverted: with a list of well-formed lines,
    [bootstrapFromHostlist] is true exactly when no peer was reached.  A line
    without a port, such as the empty one after a last line break, is
    undefined. *)
Theorem bootstrap_inverted args hlist :
  let plist := split [char_of_Z 10] hlist in
  (Forall (λ l, is_Some (peer_of l)) plist →
   bootstrapFromHostlist split ask (λ _, ret (Some hlist)) args tt = (Ret (negb (existsb reached plist)), tt)) ∧
  (∀ l1 line l2, plist = l1 ++ line :: l2 → Forall (λ l, is_Some (peer_of l)) l1 →
   length (split ":"%string line) < 2 →
   (bootstrapFromHostlist split ask (λ _, ret (Some hlist)) args tt).1 = Undef).
Proof.
  intros plist. unfold bootstrapFromHostlist. split.
  - intros Hl. run. fold plist. rewrite <-(app_nil_r plist). by rewrite peers_ok, app_nil_r.
  - intros l1 line l2 Hp Hl1 Hlen. run. fold plist. rewrite Hp, peers_ok by done. cbn [peers].
    destruct (split _ line) as [|ip [|port rest]]; simpl in Hlen; [done|done|lia].
Qed.
End laws.

(** *** The HTTP request *)
Section http.
(** What a server sends back on a request, in the pieces it arrives in, and
    whether the connection was closed at the end; resolving or connecting may
    throw. *)
Context (exchange : bytes → bytes → outcome (list bytes * bool)).

Definition CRLF : bytes := [char_of_Z 13; char_of_Z 10].

Fixpoint is_prefix (p s : bytes) : bool :=
  match p, s with
  | [], _ => true
  | a :: p, b :: s => bool_decide (a = b) && is_prefix p s
  | _ :: _, [] => false
  end.
Fixpoint occurs (p s : bytes) : bool :=
  is_prefix p s || match s with [] => false | _ :: s => occurs p s end.

(** [read_until(socket, response, delim)]: pieces are added to the buffer
    until the delimiter is in it; the end of the data throws. *)
Fixpoint read_until (delim response : bytes) (pieces : list bytes) : outcome (bytes * list bytes) :=
  if occurs delim response then Ret (response, pieces) else
  match pieces with
  | [] => Throw runtime_error
  | p :: pieces => read_until delim (response ++ p) pieces
  end.

(** [response_stream >> status_code] for an [unsigned int]: white space, a
    sign, digits; a negative number wraps.  [None] when it fails, or when it reaches the end
    of the buffer, where the [getline] that follows fails. *)
Definition read_unsigned (s : bytes) : option (Z * bytes) :=
  let s := skip_space s in
  let '(neg, s) := match s with
                   | c :: s' => if decide (c = "-"%char) then (true, s')
                                else (false, if decide (c = "+"%char) then s' else s)
                   | [] => (false, [])
                   end in
  match s with
  | c :: _ =>
      match digit c, skip_digits s with
      | Some _, r :: rest => let z := number 0 s in
                             if (z <? 2 ^ 32)%Z then Some (uint32 (if neg then - z else z)%Z, r :: rest) else None
      | _, _ => None
      end
  | [] => None
  end.

(** [getline]: up to the line feed, which is dropped. *)
Fixpoint skip_line (s : bytes) : bytes :=
  match s with
  | c :: s => if decide (c = char_of_Z 10) then s else skip_line s
  | [] => []
  end.

(** [_url.find_first_of('/')]; [substr(npos)] throws. *)
Definition split_url (url : bytes) : outcome (bytes * bytes) :=
  match list_find (λ c, c = SLASH) url with
  | Some (i, _) => Ret (take i url, drop i url)
  | None => Throw out_of_range
  end.

Definition request (server file : bytes) : bytes :=
  lit "GET " ++ file ++ lit " HTTP/1.0" ++ CRLF ++ lit "Host: " ++ server ++ CRLF ++
  lit "Accept: *//*" ++ CRLF ++ lit "Connection: close" ++ CRLF ++ CRLF.

(** The body of the [try].  What is in the buffer once the headers are there
    goes to [buffer], which is not used; [out] gets what arrives after it. *)
Definition fetch (server file : bytes) : outcome (option bytes) :=
  match exchange server (request server file) with
  | Ret (pieces, closed) =>
      match read_until CRLF [] pieces with
      | Ret (response, pieces) =>
          let '(http_version, s) := Storage.word (skip_space response) in
          match read_unsigned s with
          | None => Ret None
          | Some (status_code, s) =>
              if bool_decide (take 5 http_version ≠ lit "HTTP/") then Ret None else
              if (status_code =? 200)%Z then
                match read_until (CRLF ++ CRLF) (skip_line s) pieces with
                | Ret (_, pieces) => if closed then Ret (Some (concat pieces)) else Throw runtime_error
                | Throw e => Throw e
                | Undef => Undef
                end
              else Ret None
          end
      | Throw e => Throw e
      | Undef => Undef
      end
  | Throw e => Throw e
  | Undef => Undef
  end.

(** [catch(const std::exception&)] *)
Definition http_request (url : bytes) : outcome (option bytes) :=
  match split_url url with
  | Ret (server, file) => match fetch server file with Throw _ => Ret None | r => r end
  | Throw e => Throw e
  | Undef => Undef
  end.

Lemma is_prefix_app p r : is_prefix p (p ++ r) = true.
Proof. induction p as [|a p IH]; [done|]. cbn [app is_prefix]. by rewrite bool_decide_true, IH. Qed.

Lemma occurs_app a p r : occurs p (a ++ p ++ r) = true.
Proof.
  induction a as [|x a IH]; cbn [app].
  - pose proof (is_prefix_app p r) as Hp. by destruct (p ++ r); cbn [occurs]; rewrite Hp.
  - cbn [occurs]. by rewrite IH, orb_true_r.
Qed.

Lemma read_until_here delim response pieces :
  occurs delim response = true → read_until delim response pieces = Ret (response, pieces).
Proof. by destruct pieces; cbn [read_until]; intros ->. Qed.

Lemma skip_line_app reason s : char_of_Z 10 ∉ reason → skip_line (reason ++ char_of_Z 10 :: s) = s.
Proof.
  induction reason as [|c reason IH]; cbn [app skip_line]; intros Hr; [by destruct (decide _)|].
  apply not_elem_of_cons in Hr as [Hc Hr]. destruct (decide _); [congruence|auto].
Qed.

(** What a server sends: a status line, headers, a blank line, contents. *)
Definition ok_status : bytes := lit "HTTP/1.0 200".
Definition reply (reason headers body : bytes) : bytes :=
  ok_status ++ char_of_Z 32 :: reason ++ CRLF ++ headers ++ CRLF ++ CRLF ++ body.

Lemma reply_status reason headers body :
  let rest := char_of_Z 32 :: reason ++ CRLF ++ headers ++ CRLF ++ CRLF ++ body in
  Storage.word (skip_space (reply reason headers body)) = (lit "HTTP/1.0", lit " 200" ++ rest) ∧
  read_unsigned (lit " 200" ++ rest) = Some (200%Z, rest).
Proof. done. Qed.

Lemma fetch_reply server file reason headers early pieces closed :
  char_of_Z 10 ∉ reason →
  exchange server (request server file) = Ret (reply reason headers early :: pieces, closed) →
  fetch server file = if closed then Ret (Some (concat pieces)) else Throw runtime_error.
Proof.
  intros Hr He. unfold fetch. rewrite He. cbn [read_until app occurs is_prefix CRLF orb].
  rewrite read_until_here.
  2: { unfold reply. rewrite app_comm_cons, app_assoc. apply occurs_app. }
  destruct (reply_status reason headers early) as [-> ->].
  rewrite (bool_decide_false (_ ≠ _)) by (intros Hne; by apply Hne). cbn [Z.eqb Pos.eqb].
  rewrite read_until_here; [done|].
  replace (char_of_Z 32 :: reason ++ CRLF ++ headers ++ CRLF ++ CRLF ++ early)
    with ((char_of_Z 32 :: reason ++ [char_of_Z 13]) ++ char_of_Z 10 :: headers ++ (CRLF ++ CRLF) ++ early)
    by (unfold CRLF; cbn [app]; by rewrite <-app_assoc).
  rewrite skip_line_app.
  - apply (occurs_app headers (CRLF ++ CRLF)).
  - rewrite not_elem_of_cons, not_elem_of_app, list_elem_of_singleton. by split; [|split].
Qed.

Lemma no_slash server : SLASH ∉ server → list_find (λ c, c = SLASH) server = None.
Proof. intros Hs. apply list_find_None, Forall_forall. by intros x Hx ->. Qed.

(** Of a file that can be fetched, [http_request] returns only what arrives
    after the piece that completes the header: the contents that came with the
    header are dropped, all of them when the reply arrives at once.  An address
    without a slash throws. *)
Theorem http_drops_early server file reason headers early pieces :
  SLASH ∉ server → char_of_Z 10 ∉ reason →
  exchange server (request server (SLASH :: file)) = Ret (reply reason headers early :: pieces, true) →
  http_request (server ++ SLASH :: file) = Ret (Some (concat pieces)) ∧
  http_request server = Throw out_of_range.
Proof.
  intros Hs Hr He. unfold http_request.
  assert (split_url (server ++ SLASH :: file) = Ret (server, SLASH :: file)) as ->.
  { unfold split_url. rewrite list_find_app_r by apply no_slash, Hs. cbn [list_find]. rewrite decide_True by done.
    cbn. by rewrite take_app_length, drop_app_length. }
  rewrite (fetch_reply _ _ _ _ _ _ _ Hr He). split; [done|].
  unfold split_url. by rewrite (no_slash server Hs).
Qed.
End http.

(** *** Witnesses *)
Module Example.
Definition server : bytes := "host".
Definition server_reply : bytes := reply "OK" "A: b" "1.2.3.4:5".
Definition exchange (s r : bytes) : outcome (list bytes * bool) :=
  if decide (s = server) then Ret ([server_reply], true) else Throw runtime_error.

Lemma http_drops_early_witness : http_request exchange ("host" ++ SLASH :: "list") = Ret (Some []).
Proof.
  refine (proj1 (http_drops_early exchange server "list" "OK" "A: b" "1.2.3.4:5" [] _ _ _)).
  - apply (bool_decide_unpack _). reflexivity.
  - apply (bool_decide_unpack _). reflexivity.
  - reflexivity.
Defined.
End Example.

(** [Hostlist] as it runs: the list comes from [http_request]. *)
Definition bootstrap {W} (split : bytes → bytes → list bytes) (bootstrapFromPeer : bytes → Z → M W bool)
    (exchange : bytes → bytes → outcome (list bytes * bool)) : bytes → M W bool :=
  bootstrapFromHostlist split bootstrapFromPeer (λ url, lift_outcome (http_request exchange url)).

Module ListExample.
(** The pieces between separators; several in a row count as one. *)
Fixpoint cut (seps s acc : bytes) (after : bool) : list bytes :=
  match s with
  | c :: s => if decide (c ∈ seps) then (if after then id else cons acc) (cut seps s [] true)
              else cut seps s (acc ++ [c]) false
  | [] => [acc]
  end.
Definition split (seps s : bytes) : list bytes := cut seps s [] false.
Definition peer_list : bytes := "1.2.3.4:5" ++ char_of_Z 10 :: "6.7.8.9:10".
Definition reachable (ip : bytes) (port : Z) : bool := (port =? 10)%Z.

Lemma bootstrap_inverted_witness :
  (bootstrapFromHostlist split (ask reachable) (λ _, ret (Some peer_list)) [] tt).1 = Ret false ∧
  (bootstrapFromHostlist split (ask reachable) (λ _, ret (Some (peer_list ++ [char_of_Z 10]))) [] tt).1 = Undef.
Proof.
  split.
  - assert (Forall (λ l, is_Some (peer_of split l)) (split [char_of_Z 10] peer_list)) as Hl
      by (repeat constructor; eexists; reflexivity).
    rewrite (proj1 (bootstrap_inverted split reachable [] peer_list) Hl). reflexivity.
  - apply (proj2 (bootstrap_inverted split reachable [] (peer_list ++ [char_of_Z 10]))
             [lit "1.2.3.4:5"; lit "6.7.8.9:10"] [] []); [reflexivity| |vm_compute; lia].
    repeat constructor; eexists; reflexivity.
Defined.
End ListExample.
End Hostlist.

(** ** pdb_updater.cc *)
Module PDB.

(** The updater's thread, between its steps, and whether [shutdown] has taken
    the lock, cleared [_run] or seen the thread end. *)
Inductive checker := Querying | Sleeping | Testing | Ended.
Inductive stopper := Running | Locked | Cleared | Joining | Joined.
Record pdb := { _run : bool; _checker : checker; _stop : stopper; _queries : nat }.

(** [initialise] starts the thread. *)
Definition initialise : bool * pdb :=
  (true, {| _run := true; _checker := Querying; _stop := Running; _queries := 0 |}).

Definition set_checker (c : checker) (p : pdb) : pdb :=
  {| _run := _run p; _checker := c; _stop := _stop p; _queries := _queries p |}.
Definition set_stop (r : bool) (c : stopper) (p : pdb) : pdb :=
  {| _run := r; _checker := _checker p; _stop := c; _queries := _queries p |}.

(** One step of [check]: the query, the sleep, the test of [_run], which it
    reads without the lock.  The result of the query is dropped. *)
Definition check (p : pdb) : option pdb :=
  match _checker p with
  | Querying => Some {| _run := _run p; _checker := Sleeping; _stop := _stop p; _queries := S (_queries p) |}
  | Sleeping => Some (set_checker Testing p)
  | Testing => Some (set_checker (if _run p then Querying else Ended) p)
  | Ended => None
  end.

(** One step of [shutdown]: lock, [_run=false], unlock, [join]. *)
Definition shutdown (p : pdb) : option pdb :=
  match _stop p with
  | Running => Some (set_stop (_run p) Locked p)
  | Locked => Some (set_stop false Cleared p)
  | Cleared => Some (set_stop (_run p) Joining p)
  | Joining => match _checker p with Ended => Some (set_stop (_run p) Joined p) | _ => None end
  | Joined => None
  end.

Inductive step : pdb → pdb → Prop :=
  | step_check p p' : check p = Some p' → step p p'
  | step_shutdown p p' : shutdown p = Some p' → step p p'.

Definition on_kv_put (key : bytes) : bool := false.
Definition on_kv_remove (key : bytes) : bool := false.
Definition on_db_update (key : bytes) : bool := false.

(** Once [_run] is cleared: the steps that are left, and the queries. *)
Definition cleared (p : pdb) : Prop :=
  match _stop p with Running | Locked => False | _ => True end.
Definition steps_left (p : pdb) : nat :=
  match _checker p with Querying => 3 | Sleeping => 2 | Testing => 1 | Ended => 0 end +
  match _stop p with Cleared => 2 | Joining => 1 | _ => 0 end.
Definition queries_left (p : pdb) : nat :=
  _queries p + match _checker p with Querying => 1 | _ => 0 end.

Definition inv (p : pdb) : Prop :=
  match _stop p with Running | Locked => True | _ => _run p = false end ∧
  match _checker p with Querying => True | _ => 1 ≤ _queries p end ∧
  match _stop p with Joined => _checker p = Ended | _ => True end.

Lemma step_inv p p' : step p p' → inv p → inv p'.
Proof.
  intros Hs Hi. destruct Hs as [[r c k q] p' Hs|[r c k q] p' Hs]; unfold inv in *; destruct c, k; cbn in *; simplify_eq;
    destruct Hi as (Hr & Hq & Hj); try destruct r; cbn; (split; [|split]); first [done|lia].
Qed.

Lemma step_cleared p p' :
  step p p' → inv p → cleared p → cleared p' ∧ steps_left p' < steps_left p ∧ queries_left p' ≤ queries_left p.
Proof.
  intros Hs (Hr & _ & _) Hc. unfold cleared, steps_left, queries_left in *.
  destruct Hs as [[r c k q] p' Hs|[r c k q] p' Hs]; destruct c, k; cbn in *; simplify_eq; cbn;
    (split; [|split]); first [done|lia].
Qed.

Lemma steps_cleared n p p' :
  nsteps step n p p' → inv p → cleared p →
  inv p' ∧ cleared p' ∧ n + steps_left p' ≤ steps_left p ∧ queries_left p' ≤ queries_left p.
Proof.
  induction 1 as [p|n p p1 p' Hs _ IH]; intros Hi Hc; [done|].
  destruct (step_cleared _ _ Hs Hi Hc) as (Hc1 & ? & ?).
  destruct (IH (step_inv _ _ Hs Hi) Hc1) as (? & ? & ? & ?).
  split; [done|]. split; [done|]. lia.
Qed.

(** C37 However the thread and [shutdown] interleave: the thread has queried at
    least once when it leaves its first round; once [_run] is cleared there are
    at most five steps and one query left; and the only state in which nothing
    can run is the one where the thread has ended and [shutdown] has joined it. *)
Theorem shutdown_joins p n p' :
  rtc step (snd initialise) p → cleared p → nsteps step n p p' →
  (_checker p ≠ Querying → 1 ≤ _queries p) ∧
  n ≤ 5 ∧ _queries p' ≤ S (_queries p) ∧
  ((∀ p'', ¬ step p' p'') ↔ _checker p' = Ended ∧ _stop p' = Joined).
Proof.
  intros Hp Hc Hn.
  assert (inv p) as Hi.
  { refine (rtc_ind_r inv _ _ _ _ Hp); [|intros; by eapply step_inv].
    done. }
  destruct (steps_cleared _ _ _ Hn Hi Hc) as ((Hr' & _ & _) & Hc' & Hs & Hq). unfold steps_left, cleared, queries_left in *.
  split; [destruct Hi as (_ & Hi & _); by destruct (_checker p)|]. split; [destruct (_checker p), (_stop p); lia|].
  split; [destruct (_checker p), (_checker p'); lia|].
  destruct p' as [r c k q]. cbn in *. split.
  - intros Hstuck. destruct c; [by edestruct Hstuck; apply step_check..|].
    destruct k; try done; by edestruct Hstuck; apply step_shutdown.
  - intros [-> ->] p'' Hst. inversion Hst; subst; discriminate.
Qed.

(** [shutdown] clears the flag while the thread is at its first query. *)
Definition late : pdb := {| _run := false; _checker := Querying; _stop := Cleared; _queries := 0 |}.
Definition joined : pdb := {| _run := false; _checker := Ended; _stop := Joined; _queries := 1 |}.

Lemma shutdown_joins_witness : nsteps step 5 late joined ∧ ((∀ p, ¬ step joined p) ↔ Ended = Ended ∧ Joined = Joined).
Proof.
  assert (nsteps step 5 late joined) as Hn.
  { eapply nsteps_l; [by apply step_check|]. eapply nsteps_l; [by apply step_check|].
    eapply nsteps_l; [by apply step_check|]. eapply nsteps_l; [by apply step_shutdown|].
    eapply nsteps_l; [by apply step_shutdown|]. apply nsteps_O. }
  split; [exact Hn|]. refine (proj2 (proj2 (proj2 (shutdown_joins late 5 joined _ _ Hn)))); [|exact I].
  eapply rtc_l; [by apply step_shutdown|]. eapply rtc_l; [by apply step_shutdown|]. reflexivity.
Defined.
End PDB.
