(* ===== verification/Sql.v ===== *)
(** * LiteSQL: tables behind a persistent object

    The SQL store keeps its data through LiteSQL, which is not part of the
    repository: the operations the generated code calls are the class [LiteSql],
    what they do to the rows of the tables is [LiteSqlLaws], and [MemSql] is an
    instance that keeps the tables in memory.  Rows, as LiteSQL hands them over, are
    lists of strings. *)

From S2P Require Import Prelude Decimal.
Local Open Scope prog_scope.

(** ** Fields, expressions and queries *)

(** [litesql::FieldType]: a column of a table. *)
Record FieldType := MkFieldType { name : bytes; field_type : bytes; table : bytes }.
#[export] Instance FieldType_eq_dec : EqDecision FieldType.
Proof. solve_decision. Defined.
Definition fullName (f : FieldType) : bytes := table f ++ lit "." ++ name f.

Definition A_field_type_integer : bytes := lit "INTEGER".
Definition A_field_type_string : bytes := lit "TEXT".
Definition A_field_type_datetime : bytes := lit "DATETIME".

(** [litesql::Expr] and [litesql::SelectQuery], as far as they are used. *)
Inductive Expr :=
  | Everything                               (* Expr() *)
  | Equals (f : FieldType) (v : bytes)       (* f == v *)
  | And (e1 e2 : Expr)                       (* e1 && e2 *)
  | In (f : FieldType) (q : SelectQuery)     (* f.in(q) *)
with SelectQuery :=
  | Select (result : list FieldType) (source : bytes) (where_ : Expr).

Definition Row : Type := list (bytes * bytes).
Fixpoint column (c : bytes) (r : Row) : option bytes :=
  match r with [] => None | (c', v) :: r => if decide (c' = c) then Some v else column c r end.

(** The rows that are read together: each with its table. *)
Fixpoint value_of (f : FieldType) (rs : list (bytes * Row)) : option bytes :=
  match rs with [] => None | (t, r) :: rs => if decide (t = table f) then column (name f) r else value_of f rs end.

(** What an expression says of rows, over the tables [rows]. *)
Section eval.
Context (rows : bytes → list Row).

Fixpoint eval (e : Expr) (rs : list (bytes * Row)) : bool :=
  match e with
  | Everything => true
  | Equals f v => bool_decide (value_of f rs = Some v)
  | And e1 e2 => eval e1 rs && eval e2 rs
  | In f (Select result source where_) =>
      match result with
      | [] => false
      | g :: _ =>
          existsb (λ r, eval where_ [(source, r)] && bool_decide (value_of f rs = column (name g) r ∧ is_Some (value_of f rs)))
            (rows source)
      end
  end.

(** The rows of [ts] with one id: the tables of a class and of those it
    inherits from. *)
Definition same_id (r : Row) (rs : list (bytes * Row)) : bool :=
  match rs with [] => true | (_, r') :: _ => bool_decide (column (lit "id_") r = column (lit "id_") r') end.
Fixpoint joined (ts : list bytes) : list (list (bytes * Row)) :=
  match ts with
  | [] => [[]]
  | t :: ts => concat (map (λ rs, map (λ r, (t, r) :: rs) (List.filter (λ r, same_id r rs) (rows t))) (joined ts))
  end.

(** The tables of the fields, and of the class's own id. *)
Definition tables_of (fts : list FieldType) (own : FieldType) : list bytes := remove_dups (table own :: map table fts).

(** What a query over the tables [ts] answers with: the fields of the rows. *)
Definition fields_of (fts : list FieldType) (rs : list (bytes * Row)) : list bytes := map (λ f, default [] (value_of f rs)) fts.
Definition selected (fts : list FieldType) (own : FieldType) (e : Expr) : list (list bytes) :=
  map (fields_of fts) (List.filter (eval e) (joined (tables_of fts own))).
End eval.

(** ** The operations *)

(** [SchemaItem]: its name, its kind and the statement that makes it. *)
Definition SchemaItem : Type := bytes * bytes * bytes.

(** Of each table, the fields to set with their new values. *)
Abbreviation Updates := (list (bytes * list (bytes * bytes))).

(** [litesql::Persistent]: whether the object has rows, and of which id. *)
Record Persistent := MkPersistent { inDatabase : bool; oldKey : Z }.

Class LiteSql (S : Type) := {
  (** Database::begin, commit *)
  db_begin : M S ();
  db_commit : M S ();
  (** Database::insert(table, values, fields) *)
  insert_row : bytes → list bytes → list bytes → M S ();
  (** Persistent::insert(tables, fieldRecs, valueRecs, sequence): one row in each
      table, of one id; the id *)
  insert_rows : list bytes → list (list bytes) → list (list bytes) → bytes → M S bytes;
  (** Persistent::prepareUpdate(updates, table), and updateField(updates, table,
      field) of a field that was modified or not, with its value as text *)
  prepareUpdate : bytes → Updates → Updates;
  updateField : bytes → FieldType → bool → bytes → Updates → Updates;
  (** Persistent::update(updates), of the rows of the id [oldKey] *)
  update_rows : Updates → Z → M S ();
  (** Persistent::deleteFromTable(table, id) *)
  deleteFromTable : bytes → Z → M S ();
  (** Database::delete_(table, expr) *)
  delete_rows : bytes → Expr → M S ();
  (** DataSource<T>(db, expr).all(): the fields of T, T::Own::Id, expr *)
  select_objects : list FieldType → FieldType → Expr → M S (list (list bytes));
  (** DataSource<Row>(db, query).all() *)
  select_rows : SelectQuery → M S (list (list bytes));
  (** Database::create() over the schema, needsUpgrade, upgrade *)
  create_schema : list SchemaItem → M S ();
  needsUpgrade : list SchemaItem → M S bool;
  upgrade : list SchemaItem → M S ();
  (** the backend *)
  getSQLType : bytes → bytes;
  getRowIDType : bytes;
  supportsSequences : bool;
  getCreateSequenceSQL : bytes → bytes;
  (** Persistent(db), Persistent(db, row), and the object after its rows were
      inserted; whether a Field that is only constructed counts as modified *)
  new_persistent : Persistent;
  persistent_of : list bytes → Persistent;
  inserted : bytes → Persistent → Persistent;
  constructed_modified : bool;
  (** litesql::DateTime as the text of a row, and back *)
  time_text : Z → bytes;
  text_time : bytes → Z;
  (** and as it is printed *)
  time_shown : Z → bytes;
}.

(** [toString] and [convert] of an [int]. *)
Definition int_text (z : Z) : bytes := print_int z.
Definition text_int (s : bytes) : Z :=
  match s with
  | c :: s' => if decide (c = char_of_Z 45) then (- number 0 s')%Z else number 0 s
  | [] => 0%Z
  end.

Lemma text_int_text z : (0 ≤ z < 2 ^ 64)%Z → text_int (int_text z) = z.
Proof.
  intros Hz. unfold text_int, int_text. pose proof (number_print z [] Hz ltac:(done)) as Hn. rewrite app_nil_r in Hn.
  destruct (print_int z) as [|c s] eqn:Hp; [by rewrite <-Hn|]. rewrite decide_False; [done|]. intros ->.
  unfold print_int in Hp. destruct (Z.ltb_spec z 0); [lia|]. pose proof (digits_all 20 z ltac:(lia)) as Hd. rewrite Hp in Hd.
  by apply Forall_cons in Hd as [Hd _].
Qed.

Lemma int_text_inj a b : (0 ≤ a < 2 ^ 64)%Z → (0 ≤ b < 2 ^ 64)%Z → int_text a = int_text b → a = b.
Proof. intros Ha Hb Heq. by rewrite <-(text_int_text a Ha), Heq, text_int_text. Qed.

(** [DataSource<T>::one()]: the first of the rows; none is an exception. *)
Definition one {S} (rows : M S (list (list bytes))) : M S (list bytes) :=
  let! l := rows in match l with [] => throw litesql_except | r :: _ => ret r end.

(** The statement that makes a table of columns with their types. *)
Definition declared (c : bytes * bytes) : bytes := fst c ++ lit " " ++ snd c.
Definition commas (ds : list bytes) : bytes := match ds with [] => [] | d :: ds => d ++ concat (map (λ d, char_of_Z 44 :: d) ds) end.
Definition create_table (t : bytes) (cs : list (bytes * bytes)) : bytes :=
  lit "CREATE TABLE " ++ t ++ lit " (" ++ commas (map declared cs) ++ lit ")".

(** ** What they do *)

(** [id] is the id of a row of the table. *)
Definition has_id (id : bytes) (r : Row) : Prop := column (lit "id_") r = Some id.
#[export] Instance has_id_dec id r : Decision (has_id id r).
Proof. unfold has_id. apply _. Defined.

(** Names and types that a statement can be taken apart into again. *)
Definition plain (s : bytes) : Prop := Forall (λ c, c ≠ char_of_Z 32 ∧ c ≠ char_of_Z 40 ∧ c ≠ char_of_Z 41 ∧ c ≠ char_of_Z 44) s.
Definition plain_type (s : bytes) : Prop := Forall (λ c, c ≠ char_of_Z 40 ∧ c ≠ char_of_Z 41 ∧ c ≠ char_of_Z 44) s.

(** The fields of an object's table, the id first; the rows inserted, of the id
    [id]: of the tables [ts] the fields [fss] with the values [vss]. *)
Definition fits (cs : list bytes) (fs vs : list bytes) : Prop := NoDup fs ∧ Forall (λ f, f ∈ cs) fs ∧ length vs = length fs.
Definition row_of (id : bytes) (fs vs : list bytes) : Row := zip fs (id :: tail vs).
Fixpoint rows_for (t : bytes) (id : bytes) (ts : list bytes) (fss vss : list (list bytes)) : list Row :=
  match ts, fss, vss with
  | t' :: ts, fs :: fss, vs :: vss => if decide (t = t') then row_of id fs vs :: rows_for t id ts fss vss else rows_for t id ts fss vss
  | _, _, _ => []
  end.

(** The updates of several tables, as they are collected; a row with some of its
    fields assigned; the tables after the updates. *)
Definition prepare (t : bytes) (u : Updates) : Updates := if existsb (λ p, bool_decide (fst p = t)) u then u else u ++ [(t, [])].
Definition update_field (t : bytes) (f : FieldType) (modified : bool) (v : bytes) (u : Updates) : Updates :=
  if modified then map (λ p, if decide (fst p = t) then (t, snd p ++ [(name f, v)]) else p) u else u.
Definition assigned (new : list (bytes * bytes)) (r : Row) : Row := map (λ p, (fst p, default (snd p) (column (fst p) new))) r.
Fixpoint updated (u : Updates) (key : Z) (t : bytes) (rs : list Row) : list Row :=
  match u with
  | [] => rs
  | (t', new) :: u => if decide (t' = t) then map (λ r, if decide (has_id (int_text key) r) then assigned new r else r) rs else updated u key t rs
  end.

(** The ids of the rows of a table. *)
Definition ids (rs : list Row) : list (option bytes) := map (column (lit "id_")) rs.

Class LiteSqlLaws (S : Type) `{LiteSql S} := {
  columns : S → bytes → option (list bytes);
  rows : S → bytes → list Row;
  (** so many rows can be inserted with a new id *)
  has_room : S → nat → Prop;
  has_room_less s m n : (m ≤ n)%nat → has_room s n → has_room s m;
  begin_ok s : ∃ s', db_begin s = (Ret tt, s') ∧ columns s' = columns s ∧ rows s' = rows s ∧ ∀ n, has_room s n → has_room s' n;
  commit_ok s : ∃ s', db_commit s = (Ret tt, s') ∧ columns s' = columns s ∧ rows s' = rows s ∧ ∀ n, has_room s n → has_room s' n;
  (** into a table without ids *)
  insert_row_ok s t vs fs cs : columns s t = Some cs → fits cs fs vs → lit "id_" ∉ fs →
    ∃ s', insert_row t vs fs s = (Ret tt, s') ∧ columns s' = columns s ∧ (∀ n, has_room s n → has_room s' n) ∧
      ∀ t', rows s' t' = if decide (t' = t) then rows s t ++ [zip fs vs] else rows s t';
  (** the id given; if it is 0, one that no row of the tables has *)
  insert_rows_ok s ts fss vss seq id :
    has_room s 1 → NoDup ts → ts ≠ [] → (0 ≤ id < 2 ^ 31)%Z →
    Forall3 (λ t fs vs, ∃ cs, columns s t = Some cs ∧ fits cs fs vs ∧ head fs = Some (lit "id_") ∧ head vs = Some (int_text id)) ts fss vss →
    ∃ s' id', insert_rows ts fss vss seq s = (Ret (int_text id'), s') ∧ columns s' = columns s ∧
      (if decide (id = 0)%Z then (0 < id' < 2 ^ 31)%Z ∧ (∀ t, t ∈ ts → Some (int_text id') ∉ ids (rows s t)) ∧
         ∀ n, has_room s (Datatypes.S n) → has_room s' n
       else id' = id) ∧
      ∀ t, rows s' t = rows s t ++ rows_for t (int_text id') ts fss vss;
  prepareUpdate_ok t u : prepareUpdate t u = prepare t u;
  updateField_ok t f m v u : updateField t f m v u = update_field t f m v u;
  update_ok s u key : NoDup (map fst u) → Forall (λ p, ∃ cs, columns s (fst p) = Some cs ∧ Forall (λ c, fst c ∈ cs) (snd p)) u →
    ∃ s', update_rows u key s = (Ret tt, s') ∧ columns s' = columns s ∧ ∀ t, rows s' t = updated u key t (rows s t);
  deleteFromTable_ok s t id cs : columns s t = Some cs →
    ∃ s', deleteFromTable t id s = (Ret tt, s') ∧ columns s' = columns s ∧ (∀ n, has_room s n → has_room s' n) ∧
      ∀ t', rows s' t' = if decide (t' = t) then List.filter (λ r, negb (bool_decide (has_id (int_text id) r))) (rows s t) else rows s t';
  delete_ok s t e cs : columns s t = Some cs →
    ∃ s', delete_rows t e s = (Ret tt, s') ∧ columns s' = columns s ∧ (∀ n, has_room s n → has_room s' n) ∧
      ∀ t', rows s' t' = if decide (t' = t) then List.filter (λ r, negb (eval (rows s) e [(t, r)])) (rows s t) else rows s t';
  (** in any order *)
  select_objects_ok s fts own e : Forall (λ t, is_Some (columns s t)) (tables_of fts own) →
    ∃ l s', select_objects fts own e s = (Ret l, s') ∧ columns s' = columns s ∧ rows s' = rows s ∧
      (∀ n, has_room s n → has_room s' n) ∧ l ≡ₚ selected (rows s) fts own e;
  (** of statements [create_table] the tables, in an empty database *)
  create_ok s items : (∀ t, columns s t = None) → NoDup (map (λ i, fst (fst i)) items) →
    ∃ s', create_schema items s = (Ret tt, s') ∧ (∀ n, has_room s n → has_room s' n) ∧
      ∀ t cs, (t, lit "table", create_table t cs) ∈ items → cs ≠ [] → plain t → Forall (λ c, plain (fst c) ∧ plain_type (snd c)) cs →
        columns s' t = Some (map fst cs) ∧ rows s' t = [];
  plain_types t : plain_type (getSQLType t) ∧ plain_type getRowIDType;
  new_persistent_ok : new_persistent = MkPersistent false 0;
  persistent_of_ok v r : persistent_of (v :: r) = MkPersistent true (text_int v);
  inserted_ok id p : inserted id p = MkPersistent true (text_int id);
  time_text_time z : (0 ≤ z < 2 ^ 63)%Z → text_time (time_text z) = z;
}.

(** ** Tables in memory

    An instance that keeps the rows in the order they came and counts the ids, and
    refuses tables and columns that are not there. *)

Record Mem := MkMem { mem_columns : bytes → option (list bytes); mem_rows : bytes → list Row; mem_next : Z }.
Definition mem_empty : Mem := MkMem (λ _, None) (λ _, []) 1.

Module MemSql.

Definition set_rows (t : bytes) (f : list Row → list Row) (m : Mem) : Mem :=
  MkMem (mem_columns m) (λ t', if decide (t' = t) then f (mem_rows m t) else mem_rows m t') (mem_next m).

(** [fits], as a check. *)
Definition fitsb (cs fs vs : list bytes) : bool := bool_decide (NoDup fs) && forallb (λ f, bool_decide (f ∈ cs)) fs && (length vs =? length fs)%nat.

Definition insert (t : bytes) (vs fs : list bytes) : M Mem () := λ m,
  match mem_columns m t with
  | Some cs => if fitsb cs fs vs then (Ret tt, set_rows t (λ rs, rs ++ [zip fs vs]) m) else (Throw litesql_except, m)
  | None => (Throw litesql_except, m)
  end.

Definition row_id (r : Row) : Z := match column (lit "id_") r with Some v => text_int v | None => 0 end.
Fixpoint insert_all (id : bytes) (ts : list bytes) (fss vss : list (list bytes)) : M Mem () :=
  match ts, fss, vss with
  | t :: ts, fs :: fss, vs :: vss => bind (insert t (id :: tail vs) fs) (λ _, insert_all id ts fss vss)
  | _, _, _ => ret tt
  end.
Definition count_id (id : Z) (m : Mem) : Mem := MkMem (mem_columns m) (mem_rows m) (Z.max (mem_next m) (id + 1)).
Definition insert_group (ts : list bytes) (fss vss : list (list bytes)) (seq : bytes) : M Mem bytes := λ m,
  let given := match vss with (v :: _) :: _ => text_int v | _ => 0%Z end in
  let id := if decide (given = 0)%Z then mem_next m else given in
  bind (insert_all (int_text id) ts fss vss) (λ _, bind (modify (count_id id)) (λ _, ret (int_text id))) m.

Definition update (u : Updates) (key : Z) : M Mem () := λ m,
  (Ret tt, MkMem (mem_columns m) (λ t, updated u key t (mem_rows m t)) (mem_next m)).

Definition keep (t : bytes) (f : Mem → Row → bool) : M Mem () := λ m,
  match mem_columns m t with
  | Some _ => (Ret tt, set_rows t (List.filter (f m)) m)
  | None => (Throw litesql_except, m)
  end.
Definition delete_id (t : bytes) (id : Z) : M Mem () := keep t (λ _ r, negb (bool_decide (has_id (int_text id) r))).
Definition delete (t : bytes) (e : Expr) : M Mem () := keep t (λ m r, negb (eval (mem_rows m) e [(t, r)])).

Definition objects (fts : list FieldType) (own : FieldType) (e : Expr) : M Mem (list (list bytes)) := λ m,
  if decide (Forall (λ t, is_Some (mem_columns m t)) (tables_of fts own)) then (Ret (selected (mem_rows m) fts own e), m)
  else (Throw litesql_except, m).
Definition query (q : SelectQuery) : M Mem (list (list bytes)) := λ m,
  let '(Select result source where_) := q in
  match mem_columns m source with
  | Some _ => (Ret (map (λ r, fields_of result [(source, r)]) (List.filter (λ r, eval (mem_rows m) where_ [(source, r)]) (mem_rows m source))), m)
  | None => (Throw litesql_except, m)
  end.

(** The columns a [CREATE TABLE] statement names. *)
Fixpoint after (c : ascii) (s : bytes) : bytes := match s with [] => [] | c' :: s => if decide (c' = c) then s else after c s end.
Fixpoint before (c : ascii) (s : bytes) : bytes := match s with [] => [] | c' :: s => if decide (c' = c) then [] else c' :: before c s end.
Fixpoint split_at (c : ascii) (s : bytes) : list bytes :=
  match s with
  | [] => [[]]
  | c' :: s => if decide (c' = c) then [] :: split_at c s else match split_at c s with l :: ls => (c' :: l) :: ls | [] => [[c']] end
  end.
Definition columns_in (sql : bytes) : list bytes := map (before (char_of_Z 32)) (split_at (char_of_Z 44) (before (char_of_Z 41) (after (char_of_Z 40) sql))).
Definition create (items : list SchemaItem) : M Mem () := λ m,
  (Ret tt, foldr (λ i m, let '(t, kind, sql) := i in
     if decide (kind = lit "table") then MkMem (λ t', if decide (t' = t) then Some (columns_in sql) else mem_columns m t') (λ t', if decide (t' = t) then [] else mem_rows m t') (mem_next m) else m) m items).

(** *** Its laws *)

Lemma fitsb_fits cs fs vs : fits cs fs vs → fitsb cs fs vs = true.
Proof.
  intros (Hnd & Hin & Hl). unfold fitsb. rewrite bool_decide_eq_true_2, Hl, Nat.eqb_refl by done.
  rewrite andb_true_r. apply forallb_forall. intros f Hf%list_elem_of_In. apply bool_decide_eq_true_2. by eapply Forall_forall in Hin.
Qed.

Lemma insert_ok m t vs fs cs : mem_columns m t = Some cs → fits cs fs vs →
  insert t vs fs m = (Ret tt, set_rows t (λ rs, rs ++ [zip fs vs]) m).
Proof. intros Ht Hf. unfold insert. by rewrite Ht, fitsb_fits. Qed.

Lemma insert_all_ok m id ts fss vss :
  Forall3 (λ t fs vs, ∃ cs, mem_columns m t = Some cs ∧ fits cs fs vs ∧ vs ≠ []) ts fss vss →
  ∃ m', insert_all id ts fss vss m = (Ret tt, m') ∧ mem_columns m' = mem_columns m ∧ mem_next m' = mem_next m ∧
    ∀ t, mem_rows m' t = mem_rows m t ++ rows_for t id ts fss vss.
Proof.
  intros Hf. remember (mem_columns m) as C eqn:HC. revert m HC.
  induction Hf as [|t fs vs ts fss vss (cs & Ht & (Hnd & Hin & Hl) & Hne) Hf IH]; intros m HC; simpl.
  { exists m. split_and!; [done..|]. intros t. by rewrite app_nil_r. }
  destruct (IH (set_rows t (λ rs, rs ++ [zip fs (id :: tail vs)]) m) HC) as (m' & Hr & Hc & Hn & Hrows).
  exists m'. split_and!; [|done|done|].
  - rewrite (bind_run _ _ _ _ _ (insert_ok m t (id :: tail vs) fs cs ltac:(by rewrite <-HC)
      ltac:(split_and!; [done|done|destruct vs; simpl in *; [done|lia]]))). done.
  - intros t'. rewrite Hrows. simpl. case_decide as Heq; [|done]. by rewrite Heq, <-app_assoc.
Qed.

(** Every id was counted, and [n] more can be. *)
Definition room (m : Mem) (n : nat) : Prop :=
  (0 < mem_next m)%Z ∧ (∀ t r, r ∈ mem_rows m t → (row_id r < mem_next m)%Z) ∧ (mem_next m + Z.of_nat n ≤ 2 ^ 31)%Z.

Lemma room_fewer m m' n : mem_next m' = mem_next m → (∀ t r, r ∈ mem_rows m' t → r ∈ mem_rows m t ∨ row_id r = 0%Z) → room m n → room m' n.
Proof. intros Hn Hrows (Hpos & Hids & Hroom). unfold room. rewrite Hn. split_and!; [done| |done]. intros t r [Hr | ->]%Hrows; [by eapply Hids|done]. Qed.

Lemma rows_for_ids r t id ts fss vss :
  (0 ≤ id < 2 ^ 31)%Z → Forall3 (λ (t : bytes) (fs vs : list bytes), head fs = Some (lit "id_")) ts fss vss →
  r ∈ rows_for t (int_text id) ts fss vss → row_id r = id.
Proof.
  intros Hid. induction 1 as [|t' fs vs ts fss vss Hh Hf IH]; simpl; [by intros ?%elem_of_nil|].
  case_decide; [|done]. intros [-> |Hr]%elem_of_cons; [|by apply IH].
  destruct fs as [|f fs]; simplify_eq/=. unfold row_id, row_of. simpl. by rewrite text_int_text by lia.
Qed.

Lemma insert_group_ok m ts fss vss seq id :
  room m 1 → ts ≠ [] → (0 ≤ id < 2 ^ 31)%Z →
  Forall3 (λ t fs vs, ∃ cs, mem_columns m t = Some cs ∧ fits cs fs vs ∧ head fs = Some (lit "id_") ∧ head vs = Some (int_text id)) ts fss vss →
  ∃ m' id', insert_group ts fss vss seq m = (Ret (int_text id'), m') ∧ mem_columns m' = mem_columns m ∧
    (if decide (id = 0)%Z then (0 < id' < 2 ^ 31)%Z ∧ (∀ t, t ∈ ts → Some (int_text id') ∉ ids (mem_rows m t)) ∧
       ∀ n, room m (Datatypes.S n) → room m' n
     else id' = id) ∧
    ∀ t, mem_rows m' t = mem_rows m t ++ rows_for t (int_text id') ts fss vss.
Proof.
  intros (Hpos & Hids & Hroom) Hne Hid Hf. set (id' := if decide (id = 0)%Z then mem_next m else id).
  assert (Hgiven : match vss with (v :: _) :: _ => text_int v | _ => 0%Z end = id).
  { destruct Hf as [|t fs [|v vs] ? ? ? (cs & _ & _ & _ & Hv) _]; [done|by simplify_eq/=|].
    simplify_eq/=. apply text_int_text. lia. }
  destruct (insert_all_ok m (int_text id') ts fss vss) as (m' & Hr & Hc & Hn & Hrows).
  { eapply Forall3_impl; [exact Hf|]. intros t fs vs (cs & ? & ? & ? & Hv). exists cs. split_and!; [done|done|by intros ->]. }
  exists (count_id id' m'), id'. split_and!; [|done| |done].
  - unfold insert_group. rewrite Hgiven. fold id'. by rewrite (bind_run _ _ _ _ _ Hr).
  - assert (Hid' : id = 0%Z → id' = mem_next m) by (intros E; unfold id'; by rewrite decide_True).
    assert (Hgiv : id ≠ 0%Z → id' = id) by (intros E; unfold id'; by rewrite decide_False).
    clearbody id'. case_decide as E; [specialize (Hid' E)|by apply Hgiv]. split_and!; [lia|lia| |].
    + intros t Ht (r & Hcol & Hr')%list_elem_of_fmap. specialize (Hids t r Hr').
      unfold row_id in Hids. rewrite <-Hcol, text_int_text in Hids; lia.
    + intros n (_ & _ & Hroom'). unfold room. simpl. rewrite Hn. split_and!; [lia| |lia].
      intros t r. rewrite Hrows. intros [Hr' |Hr']%elem_of_app; [specialize (Hids t r Hr'); lia|].
      rewrite (rows_for_ids r t id' ts fss vss); [lia|lia| |done].
      eapply Forall3_impl; [exact Hf|]. by intros ??? (? & _ & _ & ? & _).
Qed.

Lemma keep_ok m t f cs : mem_columns m t = Some cs → keep t f m = (Ret tt, set_rows t (List.filter (f m)) m).
Proof. intros Ht. unfold keep. by rewrite Ht. Qed.

Lemma keep_room m t f n : room m n → room (set_rows t (List.filter f) m) n.
Proof.
  apply room_fewer; [done|]. intros t' r. simpl. case_decide; [|by left]. subst t'.
  intros [Hr _]%list_elem_of_In%filter_In. left. by apply list_elem_of_In.
Qed.
Lemma column_zip_none c fs vs : c ∉ fs → column c (zip fs vs) = None.
Proof.
  revert vs. induction fs as [|f fs IH]; intros [|v vs] Hc; [done..|]. apply not_elem_of_cons in Hc as [Hne Hc]. simpl.
  rewrite decide_False by done. by apply IH.
Qed.

(** A statement is taken apart into the columns it was made of. *)
Lemma after_app c s t : c ∉ s → after c (s ++ c :: t) = t.
Proof.
  induction s as [|c' s IH]; simpl; intros Hc; [by rewrite decide_True|].
  rewrite decide_False by (intros ->; apply Hc; left). apply IH. intros ?. apply Hc. by right.
Qed.
Lemma before_app c s t : c ∉ s → before c (s ++ c :: t) = s.
Proof.
  induction s as [|c' s IH]; simpl; intros Hc; [by rewrite decide_True|].
  rewrite decide_False by (intros ->; apply Hc; left). f_equal. apply IH. intros ?. apply Hc. by right.
Qed.
Lemma split_at_none c s : c ∉ s → split_at c s = [s].
Proof.
  induction s as [|c' s IH]; simpl; intros Hc; [done|].
  rewrite decide_False by (intros ->; apply Hc; left). rewrite IH; [done|]. intros ?. apply Hc. by right.
Qed.
Lemma split_at_app c s t : c ∉ s → split_at c (s ++ c :: t) = s :: split_at c t.
Proof.
  induction s as [|c' s IH]; simpl; intros Hc; [by rewrite decide_True|].
  rewrite decide_False by (intros ->; apply Hc; left). rewrite IH; [done|]. intros ?. apply Hc. by right.
Qed.
Lemma split_at_concat c s ss : Forall (λ s, c ∉ s) (s :: ss) → split_at c (s ++ concat (map (λ s, c :: s) ss)) = s :: ss.
Proof.
  intros [Hs Hss]%Forall_cons. revert s Hs. induction Hss as [|s' ss Hs' Hss IH]; simpl; intros s Hs.
  - by rewrite app_nil_r, split_at_none.
  - rewrite split_at_app by done. by rewrite IH.
Qed.

Lemma not_in_plain c s : plain s → c = char_of_Z 32 ∨ c = char_of_Z 40 ∨ c = char_of_Z 41 ∨ c = char_of_Z 44 → c ∉ s.
Proof. intros Hs Hc Hin. eapply Forall_forall in Hs; [|exact Hin]. simpl in Hs. tauto. Qed.
Lemma not_in_declared c col : plain (fst col) → plain_type (snd col) → c = char_of_Z 41 ∨ c = char_of_Z 44 → c ∉ declared col.
Proof.
  intros Hc Hty Heq. unfold declared. rewrite !not_elem_of_app. split_and!.
  - apply not_in_plain; tauto.
  - intros Hin%list_elem_of_singleton. by destruct Heq as [-> | ->].
  - intros Hin. eapply Forall_forall in Hty; [|exact Hin]. simpl in Hty. tauto.
Qed.

Lemma columns_in_create_table t cs : cs ≠ [] → plain t → Forall (λ c, plain (fst c) ∧ plain_type (snd c)) cs →
  columns_in (create_table t cs) = map fst cs.
Proof.
  intros Hne Ht Hcs. unfold columns_in, create_table.
  rewrite (app_assoc t), app_assoc. change (lit " (") with (lit " " ++ [char_of_Z 40]).
  rewrite (app_assoc t), (app_assoc (lit "CREATE TABLE ")), <-app_assoc. simpl ([_] ++ _).
  rewrite after_app, before_app.
  - destruct cs as [|c cs]; [done|]. simpl (commas _). rewrite split_at_concat.
    + clear Hne. change (declared c :: map declared cs) with (map declared (c :: cs)). rewrite map_map. apply map_ext_Forall.
      eapply Forall_impl; [exact Hcs|]. intros col [Hc _]. apply before_app, not_in_plain; tauto.
    + change (declared c :: map declared cs) with (map declared (c :: cs)). apply Forall_map.
      eapply Forall_impl; [exact Hcs|]. intros col [??]. apply not_in_declared; tauto.
  - intros Hin. destruct cs as [|c cs]; [done|].
    assert (Hno : Forall (λ d, char_of_Z 41 ∉ d) (map declared (c :: cs))).
    { apply Forall_map. eapply Forall_impl; [exact Hcs|]. intros col [??]. apply not_in_declared; tauto. }
    apply Forall_cons in Hno as [Hc Hno]. simpl in Hin. apply elem_of_app in Hin as [Hin|Hin]; [done|].
    apply list_elem_of_In, in_concat in Hin as (d & (d' & <- & Hd')%in_map_iff & Hin). apply list_elem_of_In in Hd', Hin.
    apply elem_of_cons in Hin as [?|Hin]; [done|]. eapply Forall_forall in Hno; [|exact Hd']. done.
  - rewrite !not_elem_of_app. split_and!; [by apply (bool_decide_unpack _)|apply not_in_plain; tauto|].
    by intros ?%list_elem_of_singleton.
Qed.

(** The statements leave the table of each as it was made. *)
Lemma create_columns m items t sql : NoDup (map (λ i, fst (fst i)) items) → (t, lit "table", sql) ∈ items →
  mem_columns (snd (create items m)) t = Some (columns_in sql) ∧ mem_rows (snd (create items m)) t = [].
Proof.
  unfold create. simpl. induction items as [|[[t' k] sql'] items IH]; intros Hnd Hin; [by apply not_elem_of_nil in Hin|].
  simpl in Hnd. apply NoDup_cons in Hnd as [Hn Hnd]. simpl.
  apply elem_of_cons in Hin as [Heq|Hin].
  - simplify_eq. rewrite decide_True by done. simpl. by rewrite !decide_True by done.
  - destruct (IH Hnd Hin) as [IH1 IH2]. case_decide; [|done]. simpl.
    assert (t ≠ t') by (intros ->; apply Hn, list_elem_of_fmap; by exists (t', lit "table", sql)).
    by rewrite !decide_False.
Qed.

Lemma create_room m items n : room m n → room (snd (create items m)) n.
Proof.
  unfold create. simpl. induction items as [|[[t k] sql] items IH]; simpl; [done|]. intros Hm%IH. case_decide; [|done].
  eapply room_fewer; [| |exact Hm]; [done|]. simpl. intros t' r. case_decide; [by intros ?%elem_of_nil|]. by left.
Qed.

End MemSql.

#[export] Instance mem_sql : LiteSql Mem := {
  db_begin := ret tt; db_commit := ret tt;
  insert_row := MemSql.insert; insert_rows := MemSql.insert_group;
  prepareUpdate := prepare; updateField := update_field; update_rows := MemSql.update;
  deleteFromTable := MemSql.delete_id; delete_rows := MemSql.delete;
  select_objects := MemSql.objects; select_rows := MemSql.query;
  create_schema := MemSql.create; needsUpgrade _ := ret false; upgrade _ := ret tt;
  getSQLType t := if decide (t = A_field_type_string) then lit "TEXT" else lit "INTEGER";
  getRowIDType := lit "INTEGER PRIMARY KEY";
  supportsSequences := false; getCreateSequenceSQL _ := [];
  new_persistent := MkPersistent false 0;
  persistent_of r := MkPersistent true (match r with v :: _ => text_int v | [] => 0 end);
  inserted v _ := MkPersistent true (text_int v);
  constructed_modified := true;
  time_text := int_text; text_time := text_int; time_shown := int_text;
}.

#[export] Program Instance mem_laws : LiteSqlLaws Mem := {
  columns := mem_columns; rows := mem_rows; has_room := MemSql.room;
}.
Next Obligation. intros s m n Hmn (? & ? & ?). split_and!; [done|done|lia]. Qed.
Next Obligation. intros s. by exists s. Qed.
Next Obligation. intros s. by exists s. Qed.
Next Obligation.
  intros s t vs fs cs Ht Hf Hid. eexists. split_and!; [by eapply MemSql.insert_ok|done| |done].
  intros n. apply MemSql.room_fewer; [done|]. intros t' r. simpl. case_decide; [|by left].
  subst t'. intros [?|Hr%list_elem_of_singleton]%elem_of_app; [by left|]. right. subst r.
  unfold MemSql.row_id. by rewrite MemSql.column_zip_none.
Qed.
Next Obligation. intros s ts fss vss seq id Hroom _ Hne Hid Hf. by apply MemSql.insert_group_ok. Qed.
Next Obligation. done. Qed.
Next Obligation. done. Qed.
Next Obligation. intros s u key _ _. eexists. by split_and!. Qed.
Next Obligation. intros s t id cs Ht. eexists. split_and!; [by eapply MemSql.keep_ok|done| |done]. intros n. apply MemSql.keep_room. Qed.
Next Obligation. intros s t e cs Ht. eexists. split_and!; [by eapply MemSql.keep_ok|done| |done]. intros n. apply MemSql.keep_room. Qed.
Next Obligation.
  intros s fts own e Hts. eexists _, s. split_and!; [|done..]. simpl. unfold MemSql.objects. by rewrite decide_True.
Qed.
Next Obligation.
  intros s items _ Hnd. eexists. split_and!; [done|intros n; apply MemSql.create_room|]. intros t cs Hin Hne Ht Hcs.
  rewrite <-(MemSql.columns_in_create_table t cs) by done. by apply MemSql.create_columns.
Qed.
Next Obligation. intros t. simpl. case_decide; split; apply (bool_decide_unpack _); by vm_compute. Qed.
Next Obligation. done. Qed.
Next Obligation. done. Qed.
Next Obligation. done. Qed.
Next Obligation. intros z Hz. apply text_int_text. lia. Qed.
