(* ===== verification/SqlDb.v ===== *)
(** * sqldb.h, sqldb.cc: the persistent classes of the SQL store

    LiteSQL's generator made these classes from db_schema.xml, with two setters
    added by hand.  An object knows whether it is in the database; its id is the
    key of its rows, and a class that inherits from ObjID has a row in its own
    table and one in ObjID's.  The relations are tables of pairs of ids.  An
    object is a record of its fields; a method that changes it returns it.  The
    pointer that [upcastCopy] returns is null or says which class it points to.
    The hook [onDelete] does nothing, as no class overrides it; the copy
    constructors and assignments copy every field. *)

From S2P Require Import Prelude Decimal Sql.
Local Open Scope prog_scope.

Module SqlDb.

(** ** Fields *)

(** [litesql::Field<T>]: assigning marks it as modified. *)
Record Field (A : Type) := MkField { value : A; modified : bool }.
Arguments MkField {_} _ _.
Arguments value {_} _.
Arguments modified {_} _.
Definition assign {A} (v : A) : Field A := MkField v true.
Definition unmodified {A} (f : Field A) : Field A := MkField (value f) false.

(** The [case] of a row's entry [i]: the field converted from it. *)
Definition load {A} (convert : bytes → A) (rec : list bytes) (i : nat) (f : Field A) : Field A :=
  match rec !! i with Some v => MkField (convert v) false | None => f end.

(** The two setters of [db::Persistent]. *)
Definition set_inDatabase (i : bool) (p : Persistent) : Persistent := MkPersistent i (oldKey p).
Definition set_id (k : Z) (p : Persistent) : Persistent := MkPersistent (inDatabase p) k.

(** ** The tables *)
Definition ObjID_type__ : bytes := lit "ObjID".
Definition ObjID_table__ : bytes := lit "ObjID_".
Definition ObjID_sequence__ : bytes := lit "ObjID_seq".
Definition ObjID_Id := MkFieldType (lit "id_") A_field_type_integer ObjID_table__.
Definition ObjID_Type := MkFieldType (lit "type_") A_field_type_string ObjID_table__.
Definition ObjID_AnID := MkFieldType (lit "anID_") A_field_type_string ObjID_table__.
Definition Object_type__ : bytes := lit "Object".
Definition Object_table__ : bytes := lit "Object_".
Definition Snapshot_type__ : bytes := lit "Snapshot".
Definition Snapshot_table__ : bytes := lit "Snapshot_".
Definition Snapshot_Based := MkFieldType (lit "based_") A_field_type_string Snapshot_table__.
Definition Snapshot_Content := MkFieldType (lit "content_") A_field_type_string Snapshot_table__.
Definition Snapshot_Time := MkFieldType (lit "time_") A_field_type_datetime Snapshot_table__.
Definition Diff_type__ : bytes := lit "Diff".
Definition Diff_table__ : bytes := lit "Diff_".
Definition Diff_Snapshot := MkFieldType (lit "snapshot_") A_field_type_string Diff_table__.
Definition Diff_Content := MkFieldType (lit "content_") A_field_type_string Diff_table__.
Definition Diff_Time := MkFieldType (lit "time_") A_field_type_datetime Diff_table__.
Definition HT_type__ : bytes := lit "HT".
Definition HT_table__ : bytes := lit "HT_".
Definition HT_sequence__ : bytes := lit "HT_seq".
Definition HT_Id := MkFieldType (lit "id_") A_field_type_integer HT_table__.
Definition HT_Type := MkFieldType (lit "type_") A_field_type_string HT_table__.
Definition HT_Key := MkFieldType (lit "key_") A_field_type_string HT_table__.
Definition HT_Value := MkFieldType (lit "value_") A_field_type_string HT_table__.
Definition HT_Time := MkFieldType (lit "time_") A_field_type_datetime HT_table__.

(** [Own::Id]: the id in the class's own table. *)
Definition ObjID_Own_Id := MkFieldType (lit "id_") A_field_type_integer (lit "ObjID_").
Definition Object_Own_Id := MkFieldType (lit "id_") A_field_type_integer (lit "Object_").
Definition Snapshot_Own_Id := MkFieldType (lit "id_") A_field_type_integer (lit "Snapshot_").
Definition Diff_Own_Id := MkFieldType (lit "id_") A_field_type_integer (lit "Diff_").
Definition HT_Own_Id := MkFieldType (lit "id_") A_field_type_integer (lit "HT_").

(** [getFieldTypes]: the fields of a class in the order of its rows. *)
Definition ObjID_getFieldTypes : list FieldType := [ObjID_Id; ObjID_Type; ObjID_AnID].
Definition Object_getFieldTypes : list FieldType := ObjID_getFieldTypes.
Definition Snapshot_getFieldTypes : list FieldType := ObjID_getFieldTypes ++ [Snapshot_Based; Snapshot_Content; Snapshot_Time].
Definition Diff_getFieldTypes : list FieldType := ObjID_getFieldTypes ++ [Diff_Snapshot; Diff_Content; Diff_Time].
Definition HT_getFieldTypes : list FieldType := [HT_Id; HT_Type; HT_Key; HT_Value; HT_Time].

(** ** The classes *)
Record ObjID := MkObjID { pers : Persistent; id : Field Z; type : Field bytes; anID : Field bytes }.
Record Object := MkObject { ob_id : ObjID }.
Record Snapshot := MkSnapshot { sn_id : ObjID; based : Field bytes; sn_content : Field bytes; sn_time : Field Z }.
Record Diff := MkDiff { df_id : ObjID; snapshot : Field bytes; df_content : Field bytes; df_time : Field Z }.
Record HT := MkHT { ht_pers : Persistent; ht_id : Field Z; ht_type : Field bytes; key : Field bytes; ht_value : Field bytes; ht_time : Field Z }.

(** What an [ObjID*] points to. *)
Inductive pointer := ToObject (o : Object) | ToSnapshot (o : Snapshot) | ToDiff (o : Diff).

Definition with_pers (p : Persistent) (o : ObjID) : ObjID := MkObjID p (id o) (type o) (anID o).
Definition with_id (i : Z) (o : ObjID) : ObjID := MkObjID (pers o) (assign i) (type o) (anID o).
Definition with_type (t : bytes) (o : ObjID) : ObjID := MkObjID (pers o) (id o) (assign t) (anID o).
Definition with_anID (t : bytes) (o : ObjID) : ObjID := MkObjID (pers o) (id o) (type o) (assign t).

Section classes.
Context {S : Type} `{LiteSql S}.

Definition constructed {A} (v : A) : Field A := MkField v constructed_modified.

(** [updateField(updates, table, field)] *)
Definition update {A} (t : bytes) (f : FieldType) (text : A → bytes) (x : Field A) (u : Updates) : Updates :=
  updateField t f (modified x) (text (value x)) u.

(** *** ObjectSnapshotRelation *)
Definition ObjectSnapshot_table__ : bytes := lit "Object_Snapshot_".
Definition ObjectSnapshot_Object := MkFieldType (lit "Object1_") A_field_type_integer ObjectSnapshot_table__.
Definition ObjectSnapshot_Snapshot := MkFieldType (lit "Snapshot2_") A_field_type_integer ObjectSnapshot_table__.
(** [Row(db, rec)]: the second id and the first, where the row has them. *)
Definition ObjectSnapshot_Row (rec : list bytes) : option (Field Z) * option (Field Z) :=
  match rec with
  | [a; b] => (Some (assign (text_int b)), Some (assign (text_int a)))
  | [a] => (None, Some (assign (text_int a)))
  | _ => (None, None)
  end.
Definition ObjectSnapshot_link (o0 o1 : Z) : M S () :=
  insert_row ObjectSnapshot_table__ [int_text o0; int_text o1] [name ObjectSnapshot_Object; name ObjectSnapshot_Snapshot].
Definition ObjectSnapshot_unlink (o0 o1 : Z) : M S () :=
  delete_rows ObjectSnapshot_table__ (And (Equals ObjectSnapshot_Object (int_text o0)) (Equals ObjectSnapshot_Snapshot (int_text o1))).
Definition ObjectSnapshot_del (expr : Expr) : M S () := delete_rows ObjectSnapshot_table__ expr.
Definition ObjectSnapshot_getRows (expr : Expr) : M S (list (list bytes)) :=
  select_rows (Select [ObjectSnapshot_Object; ObjectSnapshot_Snapshot] ObjectSnapshot_table__ expr).
Definition ObjectSnapshot_get_Object (expr srcExpr : Expr) : M S (list (list bytes)) :=
  select_objects Object_getFieldTypes Object_Own_Id (And (In ObjID_Id (Select [ObjectSnapshot_Object] ObjectSnapshot_table__ srcExpr)) expr).
Definition ObjectSnapshot_get_Snapshot (expr srcExpr : Expr) : M S (list (list bytes)) :=
  select_objects Snapshot_getFieldTypes Snapshot_Own_Id (And (In ObjID_Id (Select [ObjectSnapshot_Snapshot] ObjectSnapshot_table__ srcExpr)) expr).

(** *** DiffObjectRelation *)
Definition DiffObject_table__ : bytes := lit "Diff_Object_".
Definition DiffObject_Diff := MkFieldType (lit "Diff1_") A_field_type_integer DiffObject_table__.
Definition DiffObject_Object := MkFieldType (lit "Object2_") A_field_type_integer DiffObject_table__.
(** [Row(db, rec)]: the second id and the first, where the row has them. *)
Definition DiffObject_Row (rec : list bytes) : option (Field Z) * option (Field Z) :=
  match rec with
  | [a; b] => (Some (assign (text_int b)), Some (assign (text_int a)))
  | [a] => (None, Some (assign (text_int a)))
  | _ => (None, None)
  end.
Definition DiffObject_link (o0 o1 : Z) : M S () :=
  insert_row DiffObject_table__ [int_text o0; int_text o1] [name DiffObject_Diff; name DiffObject_Object].
Definition DiffObject_unlink (o0 o1 : Z) : M S () :=
  delete_rows DiffObject_table__ (And (Equals DiffObject_Diff (int_text o0)) (Equals DiffObject_Object (int_text o1))).
Definition DiffObject_del (expr : Expr) : M S () := delete_rows DiffObject_table__ expr.
Definition DiffObject_getRows (expr : Expr) : M S (list (list bytes)) :=
  select_rows (Select [DiffObject_Diff; DiffObject_Object] DiffObject_table__ expr).
Definition DiffObject_get_Diff (expr srcExpr : Expr) : M S (list (list bytes)) :=
  select_objects Diff_getFieldTypes Diff_Own_Id (And (In ObjID_Id (Select [DiffObject_Diff] DiffObject_table__ srcExpr)) expr).
Definition DiffObject_get_Object (expr srcExpr : Expr) : M S (list (list bytes)) :=
  select_objects Object_getFieldTypes Object_Own_Id (And (In ObjID_Id (Select [DiffObject_Object] DiffObject_table__ srcExpr)) expr).

(** *** DiffSnapshotRelation *)
Definition DiffSnapshot_table__ : bytes := lit "Diff_Snapshot_".
Definition DiffSnapshot_Diff := MkFieldType (lit "Diff1_") A_field_type_integer DiffSnapshot_table__.
Definition DiffSnapshot_Snapshot := MkFieldType (lit "Snapshot2_") A_field_type_integer DiffSnapshot_table__.
(** [Row(db, rec)]: the second id and the first, where the row has them. *)
Definition DiffSnapshot_Row (rec : list bytes) : option (Field Z) * option (Field Z) :=
  match rec with
  | [a; b] => (Some (assign (text_int b)), Some (assign (text_int a)))
  | [a] => (None, Some (assign (text_int a)))
  | _ => (None, None)
  end.
Definition DiffSnapshot_link (o0 o1 : Z) : M S () :=
  insert_row DiffSnapshot_table__ [int_text o0; int_text o1] [name DiffSnapshot_Diff; name DiffSnapshot_Snapshot].
Definition DiffSnapshot_unlink (o0 o1 : Z) : M S () :=
  delete_rows DiffSnapshot_table__ (And (Equals DiffSnapshot_Diff (int_text o0)) (Equals DiffSnapshot_Snapshot (int_text o1))).
Definition DiffSnapshot_del (expr : Expr) : M S () := delete_rows DiffSnapshot_table__ expr.
Definition DiffSnapshot_getRows (expr : Expr) : M S (list (list bytes)) :=
  select_rows (Select [DiffSnapshot_Diff; DiffSnapshot_Snapshot] DiffSnapshot_table__ expr).
Definition DiffSnapshot_get_Diff (expr srcExpr : Expr) : M S (list (list bytes)) :=
  select_objects Diff_getFieldTypes Diff_Own_Id (And (In ObjID_Id (Select [DiffSnapshot_Diff] DiffSnapshot_table__ srcExpr)) expr).
Definition DiffSnapshot_get_Snapshot (expr srcExpr : Expr) : M S (list (list bytes)) :=
  select_objects Snapshot_getFieldTypes Snapshot_Own_Id (And (In ObjID_Id (Select [DiffSnapshot_Snapshot] DiffSnapshot_table__ srcExpr)) expr).

(** *** DiffObjIDRelation *)
Definition DiffObjID_table__ : bytes := lit "Diff_ObjID_".
Definition DiffObjID_Diff := MkFieldType (lit "Diff1_") A_field_type_integer DiffObjID_table__.
Definition DiffObjID_ObjID := MkFieldType (lit "ObjID2_") A_field_type_integer DiffObjID_table__.
(** [Row(db, rec)]: the second id and the first, where the row has them. *)
Definition DiffObjID_Row (rec : list bytes) : option (Field Z) * option (Field Z) :=
  match rec with
  | [a; b] => (Some (assign (text_int b)), Some (assign (text_int a)))
  | [a] => (None, Some (assign (text_int a)))
  | _ => (None, None)
  end.
Definition DiffObjID_link (o0 o1 : Z) : M S () :=
  insert_row DiffObjID_table__ [int_text o0; int_text o1] [name DiffObjID_Diff; name DiffObjID_ObjID].
Definition DiffObjID_unlink (o0 o1 : Z) : M S () :=
  delete_rows DiffObjID_table__ (And (Equals DiffObjID_Diff (int_text o0)) (Equals DiffObjID_ObjID (int_text o1))).
Definition DiffObjID_del (expr : Expr) : M S () := delete_rows DiffObjID_table__ expr.
Definition DiffObjID_getRows (expr : Expr) : M S (list (list bytes)) :=
  select_rows (Select [DiffObjID_Diff; DiffObjID_ObjID] DiffObjID_table__ expr).
Definition DiffObjID_get_Diff (expr srcExpr : Expr) : M S (list (list bytes)) :=
  select_objects Diff_getFieldTypes Diff_Own_Id (And (In ObjID_Id (Select [DiffObjID_Diff] DiffObjID_table__ srcExpr)) expr).
Definition DiffObjID_get_ObjID (expr srcExpr : Expr) : M S (list (list bytes)) :=
  select_objects ObjID_getFieldTypes ObjID_Own_Id (And (In ObjID_Id (Select [DiffObjID_ObjID] DiffObjID_table__ srcExpr)) expr).

(** *** ObjID *)
Definition ObjID_defaults (o : ObjID) : ObjID := with_id 0 o.
Definition ObjID_new : ObjID := ObjID_defaults (MkObjID new_persistent (constructed 0%Z) (constructed []) (constructed [])).
Definition ObjID_of (rec : list bytes) : ObjID :=
  let o := ObjID_new in
  MkObjID (persistent_of rec) (load text_int rec 0 (id o)) (load (λ v, v) rec 1 (type o)) (load (λ v, v) rec 2 (anID o)).

(** [insert]: a row more for [Persistent::insert]; its id. *)
Definition ObjID_insert (o : ObjID) (tables : list bytes) (fieldRecs valueRecs : list (list bytes)) : M S (bytes * ObjID) :=
  let! newID := insert_rows (tables ++ [ObjID_table__])
    (fieldRecs ++ [[name ObjID_Id; name ObjID_Type; name ObjID_AnID]])
    (valueRecs ++ [[int_text (value (id o)); value (type o); value (anID o)]]) ObjID_sequence__ in
  ret (newID, MkObjID (inserted newID (pers o)) (unmodified (id o)) (unmodified (type o)) (unmodified (anID o))).

(** [if (id == 0) id = newID;] *)
Definition take_id (newID : bytes) (o : ObjID) : ObjID :=
  if (value (id o) =? 0)%Z then with_id (text_int newID) o else o.

Definition ObjID_create (o : ObjID) : M S ObjID :=
  let! r := ObjID_insert (with_type ObjID_type__ o) [] [] [] in let '(newID, o) := r in ret (take_id newID o).
Definition ObjID_addUpdates (o : ObjID) (u : Updates) : Updates :=
  let t := ObjID_table__ in
  update t ObjID_AnID (λ v, v) (anID o)
    (update t ObjID_Type (λ v, v) (type o) (update t ObjID_Id int_text (id o) (prepareUpdate t u))).
Definition ObjID_addIDUpdates (o : ObjID) (u : Updates) : Updates := u.
Definition ObjID_delRecord (o : ObjID) : M S () := deleteFromTable ObjID_table__ (value (id o)).
Definition ObjID_delRelations (o : ObjID) : M S () := DiffObjID_del (Equals DiffObjID_ObjID (int_text (value (id o)))).
Definition ObjID_typeIsCorrect (o : ObjID) : bool := bool_decide (value (type o) = ObjID_type__).

(** *** Object *)
Definition Object_with (f : ObjID → ObjID) (o : Object) : Object := MkObject (f (ob_id o)).
Definition Object_new : Object := MkObject ObjID_new.
Definition Object_of (rec : list bytes) : Object := MkObject (ObjID_of rec).
Definition Object_insert (o : Object) (tables : list bytes) (fieldRecs valueRecs : list (list bytes)) : M S (bytes * Object) :=
  let! r := ObjID_insert (ob_id o) (tables ++ [Object_table__])
    (fieldRecs ++ [[lit "id_"]])
    (valueRecs ++ [[int_text (value (id (ob_id o)))]]) in
  let '(newID, b) := r in ret (newID, MkObject b).
Definition Object_create (o : Object) : M S Object :=
  let! r := Object_insert (Object_with (with_type Object_type__) o) [] [] [] in
  let '(newID, o) := r in ret (Object_with (take_id newID) o).
Definition Object_addUpdates (o : Object) (u : Updates) : Updates :=
  let t := Object_table__ in
  ObjID_addUpdates (ob_id o) (prepareUpdate t u).
Definition Object_addIDUpdates (o : Object) (u : Updates) : Updates :=
  update Object_table__ ObjID_Id int_text (id (ob_id o)) (prepareUpdate Object_table__ u).
Definition Object_delRecord (o : Object) : M S () := deleteFromTable Object_table__ (value (id (ob_id o))) ;;; ObjID_delRecord (ob_id o).
Definition Object_delRelations (o : Object) : M S () :=
  let i := int_text (value (id (ob_id o))) in
  ObjectSnapshot_del (Equals ObjectSnapshot_Object i) ;;;
  DiffObject_del (Equals DiffObject_Object i).
Definition Object_typeIsCorrect (o : Object) : bool := bool_decide (value (type (ob_id o)) = Object_type__).
Definition Object_upcast (o : Object) : Object := o.
Definition Object_upcastCopy (o : Object) : Object := o.
Definition Object_update (o : Object) : M S Object :=
  if inDatabase (pers (ob_id o)) then
    let u := Object_addUpdates o [] in
    let u := if decide (value (id (ob_id o)) = oldKey (pers (ob_id o))) then u
             else if Object_typeIsCorrect o then Object_addIDUpdates o u else Object_addIDUpdates (Object_upcastCopy o) u in
    update_rows u (oldKey (pers (ob_id o))) ;;;
    ret (Object_with (λ b, with_pers (set_id (value (id b)) (pers b)) b) o)
  else Object_create o.
Definition Object_del (o : Object) : M S Object :=
  (if Object_typeIsCorrect o then Object_delRecord o
   else let p := Object_upcastCopy o in Object_delRelations p ;;; Object_delRecord p) ;;;
  ret (Object_with (λ b, with_pers (set_inDatabase false (pers b)) b) o).

(** *** Snapshot *)
Definition Snapshot_with (f : ObjID → ObjID) (o : Snapshot) : Snapshot := MkSnapshot (f (sn_id o)) (based o) (sn_content o) (sn_time o).
Definition Snapshot_defaults (o : Snapshot) : Snapshot := MkSnapshot (sn_id o) (based o) (sn_content o) (assign 0%Z).
Definition Snapshot_new : Snapshot := Snapshot_defaults (MkSnapshot ObjID_new (constructed []) (constructed []) (constructed 0%Z)).
Definition Snapshot_of (rec : list bytes) : Snapshot :=
  let o := Snapshot_new in
  MkSnapshot (ObjID_of rec) (load (λ v, v) rec 3 (based o)) (load (λ v, v) rec 4 (sn_content o)) (load text_time rec 5 (sn_time o)).
Definition Snapshot_insert (o : Snapshot) (tables : list bytes) (fieldRecs valueRecs : list (list bytes)) : M S (bytes * Snapshot) :=
  let! r := ObjID_insert (sn_id o) (tables ++ [Snapshot_table__])
    (fieldRecs ++ [[lit "id_"; name Snapshot_Based; name Snapshot_Content; name Snapshot_Time]])
    (valueRecs ++ [[int_text (value (id (sn_id o))); value (based o); value (sn_content o); time_text (value (sn_time o))]]) in
  let '(newID, b) := r in ret (newID, MkSnapshot b (unmodified (based o)) (unmodified (sn_content o)) (unmodified (sn_time o))).
Definition Snapshot_create (o : Snapshot) : M S Snapshot :=
  let! r := Snapshot_insert (Snapshot_with (with_type Snapshot_type__) o) [] [] [] in
  let '(newID, o) := r in ret (Snapshot_with (take_id newID) o).
Definition Snapshot_addUpdates (o : Snapshot) (u : Updates) : Updates :=
  let t := Snapshot_table__ in
  ObjID_addUpdates (sn_id o) (update t Snapshot_Time time_text (sn_time o) (update t Snapshot_Content (λ v, v) (sn_content o) (update t Snapshot_Based (λ v, v) (based o) (prepareUpdate t u)))).
Definition Snapshot_addIDUpdates (o : Snapshot) (u : Updates) : Updates :=
  update Snapshot_table__ ObjID_Id int_text (id (sn_id o)) (prepareUpdate Snapshot_table__ u).
Definition Snapshot_delRecord (o : Snapshot) : M S () := deleteFromTable Snapshot_table__ (value (id (sn_id o))) ;;; ObjID_delRecord (sn_id o).
Definition Snapshot_delRelations (o : Snapshot) : M S () :=
  let i := int_text (value (id (sn_id o))) in
  ObjectSnapshot_del (Equals ObjectSnapshot_Snapshot i) ;;;
  DiffSnapshot_del (Equals DiffSnapshot_Snapshot i).
Definition Snapshot_typeIsCorrect (o : Snapshot) : bool := bool_decide (value (type (sn_id o)) = Snapshot_type__).
Definition Snapshot_upcast (o : Snapshot) : Snapshot := o.
Definition Snapshot_upcastCopy (o : Snapshot) : Snapshot := o.
Definition Snapshot_update (o : Snapshot) : M S Snapshot :=
  if inDatabase (pers (sn_id o)) then
    let u := Snapshot_addUpdates o [] in
    let u := if decide (value (id (sn_id o)) = oldKey (pers (sn_id o))) then u
             else if Snapshot_typeIsCorrect o then Snapshot_addIDUpdates o u else Snapshot_addIDUpdates (Snapshot_upcastCopy o) u in
    update_rows u (oldKey (pers (sn_id o))) ;;;
    ret (Snapshot_with (λ b, with_pers (set_id (value (id b)) (pers b)) b) o)
  else Snapshot_create o.
Definition Snapshot_del (o : Snapshot) : M S Snapshot :=
  (if Snapshot_typeIsCorrect o then Snapshot_delRecord o
   else let p := Snapshot_upcastCopy o in Snapshot_delRelations p ;;; Snapshot_delRecord p) ;;;
  ret (Snapshot_with (λ b, with_pers (set_inDatabase false (pers b)) b) o).

(** *** Diff *)
Definition Diff_with (f : ObjID → ObjID) (o : Diff) : Diff := MkDiff (f (df_id o)) (snapshot o) (df_content o) (df_time o).
Definition Diff_defaults (o : Diff) : Diff := MkDiff (df_id o) (snapshot o) (df_content o) (assign 0%Z).
Definition Diff_new : Diff := Diff_defaults (MkDiff ObjID_new (constructed []) (constructed []) (constructed 0%Z)).
Definition Diff_of (rec : list bytes) : Diff :=
  let o := Diff_new in
  MkDiff (ObjID_of rec) (load (λ v, v) rec 3 (snapshot o)) (load (λ v, v) rec 4 (df_content o)) (load text_time rec 5 (df_time o)).
Definition Diff_insert (o : Diff) (tables : list bytes) (fieldRecs valueRecs : list (list bytes)) : M S (bytes * Diff) :=
  let! r := ObjID_insert (df_id o) (tables ++ [Diff_table__])
    (fieldRecs ++ [[lit "id_"; name Diff_Snapshot; name Diff_Content; name Diff_Time]])
    (valueRecs ++ [[int_text (value (id (df_id o))); value (snapshot o); value (df_content o); time_text (value (df_time o))]]) in
  let '(newID, b) := r in ret (newID, MkDiff b (unmodified (snapshot o)) (unmodified (df_content o)) (unmodified (df_time o))).
Definition Diff_create (o : Diff) : M S Diff :=
  let! r := Diff_insert (Diff_with (with_type Diff_type__) o) [] [] [] in
  let '(newID, o) := r in ret (Diff_with (take_id newID) o).
Definition Diff_addUpdates (o : Diff) (u : Updates) : Updates :=
  let t := Diff_table__ in
  ObjID_addUpdates (df_id o) (update t Diff_Time time_text (df_time o) (update t Diff_Content (λ v, v) (df_content o) (update t Diff_Snapshot (λ v, v) (snapshot o) (prepareUpdate t u)))).
Definition Diff_addIDUpdates (o : Diff) (u : Updates) : Updates :=
  update Diff_table__ ObjID_Id int_text (id (df_id o)) (prepareUpdate Diff_table__ u).
Definition Diff_delRecord (o : Diff) : M S () := deleteFromTable Diff_table__ (value (id (df_id o))) ;;; ObjID_delRecord (df_id o).
Definition Diff_delRelations (o : Diff) : M S () :=
  let i := int_text (value (id (df_id o))) in
  DiffObject_del (Equals DiffObject_Diff i) ;;;
  DiffSnapshot_del (Equals DiffSnapshot_Diff i) ;;;
  DiffObjID_del (Equals DiffObjID_Diff i).
Definition Diff_typeIsCorrect (o : Diff) : bool := bool_decide (value (type (df_id o)) = Diff_type__).
Definition Diff_upcast (o : Diff) : Diff := o.
Definition Diff_upcastCopy (o : Diff) : Diff := o.
Definition Diff_update (o : Diff) : M S Diff :=
  if inDatabase (pers (df_id o)) then
    let u := Diff_addUpdates o [] in
    let u := if decide (value (id (df_id o)) = oldKey (pers (df_id o))) then u
             else if Diff_typeIsCorrect o then Diff_addIDUpdates o u else Diff_addIDUpdates (Diff_upcastCopy o) u in
    update_rows u (oldKey (pers (df_id o))) ;;;
    ret (Diff_with (λ b, with_pers (set_id (value (id b)) (pers b)) b) o)
  else Diff_create o.
Definition Diff_del (o : Diff) : M S Diff :=
  (if Diff_typeIsCorrect o then Diff_delRecord o
   else let p := Diff_upcastCopy o in Diff_delRelations p ;;; Diff_delRecord p) ;;;
  ret (Diff_with (λ b, with_pers (set_inDatabase false (pers b)) b) o).

(** *** ObjID, whose methods look behind the pointer *)

(** [upcast]: the object of the row's class; as it is, if its type names none. *)
Definition ObjID_upcast (o : ObjID) : M S (pointer + ObjID) :=
  let e := Equals ObjID_Id (int_text (value (id o))) in
  if decide (value (type o) = Object_type__) then
    let! r := one (select_objects Object_getFieldTypes Object_Own_Id e) in ret (inl (ToObject (Object_of r)))
  else if decide (value (type o) = Snapshot_type__) then
    let! r := one (select_objects Snapshot_getFieldTypes Snapshot_Own_Id e) in ret (inl (ToSnapshot (Snapshot_of r)))
  else if decide (value (type o) = Diff_type__) then
    let! r := one (select_objects Diff_getFieldTypes Diff_Own_Id e) in ret (inl (ToDiff (Diff_of r)))
  else ret (inr o).

(** [upcastCopy]: an object of the class that [type] names, with the fields of
    ObjID; a null pointer if it names none, which is used all the same. *)
Definition copied (o base : ObjID) : ObjID :=
  MkObjID (set_inDatabase (inDatabase (pers o)) (pers base)) (id o) (type o) (anID o).
Definition ObjID_upcastCopy (o : ObjID) : option pointer :=
  if decide (value (type o) = lit "Object") then Some (ToObject (Object_with (copied o) Object_new))
  else if decide (value (type o) = lit "Snapshot") then Some (ToSnapshot (Snapshot_with (copied o) Snapshot_new))
  else if decide (value (type o) = lit "Diff") then Some (ToDiff (Diff_with (copied o) Diff_new))
  else None.

Definition pointer_addIDUpdates (p : pointer) (u : Updates) : Updates :=
  match p with ToObject o => Object_addIDUpdates o u | ToSnapshot o => Snapshot_addIDUpdates o u | ToDiff o => Diff_addIDUpdates o u end.
Definition pointer_delRelations (p : pointer) : M S () :=
  match p with ToObject o => Object_delRelations o | ToSnapshot o => Snapshot_delRelations o | ToDiff o => Diff_delRelations o end.
Definition pointer_delRecord (p : pointer) : M S () :=
  match p with ToObject o => Object_delRecord o | ToSnapshot o => Snapshot_delRecord o | ToDiff o => Diff_delRecord o end.

Definition ObjID_update (o : ObjID) : M S ObjID :=
  if inDatabase (pers o) then
    let u := ObjID_addUpdates o [] in
    let! u := if decide (value (id o) = oldKey (pers o)) then ret u
              else if ObjID_typeIsCorrect o then ret u
              else match ObjID_upcastCopy o with Some p => ret (pointer_addIDUpdates p u) | None => undef end in
    update_rows u (oldKey (pers o)) ;;;
    ret (with_pers (set_id (value (id o)) (pers o)) o)
  else ObjID_create o.
Definition ObjID_del (o : ObjID) : M S ObjID :=
  (if ObjID_typeIsCorrect o then ObjID_delRecord o
   else match ObjID_upcastCopy o with
        | Some p => pointer_delRelations p ;;; pointer_delRecord p
        | None => undef
        end) ;;;
  ret (with_pers (set_inDatabase false (pers o)) o).

(** *** HT *)
Definition HT_defaults (o : HT) : HT := MkHT (ht_pers o) (assign 0%Z) (ht_type o) (key o) (ht_value o) (assign 0%Z).
Definition HT_new : HT :=
  HT_defaults (MkHT new_persistent (constructed 0%Z) (constructed []) (constructed []) (constructed []) (constructed 0%Z)).
Definition HT_of (rec : list bytes) : HT :=
  let o := HT_new in
  MkHT (persistent_of rec) (load text_int rec 0 (ht_id o)) (load (λ v, v) rec 1 (ht_type o)) (load (λ v, v) rec 2 (key o))
    (load (λ v, v) rec 3 (ht_value o)) (load text_time rec 4 (ht_time o)).
Definition HT_insert (o : HT) (tables : list bytes) (fieldRecs valueRecs : list (list bytes)) : M S (bytes * HT) :=
  let! newID := insert_rows (tables ++ [HT_table__])
    (fieldRecs ++ [[name HT_Id; name HT_Type; name HT_Key; name HT_Value; name HT_Time]])
    (valueRecs ++ [[int_text (value (ht_id o)); value (ht_type o); value (key o); value (ht_value o); time_text (value (ht_time o))]])
    HT_sequence__ in
  ret (newID, MkHT (inserted newID (ht_pers o)) (unmodified (ht_id o)) (unmodified (ht_type o)) (unmodified (key o))
    (unmodified (ht_value o)) (unmodified (ht_time o))).
Definition HT_create (o : HT) : M S HT :=
  let! r := HT_insert (MkHT (ht_pers o) (ht_id o) (assign HT_type__) (key o) (ht_value o) (ht_time o)) [] [] [] in
  let '(newID, o) := r in
  ret (if (value (ht_id o) =? 0)%Z
       then MkHT (ht_pers o) (assign (text_int newID)) (ht_type o) (key o) (ht_value o) (ht_time o) else o).
Definition HT_addUpdates (o : HT) (u : Updates) : Updates :=
  let t := HT_table__ in
  update t HT_Time time_text (ht_time o) (update t HT_Value (λ v, v) (ht_value o) (update t HT_Key (λ v, v) (key o)
    (update t HT_Type (λ v, v) (ht_type o) (update t HT_Id int_text (ht_id o) (prepareUpdate t u))))).
Definition HT_addIDUpdates (o : HT) (u : Updates) : Updates := u.
Definition HT_delRecord (o : HT) : M S () := deleteFromTable HT_table__ (value (ht_id o)).
Definition HT_delRelations (o : HT) : M S () := ret tt.
Definition HT_typeIsCorrect (o : HT) : bool := bool_decide (value (ht_type o) = HT_type__).
Definition HT_upcast (o : HT) : HT := o.
Definition HT_upcastCopy (o : HT) : HT := o.
Definition HT_with_pers (p : Persistent) (o : HT) : HT := MkHT p (ht_id o) (ht_type o) (key o) (ht_value o) (ht_time o).
Definition HT_update (o : HT) : M S HT :=
  if inDatabase (ht_pers o) then
    let u := HT_addUpdates o [] in
    let u := if decide (value (ht_id o) = oldKey (ht_pers o)) then u
             else if HT_typeIsCorrect o then u else HT_addIDUpdates (HT_upcastCopy o) u in
    update_rows u (oldKey (ht_pers o)) ;;;
    ret (HT_with_pers (set_id (value (ht_id o)) (ht_pers o)) o)
  else HT_create o.
Definition HT_del (o : HT) : M S HT :=
  (if HT_typeIsCorrect o then HT_delRecord o
   else let p := HT_upcastCopy o in HT_delRelations p ;;; HT_delRecord p) ;;;
  ret (HT_with_pers (set_inDatabase false (ht_pers o)) o).

(** *** The handles of the relations, on their owner *)
Definition Object_snapshots_link (owner : Object) (o0 : Snapshot) : M S () := ObjectSnapshot_link (value (id (ob_id owner))) (value (id (sn_id o0))).
Definition Object_snapshots_unlink (owner : Object) (o0 : Snapshot) : M S () := ObjectSnapshot_unlink (value (id (ob_id owner))) (value (id (sn_id o0))).
Definition Object_snapshots_del (owner : Object) (expr : Expr) : M S () := ObjectSnapshot_del (And expr (Equals ObjectSnapshot_Object (int_text (value (id (ob_id owner)))))).
Definition Object_snapshots_get (owner : Object) (expr srcExpr : Expr) : M S (list (list bytes)) :=
  ObjectSnapshot_get_Snapshot expr (And (Equals ObjectSnapshot_Object (int_text (value (id (ob_id owner))))) srcExpr).
Definition Object_snapshots_getRows (owner : Object) (expr : Expr) : M S (list (list bytes)) :=
  ObjectSnapshot_getRows (And expr (Equals ObjectSnapshot_Object (int_text (value (id (ob_id owner)))))).
Definition Object_diffs_link (owner : Object) (o0 : Diff) : M S () := DiffObject_link (value (id (df_id o0))) (value (id (ob_id owner))).
Definition Object_diffs_unlink (owner : Object) (o0 : Diff) : M S () := DiffObject_unlink (value (id (df_id o0))) (value (id (ob_id owner))).
Definition Object_diffs_del (owner : Object) (expr : Expr) : M S () := DiffObject_del (And expr (Equals DiffObject_Object (int_text (value (id (ob_id owner)))))).
Definition Object_diffs_get (owner : Object) (expr srcExpr : Expr) : M S (list (list bytes)) :=
  DiffObject_get_Diff expr (And (Equals DiffObject_Object (int_text (value (id (ob_id owner))))) srcExpr).
Definition Object_diffs_getRows (owner : Object) (expr : Expr) : M S (list (list bytes)) :=
  DiffObject_getRows (And expr (Equals DiffObject_Object (int_text (value (id (ob_id owner)))))).
Definition Snapshot_diffs_link (owner : Snapshot) (o0 : Diff) : M S () := DiffSnapshot_link (value (id (df_id o0))) (value (id (sn_id owner))).
Definition Snapshot_diffs_unlink (owner : Snapshot) (o0 : Diff) : M S () := DiffSnapshot_unlink (value (id (df_id o0))) (value (id (sn_id owner))).
Definition Snapshot_diffs_del (owner : Snapshot) (expr : Expr) : M S () := DiffSnapshot_del (And expr (Equals DiffSnapshot_Snapshot (int_text (value (id (sn_id owner)))))).
Definition Snapshot_diffs_get (owner : Snapshot) (expr srcExpr : Expr) : M S (list (list bytes)) :=
  DiffSnapshot_get_Diff expr (And (Equals DiffSnapshot_Snapshot (int_text (value (id (sn_id owner))))) srcExpr).
Definition Snapshot_diffs_getRows (owner : Snapshot) (expr : Expr) : M S (list (list bytes)) :=
  DiffSnapshot_getRows (And expr (Equals DiffSnapshot_Snapshot (int_text (value (id (sn_id owner)))))).
Definition Diff_prev_link (owner : Diff) (o0 : ObjID) : M S () := DiffObjID_link (value (id (df_id owner))) (value (id (o0))).
Definition Diff_prev_unlink (owner : Diff) (o0 : ObjID) : M S () := DiffObjID_unlink (value (id (df_id owner))) (value (id (o0))).
Definition Diff_prev_del (owner : Diff) (expr : Expr) : M S () := DiffObjID_del (And expr (Equals DiffObjID_Diff (int_text (value (id (df_id owner)))))).
Definition Diff_prev_get (owner : Diff) (expr srcExpr : Expr) : M S (list (list bytes)) :=
  DiffObjID_get_ObjID expr (And (Equals DiffObjID_Diff (int_text (value (id (df_id owner))))) srcExpr).
Definition Diff_prev_getRows (owner : Diff) (expr : Expr) : M S (list (list bytes)) :=
  DiffObjID_getRows (And expr (Equals DiffObjID_Diff (int_text (value (id (df_id owner)))))).

(** ** What an object prints as *)
Definition rule : bytes := lit "-------------------------------------" ++ [char_of_Z 10].
Definition show (f : FieldType) (v : bytes) : bytes := name f ++ lit " = " ++ v ++ [char_of_Z 10].
Definition ObjID_fields (o : ObjID) : bytes :=
  show ObjID_Id (int_text (value (id o))) ++ show ObjID_Type (value (type o)) ++ show ObjID_AnID (value (anID o)).
Definition ObjID_print (o : ObjID) : bytes := rule ++ ObjID_fields o ++ rule.
Definition Object_print (o : Object) : bytes := rule ++ ObjID_fields (ob_id o) ++ rule.
Definition Snapshot_print (o : Snapshot) : bytes :=
  rule ++ ObjID_fields (sn_id o) ++ show Snapshot_Based (value (based o)) ++ show Snapshot_Content (value (sn_content o)) ++
  show Snapshot_Time (time_shown (value (sn_time o))) ++ rule.
Definition Diff_print (o : Diff) : bytes :=
  rule ++ ObjID_fields (df_id o) ++ show Diff_Snapshot (value (snapshot o)) ++ show Diff_Content (value (df_content o)) ++
  show Diff_Time (time_shown (value (df_time o))) ++ rule.
Definition HT_print (o : HT) : bytes :=
  rule ++ show HT_Id (int_text (value (ht_id o))) ++ show HT_Type (value (ht_type o)) ++ show HT_Key (value (key o)) ++
  show HT_Value (value (ht_value o)) ++ show HT_Time (time_shown (value (ht_time o))) ++ rule.

(** ** SQLDB

    [getSchema]: the statements that make the tables, the sequences where the
    backend has them, and the indices. *)
Definition getSchema : list SchemaItem :=
  let TEXT := getSQLType A_field_type_string in
  let rowIdType := getRowIDType in
  [(lit "schema_", lit "table", lit "CREATE TABLE schema_ (name_ " ++ TEXT ++ lit ", type_ " ++ TEXT ++ lit ", sql_ " ++ TEXT ++ lit ")")] ++
  (if supportsSequences then
   [(lit "ObjID_seq", lit "sequence", getCreateSequenceSQL (lit "ObjID_seq"));
    (lit "HT_seq", lit "sequence", getCreateSequenceSQL (lit "HT_seq"))] else []) ++
  [(lit "ObjID_", lit "table", lit "CREATE TABLE ObjID_ (id_ " ++ rowIdType ++ lit ",type_ " ++ getSQLType A_field_type_string ++ lit ",anID_ " ++ getSQLType A_field_type_string ++ lit ")");
   (lit "Object_", lit "table", lit "CREATE TABLE Object_ (id_ " ++ rowIdType ++ lit ")");
   (lit "Snapshot_", lit "table", lit "CREATE TABLE Snapshot_ (id_ " ++ rowIdType ++ lit ",based_ " ++ getSQLType A_field_type_string ++ lit ",content_ " ++ getSQLType A_field_type_string ++ lit ",time_ " ++ getSQLType A_field_type_datetime ++ lit ")");
   (lit "Diff_", lit "table", lit "CREATE TABLE Diff_ (id_ " ++ rowIdType ++ lit ",snapshot_ " ++ getSQLType A_field_type_string ++ lit ",content_ " ++ getSQLType A_field_type_string ++ lit ",time_ " ++ getSQLType A_field_type_datetime ++ lit ")");
   (lit "HT_", lit "table", lit "CREATE TABLE HT_ (id_ " ++ rowIdType ++ lit ",type_ " ++ getSQLType A_field_type_string ++ lit ",key_ " ++ getSQLType A_field_type_string ++ lit ",value_ " ++ getSQLType A_field_type_string ++ lit ",time_ " ++ getSQLType A_field_type_datetime ++ lit ")");
   (lit "Object_Snapshot_", lit "table", lit "CREATE TABLE Object_Snapshot_ (Object1_ " ++ getSQLType A_field_type_integer ++ lit ",Snapshot2_ " ++ getSQLType A_field_type_integer ++ lit ")");
   (lit "Diff_Object_", lit "table", lit "CREATE TABLE Diff_Object_ (Diff1_ " ++ getSQLType A_field_type_integer ++ lit ",Object2_ " ++ getSQLType A_field_type_integer ++ lit ")");
   (lit "Diff_Snapshot_", lit "table", lit "CREATE TABLE Diff_Snapshot_ (Diff1_ " ++ getSQLType A_field_type_integer ++ lit ",Snapshot2_ " ++ getSQLType A_field_type_integer ++ lit ")");
   (lit "Diff_ObjID_", lit "table", lit "CREATE TABLE Diff_ObjID_ (Diff1_ " ++ getSQLType A_field_type_integer ++ lit ",ObjID2_ " ++ getSQLType A_field_type_integer ++ lit ")")] ++
  [(lit "ObjID_id_idx", lit "index", lit "CREATE INDEX ObjID_id_idx ON ObjID_ (id_)");
   (lit "HT_id_idx", lit "index", lit "CREATE INDEX HT_id_idx ON HT_ (id_)");
   (lit "Object_Snapshot_Object1_idx", lit "index", lit "CREATE INDEX Object_Snapshot_Object1_idx ON Object_Snapshot_ (Object1_)");
   (lit "Object_Snapshot_Snapshot2_idx", lit "index", lit "CREATE INDEX Object_Snapshot_Snapshot2_idx ON Object_Snapshot_ (Snapshot2_)");
   (lit "Object_Snapshot__all_idx", lit "index", lit "CREATE INDEX Object_Snapshot__all_idx ON Object_Snapshot_ (Object1_,Snapshot2_)");
   (lit "Diff_Object_Diff1_idx", lit "index", lit "CREATE INDEX Diff_Object_Diff1_idx ON Diff_Object_ (Diff1_)");
   (lit "Diff_Object_Object2_idx", lit "index", lit "CREATE INDEX Diff_Object_Object2_idx ON Diff_Object_ (Object2_)");
   (lit "Diff_Object__all_idx", lit "index", lit "CREATE INDEX Diff_Object__all_idx ON Diff_Object_ (Diff1_,Object2_)");
   (lit "Diff_Snapshot_Diff1_idx", lit "index", lit "CREATE INDEX Diff_Snapshot_Diff1_idx ON Diff_Snapshot_ (Diff1_)");
   (lit "Diff_Snapshot_Snapshot2_idx", lit "index", lit "CREATE INDEX Diff_Snapshot_Snapshot2_idx ON Diff_Snapshot_ (Snapshot2_)");
   (lit "Diff_Snapshot__all_idx", lit "index", lit "CREATE INDEX Diff_Snapshot__all_idx ON Diff_Snapshot_ (Diff1_,Snapshot2_)");
   (lit "Diff_ObjID_Diff1_idx", lit "index", lit "CREATE INDEX Diff_ObjID_Diff1_idx ON Diff_ObjID_ (Diff1_)");
   (lit "Diff_ObjID_ObjID2_idx", lit "index", lit "CREATE INDEX Diff_ObjID_ObjID2_idx ON Diff_ObjID_ (ObjID2_)");
   (lit "Diff_ObjID__all_idx", lit "index", lit "CREATE INDEX Diff_ObjID__all_idx ON Diff_ObjID_ (Diff1_,ObjID2_)")].

End classes.

End SqlDb.
