(* ===== verification/SqlTables.v ===== *)
(** * The tables of the SQL store

    What getSchema makes of an empty database, and how queries over one table and
    over a class that inherits from ObjID read its rows. *)

From S2P Require Import Prelude Decimal Sql SqlDb.
Local Open Scope prog_scope.

Module SqlTables.
Import SqlDb.

(** The tables of the classes and relations with the fields their methods write
    and read. *)
Definition class_tables : list (bytes * list FieldType) :=
  [(ObjID_table__, [ObjID_Id; ObjID_Type; ObjID_AnID]);
   (Object_table__, [Object_Own_Id]);
   (Snapshot_table__, [Snapshot_Own_Id; Snapshot_Based; Snapshot_Content; Snapshot_Time]);
   (Diff_table__, [Diff_Own_Id; Diff_Snapshot; Diff_Content; Diff_Time]);
   (HT_table__, HT_getFieldTypes);
   (ObjectSnapshot_table__, [ObjectSnapshot_Object; ObjectSnapshot_Snapshot]);
   (DiffObject_table__, [DiffObject_Diff; DiffObject_Object]);
   (DiffSnapshot_table__, [DiffSnapshot_Diff; DiffSnapshot_Snapshot]);
   (DiffObjID_table__, [DiffObjID_Diff; DiffObjID_ObjID])].

Section tables.
Context {S : Type} `{LiteSqlLaws S}.

(** The tables are there, of exactly these columns. *)
Definition made (s : S) : Prop := Forall (λ p, columns s (fst p) = Some (map name (snd p))) class_tables.

Lemma made_columns s t fts : made s → (t, fts) ∈ class_tables → columns s t = Some (map name fts).
Proof. unfold made. intros Hm Hin. by apply (proj1 (Forall_forall _ _) Hm _ Hin). Qed.
Lemma made_same s s' : columns s' = columns s → made s → made s'.
Proof. unfold made. by intros ->. Qed.

(** The type a column is declared with: the id's, and the fields' own. *)
Definition column_type (f : FieldType) : bytes := if decide (name f = lit "id_") then getRowIDType else getSQLType (field_type f).
Definition statement (p : bytes * list FieldType) : SchemaItem :=
  (fst p, lit "table", create_table (fst p) (map (λ f, (name f, column_type f)) (snd p))).

Lemma statements_in_schema p : p ∈ class_tables → statement p ∈ getSchema.
Proof.
  intros Hp. unfold getSchema. apply elem_of_app. right. apply elem_of_app. right. apply elem_of_app. left.
  apply (list_elem_of_fmap_2 statement) in Hp. eapply eq_ind; [exact Hp|]. f_equal. clear p Hp.
  unfold class_tables, statement, create_table, commas, declared. cbn. rewrite ?app_nil_r.
  repeat (rewrite <-app_assoc; cbn). reflexivity.
Qed.

Lemma schema_names : NoDup (map (λ i, fst (fst i)) getSchema).
Proof. unfold getSchema. destruct supportsSequences; apply (bool_decide_unpack _); by vm_compute. Qed.

Lemma plain_statements p : p ∈ class_tables →
  snd p ≠ [] ∧ plain (fst p) ∧ Forall (λ f, plain (name f)) (snd p).
Proof. revert p. apply Forall_forall, (bool_decide_unpack _). by vm_compute. Qed.

(** Run on an empty database, the statements of getSchema make for each class
    and each relation an empty table of exactly the columns its methods write
    and read, in that order. *)
Theorem schema_makes_tables s n : (∀ t, columns s t = None) → has_room s n →
  ∃ s', create_schema getSchema s = (Ret tt, s') ∧ has_room s' n ∧
    made s' ∧ Forall (λ p, rows s' (fst p) = []) class_tables.
Proof.
  intros Hs Hn. destruct (create_ok s getSchema Hs schema_names) as (s' & Hr & Hroom & Ht).
  assert (Hp : Forall (λ p, columns s' (fst p) = Some (map name (snd p)) ∧ rows s' (fst p) = []) class_tables).
  { apply Forall_forall. intros p Hp. destruct (plain_statements p Hp) as (Hne & Hpl & Hf).
    rewrite <-(map_map (λ f, (name f, column_type f)) fst). apply Ht; [by apply statements_in_schema| |done|].
    - by destruct (snd p).
    - apply Forall_map. eapply Forall_impl; [exact Hf|]. intros f Hpf. split; [done|]. simpl.
      unfold column_type. case_decide; apply plain_types. exact []. }
  exists s'. split_and!; [done|by apply Hroom|..]; (eapply Forall_impl; [exact Hp|]); by intros ? [].
Qed.

Lemma fits_self (fs vs : list bytes) : NoDup fs → length vs = length fs → fits fs fs vs.
Proof. intros Hnd Hl. split_and!; [done| |done]. by apply Forall_forall. Qed.

(** ** Lists *)

Lemma filter_map_ext {A B} (f : A → B) p q l : Forall (λ x, p (f x) = q x) l → List.filter p (map f l) = map f (List.filter q l).
Proof. induction 1 as [|x l Hx Hl IH]; simpl; [done|]. rewrite Hx, IH. by destruct (q x). Qed.
Lemma filter_all {A} p (l : list A) : Forall (λ x, p x = true) l → List.filter p l = l.
Proof. induction 1 as [|x l Hx Hl IH]; simpl; [done|]. by rewrite Hx, IH. Qed.
Lemma filter_none {A} p (l : list A) : Forall (λ x, p x = false) l → List.filter p l = [].
Proof. induction 1 as [|x l Hx Hl IH]; simpl; [done|]. by rewrite Hx. Qed.
Lemma NoDup_map_filter {A B} (f : A → B) p l : NoDup (map f l) → NoDup (map f (List.filter p l)).
Proof.
  induction l as [|x l IH]; simpl; [done|]. intros [Hx Hl]%NoDup_cons. destruct (p x); [|by apply IH].
  simpl. apply NoDup_cons. split; [|by apply IH]. intros (y & Hy & [Hin _]%list_elem_of_In%filter_In)%list_elem_of_fmap.
  apply Hx, list_elem_of_fmap. exists y. split; [done|by apply list_elem_of_In].
Qed.

(** ** Queries *)

Lemma one_ok s fts own e : Forall (λ t, is_Some (columns s t)) (tables_of fts own) →
  ∃ s', columns s' = columns s ∧ rows s' = rows s ∧ (∀ n, has_room s n → has_room s' n) ∧
    ((∃ r, r ∈ selected (rows s) fts own e ∧ one (select_objects fts own e) s = (Ret r, s')) ∨
     (selected (rows s) fts own e = [] ∧ one (select_objects fts own e) s = (Throw litesql_except, s'))).
Proof.
  intros Ht. destruct (select_objects_ok s fts own e Ht) as (l & s' & Hr & Hc & Hrows & Hroom & Hl). exists s'. split_and!; [done..|].
  unfold one. rewrite (bind_run _ _ _ _ _ Hr). destruct l as [|r l].
  - right. by apply Permutation_nil in Hl.
  - left. exists r. split; [|done]. rewrite <-Hl. left.
Qed.

(** Of one table. *)
Lemma selected_one rs fts own e t : tables_of fts own = [t] →
  selected rs fts own e = map (λ r, fields_of fts [(t, r)]) (List.filter (λ r, eval rs e [(t, r)]) (rs t)).
Proof.
  intros Ht. unfold selected. rewrite Ht. simpl. rewrite app_nil_r.
  induction (rs t) as [|r l IH]; simpl; [done|]. case_match; simpl; by rewrite IH.
Qed.

(** Of a class's table and ObjID's: the pairs of rows of one id. *)
Lemma selected_two rs fts own e t1 t2 l : tables_of fts own = [t1; t2] →
  l ∈ selected rs fts own e ↔ ∃ r1 r2, r1 ∈ rs t1 ∧ r2 ∈ rs t2 ∧ column (lit "id_") r1 = column (lit "id_") r2 ∧
    eval rs e [(t1, r1); (t2, r2)] = true ∧ l = fields_of fts [(t1, r1); (t2, r2)].
Proof.
  intros Ht. unfold selected. rewrite Ht, list_elem_of_fmap. split.
  - intros (p & -> & [Hp He]%list_elem_of_In%filter_In). simpl in Hp. rewrite app_nil_r in Hp.
    apply in_concat in Hp as (ps & (p2 & <- & (r2 & <- & Hr2)%in_map_iff)%in_map_iff & (r1 & <- & [Hr1 Hid]%filter_In)%in_map_iff).
    exists r1, r2. split_and!; [by apply list_elem_of_In|apply list_elem_of_In; apply filter_In in Hr2; tauto| |done|done].
    by apply bool_decide_eq_true in Hid.
  - intros (r1 & r2 & Hr1%list_elem_of_In & Hr2%list_elem_of_In & Hid & He & ->). eexists. split; [done|].
    apply list_elem_of_In, filter_In. split; [|done]. simpl. rewrite app_nil_r. apply in_concat.
    eexists. split; [apply in_map_iff; eexists; split; [done|]; apply in_map_iff; exists r2; split; [done|]; by apply filter_In|].
    apply in_map_iff. exists r1. split; [done|]. apply filter_In. split; [done|]. simpl. by apply bool_decide_eq_true.
Qed.

End tables.
(** *** A database in memory that was just made *)
Definition made_db : Mem := snd (create_schema getSchema mem_empty).
Lemma made_db_made : made made_db.
Proof. apply (bool_decide_unpack _). by vm_compute. Qed.
Lemma made_db_room n : (Z.of_nat n < 2 ^ 31 - 1)%Z → has_room made_db n.
Proof. intros Hn. apply MemSql.create_room. split_and!; [done| |simpl; lia]. by intros t r ?%elem_of_nil. Qed.

End SqlTables.
