(* ===== verification/SqlStore.v ===== *)
(** * sqlstore.cc: the store over a SQL database

    The operations of Sqlstore over the classes of SqlDb.v, and what they do to the
    rows of the tables.  The file is not part of the build, and does not compile
    with db.h as it is: that declares [prev] as one id, where sqlstore.cc goes
    through it and appends ids to it, as to the vector that the declaration
    commented out has.  The type of [prev] is a parameter here, with what
    sqlstore.cc does with it; otherwise the records have the members of db.h
    that the store reads and writes.  A method that fills [res] runs over the database
    and the object [res] points to. *)

From S2P Require Import Prelude Decimal Sql SqlDb.
Local Open Scope prog_scope.

Module SqlStore.
Import SqlDb.

(** ** The objects of the database API *)

(** The member [prev]: an empty one, the ids a loop over it meets, push_back. *)
Class PrevMember (P : Type) := {
  no_prev : P;
  prev_items : P → list bytes;
  prev_push_back : bytes → P → P;
}.
Class PrevLaws (P : Type) `{PrevMember P} := {
  items_none : prev_items no_prev = [];
  items_push i p : prev_items (prev_push_back i p) = prev_items p ++ [i];
}.

Record AnDiff (P : Type) := MkAnDiff {
  d_id : bytes; d_db_id : Z; d_db_type : bytes; d_content : bytes; d_time : Z;
  d_snapshot : bytes; d_prev : P }.
Record AnSnapshot (P : Type) := MkAnSnapshot {
  s_id : bytes; s_db_id : Z; s_db_type : bytes; s_content : bytes; s_time : Z;
  s_diffs : list (AnDiff P); s_based : bytes }.
Record AnObject (P : Type) := MkAnObject {
  o_id : bytes; o_db_id : Z; o_db_type : bytes; o_snapshots : list (AnSnapshot P); o_diffs : list (AnDiff P) }.
#[global] Arguments MkAnDiff {P}. #[global] Arguments d_id {P}. #[global] Arguments d_db_id {P}.
#[global] Arguments d_db_type {P}. #[global] Arguments d_content {P}. #[global] Arguments d_time {P}.
#[global] Arguments d_snapshot {P}. #[global] Arguments d_prev {P}.
#[global] Arguments MkAnSnapshot {P}. #[global] Arguments s_id {P}. #[global] Arguments s_db_id {P}.
#[global] Arguments s_db_type {P}. #[global] Arguments s_content {P}. #[global] Arguments s_time {P}.
#[global] Arguments s_diffs {P}. #[global] Arguments s_based {P}.
#[global] Arguments MkAnObject {P}. #[global] Arguments o_id {P}. #[global] Arguments o_db_id {P}.
#[global] Arguments o_db_type {P}. #[global] Arguments o_snapshots {P}. #[global] Arguments o_diffs {P}.

Section push.
Context {P : Type} `{PrevMember P}.
Definition push_prev (p : bytes) (d : AnDiff P) : AnDiff P :=
  MkAnDiff (d_id d) (d_db_id d) (d_db_type d) (d_content d) (d_time d) (d_snapshot d) (prev_push_back p (d_prev d)).
Definition push_diff (x : AnDiff P) (s : AnSnapshot P) : AnSnapshot P :=
  MkAnSnapshot (s_id s) (s_db_id s) (s_db_type s) (s_content s) (s_time s) (s_diffs s ++ [x]) (s_based s).
Definition push_snapshot (x : AnSnapshot P) (o : AnObject P) : AnObject P :=
  MkAnObject (o_id o) (o_db_id o) (o_db_type o) (o_snapshots o ++ [x]) (o_diffs o).
Definition push_object_diff (x : AnDiff P) (o : AnObject P) : AnObject P :=
  MkAnObject (o_id o) (o_db_id o) (o_db_type o) (o_snapshots o) (o_diffs o ++ [x]).
End push.

(** [BOOST_FOREACH] over a vector. *)
Fixpoint foreach {S A} (l : list A) (body : A → M S ()) : M S () :=
  match l with [] => ret tt | x :: l => body x ;;; foreach l body end.

(** [catch(Except e)]: the answer is false. *)
Definition catch_except {S} (m : M S bool) : M S bool :=
  try_catch m (λ e, match e with litesql_except => Some (ret false) | _ => None end).

(** Of the database and what [res] points to: the database; a call whose [res]
    is a new object. *)
Section result.
Context {S R R' : Type}.
Definition on_db {A} (m : M S A) : M (S * R) A := zoom fst (λ s w, (s, snd w)) m.
Definition set_res (f : R → R) : M (S * R) () := modify (λ w, (fst w, f (snd w))).
Definition into_new {A} (r' : R') (m : M (S * R') A) : M (S * R) R' := λ w,
  let '(o, (s, r')) := m (fst w, r') in
  (match o with Ret _ => Ret r' | Throw e => Throw e | Undef => Undef end, (s, snd w)).
End result.

Section store.
Context {S : Type} `{LiteSql S} {P : Type} `{PrevMember P}.
Abbreviation AnDiff := (AnDiff P).
Abbreviation AnSnapshot := (AnSnapshot P).
Abbreviation AnObject := (AnObject P).
(** [time_duration::ticks_per_second()], and [not_a_date_time] as ticks. *)
Context (ticks_per_second not_a_date_time : Z).

(** *** Times: [ptime] as ticks since 1970-01-01 *)
Definition to_time_t (pt : Z) : Z := Z.quot pt ticks_per_second.
Definition from_time_t (t : Z) : Z := (t * ticks_per_second)%Z.

(** [new an::db::Diff()], [Snapshot()] *)
Definition An_Diff_new : AnDiff := MkAnDiff [] 0 [] [] not_a_date_time [] no_prev.
Definition An_Snapshot_new : AnSnapshot := MkAnSnapshot [] 0 [] [] not_a_date_time [] [].

(** The id and type of an object that was stored before. *)
Definition stored_before (db_id : Z) (db_type : bytes) (o : ObjID) : ObjID :=
  if (db_id =? 0)%Z then o
  else MkObjID (set_inDatabase true (set_id db_id (pers o))) (assign db_id) (assign db_type) (anID o).

(** *** Storing *)
Definition _db_store_id (i : bytes) : M S ObjID := ObjID_update (with_anID i ObjID_new).

Definition _db_store_diff (ip : AnDiff) : M S Diff :=
  let diff := Diff_new in
  let diff := MkDiff (stored_before (d_db_id ip) (d_db_type ip) (with_anID (d_id ip) (df_id diff)))
    (assign (d_snapshot ip)) (assign (d_content ip)) (assign (to_time_t (d_time ip))) in
  foreach (prev_items (d_prev ip)) (λ prev, let! oi := _db_store_id prev in Diff_prev_link diff oi) ;;;
  Diff_update diff.

Definition db_store_diff (diff : AnDiff) : M S bool :=
  catch_except (db_begin ;;; _db_store_diff diff ;;; db_commit ;;; ret true).

Definition _db_store_snapshot (sn : AnSnapshot) : M S Snapshot :=
  let ss := Snapshot_new in
  let ss := MkSnapshot (stored_before (s_db_id sn) (s_db_type sn) (with_anID (s_id sn) (sn_id ss)))
    (assign (s_based sn)) (assign (s_content sn)) (assign (to_time_t (s_time sn))) in
  foreach (s_diffs sn) (λ diff, let! d := _db_store_diff diff in Snapshot_diffs_link ss d) ;;;
  Snapshot_update ss.

Definition db_store_snapshot (sn : AnSnapshot) : M S bool :=
  catch_except (db_begin ;;; _db_store_snapshot sn ;;; db_commit ;;; ret true).

Definition db_store_obj (obj : AnObject) : M S bool :=
  catch_except (
    db_begin ;;;
    let dobj := MkObject (stored_before (o_db_id obj) (o_db_type obj) (with_anID (o_id obj) (ob_id Object_new))) in
    let! dobj := Object_update dobj in
    foreach (o_snapshots obj) (λ ss, let! s := _db_store_snapshot ss in Object_snapshots_link dobj s) ;;;
    Object_update dobj ;;;
    db_commit ;;; ret true).

Definition db_remove (i : bytes) : M S bool :=
  catch_except (
    db_begin ;;;
    let! r := one (select_objects ObjID_getFieldTypes ObjID_Own_Id (Equals ObjID_AnID i)) in
    ObjID_del (ObjID_of r) ;;;
    db_commit ;;; ret true).

(** *** Reading *)
Definition _db_get_diff (i : bytes) (diff : Diff) : M (S * AnDiff) bool :=
  set_res (λ res, MkAnDiff i (value (id (df_id diff))) (value (type (df_id diff))) (value (df_content diff))
    (from_time_t (value (df_time diff))) (value (snapshot diff)) (d_prev res)) ;;;
  let! prevs := on_db (Diff_prev_get diff Everything Everything) in
  foreach prevs (λ r, set_res (push_prev (value (anID (ObjID_of r))))) ;;;
  ret true.

Definition db_get_diff (i : bytes) : M (S * AnDiff) bool :=
  catch_except (
    let! r := on_db (one (select_objects Diff_getFieldTypes Diff_Own_Id (Equals ObjID_AnID i))) in
    _db_get_diff i (Diff_of r)).

Definition _db_get_snapshot (i : bytes) (ss : Snapshot) : M (S * AnSnapshot) bool :=
  set_res (λ res, MkAnSnapshot i (value (id (sn_id ss))) (value (type (sn_id ss))) (value (sn_content ss))
    (from_time_t (value (sn_time ss))) (s_diffs res) (value (based ss))) ;;;
  let! prevs := on_db (Snapshot_diffs_get ss Everything Everything) in
  foreach prevs (λ r, let prevdiff := Diff_of r in
    let! d := into_new An_Diff_new (_db_get_diff (value (anID (df_id prevdiff))) prevdiff) in
    set_res (push_diff d)) ;;;
  ret true.

Definition db_get_snapshot (i : bytes) : M (S * AnSnapshot) bool :=
  catch_except (
    let! r := on_db (one (select_objects Snapshot_getFieldTypes Snapshot_Own_Id (Equals ObjID_AnID i))) in
    _db_get_snapshot i (Snapshot_of r)).

Definition db_get_obj (i : bytes) : M (S * AnObject) bool :=
  catch_except (
    let! r := on_db (one (select_objects Object_getFieldTypes Object_Own_Id (Equals ObjID_AnID i))) in
    let obj := Object_of r in
    set_res (λ res, MkAnObject i (value (id (ob_id obj))) (value (type (ob_id obj))) (o_snapshots res) (o_diffs res)) ;;;
    let! snapshots := on_db (Object_snapshots_get obj Everything Everything) in
    let! diffs := on_db (Object_diffs_get obj Everything Everything) in
    foreach snapshots (λ r, let prevss := Snapshot_of r in
      let! s := into_new An_Snapshot_new (_db_get_snapshot (value (anID (sn_id prevss))) prevss) in
      set_res (push_snapshot s)) ;;;
    foreach diffs (λ r, let prevdiff := Diff_of r in
      let! d := into_new An_Diff_new (_db_get_diff (value (anID (df_id prevdiff))) prevdiff) in
      set_res (push_object_diff d)) ;;;
    ret true).

(** *** The key-value store: [now] is the local time *)
Definition kv_put (now : Z) (key value : bytes) : M S bool :=
  catch_except (
    let ht := HT_new in
    HT_update (MkHT (ht_pers ht) (ht_id ht) (ht_type ht) (assign key) (assign value) (assign (to_time_t now))) ;;;
    ret true).
Definition kv_get (key : bytes) : M (S * bytes) bool :=
  catch_except (
    let! r := on_db (one (select_objects HT_getFieldTypes HT_Own_Id (Equals HT_Key key))) in
    set_res (λ _, value (ht_value (HT_of r))) ;;;
    ret true).
Definition kv_remove (key : bytes) : M S bool :=
  catch_except (
    let! r := one (select_objects HT_getFieldTypes HT_Own_Id (Equals HT_Key key)) in
    HT_del (HT_of r) ;;;
    ret true).

(** *** The store itself: its members [_db_path] and [_db], which is not set
    before a database was opened *)
Record members := MkMembers { _db_path : bytes; _db : option S }.
Definition PATH : bytes := lit "/sqlstore.db".
(** [fs::exists(path)], and [new SQLDB("sqlite3", "database=" + path)] *)
Context (exists_ : bytes → outcome bool) (SQLDB : bytes → outcome S).

Definition open : M members () := λ st,
  match SQLDB (_db_path st) with
  | Ret d => (Ret tt, MkMembers (_db_path st) (Some d))
  | Throw e => (Throw e, st)
  | Undef => (Undef, st)
  end.
(** A call on [_db]. *)
Definition call {A} (m : M S A) : M members A := λ st,
  match _db st with
  | Some d => let '(o, d) := m d in (o, MkMembers (_db_path st) (Some d))
  | None => (Undef, st)
  end.

Definition create_db : M members bool := open ;;; call (create_schema getSchema) ;;; ret true.
Definition initialise (datadir : bytes) : M members bool :=
  modify (λ st, MkMembers (datadir ++ PATH) (_db st)) ;;;
  catch_except (
    let! there := lift_outcome (exists_ (datadir ++ PATH)) in
    if negb there then
      if! create_db then ret true else ret false
    else
      open ;;;
      (if! call (needsUpgrade getSchema) then call (upgrade getSchema) else ret tt) ;;;
      ret true).
Definition shutdown : M members () := ret tt.

End store.
End SqlStore.
