(* ===== verification/SqlKv.v ===== *)
(** * The key-value store over SQL

    kv_put, kv_get and kv_remove keep a bag of keys with values in the table of HT:
    a key that is put again is there twice. *)

From stdpp Require Import gmultiset.
From S2P Require Import Prelude Decimal Sql SqlDb SqlTables SqlStore.
Local Open Scope prog_scope.

Module SqlKv.
Import SqlDb SqlTables SqlStore.

(** ** The rows of HT *)
Record Entry := MkEntry { e_id : Z; e_type : bytes; e_key : bytes; e_value : bytes; e_time : bytes }.
Definition entry_row (e : Entry) : Row :=
  zip (map name HT_getFieldTypes) [int_text (e_id e); e_type e; e_key e; e_value e; e_time e].
Definition entry_fields (e : Entry) : list bytes := [int_text (e_id e); e_type e; e_key e; e_value e; e_time e].

(** What they are a store of. *)
Abbreviation bag := (gmultiset (bytes * bytes)).
Definition pair_of (e : Entry) : bytes * bytes := (e_key e, e_value e).
Definition bag_of (es : list Entry) : bag := list_to_set_disj (map pair_of es).

(** ** A history of calls *)
Inductive op := Put (now : Z) (k v : bytes) | Get (k : bytes) | Remove (k : bytes).
Inductive answer := Done (ok : bool) | Got (ok : bool) (v : bytes).
Definition is_put (o : op) : bool := match o with Put _ _ _ => true | _ => false end.

(** What the calls promise: [get] one of the values of the key, [remove] takes
    one of them away. *)
Inductive step : bag → op → answer → bag → Prop :=
  | step_put B now k v : step B (Put now k v) (Done true) (B ⊎ {[+ (k, v) +]})
  | step_get B k v : (k, v) ∈ B → step B (Get k) (Got true v) B
  | step_get_none B k : (∀ v, (k, v) ∉ B) → step B (Get k) (Got false []) B
  | step_remove B k v : (k, v) ∈ B → step B (Remove k) (Done true) (B ∖ {[+ (k, v) +]})
  | step_remove_none B k : (∀ v, (k, v) ∉ B) → step B (Remove k) (Done false) B.
Inductive steps : bag → list op → list answer → bag → Prop :=
  | steps_nil B : steps B [] [] B
  | steps_cons B o a B1 os l B2 : step B o a B1 → steps B1 os l B2 → steps B (o :: os) (a :: l) B2.

Section kv.
Context {S : Type} `{LiteSqlLaws S} (ticks : Z).

Definition perform (o : op) : M S answer :=
  match o with
  | Put now k v => let! b := kv_put ticks now k v in ret (Done b)
  | Get k => λ s,
      let '(r, (s', v)) := kv_get k (s, []) in
      (match r with Ret b => Ret (Got b v) | Throw e => Throw e | Undef => Undef end, s')
  | Remove k => let! b := kv_remove k in ret (Done b)
  end.
Fixpoint perform_all (os : list op) : M S (list answer) :=
  match os with
  | [] => ret []
  | o :: os => let! a := perform o in let! l := perform_all os in ret (a :: l)
  end.

(** The table of HT holds [es], whose ids are their own. *)
Definition holds (s : S) (es : list Entry) : Prop :=
  columns s HT_table__ = Some (map name HT_getFieldTypes) ∧ rows s HT_table__ = map entry_row es ∧
  NoDup (map e_id es) ∧ Forall (λ e, (0 < e_id e < 2 ^ 31)%Z) es.

Lemma holds_same s s' es : columns s' = columns s → rows s' = rows s → holds s es → holds s' es.
Proof. unfold holds. by intros -> ->. Qed.

Lemma kv_put_ok s es now k v : holds s es → has_room s 1 →
  ∃ s' e, kv_put ticks now k v s = (Ret true, s') ∧ pair_of e = (k, v) ∧ holds s' (es ++ [e]) ∧
    ∀ n, has_room s (Datatypes.S n) → has_room s' n.
Proof.
  intros (Hc & Hr & Hnd & Hids) Hroom.
  destruct (insert_rows_ok s [HT_table__] [map name HT_getFieldTypes]
    [[int_text 0; HT_type__; k; v; time_text (to_time_t ticks now)]] HT_sequence__ 0) as (s' & i & Hi & Hc' & Hid & Hr').
  { done. } { apply NoDup_singleton. } { done. } { done. }
  { repeat constructor. exists (map name HT_getFieldTypes). split_and!; [done| |done|done].
    apply fits_self; [|done]. apply (bool_decide_unpack _); by vm_compute. }
  rewrite decide_True in Hid by done. destruct Hid as (Hi0 & Hfresh & Hroom').
  exists s', (MkEntry i HT_type__ k v (time_text (to_time_t ticks now))). split_and!; [|done| |done].
  - unfold kv_put. apply try_catch_ret. unfold HT_update, HT_create, HT_insert. cbn -[HT_table__ HT_sequence__ HT_type__ int_text to_time_t].
    rewrite new_persistent_ok. cbn -[HT_table__ HT_sequence__ HT_type__ int_text to_time_t]. rewrite !bind_assoc.
    erewrite bind_run; [|exact Hi]. done.
  - unfold holds. rewrite Hc', Hr'. split_and!; [done| | |].
    + rewrite Hr, map_app. cbn. done.
    + rewrite map_app. apply NoDup_snoc; [done|]. intros (e & Hj & He)%list_elem_of_fmap.
      apply (Hfresh HT_table__); [left|].
      unfold ids. rewrite Hr, map_map. apply list_elem_of_fmap. exists e. split; [|done].
      cbn. by rewrite <-Hj.
    + apply Forall_app. by split; [|constructor].
Qed.

Lemma HT_tables : tables_of HT_getFieldTypes HT_Own_Id = [HT_table__].
Proof. by vm_compute. Qed.
Lemma kv_tables s es : holds s es → Forall (λ t, is_Some (columns s t)) (tables_of HT_getFieldTypes HT_Own_Id).
Proof. intros (Hc & _). rewrite HT_tables. apply Forall_singleton. by rewrite Hc. Qed.

(** The rows that are read for a key are those of its entries. *)
Lemma kv_selected s es k : holds s es →
  selected (rows s) HT_getFieldTypes HT_Own_Id (Equals HT_Key k) = map entry_fields (List.filter (λ e, bool_decide (e_key e = k)) es).
Proof.
  intros (_ & Hr & _). rewrite (selected_one _ _ _ _ _ HT_tables), Hr. clear Hr.
  induction es as [|e es IH]; [done|].
  assert (Heval : eval (rows s) (Equals HT_Key k) [(HT_table__, entry_row e)] = bool_decide (e_key e = k)).
  { cbn. apply bool_decide_ext. split; [by intros [= ->]|by intros ->]. }
  cbn [map List.filter]. rewrite Heval. case_bool_decide; [|done]. cbn [map]. by rewrite IH.
Qed.

Lemma kv_one s es k : holds s es →
  ∃ s', holds s' es ∧ (∀ n, has_room s n → has_room s' n) ∧
    ((∃ e, e ∈ es ∧ e_key e = k ∧ one (select_objects HT_getFieldTypes HT_Own_Id (Equals HT_Key k)) s = (Ret (entry_fields e), s')) ∨
     ((∀ e, e ∈ es → e_key e ≠ k) ∧ one (select_objects HT_getFieldTypes HT_Own_Id (Equals HT_Key k)) s = (Throw litesql_except, s'))).
Proof.
  intros Hh. destruct (one_ok s HT_getFieldTypes HT_Own_Id (Equals HT_Key k) (kv_tables s es Hh)) as (s' & Hc & Hr & Hroom & Hone).
  exists s'. split_and!; [by eapply holds_same|done|]. rewrite (kv_selected s es k Hh) in Hone.
  destruct Hone as [(r & (e & -> & He)%list_elem_of_fmap & Hone)|[Hnil Hone]].
  - left. apply list_elem_of_In, filter_In in He as [He Hk]. apply list_elem_of_In in He. apply bool_decide_eq_true in Hk. by exists e.
  - right. split; [|done]. intros e He Hk. apply map_eq_nil in Hnil.
    assert (Hin : List.In e (List.filter (λ e, bool_decide (e_key e = k)) es)) by (apply filter_In; split; [by apply list_elem_of_In|by apply bool_decide_eq_true]).
    by rewrite Hnil in Hin.
Qed.

Lemma kv_get_ok s es k : holds s es →
  ∃ s', holds s' es ∧ (∀ n, has_room s n → has_room s' n) ∧
    ((∃ e, e ∈ es ∧ e_key e = k ∧ ∀ res, kv_get k (s, res) = (Ret true, (s', e_value e))) ∨
     ((∀ e, e ∈ es → e_key e ≠ k) ∧ ∀ res, kv_get k (s, res) = (Ret false, (s', res)))).
Proof.
  intros Hh. destruct (kv_one s es k Hh) as (s' & Hh' & Hroom & [(e & He & Hk & Hone)|[Hno Hone]]); exists s'; (split_and!; [done|done|]).
  - left. exists e. split_and!; [done|done|]. intros res. unfold kv_get. apply try_catch_ret.
    unfold on_db, zoom, bind at 1. cbn [fst snd]. rewrite Hone. done.
  - right. split; [done|]. intros res. unfold kv_get, catch_except, try_catch, on_db, zoom, bind at 1. cbn [fst snd]. by rewrite Hone.
Qed.

Lemma entry_has_id e n : (0 < e_id e < 2 ^ 31)%Z → (0 < n < 2 ^ 31)%Z → has_id (int_text n) (entry_row e) ↔ e_id e = n.
Proof.
  intros He Hn. unfold has_id. cbn -[int_text]. split; [|by intros ->]. intros [= Heq]. apply int_text_inj; [lia|lia|done].
Qed.

Lemma HT_del_ok o s s' : deleteFromTable HT_table__ (value (ht_id o)) s = (Ret tt, s') → ∃ o', HT_del o s = (Ret o', s').
Proof.
  intros Hd. eexists. unfold HT_del, HT_delRelations, HT_delRecord, HT_upcastCopy.
  destruct (HT_typeIsCorrect o); rewrite ?bind_assoc, ?bind_ret; by rewrite (bind_run _ _ _ _ _ Hd).
Qed.

Lemma kv_remove_ok s es k : holds s es →
  ∃ s', (∀ n, has_room s n → has_room s' n) ∧
    ((∃ e, e ∈ es ∧ e_key e = k ∧ kv_remove k s = (Ret true, s') ∧ holds s' (List.filter (λ e', negb (bool_decide (e_id e' = e_id e))) es)) ∨
     ((∀ e, e ∈ es → e_key e ≠ k) ∧ kv_remove k s = (Ret false, s') ∧ holds s' es)).
Proof.
  intros Hh. destruct (kv_one s es k Hh) as (s1 & Hh1 & Hroom1 & [(e & He & Hk & Hone)|[Hno Hone]]).
  - destruct Hh1 as (Hc & Hr & Hnd & Hids).
    destruct (deleteFromTable_ok s1 HT_table__ (e_id e) _ Hc) as (s' & Hd & Hc' & Hroom' & Hr').
    exists s'. split; [intros n Hn; by apply Hroom', Hroom1|]. left. exists e. split_and!; [done|done| |].
    + assert (Hid : value (ht_id (HT_of (entry_fields e))) = e_id e).
      { apply text_int_text. pose proof (proj1 (Forall_forall _ _) Hids e He). cbn in *. lia. }
      destruct (HT_del_ok (HT_of (entry_fields e)) s1 s') as [o Ho]; [by rewrite Hid|].
      unfold kv_remove. apply try_catch_ret. by rewrite (bind_run _ _ _ _ _ Hone), (bind_run _ _ _ _ _ Ho).
    + unfold holds. rewrite Hc', Hr', decide_True, Hr by done. split_and!; [done| | |].
      * apply filter_map_ext. eapply Forall_impl; [exact Hids|]. intros e' He'. f_equal.
        apply bool_decide_ext, entry_has_id; [done|]. by apply (proj1 (Forall_forall _ _) Hids).
      * by apply NoDup_map_filter.
      * apply Forall_forall. intros e' [He' _]%list_elem_of_In%filter_In. apply list_elem_of_In in He'.
        by apply (proj1 (Forall_forall _ _) Hids).
  - exists s1. split; [done|]. right. split_and!; [done| |done].
    unfold kv_remove, catch_except, try_catch, bind at 1. by rewrite Hone.
Qed.

(** ** The bag *)

Lemma bag_of_snoc es e : bag_of (es ++ [e]) = bag_of es ⊎ {[+ pair_of e +]}.
Proof. unfold bag_of. rewrite map_app, list_to_set_disj_app. simpl. multiset_solver. Qed.
Lemma elem_of_bag es k v : (k, v) ∈ bag_of es ↔ ∃ e, e ∈ es ∧ e_key e = k ∧ e_value e = v.
Proof.
  unfold bag_of. rewrite elem_of_list_to_set_disj, list_elem_of_fmap. split.
  - intros (e & [= -> ->] & He). by exists e.
  - intros (e & He & <- & <-). by exists e.
Qed.
Lemma bag_of_without es e : NoDup (map e_id es) → e ∈ es →
  bag_of (List.filter (λ e', negb (bool_decide (e_id e' = e_id e))) es) = bag_of es ∖ {[+ pair_of e +]}.
Proof.
  induction es as [|e' es IH]; intros Hnd He; [by apply elem_of_nil in He|]. simpl in Hnd. apply NoDup_cons in Hnd as [Hn Hnd].
  unfold bag_of. cbn [List.filter]. apply elem_of_cons in He as [-> |He].
  - rewrite bool_decide_eq_true_2 by done. simpl. rewrite filter_all; [multiset_solver|].
    apply Forall_forall. intros e He. apply negb_true_iff, bool_decide_eq_false_2. intros Heq. apply Hn, list_elem_of_fmap. by exists e.
  - rewrite bool_decide_eq_false_2; [|intros Heq; apply Hn, list_elem_of_fmap; exists e; by split].
    simpl. specialize (IH Hnd He). unfold bag_of in IH. rewrite IH.
    assert (pair_of e ∈ bag_of es) by (apply elem_of_bag; by exists e). unfold bag_of in *. multiset_solver.
Qed.

(** ** Every call is a step of the bag *)

Lemma perform_step o s es n : holds s es → has_room s (n + (if is_put o then 1 else 0)) →
  ∃ a s' es', perform o s = (Ret a, s') ∧ holds s' es' ∧ has_room s' n ∧ step (bag_of es) o a (bag_of es').
Proof.
  intros Hh Hroom. destruct o as [now k v|k|k]; simpl in Hroom; rewrite ?Nat.add_0_r, ?Nat.add_1_r in Hroom.
  - destruct (kv_put_ok s es now k v Hh) as (s' & e & Hp & He & Hh' & Hroom'); [by eapply has_room_less, Hroom; lia|].
    eexists _, s', _. split_and!; [|done|by apply Hroom'|].
    + simpl. by rewrite (bind_run _ _ _ _ _ Hp).
    + rewrite bag_of_snoc, He. constructor.
  - destruct (kv_get_ok s es k Hh) as (s' & Hh' & Hroom' & [(e & He & Hk & Hg)|[Hno Hg]]); eexists _, s', es; (split_and!; [|done|by apply Hroom'|]);
      try (simpl; rewrite Hg; done).
    + constructor. apply elem_of_bag. by exists e.
    + constructor. intros v (e & He & Hk & _)%elem_of_bag. by apply (Hno e).
  - destruct (kv_remove_ok s es k Hh) as (s' & Hroom' & [(e & He & Hk & Hg & Hh')|(Hno & Hg & Hh')]); eexists _, s', _;
      (split_and!; [simpl; by rewrite (bind_run _ _ _ _ _ Hg)|done|by apply Hroom'|]).
    + rewrite bag_of_without by (done || apply Hh). unfold pair_of. rewrite Hk. constructor. apply elem_of_bag. by exists e.
    + constructor. intros v (e & He & Hk & _)%elem_of_bag. by apply (Hno e).
Qed.

Fixpoint puts (os : list op) : nat := match os with [] => 0 | o :: os => (puts os + (if is_put o then 1 else 0))%nat end.

Lemma perform_all_steps os s es : holds s es → has_room s (puts os) →
  ∃ l s' es', perform_all os s = (Ret l, s') ∧ holds s' es' ∧ steps (bag_of es) os l (bag_of es').
Proof.
  revert s es. induction os as [|o os IH]; intros s es Hh Hroom; simpl.
  { exists [], s, es. split_and!; [done|done|constructor]. }
  destruct (perform_step o s es (puts os) Hh Hroom) as (a & s1 & es1 & Hp & Hh1 & Hroom1 & Hstep).
  destruct (IH s1 es1 Hh1 Hroom1) as (l & s' & es' & Hps & Hh' & Hsteps).
  exists (a :: l), s', es'. split_and!; [|done|by econstructor].
  by rewrite (bind_run _ _ _ _ _ Hp), (bind_run _ _ _ _ _ Hps).
Qed.
(** ** The first start *)
Section start.
Context (exists_ : bytes → outcome bool) (SQLDB : bytes → outcome S).

(** C40 The first start, in a directory without a database file: initialise makes
    in the new database, for each class and each relation, an empty table of
    exactly the columns the methods of the class write and read; the store is
    ready and holds no key. *)
Theorem first_start st datadir d n :
  exists_ (datadir ++ PATH) = Ret false → SQLDB (datadir ++ PATH) = Ret d → (∀ t, columns d t = None) → has_room d n →
  ∃ d', initialise exists_ SQLDB datadir st = (Ret true, MkMembers (datadir ++ PATH) (Some d')) ∧
    made d' ∧ Forall (λ p, rows d' (fst p) = []) class_tables ∧ holds d' [] ∧ has_room d' n.
Proof.
  intros Hex Hopen Hd Hn. destruct (schema_makes_tables d n Hd Hn) as (d' & Hr & Hroom & Hm & Hrows).
  exists d'. split_and!; [|done|done| |done].
  - unfold initialise. rewrite bind_modify. cbn [_db]. apply try_catch_ret. rewrite Hex, bind_lift_ret. cbn [negb].
    unfold create_db, open, call. unfold bind at 1 2 3. cbn [_db_path]. rewrite Hopen. unfold bind. cbn [_db]. by rewrite Hr.
  - split_and!; [by apply (made_columns d' HT_table__ HT_getFieldTypes Hm); do 4 right; left| |constructor|constructor].
    apply (proj1 (Forall_forall _ _) Hrows (HT_table__, HT_getFieldTypes)). do 4 right; left.
Qed.
End start.

(** ** The calls in any order *)

(** C38 Over any LiteSQL whose tables are made, every sequence of kv_put, kv_get
    and kv_remove answers as a bag of keys with values: a put adds one more, a
    get answers with one of the values of the key or false, a remove takes one
    of them away or answers false; no other exception leaves them. *)
Theorem sql_kv_refines os s es : holds s es → has_room s (puts os) →
  ∃ l s' es', perform_all os s = (Ret l, s') ∧ holds s' es' ∧ steps (bag_of es) os l (bag_of es').
Proof. apply perform_all_steps. Qed.

Lemma get_of_pair (B : bag) (v1 v2 v k : bytes) : (∀ v, (k, v) ∉ B) → (k, v) ∈ (B ⊎ {[+ (k, v1) +]}) ⊎ {[+ (k, v2) +]} → v = v1 ∨ v = v2.
Proof. intros Hno. rewrite !gmultiset_elem_of_disj_union, !gmultiset_elem_of_singleton.
  intros [[Hv|[= ->]]|[= ->]]; [by destruct (Hno v)|by left|by right]. Qed.

(** kv_put does not replace: a key put twice and removed once can still be
    read, with one of its two values. *)
Theorem put_twice_remove_once s es t1 t2 k v1 v2 : holds s es → has_room s 2 → Forall (λ e, e_key e ≠ k) es →
  ∃ s' v, perform_all [Put t1 k v1; Put t2 k v2; Remove k; Get k] s = (Ret [Done true; Done true; Done true; Got true v], s') ∧ (v = v1 ∨ v = v2).
Proof.
  intros Hh Hroom Hnew. destruct (perform_all_steps [Put t1 k v1; Put t2 k v2; Remove k; Get k] s es Hh Hroom) as (l & s' & es' & Hp & _ & Hsteps).
  assert (Hno : ∀ v, (k, v) ∉ bag_of es).
  { intros v (e & He & Hk & _)%elem_of_bag. by apply (proj1 (Forall_forall _ _) Hnew e). }
  inversion Hsteps as [|? ? ? B1 ? l1 ? H1 Hs1]; subst. inversion H1; subst.
  inversion Hs1 as [|? ? ? B2 ? l2 ? H2 Hs2]; subst. inversion H2; subst.
  inversion Hs2 as [|? ? ? B3 ? l3 ? H3 Hs3]; subst. inversion Hs3 as [|? ? ? B4 ? l4 ? H4 Hs4]; subst. inversion Hs4; subst.
  inversion H3 as [| | |? ? w Hw|? ? Hnone]; subst.
  - apply get_of_pair in Hw; [|done].
    inversion H4 as [|? ? v Hv|? ? Hnone| |]; subst.
    + eexists s', v. split; [done|]. apply (get_of_pair (bag_of es) v1 v2 v k); [done|]. multiset_solver.
    + destruct Hw as [-> | ->]; [destruct (Hnone v2)|destruct (Hnone v1)]; multiset_solver.
  - destruct (Hnone v1). multiset_solver.
Qed.

End kv.
(** ** Witnesses *)
Lemma first_start_witness : ∃ d',
  initialise (λ _, Ret false) (λ _, Ret mem_empty) (lit "/data") (MkMembers [] None) = (Ret true, MkMembers (lit "/data/sqlstore.db") (Some d')) ∧
    made d' ∧ Forall (λ p, rows d' (fst p) = []) class_tables ∧ SqlKv.holds d' [] ∧ has_room d' 10.
Proof.
  apply (first_start (λ _, Ret false) (λ _, Ret mem_empty) (MkMembers [] None) (lit "/data") mem_empty 10 eq_refl eq_refl); [done|].
  split_and!; [done| |done]. by intros t r ?%elem_of_nil.
Defined.

Lemma made_db_holds : SqlKv.holds made_db [].
Proof. split_and!; [by vm_compute|by vm_compute|constructor|constructor]. Qed.

Lemma sql_kv_refines_witness :
  let os := [Put 0 (lit "a") (lit "1"); Put 0 (lit "a") (lit "2"); Get (lit "a"); Remove (lit "b")] in
  ∃ l s' es', perform_all 1 os made_db = (Ret l, s') ∧ holds s' es' ∧ steps (bag_of []) os l (bag_of es').
Proof. intros os. apply (sql_kv_refines 1 os made_db []); [apply made_db_holds|by apply made_db_room]. Defined.

Lemma put_twice_remove_once_witness : ∃ s' v,
  perform_all 1 [Put 0 (lit "a") (lit "1"); Put 0 (lit "a") (lit "2"); Remove (lit "a"); Get (lit "a")] made_db =
    (Ret [Done true; Done true; Done true; Got true v], s') ∧ (v = lit "1" ∨ v = lit "2").
Proof. apply (put_twice_remove_once 1 made_db []); [apply made_db_holds|by apply made_db_room|constructor]. Defined.

End SqlKv.

