(* ===== verification/SqlObjects.v ===== *)
(** * Objects over SQL: what storing, reading and removing do to the tables *)

From S2P Require Import Prelude Decimal Sql SqlDb SqlTables SqlStore.
Local Open Scope prog_scope.

Module SqlObjects.
Import SqlDb SqlTables SqlStore.

(** ** Rows *)
Definition objid_row (n : Z) (ty i : bytes) : Row := zip (map name ObjID_getFieldTypes) [int_text n; ty; i].
Definition diff_row (n : Z) (sn c tm : bytes) : Row :=
  zip (map name [Diff_Own_Id; Diff_Snapshot; Diff_Content; Diff_Time]) [int_text n; sn; c; tm].
Definition link_row (a b : Z) : Row := zip (map name [DiffObjID_Diff; DiffObjID_ObjID]) [int_text a; int_text b].
Definition types : list bytes := [ObjID_type__; Object_type__; Snapshot_type__; Diff_type__].

(** ** Removing *)

(** The columns that hold the id of an object of a type: in the relations, in
    its own table, in ObjID's.  A plain ObjID is removed from ObjID's alone. *)
Definition keys_of (ty : bytes) : list FieldType :=
  if decide (ty = Object_type__) then [ObjectSnapshot_Object; DiffObject_Object; Object_Own_Id; ObjID_Own_Id]
  else if decide (ty = Snapshot_type__) then [ObjectSnapshot_Snapshot; DiffSnapshot_Snapshot; Snapshot_Own_Id; ObjID_Own_Id]
  else if decide (ty = Diff_type__) then [DiffObject_Diff; DiffSnapshot_Diff; DiffObjID_Diff; Diff_Own_Id; ObjID_Own_Id]
  else [ObjID_Own_Id].
(** The row of the table [t] holds the id [n] in one of the columns. *)
Definition names (n : Z) (t : bytes) (r : Row) (f : FieldType) : bool :=
  bool_decide (t = table f) && bool_decide (column (name f) r = Some (int_text n)).
Definition gone (n : Z) (ks : list FieldType) (t : bytes) (r : Row) : bool := existsb (names n t r) ks.

Ltac known_table := apply (bool_decide_unpack _); by vm_compute.

Section objects.
Context {S : Type} `{LiteSqlLaws S} {P : Type} `{HP : PrevMember P} {PL : PrevLaws P} (ticks not_a_date_time : Z).

(** A call that takes away exactly the rows with [n] in one of the columns. *)
Definition drops {A} (n : Z) (ks : list FieldType) (m : M S A) : Prop := ∀ s, made s →
  ∃ a s', m s = (Ret a, s') ∧ columns s' = columns s ∧
    ∀ t, rows s' t = List.filter (λ r, negb (gone n ks t r)) (rows s t).

Lemma filter_filter {A} p q (l : list A) : List.filter q (List.filter p l) = List.filter (λ x, p x && q x) l.
Proof. induction l as [|x l IH]; simpl; [done|]. destruct (p x); simpl; by rewrite IH. Qed.

Lemma drops_seq {A B} n k1 k2 (m1 : M S A) (m2 : A → M S B) :
  drops n k1 m1 → (∀ a, drops n k2 (m2 a)) → drops n (k1 ++ k2) (bind m1 m2).
Proof.
  intros H1 H2 s Hs. destruct (H1 s Hs) as (a & s1 & Hr1 & Hc1 & Ht1).
  destruct (H2 a s1 (made_same _ _ Hc1 Hs)) as (b & s2 & Hr2 & Hc2 & Ht2).
  exists b, s2. split_and!; [by rewrite (bind_run _ _ _ _ _ Hr1)|congruence|].
  intros t. rewrite Ht2, Ht1, filter_filter. apply filter_ext. intros r. unfold gone.
  by rewrite existsb_app, negb_orb.
Qed.

Lemma drops_one n m f : table f ∈ map fst class_tables →
  (∀ s cs, columns s (table f) = Some cs → ∃ s', m s = (Ret tt, s') ∧ columns s' = columns s ∧
     ∀ t', rows s' t' = if decide (t' = table f) then List.filter (λ r, negb (bool_decide (column (name f) r = Some (int_text n)))) (rows s (table f)) else rows s t') →
  drops n [f] m.
Proof.
  intros ((t & fts) & Hf & Hin)%list_elem_of_fmap Hm s Hs. simpl in Hf.
  pose proof (made_columns s t fts Hs Hin) as Hc. rewrite <-Hf in Hc.
  destruct (Hm s _ Hc) as (s' & Hr & Hc' & Ht). exists tt, s'. split_and!; [done|done|].
  intros t'. rewrite Ht. unfold gone, names. simpl. case_decide as Heq.
  - subst t'. apply filter_ext. intros r. rewrite (bool_decide_eq_true_2 (table f = table f)) by done. by rewrite orb_false_r.
  - symmetry. apply filter_all, Forall_forall. intros r _. by rewrite (bool_decide_eq_false_2 (t' = table f)) by done.
Qed.

Lemma drops_id n t : t ∈ map fst class_tables → drops n [MkFieldType (lit "id_") A_field_type_integer t] (deleteFromTable t n).
Proof.
  intros Hin. apply drops_one; [done|]. intros s cs Hc.
  destruct (deleteFromTable_ok s t n _ Hc) as (s' & Hr & Hc' & _ & Ht). by exists s'.
Qed.
Lemma drops_equals n f : table f ∈ map fst class_tables → drops n [f] (delete_rows (table f) (Equals f (int_text n))).
Proof.
  intros Hin. apply drops_one; [done|]. intros s cs Hc.
  destruct (delete_ok s (table f) (Equals f (int_text n)) _ Hc) as (s' & Hr & Hc' & _ & Ht). exists s'. split_and!; [done|done|].
  intros t'. rewrite Ht. case_decide; [|done]. apply filter_ext. intros r. cbn. by rewrite decide_True.
Qed.

Lemma drops_ret {A B} n ks (m : M S A) (k : B) : drops n ks m → drops n ks (bind m (λ _, ret k)).
Proof. intros Hm s Hs. destruct (Hm s Hs) as (b & s' & Hr & ?). exists k, s'. by rewrite (bind_run _ _ _ _ _ Hr). Qed.

(** [del] of an ObjID read from a row of a known type. *)
Lemma ObjID_del_drops o : value (type o) ∈ types → drops (value (id o)) (keys_of (value (type o))) (ObjID_del o).
Proof.
  intros Hty. unfold ObjID_del. apply drops_ret. unfold ObjID_typeIsCorrect, ObjID_upcastCopy.
  repeat (apply elem_of_cons in Hty as [Hty|Hty]); [..|by apply elem_of_nil in Hty]; rewrite Hty.
  - apply drops_id. known_table.
  - apply (drops_seq _ [ObjectSnapshot_Object; DiffObject_Object] [Object_Own_Id; ObjID_Own_Id]).
    + apply (drops_seq _ [_] [_]); [|intros _]; (apply drops_equals; known_table).
    + intros _. apply (drops_seq _ [_] [_]); [|intros _]; (apply drops_id; known_table).
  - apply (drops_seq _ [ObjectSnapshot_Snapshot; DiffSnapshot_Snapshot] [Snapshot_Own_Id; ObjID_Own_Id]).
    + apply (drops_seq _ [_] [_]); [|intros _]; (apply drops_equals; known_table).
    + intros _. apply (drops_seq _ [_] [_]); [|intros _]; (apply drops_id; known_table).
  - apply (drops_seq _ [DiffObject_Diff; DiffSnapshot_Diff; DiffObjID_Diff] [Diff_Own_Id; ObjID_Own_Id]).
    + apply (drops_seq _ [_] [_; _]); [|intros _; apply (drops_seq _ [_] [_]); [|intros _]]; (apply drops_equals; known_table).
    + intros _. apply (drops_seq _ [_] [_]); [|intros _]; (apply drops_id; known_table).
Qed.

(** The rows of ObjID are those of objects of the four types. *)
Definition known (s : S) : Prop :=
  Forall (λ r, ∃ n ty i, r = objid_row n ty i ∧ (0 < n < 2 ^ 31)%Z ∧ ty ∈ types) (rows s ObjID_table__).

Lemma ObjID_tables : tables_of ObjID_getFieldTypes ObjID_Own_Id = [ObjID_table__].
Proof. by vm_compute. Qed.

Lemma objid_eval rs n ty i i' : eval rs (Equals ObjID_AnID i') [(ObjID_table__, objid_row n ty i)] = bool_decide (i = i').
Proof. cbn. apply bool_decide_ext. split; [by intros [= ->]|by intros ->]. Qed.

(** The row of ObjID that is read for an id. *)
Lemma objid_one s i : made s → known s →
  ∃ s', columns s' = columns s ∧ rows s' = rows s ∧
    ((∃ n ty, objid_row n ty i ∈ rows s ObjID_table__ ∧ (0 < n < 2 ^ 31)%Z ∧ ty ∈ types ∧
        one (select_objects ObjID_getFieldTypes ObjID_Own_Id (Equals ObjID_AnID i)) s = (Ret [int_text n; ty; i], s')) ∨
     ((∀ n ty, objid_row n ty i ∉ rows s ObjID_table__) ∧
        one (select_objects ObjID_getFieldTypes ObjID_Own_Id (Equals ObjID_AnID i)) s = (Throw litesql_except, s'))).
Proof.
  intros Hm Hk. destruct (one_ok s ObjID_getFieldTypes ObjID_Own_Id (Equals ObjID_AnID i)) as (s' & Hc & Hr & _ & Hone).
  { rewrite ObjID_tables. apply Forall_singleton. by rewrite (made_columns s ObjID_table__ [ObjID_Id; ObjID_Type; ObjID_AnID] Hm) by left. }
  exists s'. split_and!; [done|done|]. rewrite (selected_one _ _ _ _ _ ObjID_tables) in Hone.
  destruct Hone as [(r & (r0 & -> & Hr0)%list_elem_of_fmap & Hone)|[Hnil Hone]].
  - left. apply list_elem_of_In, filter_In in Hr0 as [Hr0%list_elem_of_In He].
    destruct (proj1 (Forall_forall _ _) Hk r0 Hr0) as (n & ty & i' & -> & Hn & Hty).
    rewrite objid_eval in He. apply bool_decide_eq_true in He as ->. by exists n, ty.
  - right. split; [|done]. intros n ty Hin. apply map_eq_nil in Hnil.
    assert (Hin' : List.In (objid_row n ty i) (List.filter (λ r, eval (rows s) (Equals ObjID_AnID i) [(ObjID_table__, r)]) (rows s ObjID_table__))).
    { apply filter_In. split; [by apply list_elem_of_In|]. rewrite objid_eval. by apply bool_decide_eq_true. }
    by rewrite Hnil in Hin'.
Qed.

(** C39 db_remove of an id that some row of ObjID has takes away one such object:
    exactly its rows in ObjID, in the table of its class and in every relation
    of its class; of a plain ObjID only its own row.  Of an id that none has it answers
    false and takes nothing away. *)
Theorem db_remove_one s i : made s → known s →
  ∃ b s', db_remove i s = (Ret b, s') ∧ made s' ∧
    (if b : bool then ∃ n ty, objid_row n ty i ∈ rows s ObjID_table__ ∧ ty ∈ types ∧
      ∀ t, rows s' t = List.filter (λ r, negb (gone n (keys_of ty) t r)) (rows s t)
    else (∀ n ty, objid_row n ty i ∉ rows s ObjID_table__) ∧ rows s' = rows s).
Proof.
  intros Hm Hk. destruct (begin_ok s) as (s1 & Hb & Hc1 & Hr1 & _).
  assert (Hm1 : made s1) by (by eapply made_same). assert (Hk1 : known s1) by (unfold known; by rewrite Hr1).
  destruct (objid_one s1 i Hm1 Hk1) as (s2 & Hc2 & Hr2 & [(n & ty & Hin & Hn & Hty & Hone)|[Hno Hone]]).
  - assert (Hid : value (id (ObjID_of [int_text n; ty; i])) = n) by (apply text_int_text; lia).
    destruct (ObjID_del_drops (ObjID_of [int_text n; ty; i]) Hty s2) as (o & s3 & Hd & Hc3 & Hr3); [by eapply made_same|].
    destruct (commit_ok s3) as (s4 & Hcm & Hc4 & Hr4 & _). exists true, s4. split_and!.
    + apply try_catch_ret. by rewrite (bind_run _ _ _ _ _ Hb), (bind_run _ _ _ _ _ Hone), (bind_run _ _ _ _ _ Hd), (bind_run _ _ _ _ _ Hcm).
    + eapply made_same; [|exact Hm1]. congruence.
    + exists n, ty. split_and!; [by rewrite <-Hr1|done|]. intros t. rewrite Hr4, Hr3, Hr2, Hr1. by rewrite Hid.
  - exists false, s2. split_and!; [|by eapply made_same|intros n ty; rewrite <-Hr1; apply Hno|congruence].
    unfold db_remove, catch_except, try_catch. by rewrite (bind_run _ _ _ _ _ Hb), (bind_throw _ _ _ _ _ Hone).
Qed.

(** ** Storing a new diff *)

Lemma store_id_ok s i : made s → has_room s 1 →
  ∃ oi s', _db_store_id i s = (Ret oi, s') ∧ (0 < value (id oi) < 2 ^ 31)%Z ∧ columns s' = columns s ∧
    (Some (int_text (value (id oi))) ∉ ids (rows s ObjID_table__)) ∧ (∀ m, has_room s (Datatypes.S m) → has_room s' m) ∧
    ∀ t, rows s' t = rows s t ++ (if decide (t = ObjID_table__) then [objid_row (value (id oi)) ObjID_type__ i] else []).
Proof.
  intros Hm Hroom.
  destruct (insert_rows_ok s [ObjID_table__] [map name ObjID_getFieldTypes] [[int_text 0; ObjID_type__; i]] ObjID_sequence__ 0) as (s' & n & Hi & Hc & Hid & Hr).
  { done. } { apply NoDup_singleton. } { done. } { done. }
  { repeat constructor. exists (map name ObjID_getFieldTypes). split_and!; [by apply (made_columns s _ _ Hm); left| |done|done].
    apply fits_self; [known_table|done]. }
  rewrite decide_True in Hid by done. destruct Hid as (Hn & Hfresh & Hroom').
  eexists _, s'. split_and!; [| | |exact Hc| |exact Hroom'|].
  - unfold _db_store_id, ObjID_update, ObjID_create, ObjID_insert. cbn -[ObjID_table__ ObjID_sequence__ ObjID_type__ int_text].
    rewrite new_persistent_ok. cbn -[ObjID_table__ ObjID_sequence__ ObjID_type__ int_text]. rewrite !bind_assoc.
    erewrite bind_run; [|exact Hi]. done.
  - cbn. rewrite text_int_text; lia.
  - cbn. rewrite text_int_text; lia.
  - cbn. rewrite text_int_text by lia. apply Hfresh. left.
  - intros t. rewrite Hr. f_equal. cbn. rewrite text_int_text by lia. by case_decide.
Qed.

(** The object made of a new diff, before its [update]. *)
Definition fresh_diff (d : AnDiff P) : Diff :=
  MkDiff (with_anID (d_id d) (df_id Diff_new)) (assign (d_snapshot d)) (assign (d_content d)) (assign (to_time_t ticks (d_time d))).

Lemma create_diff_ok s d : made s → has_room s 1 →
  ∃ d' s' n, Diff_update (fresh_diff d) s = (Ret d', s') ∧ (0 < n < 2 ^ 31)%Z ∧ columns s' = columns s ∧
    (Some (int_text n) ∉ ids (rows s ObjID_table__)) ∧ (Some (int_text n) ∉ ids (rows s Diff_table__)) ∧
    (∀ m, has_room s (Datatypes.S m) → has_room s' m) ∧
    ∀ t, rows s' t = rows s t ++
      (if decide (t = Diff_table__) then [diff_row n (d_snapshot d) (d_content d) (time_text (to_time_t ticks (d_time d)))]
      else if decide (t = ObjID_table__) then [objid_row n Diff_type__ (d_id d)] else []).
Proof.
  intros Hm Hroom.
  destruct (insert_rows_ok s [Diff_table__; ObjID_table__]
    [map name [Diff_Own_Id; Diff_Snapshot; Diff_Content; Diff_Time]; map name ObjID_getFieldTypes]
    [[int_text 0; d_snapshot d; d_content d; time_text (to_time_t ticks (d_time d))]; [int_text 0; Diff_type__; d_id d]]
    ObjID_sequence__ 0) as (s' & n & Hi & Hc & Hid & Hr).
  { done. } { known_table. } { done. } { done. }
  { apply Forall3_cons; [|apply Forall3_cons; [|apply Forall3_nil]]; eexists.
    - split_and!; [apply (made_columns s _ [Diff_Own_Id; Diff_Snapshot; Diff_Content; Diff_Time] Hm); known_table|apply fits_self; [known_table|done]|done|done].
    - split_and!; [apply (made_columns s _ ObjID_getFieldTypes Hm); known_table|apply fits_self; [known_table|done]|done|done]. }
  rewrite decide_True in Hid by done. destruct Hid as (Hn & Hfresh & Hroom').
  eexists _, s', n. split_and!; [| | |exact Hc| | |exact Hroom'|].
  - unfold Diff_update, Diff_create, Diff_insert, ObjID_insert. cbn -[ObjID_table__ Diff_table__ ObjID_sequence__ Diff_type__ int_text to_time_t].
    rewrite new_persistent_ok. cbn -[ObjID_table__ Diff_table__ ObjID_sequence__ Diff_type__ int_text to_time_t]. rewrite !bind_assoc.
    erewrite bind_run; [|exact Hi]. done.
  - lia.
  - lia.
  - apply Hfresh. right. left.
  - apply Hfresh. left.
  - intros t. rewrite Hr. f_equal. cbn -[ObjID_table__ Diff_table__]. case_decide as E1; [|by case_decide].
    rewrite decide_False by (by rewrite E1). done.
Qed.

(** Every Diff row has its row in ObjID, and the rows that link a diff to its
    predecessors name a diff or 0. *)
Definition sound (s : S) : Prop :=
  made s ∧ known s ∧
  (∀ r, r ∈ rows s Diff_table__ → column (lit "id_") r ∈ ids (rows s ObjID_table__)) ∧
  (∀ r, r ∈ rows s DiffObjID_table__ → column (name DiffObjID_Diff) r = Some (int_text 0) ∨ column (name DiffObjID_Diff) r ∈ ids (rows s Diff_table__)).

(** No diff in the database has the id. *)
Definition no_diff (s : S) (i : bytes) : Prop :=
  ∀ r1 r2, r1 ∈ rows s ObjID_table__ → r2 ∈ rows s Diff_table__ → column (lit "id_") r1 = column (lit "id_") r2 →
    column (name ObjID_AnID) r1 ≠ Some i.

Lemma elem_of_ids rs r : r ∈ rs → column (lit "id_") r ∈ ids rs.
Proof. intros Hr. apply list_elem_of_fmap. by exists r. Qed.
Lemma ids_app r1 r2 : ids (r1 ++ r2) = ids r1 ++ ids r2.
Proof. apply map_app. Qed.

(** The predecessors: a row for the id of each, and a row that links it to
    what is the id of the diff then. *)
Definition prev_rows (ks : list Z) (ps : list bytes) : list Row := zip_with (λ k p, objid_row k ObjID_type__ p) ks ps.
Lemma link_prevs_ok ps diff s m : made s → has_room s (length ps + m) →
  ∃ ks s', foreach ps (λ p, let! oi := _db_store_id p in Diff_prev_link diff oi) s = (Ret tt, s') ∧
    columns s' = columns s ∧ has_room s' m ∧ length ks = length ps ∧
    Forall (λ k, (0 < k < 2 ^ 31)%Z ∧ Some (int_text k) ∉ ids (rows s ObjID_table__)) ks ∧
    ∀ t, rows s' t = rows s t ++ (if decide (t = ObjID_table__) then prev_rows ks ps
      else if decide (t = DiffObjID_table__) then map (link_row (value (id (df_id diff)))) ks else []).
Proof.
  revert s. induction ps as [|p ps IH]; intros s Hm Hroom.
  { exists [], s. split_and!; [done..|]. intros t. repeat case_decide; by rewrite app_nil_r. }
  destruct (store_id_ok s p Hm) as (oi & s1 & Hs & Hn & Hc & Hfresh & Hroom1 & Hr); [by eapply has_room_less, Hroom; simpl; lia|].
  set (n := value (id oi)) in *. assert (Hm1 : made s1) by (by eapply made_same).
  destruct (insert_row_ok s1 DiffObjID_table__ [int_text (value (id (df_id diff))); int_text n] [name DiffObjID_Diff; name DiffObjID_ObjID] _
    (made_columns s1 DiffObjID_table__ [DiffObjID_Diff; DiffObjID_ObjID] Hm1 ltac:(known_table))) as (s2 & Hl & Hc2 & Hroom2 & Hr2).
  { apply fits_self; [known_table|done]. } { known_table. }
  destruct (IH s2) as (ks & s' & Hf & Hc' & Hroom' & Hlen & Hks & Hr').
  { by eapply made_same. } { by apply Hroom2, Hroom1. }
  assert (HO2 : rows s2 ObjID_table__ = rows s ObjID_table__ ++ [objid_row n ObjID_type__ p]).
  { rewrite Hr2, decide_False by done. by rewrite Hr, decide_True by done. }
  exists (n :: ks), s'. split_and!.
  - cbn [foreach]. rewrite bind_assoc, (bind_run _ _ _ _ _ Hs), (bind_run _ _ _ _ _ Hl). exact Hf.
  - congruence.
  - done.
  - simpl. by rewrite Hlen.
  - constructor; [done|]. eapply Forall_impl; [exact Hks|]. intros k [Hk Hk']. split; [done|]. intros Hin. apply Hk'.
    rewrite HO2, ids_app. apply elem_of_app. by left.
  - intros t. rewrite Hr'. destruct (decide (t = ObjID_table__)) as [-> |Hne].
    + by rewrite HO2, <-app_assoc.
    + rewrite Hr2, !Hr. destruct (decide (t = DiffObjID_table__)) as [-> |].
      * rewrite decide_False by done. by rewrite app_nil_r, <-app_assoc.
      * by rewrite decide_False, app_nil_r by done.
Qed.

Lemma prev_rows_in r ks ps : r ∈ prev_rows ks ps → ∃ k p, k ∈ ks ∧ p ∈ ps ∧ r = objid_row k ObjID_type__ p.
Proof. unfold prev_rows. intros (k & p & -> & Hk & Hp)%elem_of_zip_with. by exists k, p. Qed.

(** The rows of predecessors keep the tables sound, and are no diffs. *)
Lemma linked_sound s s' ks ps n : sound s → (n = 0%Z ∨ Some (int_text n) ∈ ids (rows s Diff_table__)) → columns s' = columns s →
  Forall (λ k, (0 < k < 2 ^ 31)%Z ∧ Some (int_text k) ∉ ids (rows s ObjID_table__)) ks →
  (∀ t, rows s' t = rows s t ++ (if decide (t = ObjID_table__) then prev_rows ks ps
      else if decide (t = DiffObjID_table__) then map (link_row n) ks else [])) →
  sound s' ∧ ∀ i, no_diff s i → no_diff s' i.
Proof.
  intros (Hm & Hk & Hbased & Hlinks) Hn Hc Hks Hr.
  assert (HO : rows s' ObjID_table__ = rows s ObjID_table__ ++ prev_rows ks ps) by by rewrite Hr, decide_True.
  assert (HD : rows s' Diff_table__ = rows s Diff_table__) by (rewrite Hr, !decide_False by done; apply app_nil_r).
  assert (HL : rows s' DiffObjID_table__ = rows s DiffObjID_table__ ++ map (link_row n) ks) by (rewrite Hr, decide_False by done; done).
  split; [split; [|split; [|split]]|].
  - by eapply made_same.
  - unfold known. rewrite HO. apply Forall_app. split; [exact Hk|]. apply Forall_forall. intros r (k & p & Hk' & _ & ->)%prev_rows_in.
    exists k, ObjID_type__, p. split; [done|]. split; [by apply (proj1 (Forall_forall _ _) Hks)|left].
  - intros r. rewrite HD, HO, ids_app. intros Hr'%Hbased. apply elem_of_app. by left.
  - intros r. rewrite HL, HD. intros [Hr'|(k & -> & _)%list_elem_of_fmap]%elem_of_app; [by apply Hlinks|].
    destruct Hn as [-> |Hn]; [by left|by right].
  - intros i Hno r1 r2. rewrite HO, HD. intros [H1|(k & p & Hk' & _ & ->)%prev_rows_in]%elem_of_app H2 Heq; [by eapply Hno|].
    exfalso. apply (proj1 (Forall_forall _ _) Hks k Hk'). apply Hbased in H2. by rewrite <-Heq in H2.
Qed.

(** The diff [i] has the id [n] and these fields; no other row has its id, and no other
    diff is called so. *)
Definition stored_as (s : S) (i : bytes) (n : Z) (sn c tm : bytes) : Prop :=
  objid_row n Diff_type__ i ∈ rows s ObjID_table__ ∧ diff_row n sn c tm ∈ rows s Diff_table__ ∧
  (∀ r, r ∈ rows s ObjID_table__ → has_id (int_text n) r → r = objid_row n Diff_type__ i) ∧
  (∀ r, r ∈ rows s Diff_table__ → has_id (int_text n) r → r = diff_row n sn c tm) ∧
  (∀ r1 r2, r1 ∈ rows s ObjID_table__ → r2 ∈ rows s Diff_table__ → column (lit "id_") r1 = column (lit "id_") r2 →
     column (name ObjID_AnID) r1 = Some i → has_id (int_text n) r1).

(** Storing a diff that was not stored before. *)
Lemma store_new_diff_ok s d m : sound s → has_room s (length (prev_items (d_prev d)) + Datatypes.S m) → d_db_id d = 0%Z → no_diff s (d_id d) →
  ∃ s' n, db_store_diff ticks d s = (Ret true, s') ∧ sound s' ∧ (0 < n < 2 ^ 31)%Z ∧ has_room s' m ∧
    stored_as s' (d_id d) n (d_snapshot d) (d_content d) (time_text (to_time_t ticks (d_time d))) ∧
    (∀ r, r ∈ rows s' DiffObjID_table__ → column (name DiffObjID_Diff) r ≠ Some (int_text n)).
Proof.
  intros Hs Hroom Hid0 Hno. destruct (begin_ok s) as (s0 & Hb & Hc0 & Hr0 & Hroom0).
  assert (Hs0 : sound s0) by (unfold sound, known; rewrite Hr0; split; [by eapply made_same, Hs|apply Hs]).
  destruct (link_prevs_ok (prev_items (d_prev d)) (fresh_diff d) s0 (Datatypes.S m) (proj1 Hs0) (Hroom0 _ Hroom)) as (ks & s1 & H1 & Hc1 & Hroom1 & _ & Hks & Hr1).
  destruct (linked_sound s0 s1 ks (prev_items (d_prev d)) 0 Hs0 ltac:(by left) Hc1 Hks Hr1) as [(Hm1 & Hk1 & Hbased1 & Hlinks1) Hno1].
  assert (Hno' : no_diff s1 (d_id d)) by (apply Hno1; unfold no_diff; by rewrite Hr0).
  destruct (create_diff_ok s1 d Hm1) as (d' & s2 & n & Hu & Hn & Hc2 & HfO & HfD & Hroom2 & Hr2); [by eapply has_room_less, Hroom1; lia|].
  destruct (commit_ok s2) as (s3 & Hcm & Hc3 & Hr3 & Hroom3).
  assert (HO : rows s3 ObjID_table__ = rows s1 ObjID_table__ ++ [objid_row n Diff_type__ (d_id d)]).
  { rewrite Hr3, Hr2, decide_False, decide_True by done. done. }
  assert (HD : rows s3 Diff_table__ = rows s1 Diff_table__ ++ [diff_row n (d_snapshot d) (d_content d) (time_text (to_time_t ticks (d_time d)))]).
  { rewrite Hr3, Hr2, decide_True by done. done. }
  assert (HL : rows s3 DiffObjID_table__ = rows s1 DiffObjID_table__).
  { rewrite Hr3, Hr2, !decide_False by done. apply app_nil_r. }
  exists s3, n. split; [|split; [|split; [done|split; [by apply Hroom3, Hroom2|split]]]].
  - unfold db_store_diff. apply try_catch_ret. rewrite (bind_run _ _ _ _ _ Hb). unfold _db_store_diff.
    rewrite bind_assoc. unfold stored_before. rewrite Hid0. change (0 =? 0)%Z with true. cbv iota.
    rewrite (bind_run _ _ _ _ _ H1). fold (fresh_diff d). by rewrite (bind_run _ _ _ _ _ Hu), (bind_run _ _ _ _ _ Hcm).
  - split_and!.
    + eapply made_same; [|exact Hm1]. congruence.
    + unfold known. rewrite HO. apply Forall_app. split; [exact Hk1|]. apply Forall_singleton. exists n, Diff_type__, (d_id d).
      split; [done|]. split; [done|]. by do 3 right; left.
    + intros r. rewrite HO, HD, ids_app. intros [Hr%Hbased1|Hr%list_elem_of_singleton]%elem_of_app; apply elem_of_app; [by left|].
      right. subst r. by left.
    + intros r. rewrite HL, HD, ids_app. intros [Hr|Hr]%Hlinks1; [by left|]. right. apply elem_of_app. by left.
  - unfold stored_as. rewrite HO, HD. split; [|split; [|split; [|split]]].
    + apply elem_of_app. right. by left.
    + apply elem_of_app. right. by left.
    + intros r [Hr|Hr%list_elem_of_singleton]%elem_of_app Hid; [|done]. destruct HfO. apply elem_of_ids in Hr. by rewrite Hid in Hr.
    + intros r [Hr|Hr%list_elem_of_singleton]%elem_of_app Hid; [|done]. destruct HfD. apply elem_of_ids in Hr. by rewrite Hid in Hr.
    + intros r1 r2 [Hr1'|Hr1'%list_elem_of_singleton]%elem_of_app Hr2' Heq Ha; [|by subst r1].
      apply elem_of_app in Hr2' as [Hr2'|Hr2'%list_elem_of_singleton]; [by destruct (Hno' r1 r2)|]. subst r2.
      destruct HfO. apply elem_of_ids in Hr1'. by rewrite Heq in Hr1'.
  - intros r. rewrite HL. intros [Hr|Hr]%Hlinks1 Heq; rewrite Heq in Hr.
    + injection Hr as Hr%int_text_inj; lia.
    + by apply HfD.
Qed.

(** ** Reading a diff *)

Lemma Diff_tables : tables_of Diff_getFieldTypes Diff_Own_Id = [ObjID_table__; Diff_table__].
Proof. by vm_compute. Qed.

(** The ids of the rows of ObjID that the diff [n] is linked to. *)
Definition linked_from (rs : bytes → list Row) (n : Z) (r : Row) : bool :=
  existsb (λ r', bool_decide (column (name DiffObjID_Diff) r' = Some (int_text n)) &&
    bool_decide (column (lit "id_") r = column (name DiffObjID_ObjID) r' ∧ is_Some (column (lit "id_") r))) (rs DiffObjID_table__).
Definition prevs_of (rs : bytes → list Row) (n : Z) : list bytes :=
  map (λ r, default [] (column (name ObjID_AnID) r)) (List.filter (linked_from rs n) (rs ObjID_table__)).

Lemma prev_get_ok s diff : made s →
  ∃ l s', Diff_prev_get diff Everything Everything s = (Ret l, s') ∧
    columns s' = columns s ∧ rows s' = rows s ∧ (∀ n, has_room s n → has_room s' n) ∧
    map (λ r, value (anID (ObjID_of r))) l ≡ₚ prevs_of (rows s) (value (id (df_id diff))).
Proof.
  intros Hm. unfold Diff_prev_get, DiffObjID_get_ObjID.
  destruct (select_objects_ok s ObjID_getFieldTypes ObjID_Own_Id
    (And (In ObjID_Id (Select [DiffObjID_ObjID] DiffObjID_table__ (And (Equals DiffObjID_Diff (int_text (value (id (df_id diff))))) Everything))) Everything))
    as (l & s' & Hr & Hc & Hrows & Hroom & Hl).
  { rewrite ObjID_tables. apply Forall_singleton. by rewrite (made_columns s ObjID_table__ ObjID_getFieldTypes Hm) by known_table. }
  exists l, s'. split_and!; [done..|]. rewrite (selected_one _ _ _ _ _ ObjID_tables) in Hl.
  rewrite (Permutation_map _ Hl), map_map. unfold prevs_of. apply reflexive_eq.
  erewrite (filter_ext (λ r, eval _ _ _)); [done|]. intros r. cbn [eval]. rewrite andb_true_r. unfold linked_from.
  induction (rows s DiffObjID_table__) as [|r' rs IH]; [done|]. cbn [existsb]. rewrite IH. f_equal.
  rewrite andb_true_r. cbn [value_of]. rewrite !decide_True by done. done.
Qed.

(** Several ids appended to [prev]. *)
Definition push_backs (ps : list bytes) (p : P) : P := foldl (λ p i, prev_push_back i p) p ps.

Lemma push_backs_items ps p : prev_items (push_backs ps p) = prev_items p ++ ps.
Proof.
  revert p. induction ps as [|i ps IH]; intros p; [by rewrite app_nil_r|].
  cbn [push_backs foldl]. unfold push_backs in IH. by rewrite IH, items_push, <-app_assoc.
Qed.

Lemma foreach_push_prev (l : list (list bytes)) (s : S) res :
  foreach l (λ r, set_res (S := S) (push_prev (value (anID (ObjID_of r))))) (s, res) =
    (Ret tt, (s, MkAnDiff (d_id res) (d_db_id res) (d_db_type res) (d_content res) (d_time res) (d_snapshot res)
      (push_backs (map (λ r, value (anID (ObjID_of r))) l) (d_prev res)))).
Proof.
  revert res. induction l as [|r l IH]; intros res; [by destruct res|].
  cbn [foreach]. unfold set_res. rewrite bind_modify. cbn [fst snd]. unfold set_res in IH. by rewrite IH.
Qed.

Lemma get_diff_ok s i n sn c t : made s → (0 < n < 2 ^ 31)%Z → (0 ≤ t < 2 ^ 63)%Z → stored_as s i n sn c (time_text t) →
  ∃ ps s', ps ≡ₚ prevs_of (rows s) n ∧ columns s' = columns s ∧ rows s' = rows s ∧ (∀ n, has_room s n → has_room s' n) ∧
    ∀ res, db_get_diff ticks i (s, res) =
      (Ret true, (s', MkAnDiff i n Diff_type__ c (from_time_t ticks t) sn (push_backs ps (d_prev res)))).
Proof.
  intros Hm Hn Ht (HO & HD & HuO & HuD & Hu).
  destruct (one_ok s Diff_getFieldTypes Diff_Own_Id (Equals ObjID_AnID i)) as (s1 & Hc1 & Hr1 & Hroom1 & Hone).
  { rewrite Diff_tables. repeat apply Forall_cons_2; [| |apply Forall_nil_2].
    - by rewrite (made_columns s ObjID_table__ ObjID_getFieldTypes Hm) by known_table.
    - by rewrite (made_columns s Diff_table__ [Diff_Own_Id; Diff_Snapshot; Diff_Content; Diff_Time] Hm) by known_table. }
  destruct Hone as [(l & Hl & Hone)|[Hnil _]].
  - apply (selected_two _ _ _ _ _ _ _ Diff_tables) in Hl as (r1 & r2 & H1 & H2 & Hid & He & ->).
    apply bool_decide_eq_true in He. cbn [value_of] in He. rewrite decide_True in He by done.
    pose proof (Hu r1 r2 H1 H2 Hid He) as Hid1.
    assert (Hid2 : has_id (int_text n) r2) by (unfold has_id in *; by rewrite <-Hid).
    rewrite (HuO r1 H1 Hid1), (HuD r2 H2 Hid2) in Hone. clear dependent r1 r2.
    set (diff := Diff_of (fields_of Diff_getFieldTypes [(ObjID_table__, objid_row n Diff_type__ i); (Diff_table__, diff_row n sn c (time_text t))])) in *.
    assert (Hn' : value (id (df_id diff)) = n) by (apply text_int_text; lia).
    assert (Ht' : value (df_time diff) = t) by (by apply time_text_time).
    destruct (prev_get_ok s1 diff) as (l & s2 & Hp & Hc2 & Hr2 & Hroom2 & Hl); [by eapply made_same|]. rewrite Hr1, Hn' in Hl.
    eexists _, s2. split_and!; [exact Hl|congruence|congruence|auto|]. intros res. unfold db_get_diff. apply try_catch_ret.
    unfold on_db at 1, zoom, bind at 1. cbn [fst snd]. rewrite Hone. fold diff.
    unfold _db_get_diff, set_res at 1. rewrite bind_modify. cbn [fst snd]. unfold on_db, zoom, bind at 1. cbn [fst snd]. rewrite Hp.
    rewrite (bind_run _ _ _ _ _ (foreach_push_prev l s2 _)). cbn [d_id d_db_id d_db_type d_content d_time d_snapshot d_prev].
    by rewrite Hn', Ht'.
  - exfalso. assert (Hin : fields_of Diff_getFieldTypes [(ObjID_table__, objid_row n Diff_type__ i); (Diff_table__, diff_row n sn c (time_text t))] ∈
        selected (rows s) Diff_getFieldTypes Diff_Own_Id (Equals ObjID_AnID i)); [|by rewrite Hnil in Hin; apply elem_of_nil in Hin].
    apply (selected_two _ _ _ _ _ _ _ Diff_tables). eexists _, _. split_and!; [exact HO|exact HD|done| |done].
    by apply bool_decide_eq_true.
Qed.

Lemma prevs_of_none rs n : (∀ r, r ∈ rs DiffObjID_table__ → column (name DiffObjID_Diff) r ≠ Some (int_text n)) → prevs_of rs n = [].
Proof.
  intros HL. unfold prevs_of. rewrite filter_none; [done|]. apply Forall_forall. intros r _. apply not_true_iff_false.
  intros (r' & Hr'%list_elem_of_In & [He _]%andb_true_iff)%existsb_exists. by apply bool_decide_eq_true, HL in He.
Qed.

(** A diff that is stored for the first time and then read back has its
    contents, its snapshot and its time in whole seconds, and the id of the database to
    store it under again, but none of its predecessors: they are linked before
    the diff has an id, to the diff 0. *)
Theorem new_diff_read_back s d : sound s → has_room s (length (prev_items (d_prev d)) + 1) →
  d_db_id d = 0%Z → no_diff s (d_id d) → (0 ≤ to_time_t ticks (d_time d) < 2 ^ 63)%Z →
  ∃ s1 s2 n, db_store_diff ticks d s = (Ret true, s1) ∧ sound s1 ∧ (0 < n)%Z ∧
    db_get_diff ticks (d_id d) (s1, An_Diff_new not_a_date_time) =
      (Ret true, (s2, MkAnDiff (d_id d) n Diff_type__ (d_content d) (from_time_t ticks (to_time_t ticks (d_time d))) (d_snapshot d) no_prev)).
Proof.
  intros Hs Hroom Hid Hno Ht.
  destruct (store_new_diff_ok s d 0 Hs Hroom Hid Hno) as (s1 & n & Hst & Hs1 & Hn & _ & Has & HL).
  destruct (get_diff_ok s1 _ _ _ _ _ (proj1 Hs1) Hn Ht Has) as (ps & s2 & Hps & _ & _ & _ & Hget).
  exists s1, s2, n. split; [done|split; [done|split; [lia|]]]. rewrite Hget. rewrite prevs_of_none in Hps by done.
  by apply Permutation_nil_r in Hps as ->.
Qed.

(** ** Storing a diff again *)

(** The object made of a diff that was read with the id [n]. *)
Definition read_diff (d : AnDiff P) : Diff :=
  MkDiff (stored_before (d_db_id d) (d_db_type d) (with_anID (d_id d) (df_id Diff_new)))
    (assign (d_snapshot d)) (assign (d_content d)) (assign (to_time_t ticks (d_time d))).

Definition diff_updates (d : AnDiff P) : Updates :=
  [(Diff_table__, [(name Diff_Snapshot, d_snapshot d); (name Diff_Content, d_content d); (name Diff_Time, time_text (to_time_t ticks (d_time d)))]);
   (ObjID_table__, [(name ObjID_Id, int_text (d_db_id d)); (name ObjID_Type, d_db_type d); (name ObjID_AnID, d_id d)])].

Lemma read_diff_updates d : d_db_id d ≠ 0%Z → Diff_addUpdates (read_diff d) [] = diff_updates d.
Proof.
  intros Hn. unfold read_diff, stored_before. rewrite (proj2 (Z.eqb_neq _ _) Hn).
  unfold Diff_addUpdates, ObjID_addUpdates, update. rewrite !updateField_ok, !prepareUpdate_ok. done.
Qed.

Lemma update_diff_ok s d : made s → d_db_id d ≠ 0%Z →
  ∃ d' s', Diff_update (read_diff d) s = (Ret d', s') ∧ columns s' = columns s ∧
    ∀ t, rows s' t = updated (diff_updates d) (d_db_id d) t (rows s t).
Proof.
  intros Hm Hn. destruct (update_ok s (diff_updates d) (d_db_id d)) as (s' & Hr & Hc & Ht).
  { known_table. }
  { repeat apply Forall_cons_2; [| |apply Forall_nil_2]; eexists; split.
    - apply (made_columns s Diff_table__ [Diff_Own_Id; Diff_Snapshot; Diff_Content; Diff_Time] Hm). known_table.
    - repeat apply Forall_cons_2; [..|apply Forall_nil_2]; known_table.
    - apply (made_columns s ObjID_table__ ObjID_getFieldTypes Hm). known_table.
    - repeat apply Forall_cons_2; [..|apply Forall_nil_2]; known_table. }
  eexists _, s'. split; [|by split]. unfold Diff_update.
  assert (Hin : inDatabase (pers (df_id (read_diff d))) = true ∧ value (id (df_id (read_diff d))) = oldKey (pers (df_id (read_diff d))) ∧
    oldKey (pers (df_id (read_diff d))) = d_db_id d).
  { unfold read_diff, stored_before. by rewrite (proj2 (Z.eqb_neq _ _) Hn). }
  destruct Hin as (Hi & He & Hk). rewrite Hi, decide_True, read_diff_updates, Hk by done. by rewrite (bind_run _ _ _ _ _ Hr).
Qed.

(** What the update does to the rows of the diff, and that it does nothing to
    the others. *)
Lemma updated_objid d n rs : d_db_id d = n → d_db_type d = Diff_type__ →
  (∀ r, r ∈ rs → has_id (int_text n) r → r = objid_row n Diff_type__ (d_id d)) → updated (diff_updates d) n ObjID_table__ rs = rs.
Proof.
  intros Hn Hty Hu. unfold diff_updates. cbn [updated]. rewrite decide_False, decide_True by done.
  rewrite <-(map_id rs) at 2. apply map_ext_in. intros r Hr%list_elem_of_In. case_decide as Hid; [|done].
  rewrite (Hu r Hr Hid), Hn, Hty. done.
Qed.

Definition diff_row_of (d : AnDiff P) (n : Z) : Row := diff_row n (d_snapshot d) (d_content d) (time_text (to_time_t ticks (d_time d))).
Lemma updated_diff d n sn c tm rs : (∀ r, r ∈ rs → has_id (int_text n) r → r = diff_row n sn c tm) →
  updated (diff_updates d) n Diff_table__ rs = map (λ r, if decide (has_id (int_text n) r) then diff_row_of d n else r) rs.
Proof.
  intros Hu. unfold diff_updates. cbn [updated]. rewrite decide_True by done.
  apply map_ext_in. intros r Hr%list_elem_of_In. case_decide as Hid; [|done]. by rewrite (Hu r Hr Hid).
Qed.

Lemma updated_same_id d n r : column (lit "id_") (if decide (has_id (int_text n) r) then diff_row_of d n else r) = column (lit "id_") r.
Proof. case_decide as Hid; [by rewrite Hid|done]. Qed.

(** Exactly the rows that were just made for the predecessors are linked. *)
Lemma prevs_of_linked rs old L ks ps n :
  rs ObjID_table__ = old ++ prev_rows ks ps → rs DiffObjID_table__ = L ++ map (link_row n) ks → length ks = length ps →
  (∀ r, r ∈ L → column (name DiffObjID_Diff) r ≠ Some (int_text n)) →
  Forall (λ k, (0 < k < 2 ^ 31)%Z ∧ Some (int_text k) ∉ ids old) ks → prevs_of rs n = ps.
Proof.
  intros HO HL Hlen Hno Hks. unfold prevs_of. rewrite HO, List.filter_app.
  rewrite (filter_none _ old), (filter_all _ (prev_rows ks ps)); simpl.
  - clear HO HL Hks. revert ps Hlen. induction ks as [|k ks IH]; intros [|p ps] Hlen; simplify_eq/=; [done|]. f_equal. by apply IH.
  - apply Forall_forall. intros r (k & p & Hk & _ & ->)%prev_rows_in. apply existsb_exists. exists (link_row n k). split.
    + rewrite HL. apply list_elem_of_In, elem_of_app. right. apply list_elem_of_fmap. by exists k.
    + apply andb_true_iff. split; by apply bool_decide_eq_true.
  - apply Forall_forall. intros r Hr. apply not_true_iff_false. intros (r' & Hr'%list_elem_of_In & [Hl He]%andb_true_iff)%existsb_exists.
    apply bool_decide_eq_true in Hl, He. destruct He as [He _]. rewrite HL in Hr'.
    apply elem_of_app in Hr' as [Hr'|(k & -> & Hk)%list_elem_of_fmap]; [by apply (Hno r')|].
    apply (proj1 (Forall_forall _ _) Hks k Hk). apply elem_of_ids in Hr. by rewrite He in Hr.
Qed.

Lemma store_again_ok s d n sn c tm : sound s → has_room s (length (prev_items (d_prev d))) → (0 < n < 2 ^ 31)%Z →
  stored_as s (d_id d) n sn c tm → (∀ r, r ∈ rows s DiffObjID_table__ → column (name DiffObjID_Diff) r ≠ Some (int_text n)) →
  d_db_id d = n → d_db_type d = Diff_type__ →
  ∃ s', db_store_diff ticks d s = (Ret true, s') ∧ made s' ∧
    stored_as s' (d_id d) n (d_snapshot d) (d_content d) (time_text (to_time_t ticks (d_time d))) ∧ prevs_of (rows s') n = prev_items (d_prev d).
Proof.
  intros Hs Hroom Hn (HO & HD & HuO & HuD & Hu) HL Hid Hty. destruct (begin_ok s) as (s0 & Hb & Hc0 & Hr0 & Hroom0).
  assert (Hm0 : made s0) by (by eapply made_same, Hs).
  destruct (link_prevs_ok (prev_items (d_prev d)) (read_diff d) s0 0 Hm0) as (ks & s1 & H1 & Hc1 & _ & Hlen & Hks & Hr1).
  { rewrite Nat.add_0_r. by apply Hroom0. }
  assert (Hval : value (id (df_id (read_diff d))) = n).
  { unfold read_diff, stored_before. by rewrite (proj2 (Z.eqb_neq _ _)) by lia. }
  rewrite Hval, Hr0 in *.
  destruct (update_diff_ok s1 d) as (d' & s2 & Hup & Hc2 & Hr2); [by eapply made_same|lia|].
  destruct (commit_ok s2) as (s3 & Hcm & Hc3 & Hr3 & _). rewrite Hid in Hr2.
  assert (Hnk : ∀ r, r ∈ prev_rows ks (prev_items (d_prev d)) → column (lit "id_") r ∉ ids (rows s ObjID_table__)).
  { intros r (k & p & Hk & _ & ->)%prev_rows_in. by apply (proj1 (Forall_forall _ _) Hks k Hk). }
  assert (HO1 : rows s1 ObjID_table__ = rows s ObjID_table__ ++ prev_rows ks (prev_items (d_prev d))) by by rewrite Hr1, decide_True.
  assert (HO3 : rows s3 ObjID_table__ = rows s ObjID_table__ ++ prev_rows ks (prev_items (d_prev d))).
  { rewrite Hr3, Hr2, HO1. apply updated_objid; [done|done|]. intros r [Hr|Hr]%elem_of_app Hi; [by apply HuO|].
    destruct (Hnk r Hr). rewrite Hi. by apply (elem_of_ids _ _ HO). }
  assert (HD3 : rows s3 Diff_table__ = map (λ r, if decide (has_id (int_text n) r) then diff_row_of d n else r) (rows s Diff_table__)).
  { rewrite Hr3, Hr2, Hr1, !decide_False, app_nil_r by done. by eapply updated_diff. }
  assert (HL3 : rows s3 DiffObjID_table__ = rows s DiffObjID_table__ ++ map (link_row n) ks).
  { rewrite Hr3, Hr2, Hr1, decide_False, decide_True by done. done. }
  exists s3. split; [|split; [|split]].
  - unfold db_store_diff. apply try_catch_ret. rewrite (bind_run _ _ _ _ _ Hb). unfold _db_store_diff. fold (read_diff d).
    by rewrite bind_assoc, (bind_run _ _ _ _ _ H1), (bind_run _ _ _ _ _ Hup), (bind_run _ _ _ _ _ Hcm).
  - eapply made_same; [|exact Hm0]. congruence.
  - unfold stored_as. rewrite HO3, HD3. split; [|split; [|split; [|split]]].
    + apply elem_of_app. by left.
    + apply list_elem_of_fmap. eexists. split; [|exact HD]. by rewrite decide_True.
    + intros r [Hr|Hr]%elem_of_app Hi; [by apply HuO|]. destruct (Hnk r Hr). rewrite Hi. by apply (elem_of_ids _ _ HO).
    + intros r (r0 & -> & Hr0')%list_elem_of_fmap Hi.
      assert (has_id (int_text n) r0) by (revert Hi; by case_decide). by rewrite decide_True.
    + intros r1 r2 [Hr1'|Hr1']%elem_of_app (r0 & -> & Hr0')%list_elem_of_fmap; rewrite updated_same_id; intros Heq Ha; [by eapply Hu|].
      destruct (Hnk r1 Hr1'). rewrite Heq. by apply Hs.
  - by eapply prevs_of_linked.
Qed.

Lemma seconds_twice t : (0 < ticks)%Z → to_time_t ticks (from_time_t ticks t) = t.
Proof. intros Ht. unfold to_time_t, from_time_t. apply Z.quot_mul. lia. Qed.

(** A diff that was stored and read, stored again as it was read with another
    content and with predecessors, and read again: its row has the new content, it has
    kept its id, and now it has its predecessors, in some order. *)
Theorem stored_again_read_back s d c ps : sound s → has_room s (length (prev_items (d_prev d)) + Datatypes.S (length (prev_items ps))) →
  d_db_id d = 0%Z → no_diff s (d_id d) → (0 ≤ to_time_t ticks (d_time d) < 2 ^ 63)%Z → (0 < ticks)%Z →
  ∃ s1 s2 s3 s4 d1 qs, db_store_diff ticks d s = (Ret true, s1) ∧
    db_get_diff ticks (d_id d) (s1, An_Diff_new not_a_date_time) = (Ret true, (s2, d1)) ∧
    db_store_diff ticks (MkAnDiff (d_id d1) (d_db_id d1) (d_db_type d1) c (d_time d1) (d_snapshot d1) ps) s2 = (Ret true, s3) ∧
    db_get_diff ticks (d_id d) (s3, An_Diff_new not_a_date_time) =
      (Ret true, (s4, MkAnDiff (d_id d) (d_db_id d1) (d_db_type d1) c (d_time d1) (d_snapshot d) qs)) ∧ prev_items qs ≡ₚ prev_items ps.
Proof.
  intros Hs Hroom Hid Hno Ht Hticks.
  destruct (store_new_diff_ok s d (length (prev_items ps)) Hs Hroom Hid Hno) as (s1 & n & Hst & Hs1 & Hn & Hroom1 & Has & HL).
  destruct (get_diff_ok s1 _ _ _ _ _ (proj1 Hs1) Hn Ht Has) as (qs & s2 & Hqs & Hc2 & Hr2 & Hroom2 & Hget).
  set (d2 := MkAnDiff (d_id d) n Diff_type__ c (from_time_t ticks (to_time_t ticks (d_time d))) (d_snapshot d) ps).
  destruct (store_again_ok s2 d2 n (d_snapshot d) (d_content d) (time_text (to_time_t ticks (d_time d)))) as (s3 & Hst3 & Hm3 & Has3 & Hp3); try done.
  { unfold sound, known in *. rewrite Hr2. split; [by eapply made_same, Hs1|apply Hs1]. }
  { by apply Hroom2. }
  { unfold stored_as in *. by rewrite Hr2. }
  { by rewrite Hr2. }
  cbn [d2 d_id d_time d_snapshot d_content] in Has3. rewrite seconds_twice in Has3 by done.
  destruct (get_diff_ok s3 _ _ _ _ _ Hm3 Hn Ht Has3) as (qs' & s4 & Hqs' & _ & _ & _ & Hget3). rewrite Hp3 in Hqs'.
  eexists s1, s2, s3, s4, _, _. split; [done|]. split; [apply Hget|]. split; [|split; [apply Hget3|]].
  - rewrite prevs_of_none in Hqs by done. apply Permutation_nil_r in Hqs as ->. exact Hst3.
  - cbn. by rewrite push_backs_items, items_none.
Qed.

End objects.
(** ** In a database in memory *)
(** A vector of ids. *)
#[export] Instance vector_prev : PrevMember (list bytes) :=
  {| no_prev := []; prev_items p := p; prev_push_back i p := p ++ [i] |}.
#[export] Instance vector_laws : PrevLaws (list bytes).
Proof. by split. Qed.

Definition a_diff : AnDiff (list bytes) := MkAnDiff (lit "d") 0 [] (lit "text") 5000000 (lit "s") [lit "p"; lit "q"].
Definition a_snapshot : AnSnapshot (list bytes) := MkAnSnapshot (lit "s") 0 [] (lit "text") 5000000 [a_diff] (lit "b").
Definition an_object : AnObject (list bytes) := MkAnObject (lit "o") 0 [] [a_snapshot] [].

Lemma made_db_sound : sound made_db.
Proof. split_and!; [apply made_db_made|constructor|by intros r ?%elem_of_nil..]. Qed.
Lemma made_db_no_diff i : no_diff made_db i.
Proof. by intros r1 r2 ?%elem_of_nil. Qed.

(** An object is read back with its snapshots, these without their diffs. *)
Lemma snapshots_lose_diffs :
  let db := snd (db_store_obj 1000000 an_object made_db) in
  map (λ s, (s_id s, s_content s, s_diffs s)) (o_snapshots (snd (snd (db_get_obj 1000000 0 (lit "o") (db, MkAnObject [] 0 [] [] []))))) =
    [(lit "s", lit "text", [])].
Proof. by vm_compute. Qed.

(** The row made for a predecessor answers db_remove for an id that was never
    stored. *)
Definition with_diff : Mem := snd (db_store_diff 1000000 a_diff made_db).
Lemma reference_removed : fst (db_remove (lit "p") with_diff) = Ret true ∧ fst (db_remove (lit "p") made_db) = Ret false.
Proof. by vm_compute. Qed.

Lemma with_diff_known : known with_diff.
Proof.
  assert (rows with_diff ObjID_table__ = [objid_row 1 ObjID_type__ (lit "p"); objid_row 2 ObjID_type__ (lit "q"); objid_row 3 Diff_type__ (lit "d")])
    as Hr by (by vm_compute).
  unfold known. rewrite Hr. apply Forall_cons_2, Forall_cons_2, Forall_cons_2; [..|constructor].
  - exists 1%Z, ObjID_type__, (lit "p"). split; [reflexivity|]. split; [lia|left].
  - exists 2%Z, ObjID_type__, (lit "q"). split; [reflexivity|]. split; [lia|left].
  - exists 3%Z, Diff_type__, (lit "d"). split; [reflexivity|]. split; [lia|by do 3 right; left].
Qed.

(** *** Witnesses *)
Lemma new_diff_read_back_witness : ∃ s1 s2 n, db_store_diff 1000000 a_diff made_db = (Ret true, s1) ∧ sound s1 ∧ (0 < n)%Z ∧
  db_get_diff 1000000 (lit "d") (s1, An_Diff_new 0) =
    (Ret true, (s2, MkAnDiff (lit "d") n Diff_type__ (lit "text") 5000000 (lit "s") [])).
Proof.
  refine (new_diff_read_back 1000000 0 made_db a_diff made_db_sound _ _ _ _); [by apply made_db_room|done|apply made_db_no_diff|done].
Defined.

Lemma stored_again_read_back_witness : ∃ s1 s2 s3 s4 d1 qs, db_store_diff 1000000 a_diff made_db = (Ret true, s1) ∧
  db_get_diff 1000000 (lit "d") (s1, An_Diff_new 0) = (Ret true, (s2, d1)) ∧
  db_store_diff 1000000 (MkAnDiff (d_id d1) (d_db_id d1) (d_db_type d1) (lit "new") (d_time d1) (d_snapshot d1) [lit "p"]) s2 = (Ret true, s3) ∧
  db_get_diff 1000000 (lit "d") (s3, An_Diff_new 0) =
    (Ret true, (s4, MkAnDiff (lit "d") (d_db_id d1) (d_db_type d1) (lit "new") (d_time d1) (lit "s") qs)) ∧ qs ≡ₚ [lit "p"].
Proof.
  refine (stored_again_read_back 1000000 0 made_db a_diff (lit "new") [lit "p"] made_db_sound _ _ _ _ _);
    [by apply made_db_room|done|apply made_db_no_diff|done|done].
Defined.

Lemma db_remove_one_witness : ∃ b s', db_remove (lit "d") with_diff = (Ret b, s') ∧ made s' ∧
  (if b : bool then ∃ n ty, objid_row n ty (lit "d") ∈ rows with_diff ObjID_table__ ∧ ty ∈ types ∧
     ∀ t, rows s' t = List.filter (λ r, negb (gone n (keys_of ty) t r)) (rows with_diff t)
   else (∀ n ty, objid_row n ty (lit "d") ∉ rows with_diff ObjID_table__) ∧ rows s' = rows with_diff).
Proof. apply (db_remove_one with_diff (lit "d")); [apply (bool_decide_unpack _); by vm_compute|apply with_diff_known]. Defined.

End SqlObjects.
